(** * repo-map: tag extraction, symbol resolution and graph assembly

    A shallow embedding of the graph-construction pipeline of repo-map
    (code-parser, the in-memory graph builder and the Neo4j graph builder)
    together with the properties its specification states about it. *)

From Stdlib Require Import ZArith String Ascii List Lia Bool DecimalString.
From stdpp Require Import base option list gmap strings.

Local Open Scope string_scope.

(* ===================================================================== *)
(** ** MD5, the digest behind [generateNodeId]                            *)
(* ===================================================================== *)

Module MD5.
Local Open Scope Z_scope.

Definition mask32 : Z := 4294967295.
Definition wrap32 (x : Z) : Z := Z.land x mask32.
Definition add32 (x y : Z) : Z := wrap32 (x + y).
Definition not32 (x : Z) : Z := Z.lxor x mask32.
Definition rotl32 (x : Z) (c : Z) : Z :=
  Z.lor (wrap32 (Z.shiftl x c)) (Z.shiftr x (32 - c)).

(** Per-round shift amounts. *)
Definition shifts : list Z :=
  [7; 12; 17; 22; 7; 12; 17; 22; 7; 12; 17; 22; 7; 12; 17; 22;
   5; 9; 14; 20; 5; 9; 14; 20; 5; 9; 14; 20; 5; 9; 14; 20;
   4; 11; 16; 23; 4; 11; 16; 23; 4; 11; 16; 23; 4; 11; 16; 23;
   6; 10; 15; 21; 6; 10; 15; 21; 6; 10; 15; 21; 6; 10; 15; 21].

(** floor(2^32 * |sin(i + 1)|), i = 0..63. *)
Definition sines : list Z :=
  [3614090360; 3905402710; 606105819; 3250441966;
   4118548399; 1200080426; 2821735955; 4249261313;
   1770035416; 2336552879; 4294925233; 2304563134;
   1804603682; 4254626195; 2792965006; 1236535329;
   4129170786; 3225465664; 643717713; 3921069994;
   3593408605; 38016083; 3634488961; 3889429448;
   568446438; 3275163606; 4107603335; 1163531501;
   2850285829; 4243563512; 1735328473; 2368359562;
   4294588738; 2272392833; 1839030562; 4259657740;
   2763975236; 1272893353; 4139469664; 3200236656;
   681279174; 3936430074; 3572445317; 76029189;
   3654602809; 3873151461; 530742520; 3299628645;
   4096336452; 1126891415; 2878612391; 4237533241;
   1700485571; 2399980690; 4293915773; 2240044497;
   1873313359; 4264355552; 2734768916; 1309151649;
   4149444226; 3174756917; 718787259; 3951481745].

Definition nthZ (l : list Z) (i : nat) : Z := nth i l 0.

(** The message as bytes, padded to a multiple of 64 bytes. *)
Definition bytes_of_string (s : string) : list Z :=
  map (fun c => Z.of_N (N_of_ascii c)) (list_ascii_of_string s).

Fixpoint le_bytes (n : nat) (x : Z) : list Z :=
  match n with
  | O => []
  | S n' => Z.land x 255 :: le_bytes n' (Z.shiftr x 8)
  end.

Definition pad (msg : list Z) : list Z :=
  let len := Z.of_nat (length msg) in
  let zeros := Z.to_nat ((55 - len) mod 64) in
  msg ++ [128] ++ repeat 0 zeros ++ le_bytes 8 (8 * len).

Fixpoint words (fuel : nat) (bs : list Z) : list Z :=
  match fuel, bs with
  | S f, b0 :: b1 :: b2 :: b3 :: rest =>
      (b0 + Z.shiftl b1 8 + Z.shiftl b2 16 + Z.shiftl b3 24) :: words f rest
  | _, _ => []
  end.

Definition step (m : list Z) (st : Z * Z * Z * Z) (i : nat) : Z * Z * Z * Z :=
  let '(a, b, c, d) := st in
  let '(f, g) :=
    if (i <? 16)%nat then (Z.lor (Z.land b c) (Z.land (not32 b) d), i)
    else if (i <? 32)%nat then
      (Z.lor (Z.land d b) (Z.land (not32 d) c), ((5 * i + 1) mod 16)%nat)
    else if (i <? 48)%nat then
      (Z.lxor (Z.lxor b c) d, ((3 * i + 5) mod 16)%nat)
    else (Z.lxor c (Z.lor b (not32 d)), ((7 * i) mod 16)%nat) in
  let f' := add32 (add32 (add32 f a) (nthZ sines i)) (nthZ m g) in
  (d, add32 b (rotl32 f' (nthZ shifts i)), b, c).

Definition chunk (st : Z * Z * Z * Z) (m : list Z) : Z * Z * Z * Z :=
  let '(a0, b0, c0, d0) := st in
  let '(a, b, c, d) := fold_left (step m) (seq 0 64) st in
  (add32 a0 a, add32 b0 b, add32 c0 c, add32 d0 d).

Fixpoint chunks (fuel : nat) (ws : list Z) (st : Z * Z * Z * Z) : Z * Z * Z * Z :=
  match fuel, ws with
  | S f, _ :: _ => chunks f (skipn 16 ws) (chunk st (firstn 16 ws))
  | _, _ => st
  end.

Definition hex_digit (x : Z) : ascii :=
  nth (Z.to_nat x) (list_ascii_of_string "0123456789abcdef") "0"%char.

Definition hex_byte (x : Z) : string :=
  String (hex_digit (Z.shiftr x 4)) (String (hex_digit (Z.land x 15)) EmptyString).

Definition hex_word (x : Z) : string :=
  String.concat "" (map hex_byte (le_bytes 4 x)).

(** [crypto.createHash('md5').update(s).digest('hex')] *)
Definition md5_hex (s : string) : string :=
  let bs := pad (bytes_of_string s) in
  let ws := words (length bs) bs in
  let '(a, b, c, d) :=
    chunks (length ws) ws (1732584193, 4023233417, 2562383102, 271733878) in
  hex_word a ++ hex_word b ++ hex_word c ++ hex_word d.

End MD5.

(* ===================================================================== *)
(** ** Strings and paths                                                  *)
(* ===================================================================== *)

(** JavaScript truthiness of a string: only the empty string is falsy. *)
Definition truthy (s : string) : bool :=
  match s with EmptyString => false | String _ _ => true end.

(** [`${n}`] for a non-negative integer. *)
Definition showNat (n : nat) : string := NilEmpty.string_of_uint (Nat.to_uint n).

Definition isSlash (c : ascii) : bool := Ascii.eqb c "/"%char.

(** [s.includes('#')] *)
Fixpoint includesHash (s : string) : bool :=
  match s with
  | EmptyString => false
  | String c r => if Ascii.eqb c "#"%char then true else includesHash r
  end.

(** [s.split('#')[0]] *)
Fixpoint beforeHash (s : string) : string :=
  match s with
  | EmptyString => EmptyString
  | String c r => if Ascii.eqb c "#"%char then EmptyString else String c (beforeHash r)
  end.

(** [s.startsWith('.')] *)
Definition startsWithDot (s : string) : bool :=
  match s with String c _ => Ascii.eqb c "."%char | EmptyString => false end.

Definition lowerChar (c : ascii) : ascii :=
  let n := nat_of_ascii c in
  if (65 <=? n)%nat && (n <=? 90)%nat then ascii_of_nat (n + 32) else c.

(** [s.toLowerCase()] on the letters A to Z, which is all it does to the
    extensions compared below; other characters are left as they are. *)
Fixpoint toLowerCase (s : string) : string :=
  match s with
  | EmptyString => EmptyString
  | String c r => String (lowerChar c) (toLowerCase r)
  end.

Fixpoint lastChar (s : string) : option ascii :=
  match s with
  | EmptyString => None
  | String c EmptyString => Some c
  | String _ r => lastChar r
  end.

Module Path.

(** The backward loop of POSIX [path.dirname]: [i] runs from the last index
    down to 1 and stops at the first slash that follows a non-slash. *)
Fixpoint dirnameScan (revTail : list ascii) (i : nat) (matchedSlash : bool) : option nat :=
  match revTail with
  | [] => None
  | c :: r =>
      if isSlash c
      then (if matchedSlash then dirnameScan r (pred i) true else Some i)
      else dirnameScan r (pred i) false
  end.

Definition dirname (p : string) : string :=
  match list_ascii_of_string p with
  | [] => "."
  | c0 :: tl =>
      let hasRoot := isSlash c0 in
      match dirnameScan (rev tl) (length tl) true with
      | None => if hasRoot then "/" else "."
      | Some e =>
          if hasRoot && Nat.eqb e 1 then "//"
          else string_of_list_ascii (firstn e (c0 :: tl))
      end
  end.

(** POSIX [path.basename] without a suffix: trailing slashes are dropped and
    the part after the last remaining slash is returned. *)
Fixpoint dropSlashes (cs : list ascii) : list ascii :=
  match cs with
  | c :: r => if isSlash c then dropSlashes r else cs
  | [] => []
  end.

Fixpoint takeName (cs : list ascii) : list ascii :=
  match cs with
  | c :: r => if isSlash c then [] else c :: takeName r
  | [] => []
  end.

Definition basename (p : string) : string :=
  string_of_list_ascii (rev (takeName (dropSlashes (rev (list_ascii_of_string p))))).

(** Position of the last dot of a name, if any. *)
Fixpoint lastDot (cs : list ascii) (i : nat) (found : option nat) : option nat :=
  match cs with
  | [] => found
  | c :: r => lastDot r (S i) (if Ascii.eqb c "."%char then Some i else found)
  end.

(** [path.extname] of a file name: from the last dot on, unless that dot
    opens the name or the name is [..]. *)
Definition extname (p : string) : string :=
  let b := basename p in
  if String.eqb b ".." then ""
  else match lastDot (list_ascii_of_string b) 0 None with
       | None | Some 0 => ""
       | Some d => string_of_list_ascii (skipn d (list_ascii_of_string b))
       end.

(** Paths below the repository root are kept as the list of entry names
    leading to them.  [rel] is what [path.relative(repoPath, p)] returns for
    such a path and [abs] is what [path.join] builds for it from a
    normalised [repoPath]. *)
Definition rel (segs : list string) : string := String.concat "/" segs.

Definition abs (repoPath : string) (segs : list string) : string :=
  match segs with
  | [] => repoPath
  | _ => repoPath ++ "/" ++ rel segs
  end.

End Path.

(* ===================================================================== *)
(** ** Data model (types/index.ts)                                        *)
(* ===================================================================== *)

Inductive TagKind := def | ref.

Record TagLocation := { locFilePath : string; locStartLine : nat }.

(** [parent.name] is typed [any]: the extractor stores [currentClass] in it,
    which is a string or [null]. *)
Record TagParent := {
  parentName : option string;
  parentType : string;
  location : TagLocation
}.

Record Tag := {
  name : string;
  type : string;
  kind : TagKind;
  filePath : string;
  targetFile : option string;
  startLine : nat;
  endLine : nat;
  text : option string;
  parent : option TagParent
}.

(** The two timestamps of a node are wall-clock and [stat] readings; they
    take no part in identity or in any edge and are left out. *)
Record GraphNodeData := {
  nodeId : string;
  nodeRepoId : string;
  nodeName : string;
  nodeType : string;
  nodeFilePath : string;
  nodeStartLine : nat;
  nodeEndLine : nat;
  nodeText : option string;
  isDirectory : option bool;
  isReference : option bool
}.

Record GraphEdgeData := {
  sourceId : string;
  targetId : string;
  edgeType : string;
  edgeRepoId : string
}.

#[global] Instance TagKind_eq_dec : EqDecision TagKind.
Proof. solve_decision. Defined.
#[global] Instance GraphEdgeData_eq_dec : EqDecision GraphEdgeData.
Proof. solve_decision. Defined.

(** utils.ts.  [md5] stands for
    [s => crypto.createHash('md5').update(s).digest('hex')]; concrete runs
    below pass [MD5.md5_hex] for it. *)
Definition generateNodeId (md5 : string -> string) (repoId nodePath : string) : string :=
  md5 (repoId ++ ":" ++ nodePath).

(* ===================================================================== *)
(** ** Syntax trees handed over by the parser                             *)
(* ===================================================================== *)

(** [node.loc]: start and end line, when the parser recorded them. *)
Definition Loc := option (nat * nat).

Definition startOf (l : Loc) : nat := match l with Some (s, _) => s | None => 0 end.
Definition endOf (l : Loc) : nat := match l with Some (_, e) => e | None => 0 end.

Inductive ImportSpec :=
| ImportSpecifier (local imported : string)
| ImportDefaultSpecifier (local : string)
| ImportNamespaceSpecifier (local : string).

(** The node kinds the extractor tells apart; every other kind is [Other]
    with its children in visiting order. *)
#[warnings="-register-all"] Inductive Node :=
| Identifier (idName : string)
| StringLiteral (value : string)
| MemberExpression (object property : Node)
| CallExpression (loc : Loc) (callee : Node) (arguments : list Node)
| NewExpression (loc : Loc) (callee : Node) (arguments : list Node)
| ThrowStatement (argument : Node)
| ImportDeclaration (source : string) (specifiers : list ImportSpec)
| ClassDeclaration (loc : Loc) (id : option string) (body : list Node)
| FunctionDeclaration (loc : Loc) (id : option string) (body : list Node)
| ClassMethod (loc : Loc) (static : bool) (key : Node) (body : list Node)
| ClassPrivateMethod (loc : Loc) (keyName : string) (body : list Node)
| Other (children : list Node).

(* ===================================================================== *)
(** ** code-parser: module-level tables and [parseFile]                   *)
(* ===================================================================== *)

Record DefinedSymbol := { symFile : string; symLine : nat }.

(** The [const] maps at the top of the parser module.  They live as long as
    the process, across calls of [parseFile] and of [buildGraph]. *)
Record ModuleState := {
  DEFINED_SYMBOLS : gmap string DefinedSymbol;
  EXPORT_MAP : gmap string (gset string);
  FILE_REFERENCES : gmap string string;
  IMPORT_RESOLVER : gmap string string
}.

Definition freshModule : ModuleState :=
  {| DEFINED_SYMBOLS := ∅; EXPORT_MAP := ∅; FILE_REFERENCES := ∅; IMPORT_RESOLVER := ∅ |}.

(** What one traversal mutates: [currentClass], [tags] and the module. *)
Record Walk := {
  currentClass : option string;
  tags : list Tag;
  modul : ModuleState
}.

Definition has {V} (m : gmap string V) (k : string) : bool := bool_decide (is_Some (m !! k)).

Definition classTruthy (c : option string) : bool :=
  match c with Some s => truthy s | None => false end.

(** [`${currentClass}`] *)
Definition showClass (c : option string) : string :=
  match c with Some s => s | None => "null" end.

Section Parser.

(** The union of the [globals] package's browser, node and es2021 tables;
    the package is not part of the repository. *)
Variable allGlobals : gset string.

Definition isGlobal (n : string) : bool := bool_decide (n ∈ allGlobals).

Definition shouldIgnoreFunctionCall (node : Node) : bool :=
  match node with
  | ThrowStatement (NewExpression _ (Identifier "Error") _) => true
  | NewExpression _ (Identifier "Error") _ => true
  | CallExpression _ (MemberExpression (Identifier o) (Identifier p)) _ =>
      isGlobal o || isGlobal p
  | CallExpression _ (Identifier n) _ => isGlobal n
  | _ => false
  end.

Definition getFunctionName (node : Node) : string :=
  match node with
  | Identifier n => n
  | MemberExpression _ (Identifier p) => p
  | MemberExpression _ _ => ""
  | CallExpression _ callee _ =>
      if shouldIgnoreFunctionCall node then ""
      else match callee with
           | Identifier n => n
           | MemberExpression _ (Identifier p) => p
           | _ => ""
           end
  | _ => ""
  end.

Definition getObjectName (node : Node) : string :=
  match node with
  | Identifier n => n
  | MemberExpression (Identifier o) _ => o
  | _ => ""
  end.

Definition getCurrentFunctionName (currentClass : option string) : string :=
  match currentClass with
  | Some c => if truthy c then c else "global"
  | None => "global"
  end.

Definition pushTag (t : Tag) (w : Walk) : Walk :=
  {| currentClass := currentClass w; tags := tags w ++ [t]; modul := modul w |}.

Definition setCurrentClass (c : option string) (w : Walk) : Walk :=
  {| currentClass := c; tags := tags w; modul := modul w |}.

Definition setImportResolver (k v : string) (w : Walk) : Walk :=
  let m := modul w in
  {| currentClass := currentClass w; tags := tags w;
     modul := {| DEFINED_SYMBOLS := DEFINED_SYMBOLS m; EXPORT_MAP := EXPORT_MAP m;
                 FILE_REFERENCES := FILE_REFERENCES m;
                 IMPORT_RESOLVER := <[k := v]> (IMPORT_RESOLVER m) |} |}.

Definition setFileReference (k v : string) (w : Walk) : Walk :=
  let m := modul w in
  {| currentClass := currentClass w; tags := tags w;
     modul := {| DEFINED_SYMBOLS := DEFINED_SYMBOLS m; EXPORT_MAP := EXPORT_MAP m;
                 FILE_REFERENCES := <[k := v]> (FILE_REFERENCES m);
                 IMPORT_RESOLVER := IMPORT_RESOLVER m |} |}.

Definition specLocal (spec : ImportSpec) : string :=
  match spec with
  | ImportSpecifier l _ | ImportDefaultSpecifier l | ImportNamespaceSpecifier l => l
  end.

Definition specExported (spec : ImportSpec) : string :=
  match spec with
  | ImportSpecifier _ i => i
  | _ => "default"
  end.

(** One iteration of [node.specifiers.forEach]. *)
Definition trackImport (sourceFile : string) (w : Walk) (spec : ImportSpec) : Walk :=
  match EXPORT_MAP (modul w) !! sourceFile with
  | Some exported =>
      if bool_decide (specExported spec ∈ exported)
      then setImportResolver (specLocal spec) (sourceFile ++ "#" ++ specExported spec) w
      else w
  | None => w
  end.

Definition plainTag (n t : string) (k : TagKind) (relPath : string) (l : Loc)
    (target : option string) (p : option TagParent) : Tag :=
  {| name := n; type := t; kind := k; filePath := relPath; targetFile := target;
     startLine := startOf l; endLine := endOf l; text := None; parent := p |}.

Definition classParent (relPath : string) (l : Loc) (c : option string) : TagParent :=
  {| parentName := c; parentType := "class";
     location := {| locFilePath := relPath; locStartLine := startOf l |} |}.

(** The "Handle import resolution" part of the call-expression branch. *)
Definition resolveCall (relPath : string) (l : Loc) (callee : Node) (w : Walk) : Walk :=
  let m := modul w in
  match callee with
  | Identifier cname =>
      let resolvedName :=
        match IMPORT_RESOLVER m !! cname with
        | Some v => if truthy v then v else cname
        | None => cname
        end in
      if has (DEFINED_SYMBOLS m) resolvedName || includesHash resolvedName then
        let target :=
          if includesHash resolvedName then Some (beforeHash resolvedName)
          else symFile <$> DEFINED_SYMBOLS m !! resolvedName in
        match target with
        | Some tf =>
            if truthy tf && negb (has (FILE_REFERENCES m) (relPath ++ ":" ++ tf)) then
              pushTag (plainTag cname "functionCall" ref relPath l (Some tf) None)
                (setFileReference (relPath ++ ":" ++ tf) tf w)
            else w
        | None => w
        end
      else w
  | MemberExpression obj prop =>
      let objectName := getObjectName obj in
      if has (DEFINED_SYMBOLS m) objectName then
        let methodName := match prop with Identifier p => p | _ => "[computed]" end in
        match symFile <$> DEFINED_SYMBOLS m !! objectName with
        | Some tf =>
            let refKey := relPath ++ ":" ++ tf ++ ":" ++ objectName ++ "." ++ methodName in
            if truthy tf && negb (has (FILE_REFERENCES m) refKey) then
              pushTag (plainTag (objectName ++ "." ++ methodName) "methodCall" ref relPath l
                         (Some tf) None)
                (setFileReference refKey tf w)
            else w
        | None => w
        end
      else w
  | _ => w
  end.

(** The [enter] visitor. *)
Definition enter (relPath : string) (node : Node) (w : Walk) : Walk :=
  match node with
  | ImportDeclaration sourceFile specifiers =>
      fold_left (trackImport sourceFile) specifiers w
  | ClassDeclaration l (Some n) _ =>
      pushTag (plainTag n "class" def relPath l None None) (setCurrentClass (Some n) w)
  | FunctionDeclaration l (Some n) _ =>
      if truthy n then pushTag (plainTag n "function" def relPath l None None) w else w
  | ClassMethod l isStatic key _ =>
      let methodName :=
        match key with
        | Identifier n => n
        | StringLiteral v => v
        | _ => "[computed]"
        end in
      let cc := currentClass w in
      pushTag (plainTag (if isStatic then showClass cc ++ "." ++ methodName else methodName)
                 (if isStatic then "staticMethod" else "method") def relPath l None
                 (Some (classParent relPath l cc))) w
  | ClassPrivateMethod l keyName _ =>
      pushTag (plainTag ("#" ++ keyName) "privateMethod" def relPath l None
                 (Some (classParent relPath l (currentClass w)))) w
  | CallExpression l callee _ =>
      let functionName := getFunctionName node in
      if shouldIgnoreFunctionCall node then w
      else
        let cc := currentClass w in
        let scope :=
          {| parentName :=
               Some (if classTruthy cc
                     then showClass cc ++ "." ++ getCurrentFunctionName cc
                     else getCurrentFunctionName cc);
             parentType := if classTruthy cc then "method" else "function";
             location := {| locFilePath := relPath; locStartLine := startOf l |} |} in
        resolveCall relPath l callee
          (pushTag (plainTag functionName "functionCall" ref relPath l None (Some scope)) w)
  | NewExpression l (Identifier n) _ =>
      if shouldIgnoreFunctionCall node then w
      else pushTag (plainTag n "constructorCall" ref relPath l None None) w
  | _ => w
  end.

(** The [exit] visitor. *)
Definition exit (node : Node) (w : Walk) : Walk :=
  match node with
  | ClassDeclaration _ _ _ => setCurrentClass None w
  | _ => w
  end.

(** [traverse]: enter the node, walk its children in order, exit it. *)
Fixpoint traverse (relPath : string) (node : Node) (w : Walk) : Walk :=
  let all := fix all (ns : list Node) (w : Walk) : Walk :=
    match ns with
    | [] => w
    | n :: rest => all rest (traverse relPath n w)
    end in
  let w1 := enter relPath node w in
  let w2 :=
    match node with
    | Identifier _ | StringLiteral _ | ImportDeclaration _ _ => w1
    | MemberExpression o p => traverse relPath p (traverse relPath o w1)
    | CallExpression _ c args | NewExpression _ c args => all args (traverse relPath c w1)
    | ThrowStatement a => traverse relPath a w1
    | ClassDeclaration _ _ b | FunctionDeclaration _ _ b | ClassPrivateMethod _ _ b
    | Other b => all b w1
    | ClassMethod _ _ k b => all b (traverse relPath k w1)
    end in
  exit node w2.

Definition traverseAll (relPath : string) (ns : list Node) (w : Walk) : Walk :=
  fold_left (fun w n => traverse relPath n w) ns w.

(** What the file system and [@babel/parser] give for one file. *)
Inductive FileContent :=
| Unreadable
| SyntaxError
| Parsed (program : list Node).

(** How the promise returned by [parseFile] ends up. *)
Inductive Settled :=
| Resolved (ts : list Tag)
| Rejected
| NeverSettles.

Definition supportedExtension (filePath : string) : bool :=
  bool_decide (toLowerCase (Path.extname filePath) ∈ [".js"; ".ts"; ".tsx"; ".jsx"]).

Definition parseFile (m : ModuleState) (filePath relPath : string) (content : FileContent)
    : Settled * ModuleState :=
  match content with
  | Unreadable => (Rejected, m)
  | SyntaxError => if supportedExtension filePath then (Rejected, m) else (NeverSettles, m)
  | Parsed program =>
      if supportedExtension filePath then
        let w := traverseAll relPath program
                   {| currentClass := None; tags := []; modul := m |} in
        (Resolved (tags w), modul w)
      else (NeverSettles, m)
  end.

End Parser.

(* ===================================================================== *)
(** ** The file system and the caller's inputs                            *)
(* ===================================================================== *)

(** A directory entry as [statSync] and [readdirSync] show it.  [FsBroken]
    is an entry whose [statSync] throws (a dangling link); a directory that
    is not [listable] makes [readdirSync] throw. *)
#[warnings="-register-all"] Inductive FsEntry :=
| FsFile (entryName : string) (size : nat) (content : FileContent)
| FsDir (entryName : string) (listable : bool) (entries : list FsEntry)
| FsOther (entryName : string)
| FsBroken (entryName : string).

Definition entryNameOf (e : FsEntry) : string :=
  match e with
  | FsFile n _ _ | FsDir n _ _ | FsOther n | FsBroken n => n
  end.

(** The size [statSync] reports for a directory, that of its table of
    entries (4096 on ext4); what matters below is that it is not zero. *)
Definition directorySize : nat := 4096.

(** [statSync] followed by [readFileSync] for a path of the file list: the
    size and content of the regular file it names; for a directory, the
    repository directory itself included, its size and no content, since
    [readFileSync] throws on it; nothing when [statSync] throws. *)
Fixpoint fsLookup (es : list FsEntry) (segs : list string) : option (nat * FileContent) :=
  match segs with
  | [] => Some (directorySize, Unreadable)
  | s :: rest =>
      (fix find (es : list FsEntry) : option (nat * FileContent) :=
         match es with
         | [] => None
         | FsFile n sz c :: more =>
             if String.eqb n s
             then match rest with [] => Some (sz, c) | _ => None end
             else find more
         | FsDir n _ sub :: more =>
             if String.eqb n s then fsLookup sub rest else find more
         | _ :: more => find more
         end) es
  end.

Record RepoInfo := { repoId : string; localPath : string }.

(** Either the awaited work finished, or an exception left the function, or
    an awaited promise never settled. *)
Inductive Outcome (A : Type) :=
| Completed (a : A)
| Threw
| Hangs.
Arguments Completed {A} a.
Arguments Threw {A}.
Arguments Hangs {A}.

(* ===================================================================== *)
(** ** Graph builder storing into Neo4j                                   *)
(* ===================================================================== *)

Module Neo4jBuilder.

Record GraphData := {
  nodes : gmap string GraphNodeData;
  edges : list GraphEdgeData
}.

Definition setNode (n : GraphNodeData) (g : GraphData) : GraphData :=
  {| nodes := <[nodeId n := n]> (nodes g); edges := edges g |}.

Definition pushEdge (e : GraphEdgeData) (g : GraphData) : GraphData :=
  {| nodes := nodes g; edges := edges g ++ [e] |}.

Definition sameEdge (s t ty r : string) (e : GraphEdgeData) : bool :=
  String.eqb (sourceId e) s && String.eqb (targetId e) t
  && String.eqb (edgeType e) ty && String.eqb (edgeRepoId e) r.

(** Every edge of this module is pushed with its [repoId], so the
    [edge.repoId === undefined] alternative never decides. *)
Definition edgeExists (es : list GraphEdgeData) (s t ty r : string) : bool :=
  List.existsb (sameEdge s t ty r) es.

Definition mkEdge (s t ty r : string) : GraphEdgeData :=
  {| sourceId := s; targetId := t; edgeType := ty; edgeRepoId := r |}.

Definition addUniqueEdge (es : list GraphEdgeData) (s t ty r : string)
    : list GraphEdgeData * bool :=
  if List.existsb (sameEdge s t ty r) es then (es, false)
  else if String.eqb ty "CONTAINS" && List.existsb (sameEdge t s ty r) es then (es, false)
  else ((es ++ [mkEdge s t ty r])%list, true).

Definition connect (s t ty r : string) (g : GraphData) : GraphData :=
  {| nodes := nodes g; edges := fst (addUniqueEdge (edges g) s t ty r) |}.

Definition folderNode (r nid nm folderPath : string) : GraphNodeData :=
  {| nodeId := nid; nodeRepoId := r; nodeName := nm; nodeType := "FOLDER";
     nodeFilePath := folderPath; nodeStartLine := 0; nodeEndLine := 0;
     nodeText := None; isDirectory := Some true; isReference := None |}.

Section Builder.

Variable md5 : string -> string.

Definition rootId (r : string) : string := generateNodeId md5 r "repo:root".
Definition folderId (r folderPath : string) : string :=
  generateNodeId md5 r ("folder:" ++ folderPath).
Definition fileId (r relativePath : string) : string :=
  generateNodeId md5 r ("file:" ++ relativePath).

(** [ensureFolderNode].  The recursion follows [path.dirname]; [fuel] bounds
    its depth and running out of it stands for a call that never returns. *)
Fixpoint ensureFolderNodeFrom (fuel : nat) (graph : GraphData)
    (r folderPath repoPath : string) : option (string * GraphData) :=
  match fuel with
  | O => None
  | S fuel' =>
      if String.eqb folderPath "." then Some (rootId r, graph)
      else
        let nid := folderId r folderPath in
        if has (nodes graph) nid then Some (nid, graph)
        else
          let g1 := setNode (folderNode r nid (Path.basename folderPath) folderPath) graph in
          let parentPath := Path.dirname folderPath in
          match ensureFolderNodeFrom fuel' g1 r
                  (if String.eqb parentPath "." then "." else parentPath) repoPath with
          | None => None
          | Some (parentId, g2) =>
              let g3 := connect parentId nid "CONTAINS" r g2 in
              let g4 :=
                if negb (has (nodes g3) nid) then
                  let b := Path.basename folderPath in
                  setNode (folderNode r nid (if truthy b then b else Path.basename repoPath)
                             folderPath) g3
                else g3 in
              Some (nid, g4)
          end
  end.

Definition ensureFolderNode (graph : GraphData) (r folderPath repoPath : string)
    : option (string * GraphData) :=
  ensureFolderNodeFrom (S (S (String.length folderPath))) graph r folderPath repoPath.

(** The read-only view handed to the persistence layer. *)
Record Neo4jGraph := {
  viewNodes : gmap string GraphNodeData;
  viewEdges : list GraphEdgeData
}.

(** [Array.from(nodes.values())]: every node once.  The order here is
    that of the keys, not that of insertion as in a [Map]. *)
Definition getNodes (g : Neo4jGraph) : list GraphNodeData := (map_to_list (viewNodes g)).*2.
Definition getEdges (g : Neo4jGraph) : list GraphEdgeData := viewEdges g.
Definition numberOfNodes (g : Neo4jGraph) : nat := size (viewNodes g).
Definition numberOfEdges (g : Neo4jGraph) : nat := length (viewEdges g).

(** A method call on the view: the object afterwards and either the value
    returned or the message of the [Error] thrown. *)
Definition addNode (g : Neo4jGraph) (nid : string) (data : GraphNodeData)
    : Neo4jGraph * (unit + string) :=
  (g, inr "Cannot add nodes to Neo4jGraph - it is read-only").

Definition addEdge (g : Neo4jGraph) (s t : string) (data : GraphEdgeData)
    : Neo4jGraph * (unit + string) :=
  (g, inr "Cannot add edges to Neo4jGraph - it is read-only").

(** Everything [buildGraph] and its helpers mutate. *)
Record Build := {
  graph : GraphData;
  definitions : gmap string Tag;
  references : list Tag;
  modst : ModuleState
}.

Definition withGraph (g : GraphData) (b : Build) : Build :=
  {| graph := g; definitions := definitions b; references := references b; modst := modst b |}.

Definition withModule (m : ModuleState) (b : Build) : Build :=
  {| graph := graph b; definitions := definitions b; references := references b; modst := m |}.

Definition definitionNode (r nid relativePath : string) (t : Tag) : GraphNodeData :=
  {| nodeId := nid; nodeRepoId := r; nodeName := name t; nodeType := type t;
     nodeFilePath := relativePath; nodeStartLine := startLine t; nodeEndLine := endLine t;
     nodeText := text t; isDirectory := None; isReference := None |}.

Definition definitionId (r filePath : string) (t : Tag) : string :=
  generateNodeId md5 r (filePath ++ ":" ++ name t ++ ":" ++ showNat (startLine t)).

Definition definitionKey (t : Tag) : string := name t ++ ":" ++ type t.

(** The body of [for (const tag of tags)], the same in [processFile] and
    in the loop over the file list. *)
Definition absorbTag (r filePath relativePath fileNodeId : string) (b : Build) (t : Tag)
    : Build :=
  match kind t with
  | def =>
      let nid := definitionId r filePath t in
      let g1 := setNode (definitionNode r nid relativePath t) (graph b) in
      let g2 :=
        if negb (edgeExists (edges g1) fileNodeId nid "CONTAINS" r)
        then pushEdge (mkEdge fileNodeId nid "CONTAINS" r) g1
        else g1 in
      {| graph := g2; definitions := <[definitionKey t := t]> (definitions b);
         references := references b; modst := modst b |}
  | ref =>
      {| graph := graph b; definitions := definitions b;
         references := references b ++ [t]; modst := modst b |}
  end.

Definition fileNode (r nid nm relativePath : string) : GraphNodeData :=
  {| nodeId := nid; nodeRepoId := r; nodeName := nm; nodeType := "FILE";
     nodeFilePath := relativePath; nodeStartLine := 0; nodeEndLine := 0;
     nodeText := None; isDirectory := Some false; isReference := None |}.

Definition lastSeg (repoPath : string) (segs : list string) : string :=
  match reverse segs with
  | s :: _ => s
  | [] => Path.basename repoPath
  end.

Variable allGlobals : gset string.
Variable repoInfo : RepoInfo.

Let r := repoId repoInfo.
Let repoPath := localPath repoInfo.

(** [processFile]: [None] when the awaited [parseFile] never settles. *)
Definition processFile (segs : list string) (content : FileContent)
    (parentNodeId : string) (b : Build) : option Build :=
  let filePath := Path.abs repoPath segs in
  let relativePath := Path.rel segs in
  let fileNodeId := fileId r relativePath in
  let g1 :=
    if negb (has (nodes (graph b)) fileNodeId) then
      connect parentNodeId fileNodeId "CONTAINS" r
        (setNode (fileNode r fileNodeId (lastSeg repoPath segs) relativePath) (graph b))
    else graph b in
  let b1 := withGraph g1 b in
  match parseFile allGlobals (modst b1) filePath relativePath content with
  | (Resolved ts, m) =>
      Some (fold_left (absorbTag r filePath relativePath fileNodeId) ts (withModule m b1))
  | (Rejected, m) => Some (withModule m b1)
  | (NeverSettles, m) => None
  end.

(** How one step of the loop over a directory's entries ends: it goes on,
    or an exception reaches the [catch] of [processDirectory], or it waits
    forever. *)
Inductive Step :=
| Next (b : Build)
| Caught (b : Build)
| Stuck.

Definition directoryNode (nid nm relativePath : string) : GraphNodeData :=
  {| nodeId := nid; nodeRepoId := r; nodeName := nm;
     nodeType := if String.eqb relativePath "." then "REPOSITORY" else "FOLDER";
     nodeFilePath := relativePath; nodeStartLine := 0; nodeEndLine := 0;
     nodeText := None; isDirectory := Some true; isReference := None |}.

Definition relativeDir (segs : list string) : string :=
  let p := Path.rel segs in if truthy p then p else ".".

(** The first half of [processDirectory]: the directory's own node and the
    edge from its parent. *)
Definition openDirectory (segs : list string) (parentNodeId : string) (b : Build) : Build :=
  let relativePath := relativeDir segs in
  let dirNodeId := folderId r relativePath in
  if negb (has (nodes (graph b)) dirNodeId) then
    let g1 := setNode (directoryNode dirNodeId
                         (if String.eqb relativePath "." then Path.basename repoPath
                          else lastSeg repoPath segs) relativePath) (graph b) in
    let g2 :=
      if negb (String.eqb relativePath ".") && negb (String.eqb parentNodeId dirNodeId)
      then (if negb (edgeExists (edges g1) parentNodeId dirNodeId "CONTAINS" r)
            then pushEdge (mkEdge parentNodeId dirNodeId "CONTAINS" r) g1 else g1)
      else g1 in
    withGraph g2 b
  else b.

Definition sourceExtension (entry : string) : bool :=
  bool_decide (toLowerCase (Path.extname entry) ∈ [".js"; ".ts"; ".jsx"; ".tsx"]).

(** One entry of [for (const entry of entries)] inside the directory at
    [dirSegs]; a sub-directory runs the whole of [processDirectory], whose
    [catch] swallows what its own loop threw. *)
Fixpoint processEntry (dirSegs : list string) (dirNodeId : string) (e : FsEntry) (b : Build)
    {struct e} : Step :=
  match e with
  | FsBroken _ => Caught b
  | FsOther _ => Next b
  | FsFile entry _ content =>
      if sourceExtension entry then
        match processFile (dirSegs ++ [entry])%list content dirNodeId b with
        | Some b' => Next b'
        | None => Stuck
        end
      else Next b
  | FsDir entry listable sub =>
      if startsWithDot entry || String.eqb entry "node_modules" then Next b
      else
        let segs := (dirSegs ++ [entry])%list in
        let b1 := openDirectory segs dirNodeId b in
        let subId := folderId r (relativeDir segs) in
        if listable then
          match (fix loop (es : list FsEntry) (b : Build) : Step :=
                   match es with
                   | [] => Next b
                   | x :: rest =>
                       match processEntry segs subId x b with
                       | Next b' => loop rest b'
                       | other => other
                       end
                   end) sub b1 with
          | Next b' | Caught b' => Next b'
          | Stuck => Stuck
          end
        else Next b1
  end.

Fixpoint processEntries (dirSegs : list string) (dirNodeId : string) (es : list FsEntry)
    (b : Build) : Step :=
  match es with
  | [] => Next b
  | x :: rest =>
      match processEntry dirSegs dirNodeId x b with
      | Next b' => processEntries dirSegs dirNodeId rest b'
      | other => other
      end
  end.

(** [processDirectory] on the repository directory itself, which is taken
    to exist and to be listable: [rootEntries] is what [readdirSync] gives
    for it. *)
Definition processDirectory (rootEntries : list FsEntry) (parentNodeId : string) (b : Build)
    : option Build :=
  let b1 := openDirectory [] parentNodeId b in
  match processEntries [] (folderId r (relativeDir [])) rootEntries b1 with
  | Next b' | Caught b' => Some b'
  | Stuck => None
  end.

(** One round of [for (const filePath of files)]. *)
Definition processListed (fs : list FsEntry) (b : Build) (segs : list string)
    : Outcome Build :=
  let filePath := Path.abs repoPath segs in
  let relativePath := Path.rel segs in
  let fileNodeId := fileId r relativePath in
  if has (nodes (graph b)) fileNodeId then Completed b
  else
    match fsLookup fs segs with
    | None => Completed b
    | Some (0, _) => Completed b
    | Some (_, content) =>
        match ensureFolderNode (graph b) r (Path.dirname relativePath) repoPath with
        | None => Threw
        | Some (parentNodeId, g1) =>
            let g2 := connect parentNodeId fileNodeId "CONTAINS" r
                        (setNode (fileNode r fileNodeId (lastSeg repoPath segs) relativePath) g1) in
            let b1 := withGraph g2 b in
            match parseFile allGlobals (modst b1) filePath relativePath content with
            | (Resolved ts, m) =>
                Completed (fold_left (absorbTag r filePath relativePath fileNodeId) ts
                             (withModule m b1))
            | (Rejected, _) => Threw
            | (NeverSettles, _) => Hangs
            end
        end
    end.

Fixpoint processFiles (fs : list FsEntry) (files : list (list string)) (b : Build)
    : Outcome Build :=
  match files with
  | [] => Completed b
  | segs :: rest =>
      match processListed fs b segs with
      | Completed b' => processFiles fs rest b'
      | other => other
      end
  end.

Definition referenceNode (nid : string) (t : Tag) : GraphNodeData :=
  {| nodeId := nid; nodeRepoId := r; nodeName := name t; nodeType := type t;
     nodeFilePath := filePath t; nodeStartLine := startLine t; nodeEndLine := endLine t;
     nodeText := text t; isDirectory := None; isReference := Some true |}.

(** The counters and the set kept by the reference loop. *)
Record Resolution := {
  resolved : GraphData;
  resolvedRefs : gset string;
  resolvedCount : nat;
  missingDefinitions : nat;
  missingNodes : nat
}.

(** One round of [for (const ref of references)]. *)
Definition resolveReference (defs : gmap string Tag) (s : Resolution) (t : Tag) : Resolution :=
  match defs !! (name t ++ ":" ++ type t) with
  | None =>
      {| resolved := resolved s; resolvedRefs := resolvedRefs s;
         resolvedCount := resolvedCount s;
         missingDefinitions := S (missingDefinitions s); missingNodes := missingNodes s |}
  | Some d =>
      let refNodeId :=
        generateNodeId md5 r ("ref:" ++ filePath t ++ ":" ++ name t ++ ":" ++ showNat (startLine t)) in
      let defNodeId :=
        generateNodeId md5 r ("def:" ++ filePath d ++ ":" ++ name d ++ ":" ++ showNat (startLine d)) in
      let g := resolved s in
      let '(g1, orphan) :=
        if negb (has (nodes g) refNodeId) then
          let g' := setNode (referenceNode refNodeId t) g in
          let refFileNodeId := fileId r (filePath t) in
          if has (nodes g') refFileNodeId
          then (connect refFileNodeId refNodeId "CONTAINS" r g', false)
          else (g', true)
        else (g, false) in
      if orphan then
        {| resolved := g1; resolvedRefs := resolvedRefs s; resolvedCount := resolvedCount s;
           missingDefinitions := missingDefinitions s; missingNodes := S (missingNodes s) |}
      else if negb (has (nodes g1) defNodeId) then
        {| resolved := g1; resolvedRefs := resolvedRefs s; resolvedCount := resolvedCount s;
           missingDefinitions := missingDefinitions s; missingNodes := S (missingNodes s) |}
      else
        let refKey := refNodeId ++ "-" ++ defNodeId ++ "-REFERENCES" in
        if bool_decide (refKey ∈ resolvedRefs s) then
          {| resolved := g1; resolvedRefs := resolvedRefs s; resolvedCount := resolvedCount s;
             missingDefinitions := missingDefinitions s; missingNodes := missingNodes s |}
        else
          let '(es, added) := addUniqueEdge (edges g1) refNodeId defNodeId "REFERENCES" r in
          {| resolved := {| nodes := nodes g1; edges := es |};
             resolvedRefs := if added then {[refKey]} ∪ resolvedRefs s else resolvedRefs s;
             resolvedCount := if added then S (resolvedCount s) else resolvedCount s;
             missingDefinitions := missingDefinitions s; missingNodes := missingNodes s |}
  end.

Definition resolveReferences (b : Build) : Resolution :=
  fold_left (resolveReference (definitions b)) (references b)
    {| resolved := graph b; resolvedRefs := ∅; resolvedCount := 0;
       missingDefinitions := 0; missingNodes := 0 |}.

Definition repositoryNode : GraphNodeData :=
  {| nodeId := rootId r; nodeRepoId := r; nodeName := Path.basename repoPath;
     nodeType := "REPOSITORY"; nodeFilePath := "."; nodeStartLine := 0; nodeEndLine := 0;
     nodeText := None; isDirectory := Some true; isReference := None |}.

Definition initialBuild (m : ModuleState) : Build :=
  {| graph := setNode repositoryNode {| nodes := ∅; edges := [] |};
     definitions := ∅; references := []; modst := m |}.

(** [buildGraph] up to the point where the view is passed to
    [neo4jService.storeGraph]; [m] is the parser module as the call finds
    it, and the module as the call leaves it is returned with the view. *)
Definition buildGraph (fs : list FsEntry) (files : list (list string)) (m : ModuleState)
    : Outcome (Neo4jGraph * Resolution * ModuleState) :=
  match processDirectory fs (rootId r) (initialBuild m) with
  | None => Hangs
  | Some b1 =>
      match processFiles fs files b1 with
      | Completed b2 =>
          let s := resolveReferences b2 in
          Completed ({| viewNodes := nodes (resolved s); viewEdges := edges (resolved s) |},
                     s, modst b2)
      | Threw => Threw
      | Hangs => Hangs
      end
  end.

End Builder.

End Neo4jBuilder.

(* ===================================================================== *)
(** ** Graph builder over an in-memory multigraph                         *)
(* ===================================================================== *)

Module CodeGraphBuilder.

(** jsnetworkx's [MultiDiGraph] as [CodeGraph] fills it: a node carries the
    [data] it was added with, or nothing when it only came into being as
    the end of an edge; parallel edges are kept. *)
Record MultiDiGraph := {
  nodes : gmap string (option GraphNodeData);
  edges : list GraphEdgeData
}.

Definition emptyGraph : MultiDiGraph := {| nodes := ∅; edges := [] |}.

Definition addNode (nid : string) (data : GraphNodeData) (g : MultiDiGraph) : MultiDiGraph :=
  {| nodes := <[nid := Some data]> (nodes g); edges := edges g |}.

Definition touch (nid : string) (m : gmap string (option GraphNodeData))
    : gmap string (option GraphNodeData) :=
  match m !! nid with Some _ => m | None => <[nid := None]> m end.

Definition addEdge (s t : string) (data : GraphEdgeData) (g : MultiDiGraph) : MultiDiGraph :=
  {| nodes := touch t (touch s (nodes g)); edges := edges g ++ [data] |}.

(** [getNodes()] reads [this.graph.get(nodeId).data] for every node and
    [getEdges()] reads [this.graph.get(sourceId, targetId, key).data] for
    every edge.  jsnetworkx's [get] answers with the adjacency of its
    first argument and ignores the others, and an adjacency has no
    property [data]: both arrays are as long as the nodes, or the edges,
    are many and hold [undefined] throughout.  The data the graph was
    given stays in [nodes] and [edges]. *)
Definition getNodes (g : MultiDiGraph) : list (option GraphNodeData) :=
  map (fun _ => None) (map_to_list (nodes g)).
Definition getEdges (g : MultiDiGraph) : list (option GraphEdgeData) :=
  map (fun _ => None) (edges g).
Definition numberOfNodes (g : MultiDiGraph) : nat := size (nodes g).
Definition numberOfEdges (g : MultiDiGraph) : nat := length (edges g).

Record Build := {
  graph : MultiDiGraph;
  definitions : gmap string Tag;
  references : list Tag;
  modst : ModuleState
}.

Section Builder.

Variable md5 : string -> string.
Variable allGlobals : gset string.
Variable repoInfo : RepoInfo.

Let r := repoId repoInfo.
Let repoPath := localPath repoInfo.

Definition tagId (path : string) (t : Tag) : string :=
  generateNodeId md5 r (path ++ ":" ++ name t ++ ":" ++ showNat (startLine t)).

Definition absorbTag (filePath relativePath fileNodeId : string) (b : Build) (t : Tag) : Build :=
  match kind t with
  | def =>
      let nid := tagId filePath t in
      let g1 := addNode nid
                  {| nodeId := nid; nodeRepoId := r; nodeName := name t; nodeType := type t;
                     nodeFilePath := relativePath; nodeStartLine := startLine t;
                     nodeEndLine := endLine t; nodeText := text t;
                     isDirectory := None; isReference := None |} (graph b) in
      let g2 := addEdge fileNodeId nid
                  (Neo4jBuilder.mkEdge fileNodeId nid "CONTAINS" r) g1 in
      {| graph := g2; definitions := <[name t ++ ":" ++ type t := t]> (definitions b);
         references := references b; modst := modst b |}
  | ref =>
      {| graph := graph b; definitions := definitions b;
         references := references b ++ [t]; modst := modst b |}
  end.

(** One round of the loop over [files]: [None] when the awaited
    [parseFile] never settles; a rejection is caught and logged. *)
Definition processListed (fs : list FsEntry) (b : Build) (segs : list string) : option Build :=
  let filePath := Path.abs repoPath segs in
  let relativePath := Path.rel segs in
  let fileNodeId := generateNodeId md5 r filePath in
  let g1 := addNode fileNodeId
              {| nodeId := fileNodeId; nodeRepoId := r;
                 nodeName := Neo4jBuilder.lastSeg repoPath segs; nodeType := "FILE";
                 nodeFilePath := relativePath; nodeStartLine := 0; nodeEndLine := 0;
                 nodeText := None; isDirectory := None; isReference := None |} (graph b) in
  let b1 := {| graph := g1; definitions := definitions b; references := references b;
               modst := modst b |} in
  let content := match fsLookup fs segs with Some (_, c) => c | None => Unreadable end in
  match parseFile allGlobals (modst b1) filePath relativePath content with
  | (Resolved ts, m) =>
      Some (fold_left (absorbTag filePath relativePath fileNodeId) ts
              {| graph := g1; definitions := definitions b; references := references b;
                 modst := m |})
  | (Rejected, _) => Some b1
  | (NeverSettles, _) => None
  end.

Fixpoint processFiles (fs : list FsEntry) (files : list (list string)) (b : Build)
    : option Build :=
  match files with
  | [] => Some b
  | segs :: rest =>
      match processListed fs b segs with
      | Some b' => processFiles fs rest b'
      | None => None
      end
  end.

(** One round of the loop over [references]. *)
Definition resolveReference (defs : gmap string Tag) (g : MultiDiGraph) (t : Tag) : MultiDiGraph :=
  match defs !! (name t ++ ":" ++ type t) with
  | Some d =>
      let s := tagId (filePath t) t in
      let tgt := tagId (filePath d) d in
      addEdge s tgt (Neo4jBuilder.mkEdge s tgt "REFERENCES" r) g
  | None => g
  end.

Definition buildGraph (fs : list FsEntry) (files : list (list string)) (m : ModuleState)
    : Outcome (MultiDiGraph * ModuleState) :=
  match processFiles fs files
          {| graph := emptyGraph; definitions := ∅; references := []; modst := m |} with
  | Some b => Completed (fold_left (resolveReference (definitions b)) (references b) (graph b),
                         modst b)
  | None => Hangs
  end.

End Builder.

End CodeGraphBuilder.

(* ===================================================================== *)
(** ** Reading the graph                                                  *)
(* ===================================================================== *)

Definition isContains (e : GraphEdgeData) : bool := String.eqb (edgeType e) "CONTAINS".
Definition isReferences (e : GraphEdgeData) : bool := String.eqb (edgeType e) "REFERENCES".

(** [a] contains [b] directly. *)
Definition containsEdge (es : list GraphEdgeData) (a b : string) : Prop :=
  ∃ e, e ∈ es ∧ isContains e = true ∧ sourceId e = a ∧ targetId e = b.

(** [b] can be reached from [a] along a chain of Contains edges. *)
Definition reachable (es : list GraphEdgeData) : string -> string -> Prop :=
  rtc (containsEdge es).

(** Contains edges joining [a] and [b], in either direction. *)
Definition between (a b : string) (e : GraphEdgeData) : bool :=
  isContains e
  && ((String.eqb (sourceId e) a && String.eqb (targetId e) b)
      || (String.eqb (sourceId e) b && String.eqb (targetId e) a)).

Definition containsBetween (es : list GraphEdgeData) (a b : string) : nat :=
  length (filter (fun e => between a b e = true) es).

(* ===================================================================== *)
(** ** Sample inputs                                                      *)
(* ===================================================================== *)

(** A sample value for [allGlobals]: an excerpt of the browser, node and
    es2021 tables of the [globals] package. *)
Definition knownGlobals : gset string :=
  list_to_set ["console"; "window"; "document"; "process"; "require"; "setTimeout";
               "alert"; "fetch"; "Promise"; "Map"; "Set"; "Array"; "Object"; "JSON";
               "Math"; "Error"; "TypeError"].

Definition sampleRepo : RepoInfo := {| repoId := "r1"; localPath := "/repo" |}.

Definition line (n : nat) : Loc := Some (n, n).

(** a.ts: [function helper(){}]; b.ts: [helper()]. *)
Definition helperTree : list FsEntry :=
  [FsFile "a.ts" 20 (Parsed [FunctionDeclaration (line 1) (Some "helper") []]);
   FsFile "b.ts" 9 (Parsed [Other [CallExpression (line 1) (Identifier "helper") []]])].

Definition helperFiles : list (list string) := [["a.ts"]; ["b.ts"]].

(** Identifier names as the parser produces them never hold a [#]. *)
Fixpoint wellFormed (n : Node) : bool :=
  let all := fix all (ns : list Node) : bool :=
    match ns with
    | [] => true
    | x :: rest => wellFormed x && all rest
    end in
  match n with
  | Identifier s => negb (includesHash s)
  | StringLiteral _ | ImportDeclaration _ _ => true
  | MemberExpression o p => wellFormed o && wellFormed p
  | CallExpression _ c args | NewExpression _ c args => wellFormed c && all args
  | ThrowStatement a => wellFormed a
  | ClassDeclaration _ _ b | FunctionDeclaration _ _ b | ClassPrivateMethod _ _ b
  | Other b => all b
  | ClassMethod _ _ k b => wellFormed k && all b
  end.

Definition wellFormedContent (c : FileContent) : bool :=
  match c with
  | Parsed program => forallb wellFormed program
  | _ => true
  end.

(** Every file below an entry has content that passes [C]. *)
Fixpoint everyContent (C : FileContent -> bool) (e : FsEntry) : bool :=
  match e with
  | FsFile _ _ c => C c
  | FsDir _ _ sub =>
      (fix all (es : list FsEntry) : bool :=
         match es with
         | [] => true
         | x :: rest => everyContent C x && all rest
         end) sub
  | _ => true
  end.



(** The callees the specification counts as built-in. *)
Inductive claimedBuiltin (G : gset string) : Node -> Prop :=
| cb_throw l args : claimedBuiltin G (ThrowStatement (NewExpression l (Identifier "Error") args))
| cb_new l args : claimedBuiltin G (NewExpression l (Identifier "Error") args)
| cb_plain l n args : n ∈ G -> claimedBuiltin G (CallExpression l (Identifier n) args)
| cb_object l o p args :
    o ∈ G -> claimedBuiltin G (CallExpression l (MemberExpression (Identifier o) p) args)
| cb_property l o p args :
    p ∈ G -> claimedBuiltin G (CallExpression l (MemberExpression o (Identifier p)) args).

(** The callees [shouldIgnoreFunctionCall] filters: in a member call both
    the object and the property have to be plain identifiers. *)
Inductive filteredBuiltin (G : gset string) : Node -> Prop :=
| fb_throw l args : filteredBuiltin G (ThrowStatement (NewExpression l (Identifier "Error") args))
| fb_new l args : filteredBuiltin G (NewExpression l (Identifier "Error") args)
| fb_plain l n args : n ∈ G -> filteredBuiltin G (CallExpression l (Identifier n) args)
| fb_member l o p args :
    o ∈ G ∨ p ∈ G ->
    filteredBuiltin G (CallExpression l (MemberExpression (Identifier o) (Identifier p)) args).

Definition startWalk (m : ModuleState) : Walk :=
  {| currentClass := None; tags := []; modul := m |}.


(** [arr.push(x)] and [a.b.alert()] *)
Definition pushCall : Node :=
  CallExpression (line 1) (MemberExpression (Identifier "arr") (Identifier "push"))
    [Identifier "x"].
Definition deepAlertCall : Node :=
  CallExpression (line 1)
    (MemberExpression (MemberExpression (Identifier "a") (Identifier "b")) (Identifier "alert")) [].
(** [console.log('x')] *)
Definition consoleLogCall : Node :=
  CallExpression (line 1) (MemberExpression (Identifier "console") (Identifier "log"))
    [StringLiteral "x"].

(** README.md next to nothing else; the file list names it. *)
Definition readmeTree : list FsEntry := [FsFile "README.md" 12 SyntaxError].
Definition readmeFiles : list (list string) := [["README.md"]].

(** .github/x.js with a syntax error; the scanner lists it, the directory
    walk of the builder skips hidden directories. *)
Definition hiddenTree : list FsEntry := [FsDir ".github" true [FsFile "x.js" 5 SyntaxError]].
Definition hiddenFiles : list (list string) := [[".github"; "x.js"]].

(** a.ts: [export function helper(){}];
    b.ts: [import { helper } from './a'; helper()]. *)
Definition exportingProgram : list Node :=
  [Other [FunctionDeclaration (line 1) (Some "helper") []]].
Definition importingProgram : list Node :=
  [ImportDeclaration "./a" [ImportSpecifier "helper" "helper"];
   Other [CallExpression (line 2) (Identifier "helper") []]].
Definition importTree : list FsEntry :=
  [FsFile "a.ts" 27 (Parsed exportingProgram); FsFile "b.ts" 40 (Parsed importingProgram)].

(** Tags of two files parsed one after the other in one process. *)
Definition parseTwo (G : gset string) (first second : list Node) : list Tag * ModuleState :=
  let '(_, m1) := parseFile G freshModule "/repo/a.ts" "a.ts" (Parsed first) in
  match parseFile G m1 "/repo/b.ts" "b.ts" (Parsed second) with
  | (Resolved ts, m2) => (ts, m2)
  | (_, m2) => ([], m2)
  end.

(** Every non-root node hangs below the root. *)
Definition hierarchyConnected (g : Neo4jBuilder.Neo4jGraph) (root : string) : Prop :=
  ∀ n, is_Some (Neo4jBuilder.viewNodes g !! n) -> n ≠ root ->
       reachable (Neo4jBuilder.viewEdges g) root n.

Definition sampleBuild (fs : list FsEntry) (files : list (list string)) :=
  Neo4jBuilder.buildGraph MD5.md5_hex knownGlobals sampleRepo fs files freshModule.

(** The parser module with none of its lookup tables filled. *)
Definition dormant (m : ModuleState) : Prop :=
  DEFINED_SYMBOLS m = ∅ ∧ EXPORT_MAP m = ∅ ∧ IMPORT_RESOLVER m = ∅.

Definition definitionTypes : list string :=
  ["class"; "function"; "method"; "staticMethod"; "privateMethod"].
Definition referenceTypes : list string :=
  ["functionCall"; "methodCall"; "constructorCall"].

(** A tag whose [type] is one the extractor gives to tags of its [kind]. *)
Definition kinded (t : Tag) : Prop :=
  match kind t with
  | def => type t ∈ definitionTypes
  | ref => type t ∈ referenceTypes
  end.

Definition untargeted (t : Tag) : Prop := targetFile t = None.

(** A graph in which nothing has been resolved yet: all edges are Contains
    edges and no node is a reference node. *)
Definition plainGraph (g : Neo4jBuilder.GraphData) : Prop :=
  Forall (fun e => edgeType e = "CONTAINS") (Neo4jBuilder.edges g)
  ∧ ∀ k n, Neo4jBuilder.nodes g !! k = Some n -> isReference n = None.

(** A build whose buffered references cannot meet a recorded definition:
    a definition key never ends like a reference type does. *)
Definition unlinkable (b : Neo4jBuilder.Build) : Prop :=
  (∀ k, is_Some (Neo4jBuilder.definitions b !! k) -> lastChar k ≠ Some "l"%char)
  ∧ Forall (fun t => type t ∈ referenceTypes) (Neo4jBuilder.references b)
  ∧ plainGraph (Neo4jBuilder.graph b).

(** A path that does not start at the file-system root. *)
Definition relative (p : string) : bool :=
  match p with
  | String c _ => negb (isSlash c)
  | EmptyString => true
  end.


(** Where a disambiguator sits in the hierarchy: the root and folders
    first, then files, then everything else; folders go by length. *)
Fixpoint startsWith (pre s : string) : bool :=
  match pre, s with
  | EmptyString, _ => true
  | String a pre', String b s' => Ascii.eqb a b && startsWith pre' s'
  | String _ _, EmptyString => false
  end.

Definition tier (d : string) : nat :=
  if String.eqb d "repo:root" || startsWith "folder:" d then 0
  else if startsWith "file:" d then 1 else 2.

(** A repository path that is not empty and does not open like the
    disambiguator of a folder or of a file: every absolute path is one,
    and so is a relative path such as [repo_map_output/name-1a2b3c4d]. *)
Definition plainPath (p : string) : bool :=
  truthy p && negb (startsWith "folder:" p) && negb (startsWith "file:" p).

Definition depth (d : string) : nat :=
  if String.eqb d "repo:root" || String.eqb d "folder:." then 0 else String.length d.

Definition rankLt (a b : string) : Prop :=
  tier a < tier b ∨ (tier a = 0 ∧ tier b = 0 ∧ depth a < depth b).

(** [s] is the id of something that sits above what [t] is the id of. *)
Definition below (md5 : string -> string) (r s t : string) : Prop :=
  ∃ a b, s = generateNodeId md5 r a ∧ t = generateNodeId md5 r b ∧ rankLt a b.

(** No edge twice, and every Contains edge either a loop or going down. *)
Definition layered (md5 : string -> string) (r : string) (es : list GraphEdgeData) : Prop :=
  NoDup es
  ∧ ∀ e, e ∈ es ->
      edgeRepoId e = r
      ∧ (isContains e = true -> sourceId e = targetId e ∨ below md5 r (sourceId e) (targetId e)).

(** The id [ensureFolderNode] answers with for a folder path. *)
Definition nodeOf (md5 : string -> string) (r p : string) : string :=
  if String.eqb p "." then Neo4jBuilder.rootId md5 r else Neo4jBuilder.folderId md5 r p.

(** The Contains edges that end in a node. *)
Definition incoming (g : Neo4jBuilder.GraphData) (nid : string) : list GraphEdgeData :=
  filter (fun e => isContains e && String.eqb (targetId e) nid = true) (Neo4jBuilder.edges g).

Definition present (g : Neo4jBuilder.GraphData) (nid : string) : Prop :=
  is_Some (Neo4jBuilder.nodes g !! nid).

(** The graph [buildGraph] starts from: the repository node alone. *)
Definition rootOnly (md5 : string -> string) (repo : RepoInfo) : Neo4jBuilder.GraphData :=
  Neo4jBuilder.graph (Neo4jBuilder.initialBuild md5 repo freshModule).

(** No edge of [es] leaves [a]. *)
Definition noOutgoing (es : list GraphEdgeData) (a : string) : bool :=
  forallb (fun e => negb (String.eqb (sourceId e) a)) es.

(** No edge of [es] ends in [a]. *)
Definition noIncoming (es : list GraphEdgeData) (a : string) : bool :=
  forallb (fun e => negb (String.eqb (targetId e) a)) es.

(** No edge of [es] is there twice, and no Contains edge next to its
    reverse. *)
Definition reverseOf (e f : GraphEdgeData) : bool :=
  isContains e && isContains f
  && String.eqb (sourceId e) (targetId f) && String.eqb (targetId e) (sourceId f)
  && negb (String.eqb (sourceId e) (targetId e)).

Fixpoint tidyEdges (es : list GraphEdgeData) : bool :=
  match es with
  | [] => true
  | e :: rest =>
      forallb (fun f => negb (bool_decide (e = f)) && negb (reverseOf e f)) rest
      && tidyEdges rest
  end.

(** src/lib/util.ts with a class of two methods and a call, next to
    index.js and a hidden directory the directory walk passes over. *)
Definition nestedTree : list FsEntry :=
  [FsDir "src" true
     [FsDir "lib" true
        [FsFile "util.ts" 80
           (Parsed [ClassDeclaration (Some (1, 5)) (Some "Foo")
                      [ClassMethod (Some (2, 2)) true (Identifier "make") [];
                       ClassPrivateMethod (Some (3, 3)) "secret"
                         [Other [CallExpression (line 3) (Identifier "run") []]]]])];
      FsDir ".cache" true [FsFile "tmp.js" 10 (Parsed [FunctionDeclaration (line 1) (Some "t") []])]];
   FsFile "index.js" 30 (Parsed [FunctionDeclaration (line 1) (Some "main") []])].

Definition nestedFiles : list (list string) :=
  [["src"; "lib"; "util.ts"]; ["src"; ".cache"; "tmp.js"]; ["index.js"]].

(** One file, [class A { m(){} } class B { m(){} }] on a single line:
    two methods of the same name that start on the same line. *)
Definition twinTree : list FsEntry :=
  [FsFile "twin.js" 39
     (Parsed [ClassDeclaration (line 1) (Some "A") [ClassMethod (line 1) false (Identifier "m") []];
              ClassDeclaration (line 1) (Some "B") [ClassMethod (line 1) false (Identifier "m") []]])].

(** A step of the walk that only appends well-kinded tags and, on a
    dormant module and well-formed syntax, leaves the module alone. *)
Definition Adds (ok : bool) (f : Walk -> Walk) : Prop :=
  ∀ w, ∃ new, tags (f w) = (tags w ++ new)%list
              ∧ Forall kinded new
              ∧ (dormant (modul w) -> ok = true ->
                 modul (f w) = modul w ∧ Forall untargeted new).

(** A step of the directory walk that leaves [Inv] standing wherever it
    leaves a build at all. *)
Definition keeps (Inv : Neo4jBuilder.Build -> Prop) (s : Neo4jBuilder.Step) : Prop :=
  match s with
  | Neo4jBuilder.Next b | Neo4jBuilder.Caught b => Inv b
  | Neo4jBuilder.Stuck => True
  end.

(** The build after the directory walk over [a.ts] alone, with one more
    reference buffered: a call of [helper] in [a.ts] tagged the way a
    definition is, so that its key is the key of the definition. *)
Definition matchingReference : Tag :=
  {| name := "helper"; type := "function"; kind := ref; filePath := "a.ts";
     targetFile := None; startLine := 3; endLine := 3; text := None; parent := None |}.

Definition matchingBuild : option Neo4jBuilder.Build :=
  match Neo4jBuilder.processDirectory MD5.md5_hex knownGlobals sampleRepo
          [FsFile "a.ts" 20 (Parsed [FunctionDeclaration (line 1) (Some "helper") []])]
          (Neo4jBuilder.rootId MD5.md5_hex "r1")
          (Neo4jBuilder.initialBuild MD5.md5_hex sampleRepo freshModule) with
  | Some b =>
      Some {| Neo4jBuilder.graph := Neo4jBuilder.graph b;
              Neo4jBuilder.definitions := Neo4jBuilder.definitions b;
              Neo4jBuilder.references := [matchingReference];
              Neo4jBuilder.modst := Neo4jBuilder.modst b |}
  | None => None
  end.

(** The graph as the directory walk over [nestedTree] leaves it, with the
    real digest: what the loop over the file list starts from. *)
Definition walkedGraph : option Neo4jBuilder.GraphData :=
  match Neo4jBuilder.processDirectory MD5.md5_hex knownGlobals sampleRepo nestedTree
          (Neo4jBuilder.rootId MD5.md5_hex "r1")
          (Neo4jBuilder.initialBuild MD5.md5_hex sampleRepo freshModule) with
  | Some b => Some (Neo4jBuilder.graph b)
  | None => None
  end.

(** A build of the in-memory builder whose references cannot meet a
    recorded definition. *)
Definition unlinkableCode (b : CodeGraphBuilder.Build) : Prop :=
  (∀ k, is_Some (CodeGraphBuilder.definitions b !! k) -> lastChar k ≠ Some "l"%char)
  ∧ Forall (fun t => type t ∈ referenceTypes) (CodeGraphBuilder.references b)
  ∧ Forall (fun e => edgeType e = "CONTAINS") (CodeGraphBuilder.edges (CodeGraphBuilder.graph b)).

(** a.ts of the first scenario: [function foo(){}], [console.log('x')]
    and [bar()]. *)
Definition scenarioOne : list Node :=
  [FunctionDeclaration (line 1) (Some "foo") [];
   Other [consoleLogCall];
   Other [CallExpression (line 3) (Identifier "bar") []]].

(* ===================================================================== *)
(** ** utils.ts: text files, languages and sizes                          *)
(* ===================================================================== *)

Definition TEXT_FILE_EXTENSIONS : gset string :=
  list_to_set
    [".ts"; ".js"; ".jsx"; ".tsx"; ".py"; ".java"; ".c"; ".cpp"; ".h"; ".hpp";
     ".cs"; ".go"; ".rb"; ".php"; ".swift"; ".kt"; ".scala"; ".rs"; ".sh";
     ".bash"; ".zsh"; ".fish"; ".pl"; ".pm"; ".t"; ".lua"; ".groovy"; ".r";
     ".m"; ".mm"; ".f"; ".f90"; ".f95"; ".for"; ".tcl"; ".vb"; ".vbs"; ".ps1";
     ".psm1"; ".psd1"; ".asm"; ".s"; ".sql"; ".d"; ".clj"; ".cljs"; ".cljc";
     ".edn"; ".hs"; ".lhs"; ".elm"; ".ex"; ".exs"; ".erl"; ".hrl"; ".ml";
     ".mli"; ".fs"; ".fsi"; ".fsx"; ".fsscript";
     ".html"; ".htm"; ".xhtml"; ".css"; ".scss"; ".sass"; ".less"; ".svg";
     ".xml"; ".json"; ".yml"; ".yaml"; ".toml"; ".ini"; ".cfg"; ".conf";
     ".md"; ".markdown"; ".txt"; ".rst"; ".asciidoc"; ".adoc"; ".tex";
     ".gitignore"; ".dockerignore"; ".env"; ".editorconfig"; ".eslintrc";
     ".prettierrc"; ".babelrc"; ".stylelintrc";
     ".csv"; ".tsv"; ".graphql"; ".gql"; ".proto"].

(** [getFileExtension] *)
Definition getFileExtension (filePath : string) : string :=
  toLowerCase (Path.extname filePath).

(** The bytes [readSync] copies into the 4096-byte buffer. *)
Definition sniffed (bytes : list Byte.byte) : list Byte.byte := firstn 4096 bytes.

(** The [try] block of [isLikelyTextFile]: no zero byte among the bytes
    read, and [false] from the [catch].  [file] is what [openSync] and
    [readSync] find at the path: the bytes of the file, or nothing when
    one of them throws. *)
Definition sniff (file : option (list Byte.byte)) : bool :=
  match file with
  | Some bytes => forallb (fun b => negb (Byte.eqb b Byte.x00)) (sniffed bytes)
  | None => false
  end.

Definition isLikelyTextFile (filePath : string) (file : option (list Byte.byte)) : bool :=
  let ext := toLowerCase (Path.extname filePath) in
  if bool_decide (ext ∈ TEXT_FILE_EXTENSIONS) then true else sniff file.

Definition languageEntries : list (string * string) :=
    [(".ts", "typescript"); (".tsx", "typescript"); (".js", "javascript");
     (".jsx", "javascript"); (".py", "python"); (".java", "java"); (".c", "c");
     (".cpp", "cpp"); (".h", "c"); (".hpp", "cpp"); (".cs", "csharp"); (".go", "go");
     (".rb", "ruby"); (".php", "php"); (".swift", "swift"); (".kt", "kotlin");
     (".scala", "scala"); (".rs", "rust"); (".html", "html"); (".css", "css");
     (".scss", "scss"); (".json", "json"); (".md", "markdown"); (".xml", "xml");
     (".sql", "sql"); (".sh", "bash"); (".bash", "bash"); (".zsh", "bash")].

Definition languageMap : gmap string string := list_to_map languageEntries.

(** [getLanguageFromExtension]: the own keys of the table.  An extension
    as [getFileExtension] returns it is empty or opens with a dot, which
    the name of no inherited property does. *)
Definition getLanguageFromExtension (ext : string) : option string := languageMap !! ext.

(** [`${n}`] for a non-negative integer given in binary. *)
Definition showN (n : N) : string := NilEmpty.string_of_uint (N.to_uint n).

(** The hundredths [(num / den).toFixed(2)] settles on: the integer nearest
    to [100 * num / den], the larger one of two equally near.  The file
    sizes and the powers of two dividing them are integers below [2^53],
    so the quotient the division returns is the exact one. *)
Definition hundredths (num den : N) : N := ((200 * num + den) / (2 * den))%N.

Definition fixed2 (h : N) : string :=
  let frac := (h mod 100)%N in
  showN (h / 100) ++ "." ++ (if (frac <? 10)%N then "0" ++ showN frac else showN frac).

Definition KB : N := 1024.
Definition MB : N := 1024 * 1024.
Definition GB : N := 1024 * 1024 * 1024.

(** [formatFileSize] on the size of a file. *)
Definition formatFileSize (bytes : N) : string :=
  if (bytes <? KB)%N then showN bytes ++ " B"
  else if (bytes <? MB)%N then fixed2 (hundredths bytes KB) ++ " KB"
  else if (bytes <? GB)%N then fixed2 (hundredths bytes MB) ++ " MB"
  else fixed2 (hundredths bytes GB) ++ " GB".

(** A name without a dot. *)
Fixpoint dotFree (s : string) : bool :=
  match s with
  | EmptyString => true
  | String c r => negb (Ascii.eqb c "."%char) && dotFree r
  end.

(* ===================================================================== *)
(** ** repo-scanner.ts                                                    *)
(* ===================================================================== *)

Definition DEFAULT_IGNORE_PATTERNS : list string :=
  ["node_modules"; ".git"; ".svn"; "dist"; "build"; "out"; "vendor"; "coverage";
   ".next"; ".nuxt"; ".cache"; ".vscode"; ".idea"].

Module Scanner.

Section Scan.

(** The directory handed to the outermost call, the filter and the
    patterns; the recursive calls pass the last two on unchanged. *)
Variable root : string.
Variable filterFn : string -> bool.
Variable ignorePatterns : list string.

Definition resolvedIgnore : gset string := list_to_set (map Path.basename ignorePatterns).

(** One round of [for (const entry of entries)] in the directory at
    [dirSegs].  A [Dirent] answers for the entry itself: a link, dangling
    or not, is neither a directory nor a file.  A path is yielded as the
    names that lead to it from [root].  A sub-directory that cannot be
    read makes [readdir] reject inside the recursive call, whose [catch]
    logs it, so that nothing is yielded for it. *)
Fixpoint scanEntry (dirSegs : list string) (entry : FsEntry) {struct entry}
    : list (list string) :=
  let segs := (dirSegs ++ [entryNameOf entry])%list in
  let fullPath := Path.abs root segs in
  let baseName := Path.basename fullPath in
  if bool_decide (baseName ∈ resolvedIgnore) then []
  else
    match entry with
    | FsDir _ listable sub =>
        if listable then
          (fix scanAll (es : list FsEntry) : list (list string) :=
             match es with
             | [] => []
             | x :: rest => (scanEntry segs x ++ scanAll rest)%list
             end) sub
        else []
    | FsFile _ _ _ => if filterFn fullPath then [segs] else []
    | FsOther _ | FsBroken _ => []
    end.

Fixpoint scanEntries (dirSegs : list string) (es : list FsEntry) : list (list string) :=
  match es with
  | [] => []
  | x :: rest => (scanEntry dirSegs x ++ scanEntries dirSegs rest)%list
  end.

(** [scanDirectory(root, filterFn, ignorePatterns)], everything it yields
    in order; [listable] tells whether [readdir] of [root] succeeds. *)
Definition scanDirectory (listable : bool) (entries : list FsEntry) : list (list string) :=
  if listable then scanEntries [] entries else [].

(** [countFiles] *)
Definition countFiles (listable : bool) (entries : list FsEntry) : nat :=
  length (scanDirectory listable entries).

End Scan.

(** [getFileContent]: the text read, or the empty string when [readFile]
    rejects. *)
Definition getFileContent (read : option string) : string :=
  match read with Some content => content | None => "" end.

End Scanner.

(** A name as [readdir] returns it: not empty and without a slash. *)
Fixpoint slashFree (s : string) : bool :=
  match s with
  | EmptyString => true
  | String c r => negb (isSlash c) && slashFree r
  end.

Definition properName (s : string) : bool := truthy s && slashFree s.

Fixpoint properEntry (e : FsEntry) : bool :=
  properName (entryNameOf e)
  && match e with
     | FsDir _ _ sub =>
         (fix all (es : list FsEntry) : bool :=
            match es with
            | [] => true
            | x :: rest => properEntry x && all rest
            end) sub
     | _ => true
     end.

Definition properTree (es : list FsEntry) : bool := forallb properEntry es.

(** A regular file of the tree that is reached through directories that
    can be read. *)
Inductive fileAt : list FsEntry -> list string -> Prop :=
| fileAt_here es n sz c : FsFile n sz c ∈ es -> fileAt es [n]
| fileAt_below es n sub segs :
    FsDir n true sub ∈ es -> fileAt sub segs -> fileAt es (n :: segs).

(** The ambient file contents behind the default filter. *)
Definition defaultFilter (readBytes : string -> option (list Byte.byte)) (filePath : string)
    : bool :=
  isLikelyTextFile filePath (readBytes filePath).

(* ===================================================================== *)
(** ** neo4j-service.ts                                                   *)
(* ===================================================================== *)

Module Neo4jService.

Record NodeProperties := {
  propName : string;
  propFilePath : string;
  propStartLine : nat;
  propEndLine : nat;
  propText : string;
  propType : string
}.

Record Neo4jNodeData := {
  dataNodeId : string;
  dataRepoId : string;
  properties : NodeProperties;
  labels : list string
}.

(** [properties] of a relationship holds [repoId] alone. *)
Record Neo4jRelationshipData := {
  relSourceId : string;
  relTargetId : string;
  relType : string;
  relRepoId : string
}.

(** The statements the service sends with [session.run]. *)
Inductive Statement :=
| CreateIndex
| DetachDelete (repoId : string)
| MergeNodes (nodes : list Neo4jNodeData)
| MergeRelationships (type : string) (relationships : list Neo4jRelationshipData).

(** What the driver sees of the service. *)
Inductive Event :=
| DriverCreated
| SessionOpened
| SessionClosed
| Ran (q : Statement)
| DriverClosed.

(** [this.driver] is the driver or [null]; [log] is what has been asked of
    the driver so far. *)
Record Service := {
  driver : bool;
  log : list Event
}.

Definition newService : Service := {| driver := false; log := [] |}.

(** An error thrown by the service itself, the error [neo4j.driver]
    throws, the rejection of [verifyConnectivity], or the rejection of
    [session.run]. *)
Inductive Failure :=
| Thrown (message : string)
| NoDriver
| Unreachable
| DatabaseError.

(** An [async] method: the value it resolves with or the error it rejects
    with, and the service afterwards. *)
Definition M (A : Type) : Type := Service -> (A + Failure) * Service.

Definition ret {A} (a : A) : M A := fun s => (inl a, s).

Definition throw {A} (e : Failure) : M A := fun s => (inr e, s).

Definition bind {A B} (m : M A) (f : A -> M B) : M B :=
  fun s => match m s with
           | (inl a, s1) => f a s1
           | (inr e, s1) => (inr e, s1)
           end.

Definition andThen {A B} (m : M A) (k : M B) : M B := bind m (fun _ => k).

Local Notation "m1 >> m2" := (andThen m1 m2) (at level 60, right associativity).

Definition emit (ev : Event) : M unit :=
  fun s => (inl tt, {| driver := driver s; log := (log s ++ [ev])%list |}).

(** [try { body } catch (error) { console.error(...); throw error }
    finally { cleanup }] *)
Definition finally {A} (body : M A) (cleanup : M unit) : M A :=
  fun s => match body s with
           | (res, s1) =>
               match cleanup s1 with
               | (inl _, s2) => (res, s2)
               | (inr e, s2) => (inr e, s2)
               end
           end.

(** [for (const x of xs) { await body(x) }] *)
Fixpoint forEach {A} (xs : list A) (body : A -> M unit) : M unit :=
  match xs with
  | [] => ret tt
  | x :: rest => body x >> forEach rest body
  end.

Definition notConnected : string := "Not connected to Neo4j. Call connect() first.".

(** [if (!this.driver) throw new Error(...)] *)
Definition withDriver {A} (body : M A) : M A :=
  fun s => if driver s then body s else (inr (Thrown notConnected), s).

Definition batchSize : nat := 1000.

(** [l.slice(i, j)] for [i <= j] *)
Definition slice {A} (i j : nat) (l : list A) : list A := firstn (j - i) (skipn i l).

(** The slices [l.slice(i, i + batchSize)] that
    [for (let i = 0; i < l.length; i += batchSize)] goes through. *)
Fixpoint batchesFrom {A} (fuel i : nat) (l : list A) : list (list A) :=
  match fuel with
  | O => []
  | S fuel' =>
      if (i <? length l)%nat
      then slice i (i + batchSize) l :: batchesFrom fuel' (i + batchSize) l
      else []
  end.

Definition batches {A} (l : list A) : list (list A) := batchesFrom (length l) 0 l.

Definition toNodeData (node : GraphNodeData) : Neo4jNodeData :=
  {| dataNodeId := nodeId node;
     dataRepoId := nodeRepoId node;
     properties :=
       {| propName := nodeName node;
          propFilePath := nodeFilePath node;
          propStartLine := nodeStartLine node;
          propEndLine := nodeEndLine node;
          propText := match nodeText node with
                      | Some t => if truthy t then t else ""
                      | None => ""
                      end;
          propType := nodeType node |};
     labels := ["NODE"; nodeType node] |}.

Definition toRelationshipData (edge : GraphEdgeData) : Neo4jRelationshipData :=
  {| relSourceId := sourceId edge;
     relTargetId := targetId edge;
     relType := edgeType edge;
     relRepoId := edgeRepoId edge |}.

(** [relationshipsByType], a [Map]: its keys in the order they were first
    set, each with the array pushed onto. *)
Fixpoint pushTo (ty : string) (rel : Neo4jRelationshipData)
    (groups : list (string * list Neo4jRelationshipData))
    : list (string * list Neo4jRelationshipData) :=
  match groups with
  | [] => [(ty, [rel])]
  | (k, rels) :: rest =>
      if String.eqb k ty then (k, (rels ++ [rel])%list) :: rest
      else (k, rels) :: pushTo ty rel rest
  end.

Definition groupByType (relationships : list Neo4jRelationshipData)
    : list (string * list Neo4jRelationshipData) :=
  fold_left (fun groups rel => pushTo (relType rel) rel groups) relationships [].

Section Database.

(** Whether [neo4j.driver(this.uri, ...)] returns a driver: it throws on a
    URI it cannot use, and the URI is fixed when the service is made. *)
Variable creatable : bool.

(** Whether [verifyConnectivity] and [session.run] resolve, given what the
    driver has seen so far.  Closing a session or the driver always
    resolves. *)
Variable reachable : list Event -> bool.
Variable runs : list Event -> Statement -> bool.

Definition run (q : Statement) : M unit :=
  fun s =>
    let s1 := {| driver := driver s; log := (log s ++ [Ran q])%list |} in
    if runs (log s) q then (inl tt, s1) else (inr DatabaseError, s1).

(** [connect]: when [neo4j.driver] throws, [this.driver] stays what it
    was; a driver that is returned is stored before the connection is
    verified.  Either error is thrown on by the [catch]. *)
Definition connect : M unit :=
  fun s =>
    if creatable then
      let s1 := {| driver := true; log := (log s ++ [DriverCreated])%list |} in
      if reachable (log s1) then (inl tt, s1) else (inr Unreachable, s1)
    else (inr NoDriver, s).

Definition close : M unit :=
  fun s =>
    if driver s then (inl tt, {| driver := false; log := (log s ++ [DriverClosed])%list |})
    else (inl tt, s).

Definition inSession {A} (body : M A) : M A :=
  emit SessionOpened >> finally body (emit SessionClosed).

Definition ensureIndex : M unit := withDriver (inSession (run CreateIndex)).

Definition deleteRepoData (repoId : string) : M unit :=
  withDriver (inSession (run (DetachDelete repoId))).

Definition createNodes (nodes : list Neo4jNodeData) : M unit :=
  withDriver
    (match nodes with
     | [] => ret tt
     | _ => inSession (run (MergeNodes nodes))
     end).

Definition createRelationships (relationships : list Neo4jRelationshipData) : M unit :=
  withDriver
    (match relationships with
     | [] => ret tt
     | _ =>
         inSession
           (forEach (groupByType relationships)
              (fun g => run (MergeRelationships g.1 g.2)))
     end).

(** [storeGraph(graph, repoId)] on what [graph.getNodes()] and
    [graph.getEdges()] return; [repoId] is not read. *)
Definition storeGraph (nodes : list GraphNodeData) (edges : list GraphEdgeData) : M unit :=
  withDriver
    (inSession
       (forEach (batches nodes) (fun batch => createNodes (map toNodeData batch)) >>
        forEach (batches edges)
          (fun batch => createRelationships (map toRelationshipData batch)))).

End Database.

(** The calls a user of the service can make. *)
Inductive Call :=
| Connect
| Close
| EnsureIndex
| DeleteRepoData (repoId : string)
| StoreGraph (nodes : list GraphNodeData) (edges : list GraphEdgeData).

Definition perform (creatable : bool) (reachable : list Event -> bool)
    (runs : list Event -> Statement -> bool) (c : Call) : M unit :=
  match c with
  | Connect => connect creatable reachable
  | Close => close
  | EnsureIndex => ensureIndex runs
  | DeleteRepoData repoId => deleteRepoData runs repoId
  | StoreGraph nodes edges => storeGraph runs nodes edges
  end.

(** Sessions open after a run of events that started with [n] open. *)
Fixpoint openAfter (n : nat) (evs : list Event) : option nat :=
  match evs with
  | [] => Some n
  | SessionOpened :: rest => openAfter (S n) rest
  | SessionClosed :: rest =>
      match n with
      | O => None
      | S n' => openAfter n' rest
      end
  | _ :: rest => openAfter n rest
  end.

(** The node batches and the relationships of one type sent, in order. *)
Fixpoint nodesSent (evs : list Event) : list (list Neo4jNodeData) :=
  match evs with
  | [] => []
  | Ran (MergeNodes ns) :: rest => ns :: nodesSent rest
  | _ :: rest => nodesSent rest
  end.

Fixpoint relationshipsSent (ty : string) (evs : list Event) : list Neo4jRelationshipData :=
  match evs with
  | [] => []
  | Ran (MergeRelationships t rs) :: rest =>
      if String.eqb t ty then (rs ++ relationshipsSent ty rest)%list
      else relationshipsSent ty rest
  | _ :: rest => relationshipsSent ty rest
  end.

Definition isRan (ev : Event) : bool :=
  match ev with Ran _ => true | _ => false end.

(** Every statement run among [evs], which follow [start], resolved. *)
Fixpoint allResolved (runs : list Event -> Statement -> bool) (start evs : list Event) : bool :=
  match evs with
  | [] => true
  | Ran q :: rest => runs start q && allResolved runs (start ++ [Ran q])%list rest
  | ev :: rest => allResolved runs (start ++ [ev])%list rest
  end.

(** The result of a call fits the events it added: a database error is
    the rejection of one statement, before which all resolved and after
    which none was run; any other result comes with all statements
    resolved. *)
Definition outcomeFits (runs : list Event -> Statement -> bool) (start evs : list Event)
    (res : unit + Failure) : Prop :=
  match res with
  | inr DatabaseError =>
      ∃ pre q post,
        evs = (pre ++ Ran q :: post)%list
        ∧ allResolved runs start pre = true
        ∧ runs (start ++ pre)%list q = false
        ∧ Forall (fun ev => isRan ev = false) post
  | _ => allResolved runs start evs = true
  end.

(** A call that adds events to the log, closes every session it opens and
    ends the way its events say. *)
Definition orderly (runs : list Event -> Statement -> bool) (m : M unit) : Prop :=
  ∀ s, ∃ evs,
    log (m s).2 = (log s ++ evs)%list
    ∧ (∀ n, openAfter n evs = Some n)
    ∧ outcomeFits runs (log s) evs (m s).1.

(** A call that, on a service holding a driver, keeps the driver and
    throws no error of its own. *)
Definition connectedRun (m : M unit) : Prop :=
  ∀ s, driver s = true -> driver (m s).2 = true ∧ ∀ msg, (m s).1 ≠ inr (Thrown msg).

(** A call that, on a connected service whose statements all resolve,
    resolves after adding exactly [evs]. *)
Definition delivers (m : M unit) (evs : list Event) : Prop :=
  ∀ s, driver s = true ->
       m s = (inl tt, {| driver := true; log := (log s ++ evs)%list |}).

(** The events of one call of [createNodes] and of [createRelationships]
    when every statement resolves. *)
Definition nodeEvents (batch : list GraphNodeData) : list Event :=
  match batch with
  | [] => []
  | _ => [SessionOpened; Ran (MergeNodes (map toNodeData batch)); SessionClosed]
  end.

Definition relationshipEvents (batch : list GraphEdgeData) : list Event :=
  match batch with
  | [] => []
  | _ =>
      (SessionOpened
         :: map (fun g => Ran (MergeRelationships g.1 g.2))
              (groupByType (map toRelationshipData batch))
         ++ [SessionClosed])%list
  end.

(** What [relationshipsByType] holds under the key [ty]. *)
Definition groupOf (ty : string) (groups : list (string * list Neo4jRelationshipData))
    : list Neo4jRelationshipData :=
  concat (map snd (filter (fun g => g.1 = ty) groups)).

(** The relationships of one statement are of its type, and there is one
    at least. *)
Definition wellTyped (ev : Event) : Prop :=
  match ev with
  | Ran (MergeRelationships ty rels) => rels ≠ [] ∧ Forall (fun rel => relType rel = ty) rels
  | Ran (MergeNodes ns) => 0 < length ns <= batchSize
  | _ => True
  end.

End Neo4jService.

(* ===================================================================== *)
(** ** The other helpers of the Neo4j graph builder                       *)
(* ===================================================================== *)

(** The loop of [getParentDirs]: [dirs.unshift(current)] until [current]
    is ["."], then [dirs.unshift('.')].  Running out of [fuel] stands for
    a loop that never ends. *)
Fixpoint parentDirsLoop (fuel : nat) (current : string) (dirs : list string)
    : option (list string) :=
  match fuel with
  | O => None
  | S fuel' =>
      if String.eqb current "." then Some ("." :: dirs)
      else parentDirsLoop fuel' (Path.dirname current) (current :: dirs)
  end.

(** [getParentDirs(filePath, repoPath)] for the file that [segs] leads to
    from [repoPath]. *)
Definition getParentDirs (segs : list string) : option (list string) :=
  let relativePath := Path.rel segs in
  parentDirsLoop (S (S (String.length relativePath))) (Path.dirname relativePath) [].

(** Every path of [dirs] has the one before it for its [path.dirname],
    the first one [prev], and none of them is ["."]. *)
Fixpoint chained (prev : string) (dirs : list string) : bool :=
  match dirs with
  | [] => true
  | d :: rest =>
      String.eqb (Path.dirname d) prev && negb (String.eqb d ".") && chained d rest
  end.

(* ===================================================================== *)
(** ** code-parser: tags from tree-sitter captures                        *)
(* ===================================================================== *)

(** [hay.includes(needle)] *)
Fixpoint includes (needle hay : string) : bool :=
  startsWith needle hay
  || match hay with
     | String _ rest => includes needle rest
     | EmptyString => false
     end.

(** [s.split(sep)] for a separator of one character *)
Fixpoint split (sep : ascii) (s : string) : list string :=
  match s with
  | EmptyString => [EmptyString]
  | String c rest =>
      if Ascii.eqb c sep then EmptyString :: split sep rest
      else match split sep rest with
           | part :: parts => String c part :: parts
           | [] => [String c EmptyString]
           end
  end.

(** [s.substring(a, b)]: both ends are cut to the length of [s] and
    swapped when they come in the wrong order. *)
Definition substring (a b : nat) (s : string) : string :=
  let len := String.length s in
  let lo := Nat.min (Nat.min a b) len in
  let hi := Nat.min (Nat.max a b) len in
  String.substring lo (hi - lo) s.

Definition captureTypes : list string :=
  ["function"; "class"; "method"; "variable"; "constant"; "module"; "import"; "constructor"].

Definition extractTypeFromCaptureName (captureName : string) : string :=
  match List.find (fun part => bool_decide (part ∈ captureTypes)) (split "." captureName) with
  | Some typePart => if truthy typePart then typePart else "unknown"
  | None => "unknown"
  end.

(** A node of the tree-sitter tree, as far as [extractTags] reads it. *)
Record SyntaxNode := {
  syntaxText : string;
  startRow : nat;
  endRow : nat;
  startIndex : nat;
  endIndex : nat
}.

Record QueryCapture := {
  captureName : string;
  captureNode : SyntaxNode
}.

(** An element of what [query.captures(rootNode)] returns, read the way
    [extractTags] reads it: [captures] may be missing. *)
Record QueryMatch := {
  captures : option (list QueryCapture)
}.

Section ExtractTags.

(** What [shouldIgnoreFunctionCall] answers for a tree-sitter node. *)
Variable ignored : SyntaxNode -> bool.

(** One round of [for (const match of matches)]: the tag pushed, if any. *)
Definition extractTag (content filePath : string) (kind : TagKind) (m : QueryMatch)
    : option Tag :=
  match captures m with
  | None | Some [] => None
  | Some cs =>
      let nameCapture := List.find (fun c => includes "name" (captureName c)) cs in
      let scopeCapture :=
        List.find (fun c => includes "definition" (captureName c)
                            || includes "reference" (captureName c)) cs in
      match nameCapture, scopeCapture with
      | Some nc, Some sc =>
          let type := extractTypeFromCaptureName (captureName sc) in
          if String.eqb type "functionCall" && ignored (captureNode nc) then None
          else
            Some {| name := syntaxText (captureNode nc);
                    type := type;
                    kind := kind;
                    filePath := filePath;
                    targetFile := None;
                    startLine := startRow (captureNode sc);
                    endLine := endRow (captureNode sc);
                    text := Some (substring (startIndex (captureNode sc))
                                    (endIndex (captureNode sc)) content);
                    parent := None |}
      | _, _ => None
      end
  end.

(** [extractTags]; [query] is [None] for a value that is not truthy, and
    otherwise holds what [query.captures(rootNode)] returns. *)
Definition extractTags (content filePath : string) (query : option (list QueryMatch))
    (kind : TagKind) : list Tag :=
  match query with
  | None => []
  | Some matches => omap (extractTag content filePath kind) matches
  end.

End ExtractTags.

(* ===================================================================== *)
(** ** What the finished graph is checked for                             *)
(* ===================================================================== *)

(** Every edge joins two nodes of the graph. *)
Definition closed (g : Neo4jBuilder.GraphData) : Prop :=
  ∀ e, e ∈ Neo4jBuilder.edges g -> present g (sourceId e) ∧ present g (targetId e).

(** Every node of [g] is still a node of [g']. *)
Definition grows (g g' : Neo4jBuilder.GraphData) : Prop :=
  ∀ k, present g k -> present g' k.

(** Every node sits under its own id and carries the repository id. *)
Definition ownNodes (r : string) (g : Neo4jBuilder.GraphData) : Prop :=
  ∀ k n, Neo4jBuilder.nodes g !! k = Some n -> nodeId n = k ∧ nodeRepoId n = r.

(** Closed, with the repository node in place. *)
Definition rooted (md5 : string -> string) (r : string) (g : Neo4jBuilder.GraphData) : Prop :=
  closed g ∧ present g (Neo4jBuilder.rootId md5 r).

(** What a step of the directory walk leaves behind: a rooted graph that
    has kept the nodes it started from. *)
Definition leaves (md5 : string -> string) (r : string) (b : Neo4jBuilder.Build)
    (s : Neo4jBuilder.Step) : Prop :=
  match s with
  | Neo4jBuilder.Next b' | Neo4jBuilder.Caught b' =>
      rooted md5 r (Neo4jBuilder.graph b')
      ∧ grows (Neo4jBuilder.graph b) (Neo4jBuilder.graph b')
  | Neo4jBuilder.Stuck => True
  end.

(** A build none of whose nodes and buffered references has text. *)
Definition textless (b : Neo4jBuilder.Build) : Prop :=
  (∀ k n, Neo4jBuilder.nodes (Neo4jBuilder.graph b) !! k = Some n -> nodeText n = None)
  ∧ Forall (fun t => text t = None) (Neo4jBuilder.references b).

(* ===================================================================== *)
(** ** What the tags of a file are checked for                            *)
(* ===================================================================== *)

(** The scope a call is filed under. *)
Definition callScope (relPath : string) (l : Loc) (scopeName scopeType : string) : TagParent :=
  {| parentName := Some scopeName; parentType := scopeType;
     location := {| locFilePath := relPath; locStartLine := startOf l |} |}.

(** The shapes of tag the [enter] visitor builds for a file at [relPath]. *)
Inductive emitted (relPath : string) : Tag -> Prop :=
| em_class n l : emitted relPath (plainTag n "class" def relPath l None None)
| em_function n l : emitted relPath (plainTag n "function" def relPath l None None)
| em_method cc m l :
    emitted relPath (plainTag m "method" def relPath l None (Some (classParent relPath l cc)))
| em_static cc m l :
    emitted relPath (plainTag (showClass cc ++ "." ++ m) "staticMethod" def relPath l None
                       (Some (classParent relPath l cc)))
| em_private cc k l :
    emitted relPath (plainTag ("#" ++ k) "privateMethod" def relPath l None
                       (Some (classParent relPath l cc)))
| em_call_global fn l :
    emitted relPath (plainTag fn "functionCall" ref relPath l None
                       (Some (callScope relPath l "global" "function")))
| em_call_class fn l c :
    emitted relPath (plainTag fn "functionCall" ref relPath l None
                       (Some (callScope relPath l (c ++ "." ++ c) "method")))
| em_call_target fn l tf :
    emitted relPath (plainTag fn "functionCall" ref relPath l (Some tf) None)
| em_method_target nm l tf :
    emitted relPath (plainTag nm "methodCall" ref relPath l (Some tf) None)
| em_new n l : emitted relPath (plainTag n "constructorCall" ref relPath l None None).

(* ===================================================================== *)
(** ** What the in-memory graph is checked for                            *)
(* ===================================================================== *)

(** No node came into being as the mere end of an edge: every node
    carries data, and every edge joins two nodes. *)
Definition dataful (g : CodeGraphBuilder.MultiDiGraph) : Prop :=
  (∀ k v, CodeGraphBuilder.nodes g !! k = Some v -> is_Some v)
  ∧ ∀ e, e ∈ CodeGraphBuilder.edges g ->
         is_Some (CodeGraphBuilder.nodes g !! sourceId e)
         ∧ is_Some (CodeGraphBuilder.nodes g !! targetId e).

(** The node at [k] carries data. *)
Definition carries (g : CodeGraphBuilder.MultiDiGraph) (k : string) : Prop :=
  ∃ d, CodeGraphBuilder.nodes g !! k = Some (Some d).

(* ===================================================================== *)
(** ** The scope of a tag                                                 *)
(* ===================================================================== *)

(** No class is declared inside [n]. *)
Fixpoint classFree (n : Node) : bool :=
  let all := fix all (ns : list Node) : bool :=
    match ns with
    | [] => true
    | x :: rest => classFree x && all rest
    end in
  match n with
  | Identifier _ | StringLiteral _ | ImportDeclaration _ _ => true
  | MemberExpression o p => classFree o && classFree p
  | CallExpression _ c args | NewExpression _ c args => classFree c && all args
  | ThrowStatement a => classFree a
  | ClassDeclaration _ _ _ => false
  | FunctionDeclaration _ _ b | ClassPrivateMethod _ _ b | Other b => all b
  | ClassMethod _ _ k b => classFree k && all b
  end.

(** The parent of a tag built while [cc] is the current class: a method
    hangs from the class [cc]; a call that was not resolved to a file is
    filed under the method [C.C] when [cc] is a class [C] and under the
    function [global] otherwise; nothing else has a parent. *)
Definition filedUnder (cc : option string) (t : Tag) : Prop :=
  match parent t with
  | None =>
      type t ∈ ["function"; "methodCall"; "constructorCall"]
      ∨ (type t = "functionCall" ∧ is_Some (targetFile t))
  | Some p =>
      (type t ∈ ["method"; "staticMethod"; "privateMethod"]
       ∧ parentName p = cc ∧ parentType p = "class")
      ∨ (type t = "functionCall" ∧ targetFile t = None
         ∧ match cc with
           | Some c =>
               if truthy c
               then parentName p = Some (c ++ "." ++ c) ∧ parentType p = "method"
               else parentName p = Some "global" ∧ parentType p = "function"
           | None => parentName p = Some "global" ∧ parentType p = "function"
           end)
  end.

(** The walk [w] has gone on from [w0] under the class [cc]: the current
    class is [cc] and the tags added since are filed under it. *)
Definition walkedUnder (cc : option string) (w0 w : Walk) : Prop :=
  currentClass w = cc
  ∧ ∃ new, tags w = (tags w0 ++ new)%list ∧ Forall (filedUnder cc) new.

(* ===================================================================== *)
(** ** Ids before and after the digest                                    *)
(* ===================================================================== *)

(** With the identity in place of the digest, the id of a node is the
    string [generateNodeId] hashes for it.  A node and an edge of such a
    build, with their ids passed through [h]: *)
Definition hashNode (h : string -> string) (n : GraphNodeData) : GraphNodeData :=
  {| nodeId := h (nodeId n); nodeRepoId := nodeRepoId n; nodeName := nodeName n;
     nodeType := nodeType n; nodeFilePath := nodeFilePath n;
     nodeStartLine := nodeStartLine n; nodeEndLine := nodeEndLine n;
     nodeText := nodeText n; isDirectory := isDirectory n; isReference := isReference n |}.

Definition hashEdge (h : string -> string) (e : GraphEdgeData) : GraphEdgeData :=
  {| sourceId := h (sourceId e); targetId := h (targetId e);
     edgeType := edgeType e; edgeRepoId := edgeRepoId e |}.

(** [gm] is [g0] with every id passed through [h]. *)
Definition hashedGraph (h : string -> string) (g0 gm : Neo4jBuilder.GraphData) : Prop :=
  (∀ k n, Neo4jBuilder.nodes g0 !! k = Some n ->
          Neo4jBuilder.nodes gm !! h k = Some (hashNode h n))
  ∧ (∀ k', present gm k' -> ∃ k, k' = h k ∧ present g0 k)
  ∧ Neo4jBuilder.edges gm = map (hashEdge h) (Neo4jBuilder.edges g0).

Definition hashedBuild (h : string -> string) (b0 bm : Neo4jBuilder.Build) : Prop :=
  hashedGraph h (Neo4jBuilder.graph b0) (Neo4jBuilder.graph bm)
  ∧ Neo4jBuilder.definitions bm = Neo4jBuilder.definitions b0
  ∧ Neo4jBuilder.references bm = Neo4jBuilder.references b0
  ∧ Neo4jBuilder.modst bm = Neo4jBuilder.modst b0.

(** Every node id of [g] is in [F]. *)
Definition covered (F : string -> Prop) (g : Neo4jBuilder.GraphData) : Prop :=
  ∀ k, present g k -> F k.

(** A step of the directory walk with the digest does to the hashed
    build what the step with the identity does, provided the ids the
    latter leaves behind are in [F]. *)
Definition hashedStep (h : string -> string) (F : string -> Prop)
    (s0 sm : Neo4jBuilder.Step) : Prop :=
  match s0 with
  | Neo4jBuilder.Next b0 =>
      covered F (Neo4jBuilder.graph b0) ->
      ∃ bm, sm = Neo4jBuilder.Next bm ∧ hashedBuild h b0 bm
  | Neo4jBuilder.Caught b0 =>
      covered F (Neo4jBuilder.graph b0) ->
      ∃ bm, sm = Neo4jBuilder.Caught bm ∧ hashedBuild h b0 bm
  | Neo4jBuilder.Stuck => True
  end.

(** The same for one entry of a directory, wherever it is met. *)
Definition hashedEntry (h : string -> string) (F : string -> Prop) (G : gset string)
    (repo : RepoInfo) (e : FsEntry) : Prop :=
  ∀ dirSegs dirNodeId b0 bm,
    hashedBuild h b0 bm ->
    rooted (fun s => s) (repoId repo) (Neo4jBuilder.graph b0) ->
    present (Neo4jBuilder.graph b0) dirNodeId ->
    hashedStep h F (Neo4jBuilder.processEntry (fun s => s) G repo dirSegs dirNodeId e b0)
      (Neo4jBuilder.processEntry h G repo dirSegs (h dirNodeId) e bm).

(** The ids of a build before they are hashed, and a digest that keeps
    them apart: the build with the identity in place of the digest
    completes, and no two of its node ids have the same digest. *)
Definition distinctIds (md5 : string -> string) (G : gset string) (repo : RepoInfo)
    (fs : list FsEntry) (files : list (list string)) (m : ModuleState) : Prop :=
  ∃ g0 s0 m0,
    Neo4jBuilder.buildGraph (fun s => s) G repo fs files m = Completed (g0, s0, m0)
    ∧ NoDup (map md5 (map_to_list (Neo4jBuilder.viewNodes g0)).*1).

(** A repository as [cloneRepository] describes it: the URL is the id,
    and the local path is [path.join] of the output directory and a
    directory name, a relative path when the output directory is the
    default one. *)
Definition clonedRepo : RepoInfo :=
  {| repoId := "https://github.com/acme/app.git";
     localPath := "repo_map_output/app-5f2b9c1e" |}.

(* ===================================================================== *)
(** * Properties                                                          *)
(* ===================================================================== *)

(** ** The digest and the path functions on known values *)

Example md5_empty : MD5.md5_hex "" = "d41d8cd98f00b204e9800998ecf8427e".
Proof. vm_compute. reflexivity. Qed.

Example md5_abc : MD5.md5_hex "abc" = "900150983cd24fb0d6963f7d28e17f72".
Proof. vm_compute. reflexivity. Qed.

Example md5_fox :
  MD5.md5_hex "The quick brown fox jumps over the lazy dog"
  = "9e107d9d372bb6826bd81d3542a419d6".
Proof. vm_compute. reflexivity. Qed.

Example md5_two_blocks :
  MD5.md5_hex "aaaaaaaaaaaaaaaaaaaaaaaaaaaaaaaaaaaaaaaaaaaaaaaaaaaaaaaaaaaaaaaa"
  = "014842d480b571495a4a0363793f7367".
Proof. vm_compute. reflexivity. Qed.

Example md5_root : MD5.md5_hex "r1:repo:root" = "42b3eff97a42897c5575ac2ff637f4c1".
Proof. vm_compute. reflexivity. Qed.

Example dirname_nested : Path.dirname "src/lib/util.ts" = "src/lib".
Proof. reflexivity. Qed.

Example dirname_top : Path.dirname "a.ts" = ".".
Proof. reflexivity. Qed.

Example dirname_dot : Path.dirname "." = ".".
Proof. reflexivity. Qed.

Example dirname_slash : Path.dirname "/" = "/".
Proof. reflexivity. Qed.

Example dirname_doubled : Path.dirname "a//b" = "a/".
Proof. reflexivity. Qed.

Example dirname_rooted : Path.dirname "/a" = "/".
Proof. reflexivity. Qed.

Example basename_nested : Path.basename "src/lib/" = "lib".
Proof. reflexivity. Qed.

Example extname_ts : Path.extname "/repo/src/Util.TS" = ".TS".
Proof. reflexivity. Qed.

Example extname_hidden : Path.extname ".bashrc" = "".
Proof. reflexivity. Qed.

(** ** The tag extractor *)

Section NodeInduction.

Variable P : Node -> Prop.
Hypothesis HIdentifier : ∀ s, P (Identifier s).
Hypothesis HStringLiteral : ∀ s, P (StringLiteral s).
Hypothesis HMember : ∀ o p, P o -> P p -> P (MemberExpression o p).
Hypothesis HCall : ∀ l c args, P c -> Forall P args -> P (CallExpression l c args).
Hypothesis HNew : ∀ l c args, P c -> Forall P args -> P (NewExpression l c args).
Hypothesis HThrow : ∀ a, P a -> P (ThrowStatement a).
Hypothesis HImport : ∀ s specs, P (ImportDeclaration s specs).
Hypothesis HClass : ∀ l i b, Forall P b -> P (ClassDeclaration l i b).
Hypothesis HFunction : ∀ l i b, Forall P b -> P (FunctionDeclaration l i b).
Hypothesis HMethod : ∀ l s k b, P k -> Forall P b -> P (ClassMethod l s k b).
Hypothesis HPrivate : ∀ l k b, Forall P b -> P (ClassPrivateMethod l k b).
Hypothesis HOther : ∀ b, Forall P b -> P (Other b).

Fixpoint Node_nested_ind (n : Node) : P n :=
  let all := fix all (ns : list Node) : Forall P ns :=
    match ns with
    | [] => @List.Forall_nil _ P
    | x :: rest => @List.Forall_cons _ P x rest (Node_nested_ind x) (all rest)
    end in
  match n with
  | Identifier s => HIdentifier s
  | StringLiteral s => HStringLiteral s
  | MemberExpression o p => HMember o p (Node_nested_ind o) (Node_nested_ind p)
  | CallExpression l c args => HCall l c args (Node_nested_ind c) (all args)
  | NewExpression l c args => HNew l c args (Node_nested_ind c) (all args)
  | ThrowStatement a => HThrow a (Node_nested_ind a)
  | ImportDeclaration s specs => HImport s specs
  | ClassDeclaration l i b => HClass l i b (all b)
  | FunctionDeclaration l i b => HFunction l i b (all b)
  | ClassMethod l s k b => HMethod l s k b (Node_nested_ind k) (all b)
  | ClassPrivateMethod l k b => HPrivate l k b (all b)
  | Other b => HOther b (all b)
  end.

End NodeInduction.

Lemma traverse_unfold G rp n w :
  traverse G rp n w =
  exit n
    (match n with
     | Identifier _ | StringLiteral _ | ImportDeclaration _ _ => enter G rp n w
     | MemberExpression o p => traverse G rp p (traverse G rp o (enter G rp n w))
     | CallExpression _ c args | NewExpression _ c args =>
         traverseAll G rp args (traverse G rp c (enter G rp n w))
     | ThrowStatement a => traverse G rp a (enter G rp n w)
     | ClassDeclaration _ _ b | FunctionDeclaration _ _ b | ClassPrivateMethod _ _ b
     | Other b => traverseAll G rp b (enter G rp n w)
     | ClassMethod _ _ k b => traverseAll G rp b (traverse G rp k (enter G rp n w))
     end).
Proof.
  assert (Hall : ∀ ns w',
    (fix all (ns : list Node) (w : Walk) : Walk :=
       match ns with [] => w | x :: rest => all rest (traverse G rp x w) end) ns w'
    = traverseAll G rp ns w').
  { induction ns as [|x ns IH]; intros w'; [reflexivity|]. simpl. apply IH. }
  destruct n; simpl; rewrite ?Hall; reflexivity.
Qed.



(** C2 (as the code has it): a [new Error(...)], thrown or bare, a plain
    call of a name in the globals set, and a member call whose object and
    property are both plain identifiers with one of the two names in the
    set, are passed over by [enter]: no tag is pushed and nothing else
    changes. *)
Theorem filtered_builtin_emits_nothing :
  ∀ G relPath node w, filteredBuiltin G node -> enter G relPath node w = w.
Proof.
  intros G relPath node w H. destruct H as [l args|l args|l n args Hn|l o p args Hop]; simpl.
  - reflexivity.
  - reflexivity.
  - unfold isGlobal. rewrite bool_decide_eq_true_2 by exact Hn. reflexivity.
  - unfold isGlobal. destruct Hop as [Ho|Hp].
    + rewrite (bool_decide_eq_true_2 _ Ho). reflexivity.
    + rewrite (bool_decide_eq_true_2 _ Hp). rewrite orb_true_r. reflexivity.
Qed.

Lemma filtered_builtin_emits_nothing_witness :
  filteredBuiltin knownGlobals consoleLogCall
  ∧ enter knownGlobals "a.ts" consoleLogCall (startWalk freshModule) = startWalk freshModule.
Proof.
  assert (H : filteredBuiltin knownGlobals consoleLogCall).
  { apply fb_member. left. vm_compute. reflexivity. }
  split; [exact H | exact (filtered_builtin_emits_nothing _ _ _ _ H)].
Defined.

(** C2, refuted as stated: [a.b.alert()] is a member call whose property
    name is a global, and [arr.push(x)] is a call of a standard collection
    method; each of them yields a reference tag. *)
Lemma builtin_calls_still_tagged :
  claimedBuiltin knownGlobals deepAlertCall
  ∧ map (fun t => (name t, type t, kind t))
        (tags (enter knownGlobals "a.ts" deepAlertCall (startWalk freshModule)))
    = [("alert", "functionCall", ref)]
  ∧ map (fun t => (name t, type t, kind t))
        (tags (enter knownGlobals "a.ts" pushCall (startWalk freshModule)))
    = [("push", "functionCall", ref)].
Proof.
  split; [|split].
  - apply cb_property. vm_compute. reflexivity.
  - vm_compute. reflexivity.
  - vm_compute. reflexivity.
Qed.

(** The first scenario: [foo] is tagged as a definition, [bar()] as a
    reference, and the logging call leaves no tag. *)
Example scenario_one_tags :
  match parseFile knownGlobals freshModule "/repo/a.ts" "a.ts" (Parsed scenarioOne) with
  | (Resolved ts, m) =>
      map (fun t => (name t, type t, kind t, startLine t)) ts
      = [("foo", "function", def, 1); ("bar", "functionCall", ref, 3)]
      ∧ m = freshModule
  | _ => False
  end.
Proof. vm_compute. split; reflexivity. Qed.

(** ** The view handed to persistence *)

(** C10: on the view returned by the Neo4j builder, [addNode] and [addEdge]
    throw for every argument and leave the object as it was, so the four
    readers report what they reported before. *)
Theorem view_is_read_only :
  ∀ (g : Neo4jBuilder.Neo4jGraph) nid data s t edge,
    let g1 := fst (Neo4jBuilder.addNode g nid data) in
    let g2 := fst (Neo4jBuilder.addEdge g s t edge) in
    (∃ msg, snd (Neo4jBuilder.addNode g nid data) = inr msg)
    ∧ (∃ msg, snd (Neo4jBuilder.addEdge g s t edge) = inr msg)
    ∧ Neo4jBuilder.viewNodes g1 = Neo4jBuilder.viewNodes g
    ∧ Neo4jBuilder.viewEdges g1 = Neo4jBuilder.viewEdges g
    ∧ Neo4jBuilder.viewNodes g2 = Neo4jBuilder.viewNodes g
    ∧ Neo4jBuilder.viewEdges g2 = Neo4jBuilder.viewEdges g
    ∧ Neo4jBuilder.getNodes g1 = Neo4jBuilder.getNodes g
    ∧ Neo4jBuilder.getEdges g1 = Neo4jBuilder.getEdges g
    ∧ Neo4jBuilder.numberOfNodes g1 = Neo4jBuilder.numberOfNodes g
    ∧ Neo4jBuilder.numberOfEdges g1 = Neo4jBuilder.numberOfEdges g
    ∧ Neo4jBuilder.getNodes g2 = Neo4jBuilder.getNodes g
    ∧ Neo4jBuilder.getEdges g2 = Neo4jBuilder.getEdges g
    ∧ Neo4jBuilder.numberOfNodes g2 = Neo4jBuilder.numberOfNodes g
    ∧ Neo4jBuilder.numberOfEdges g2 = Neo4jBuilder.numberOfEdges g.
Proof.
  intros g nid data s t edge g1 g2. subst g1 g2. simpl.
  split; [eexists; reflexivity|]. split; [eexists; reflexivity|].
  repeat split; reflexivity.
Qed.

(** ** Runs of the builders on sample repositories *)

Lemma no_outgoing_unreachable es a b :
  a ≠ b -> Forall (fun e => sourceId e ≠ a) es -> ¬ reachable es a b.
Proof.
  intros Hab Hout Hr. apply rtc_inv in Hr as [->|(y & (e & He & _ & Hs & _) & _)].
  - congruence.
  - rewrite Forall_forall in Hout. exact (Hout e He Hs).
Qed.

(** C1, at the failing input: [a.ts] defines [helper], [b.ts] calls it, and
    the finished graph has neither a reference node nor a References edge;
    the one buffered reference is counted as having no definition. *)
Theorem helper_call_never_linked :
  match sampleBuild helperTree helperFiles with
  | Completed (g, s, _) =>
      filter (fun e => isReferences e = true) (Neo4jBuilder.getEdges g) = []
      ∧ filter (fun n => isReference n = Some true) (Neo4jBuilder.getNodes g) = []
      ∧ Neo4jBuilder.resolvedCount s = 0
      ∧ Neo4jBuilder.missingDefinitions s = 1
  | _ => False
  end.
Proof. vm_compute. repeat split; reflexivity. Qed.


Lemma noOutgoing_unreachable es a b :
  a ≠ b -> noOutgoing es a = true -> ¬ reachable es a b.
Proof.
  intros Hab Hout. apply no_outgoing_unreachable; [exact Hab|].
  apply Forall_forall. intros e He Hs.
  unfold noOutgoing in Hout. rewrite forallb_forall in Hout.
  specialize (Hout e (proj1 (list_elem_of_In _ _) He)).
  apply negb_true_iff, String.eqb_neq in Hout. contradiction.
Qed.

Lemma noIncoming_unreachable es a b :
  a ≠ b -> noIncoming es b = true -> ¬ reachable es a b.
Proof.
  intros Hab Hin Hr. apply rtc_inv_r in Hr as [->|(y & _ & (e & He & _ & _ & Ht))].
  - congruence.
  - unfold noIncoming in Hin. rewrite forallb_forall in Hin.
    specialize (Hin e (proj1 (list_elem_of_In _ _) He)).
    apply negb_true_iff, String.eqb_neq in Hin. contradiction.
Qed.

(** C5, at the failing input: the two file nodes hang below the node of
    [folder:.], a second node of type REPOSITORY, so from the
    repository-root node [repo:root] no file node is reached; and were the
    node of [folder:.] taken for the root, the node of [repo:root] would be
    the one that is not reached. *)
Theorem files_not_below_repository_root :
  match sampleBuild helperTree helperFiles with
  | Completed (g, _, _) =>
      let root := Neo4jBuilder.rootId MD5.md5_hex "r1" in
      let top := Neo4jBuilder.folderId MD5.md5_hex "r1" "." in
      let file := Neo4jBuilder.fileId MD5.md5_hex "r1" "a.ts" in
      is_Some (Neo4jBuilder.viewNodes g !! root)
      ∧ is_Some (Neo4jBuilder.viewNodes g !! file)
      ∧ ¬ reachable (Neo4jBuilder.viewEdges g) root file
      ∧ ¬ hierarchyConnected g root
      ∧ ¬ reachable (Neo4jBuilder.viewEdges g) top root
      ∧ ¬ hierarchyConnected g top
  | _ => False
  end.
Proof.
  assert (Hcheck :
    match sampleBuild helperTree helperFiles with
    | Completed (g, _, _) =>
        let root := Neo4jBuilder.rootId MD5.md5_hex "r1" in
        let top := Neo4jBuilder.folderId MD5.md5_hex "r1" "." in
        let file := Neo4jBuilder.fileId MD5.md5_hex "r1" "a.ts" in
        has (Neo4jBuilder.viewNodes g) root && has (Neo4jBuilder.viewNodes g) file
        && negb (String.eqb root file) && noOutgoing (Neo4jBuilder.viewEdges g) root
        && negb (String.eqb top root) && noIncoming (Neo4jBuilder.viewEdges g) root
    | _ => false
    end = true) by (vm_compute; reflexivity).
  destruct (sampleBuild helperTree helperFiles) as [[[g s] m]| |]; try discriminate.
  cbv zeta in *.
  set (root := Neo4jBuilder.rootId MD5.md5_hex "r1") in *.
  set (top := Neo4jBuilder.folderId MD5.md5_hex "r1" ".") in *.
  set (file := Neo4jBuilder.fileId MD5.md5_hex "r1" "a.ts") in *.
  apply andb_true_iff in Hcheck as [Hcheck Hinc].
  apply andb_true_iff in Hcheck as [Hcheck Htop].
  apply andb_true_iff in Hcheck as [Hcheck Hout].
  apply andb_true_iff in Hcheck as [Hcheck Hne].
  apply andb_true_iff in Hcheck as [Hroot Hfile].
  apply bool_decide_eq_true_1 in Hroot, Hfile.
  apply negb_true_iff, String.eqb_neq in Hne, Htop.
  pose proof (noOutgoing_unreachable _ _ _ Hne Hout) as Hno.
  pose proof (noIncoming_unreachable _ _ _ Htop Hinc) as Hno'.
  split; [exact Hroot|]. split; [exact Hfile|]. split; [exact Hno|].
  split; [|split; [exact Hno'|]].
  - intros Hall. apply Hno. apply Hall; [exact Hfile | congruence].
  - intros Hall. apply Hno'. apply Hall; [exact Hroot | congruence].
Qed.

(** C7, at the failing inputs: a listed file with an extension the parser
    does not handle leaves [buildGraph] waiting forever in both builders,
    and a listed source file that fails to parse outside the directory walk
    makes the Neo4j builder throw. *)
Theorem listed_file_stops_the_build :
  sampleBuild readmeTree readmeFiles = Hangs
  ∧ CodeGraphBuilder.buildGraph MD5.md5_hex knownGlobals sampleRepo readmeTree readmeFiles
      freshModule = Hangs
  ∧ sampleBuild hiddenTree hiddenFiles = Threw.
Proof. repeat split; vm_compute; reflexivity. Qed.

(** C9, at the failing input: [a.ts] exports [helper], [b.ts] imports and
    calls it; the call is tagged once, without [targetFile], and neither
    the export map nor the import resolver has an entry afterwards. *)
Theorem imported_call_has_no_target_file :
  let '(ts, m) := parseTwo knownGlobals exportingProgram importingProgram in
  map (fun t => (name t, type t, targetFile t)) ts = [("helper", "functionCall", None)]
  ∧ EXPORT_MAP m = ∅ ∧ IMPORT_RESOLVER m = ∅.
Proof. vm_compute. repeat split; reflexivity. Qed.

(** ** What a traversal adds *)

Ltac in_list :=
  repeat first [apply list_elem_of_here | apply list_elem_of_further].

Ltac kinded_now := unfold kinded, definitionTypes, referenceTypes; simpl; in_list.

Lemma has_empty {V} (k : string) : has (∅ : gmap string V) k = false.
Proof.
  unfold has. apply bool_decide_eq_false_2. rewrite lookup_empty. intros [x Hx]. discriminate.
Qed.

Lemma trackImport_dormant src w specs :
  EXPORT_MAP (modul w) = ∅ -> fold_left (trackImport src) specs w = w.
Proof.
  intros HE. induction specs as [|s specs IH]; [reflexivity|]. simpl.
  unfold trackImport at 2. rewrite HE, lookup_empty. exact IH.
Qed.

Lemma resolveCall_dormant rp l callee w :
  dormant (modul w) -> wellFormed callee = true -> resolveCall rp l callee w = w.
Proof.
  intros (HD & HE & HI) Hwf. destruct callee; try reflexivity; simpl.
  - rewrite HI, lookup_empty, HD, has_empty. simpl in Hwf.
    apply negb_true_iff in Hwf. rewrite Hwf. reflexivity.
  - rewrite HD, has_empty. reflexivity.
Qed.

(** One node entered: the tags seen so far stay, at most new ones follow,
    each of a type that goes with its kind; with the tables empty the
    module is left alone and no new tag names a target file. *)
Lemma enter_adds G rp n w :
  ∃ new, tags (enter G rp n w) = (tags w ++ new)%list
         ∧ Forall kinded new
         ∧ (dormant (modul w) -> wellFormed n = true ->
            modul (enter G rp n w) = modul w ∧ Forall untargeted new).
Proof.
  assert (Hnone : ∃ new, tags w = (tags w ++ new)%list ∧ Forall kinded new
            ∧ (dormant (modul w) -> wellFormed n = true ->
               modul w = modul w ∧ Forall untargeted new)).
  { exists []. rewrite app_nil_r. repeat split; constructor. }
  assert (Hone : ∀ t, kinded t -> untargeted t ->
            ∃ new, (tags w ++ [t])%list = (tags w ++ new)%list ∧ Forall kinded new
              ∧ (dormant (modul w) -> wellFormed n = true ->
                 modul w = modul w ∧ Forall untargeted new)).
  { intros t Hk Hu. exists [t]. repeat split; repeat constructor; assumption. }
  destruct n as [s|s|o p|l c args|l c args|a|src specs|l i b|l i b|l st k b|l k b|b];
    try exact Hnone.
  - (* call *)
    cbn [enter]. destruct (shouldIgnoreFunctionCall G (CallExpression l c args));
      [exact Hnone|].
    set (t0 := plainTag _ "functionCall" ref rp l None _).
    set (w0 := pushTag t0 w).
    destruct c as [cn| |obj prop| | | | | | | | | ]; try (apply Hone; [kinded_now | reflexivity]).
    + (* identifier callee *)
      unfold resolveCall.
      destruct (has (DEFINED_SYMBOLS (modul w0)) _ || includesHash _) eqn:Hres.
      2:{ apply Hone; [kinded_now | reflexivity]. }
      match goal with |- context [match ?T with Some _ => _ | None => _ end] =>
        destruct T as [tf|] eqn:Htf end.
      2:{ apply Hone; [kinded_now | reflexivity]. }
      destruct (truthy tf && negb _) eqn:Hfresh.
      2:{ apply Hone; [kinded_now | reflexivity]. }
      exists [t0; plainTag cn "functionCall" ref rp l (Some tf) None]. simpl.
      rewrite <- app_assoc. split; [reflexivity|]. split.
      { repeat constructor; kinded_now. }
      intros Hd Hwf. exfalso.
      pose proof (resolveCall_dormant rp l (Identifier cn) w0 Hd) as Hq.
      simpl in Hwf. apply andb_true_iff in Hwf as [Hwf _].
      specialize (Hq Hwf). unfold resolveCall in Hq. rewrite Hres, Htf, Hfresh in Hq.
      apply (f_equal tags) in Hq. simpl in Hq.
      apply (f_equal length) in Hq. rewrite !length_app in Hq. simpl in Hq. lia.
    + (* member callee *)
      unfold resolveCall.
      destruct (has (DEFINED_SYMBOLS (modul w0)) _) eqn:Hres.
      2:{ apply Hone; [kinded_now | reflexivity]. }
      match goal with |- context [match ?T with Some _ => _ | None => _ end] =>
        destruct T as [tf|] eqn:Htf end.
      2:{ apply Hone; [kinded_now | reflexivity]. }
      destruct (truthy tf && negb _) eqn:Hfresh.
      2:{ apply Hone; [kinded_now | reflexivity]. }
      eexists [t0; plainTag _ "methodCall" ref rp l (Some tf) None]. simpl.
      rewrite <- app_assoc. split; [reflexivity|]. split.
      { repeat constructor; kinded_now. }
      intros (HD & _) _. exfalso. simpl in Hres. rewrite HD, has_empty in Hres. discriminate.
  - (* new *)
    cbn [enter]. destruct c; try exact Hnone.
    destruct (shouldIgnoreFunctionCall G _); [exact Hnone|].
    apply Hone; [kinded_now | reflexivity].
  - (* import *)
    cbn [enter]. exists []. rewrite app_nil_r.
    assert (Hkeep : tags (fold_left (trackImport src) specs w) = tags w).
    { clear. revert w. induction specs as [|s specs IH]; intros w; [reflexivity|]. simpl.
      rewrite IH. unfold trackImport. destruct (EXPORT_MAP (modul w) !! src); [|reflexivity].
      destruct (bool_decide _); reflexivity. }
    split; [exact Hkeep|]. split; [constructor|].
    intros (_ & HE & _) _. rewrite trackImport_dormant by exact HE. split; constructor.
  - (* class *)
    cbn [enter]. destruct i as [cn|]; [|exact Hnone].
    exists [plainTag cn "class" def rp l None None]. simpl.
    repeat split; repeat constructor; kinded_now.
  - (* function *)
    cbn [enter]. destruct i as [fn|]; [|exact Hnone].
    destruct (truthy fn); [|exact Hnone].
    apply Hone; [kinded_now | reflexivity].
  - (* method *)
    cbn [enter]. apply Hone; [|reflexivity].
    destruct st; kinded_now.
  - (* private method *)
    cbn [enter]. apply Hone; [kinded_now | reflexivity].
Qed.


Lemma Adds_compose ok1 ok2 f g :
  Adds ok1 f -> Adds ok2 g -> Adds (ok1 && ok2) (fun w => g (f w)).
Proof.
  intros Hf Hg w. destruct (Hf w) as (n1 & E1 & K1 & D1).
  destruct (Hg (f w)) as (n2 & E2 & K2 & D2).
  exists (n1 ++ n2)%list. rewrite E2, E1, app_assoc. split; [reflexivity|].
  split; [apply Forall_app; split; assumption|].
  intros Hd Hok. apply andb_true_iff in Hok as [Hok1 Hok2].
  destruct (D1 Hd Hok1) as [M1 U1]. rewrite <- M1 in Hd.
  destruct (D2 Hd Hok2) as [M2 U2]. split; [congruence|].
  apply Forall_app; split; assumption.
Qed.

Lemma Adds_weaken ok ok' f : (ok' = true -> ok = true) -> Adds ok f -> Adds ok' f.
Proof.
  intros Himp Hf w. destruct (Hf w) as (n & E & K & D). exists n.
  split; [exact E|]. split; [exact K|]. intros Hd Hok. exact (D Hd (Himp Hok)).
Qed.

Lemma Adds_exit n : Adds true (exit n).
Proof.
  intros w. exists []. rewrite app_nil_r.
  destruct n; simpl; repeat split; constructor.
Qed.

Lemma Adds_enter G rp n : Adds (wellFormed n) (enter G rp n).
Proof. intros w. apply enter_adds. Qed.

Lemma Adds_all G rp ns :
  Forall (fun n => Adds (wellFormed n) (traverse G rp n)) ns ->
  Adds (forallb wellFormed ns) (traverseAll G rp ns).
Proof.
  induction 1 as [|n ns Hn _ IH].
  - intros w. exists []. rewrite app_nil_r. simpl. repeat split; constructor.
  - simpl. exact (Adds_compose _ _ _ _ Hn IH).
Qed.

Lemma wellFormed_unfold n :
  wellFormed n =
  match n with
  | Identifier s => negb (includesHash s)
  | StringLiteral _ | ImportDeclaration _ _ => true
  | MemberExpression o p => wellFormed o && wellFormed p
  | CallExpression _ c args | NewExpression _ c args => wellFormed c && forallb wellFormed args
  | ThrowStatement a => wellFormed a
  | ClassDeclaration _ _ b | FunctionDeclaration _ _ b | ClassPrivateMethod _ _ b
  | Other b => forallb wellFormed b
  | ClassMethod _ _ k b => wellFormed k && forallb wellFormed b
  end.
Proof. destruct n; reflexivity. Qed.

Lemma Adds_seq ok f g : Adds ok f -> Adds ok g -> Adds ok (fun w => g (f w)).
Proof.
  intros Hf Hg. eapply Adds_weaken; [|exact (Adds_compose _ _ _ _ Hf Hg)].
  intros ->. reflexivity.
Qed.

Lemma Adds_then_exit ok f n : Adds ok f -> Adds ok (fun w => exit n (f w)).
Proof.
  intros Hf. apply (Adds_seq ok f (exit n)); [exact Hf|].
  eapply Adds_weaken; [|apply Adds_exit]. reflexivity.
Qed.

Lemma Adds_ext ok f g : (∀ w, f w = g w) -> Adds ok g -> Adds ok f.
Proof. intros E Hg w. rewrite E. apply Hg. Qed.

Lemma Adds_traverse G rp n : Adds (wellFormed n) (traverse G rp n).
Proof.
  induction n as [s|s|o p IHo IHp|l c args IHc IHargs|l c args IHc IHargs|a IHa|src specs
                 |l i b IHb|l i b IHb|l st k b IHk IHb|l k b IHb|b IHb]
    using Node_nested_ind;
    (eapply Adds_ext; [intros w; apply traverse_unfold|]); cbv beta iota;
    apply Adds_then_exit.
  - apply Adds_enter.
  - apply Adds_enter.
  - apply (Adds_seq _ (fun w => traverse G rp o (enter G rp (MemberExpression o p) w))
             (traverse G rp p)).
    + apply (Adds_seq _ (enter G rp (MemberExpression o p)) (traverse G rp o));
        [apply Adds_enter|].
      eapply Adds_weaken; [|exact IHo]. rewrite (wellFormed_unfold (MemberExpression o p)).
      intros H. apply andb_true_iff in H as [H1 H2]. exact H1.
    + eapply Adds_weaken; [|exact IHp]. rewrite (wellFormed_unfold (MemberExpression o p)).
      intros H. apply andb_true_iff in H as [H1 H2]. exact H2.
  - apply (Adds_seq _ (fun w => traverse G rp c (enter G rp (CallExpression l c args) w))
             (traverseAll G rp args)).
    + apply (Adds_seq _ (enter G rp (CallExpression l c args)) (traverse G rp c));
        [apply Adds_enter|].
      eapply Adds_weaken; [|exact IHc]. rewrite (wellFormed_unfold (CallExpression l c args)).
      intros H. apply andb_true_iff in H as [H1 H2]. exact H1.
    + eapply Adds_weaken; [|apply Adds_all; exact IHargs].
      rewrite (wellFormed_unfold (CallExpression l c args)).
      intros H. apply andb_true_iff in H as [H1 H2]. exact H2.
  - apply (Adds_seq _ (fun w => traverse G rp c (enter G rp (NewExpression l c args) w))
             (traverseAll G rp args)).
    + apply (Adds_seq _ (enter G rp (NewExpression l c args)) (traverse G rp c));
        [apply Adds_enter|].
      eapply Adds_weaken; [|exact IHc]. rewrite (wellFormed_unfold (NewExpression l c args)).
      intros H. apply andb_true_iff in H as [H1 H2]. exact H1.
    + eapply Adds_weaken; [|apply Adds_all; exact IHargs].
      rewrite (wellFormed_unfold (NewExpression l c args)).
      intros H. apply andb_true_iff in H as [H1 H2]. exact H2.
  - apply (Adds_seq _ (enter G rp (ThrowStatement a)) (traverse G rp a));
      [apply Adds_enter | exact IHa].
  - apply Adds_enter.
  - apply (Adds_seq _ (enter G rp (ClassDeclaration l i b)) (traverseAll G rp b));
      [apply Adds_enter | apply Adds_all; exact IHb].
  - apply (Adds_seq _ (enter G rp (FunctionDeclaration l i b)) (traverseAll G rp b));
      [apply Adds_enter | apply Adds_all; exact IHb].
  - apply (Adds_seq _ (fun w => traverse G rp k (enter G rp (ClassMethod l st k b) w))
             (traverseAll G rp b)).
    + apply (Adds_seq _ (enter G rp (ClassMethod l st k b)) (traverse G rp k));
        [apply Adds_enter|].
      eapply Adds_weaken; [|exact IHk]. rewrite (wellFormed_unfold (ClassMethod l st k b)).
      intros H. apply andb_true_iff in H as [H1 H2]. exact H1.
    + eapply Adds_weaken; [|apply Adds_all; exact IHb].
      rewrite (wellFormed_unfold (ClassMethod l st k b)).
      intros H. apply andb_true_iff in H as [H1 H2]. exact H2.
  - apply (Adds_seq _ (enter G rp (ClassPrivateMethod l k b)) (traverseAll G rp b));
      [apply Adds_enter | apply Adds_all; exact IHb].
  - apply (Adds_seq _ (enter G rp (Other b)) (traverseAll G rp b));
      [apply Adds_enter | apply Adds_all; exact IHb].
Qed.

Lemma traverseAll_adds G rp ns : Adds (forallb wellFormed ns) (traverseAll G rp ns).
Proof. apply Adds_all. apply Forall_forall. intros n _. apply Adds_traverse. Qed.

(** Tags of one file: every one of a type that goes with its kind. *)
Lemma parseFile_kinded G m path rp c ts m' :
  parseFile G m path rp c = (Resolved ts, m') -> Forall kinded ts.
Proof.
  unfold parseFile. destruct c as [| |program]; try (destruct (supportedExtension path)); try discriminate.
  intros [= <- _]. destruct (traverseAll_adds G rp program (startWalk m)) as (new & E & K & _).
  unfold startWalk in E. rewrite E. exact K.
Qed.

(** With its tables empty the parser module is handed back as it was, and
    no tag names a target file. *)
Lemma parseFile_dormant G m path rp c :
  dormant m -> wellFormedContent c = true ->
  snd (parseFile G m path rp c) = m
  ∧ match fst (parseFile G m path rp c) with
    | Resolved ts => Forall untargeted ts
    | _ => True
    end.
Proof.
  intros Hd Hwf. unfold parseFile.
  destruct c as [| |program]; try (destruct (supportedExtension path)); simpl; try (split; [reflexivity|exact I]).
  destruct (traverseAll_adds G rp program (startWalk m)) as (new & E & _ & D).
  destruct (D Hd Hwf) as [M U]. unfold startWalk in *. simpl in *.
  split; [exact M|]. rewrite E. exact U.
Qed.

(** ** Invariants of the Neo4j builder *)

Section EntryInduction.

Variable P : FsEntry -> Prop.
Hypothesis HFile : ∀ n sz c, P (FsFile n sz c).
Hypothesis HDir : ∀ n l sub, Forall P sub -> P (FsDir n l sub).
Hypothesis HOther : ∀ n, P (FsOther n).
Hypothesis HBroken : ∀ n, P (FsBroken n).

Fixpoint FsEntry_nested_ind (e : FsEntry) : P e :=
  match e with
  | FsFile n sz c => HFile n sz c
  | FsDir n l sub =>
      HDir n l sub
        ((fix all (es : list FsEntry) : Forall P es :=
            match es with
            | [] => @List.Forall_nil _ P
            | x :: rest => @List.Forall_cons _ P x rest (FsEntry_nested_ind x) (all rest)
            end) sub)
  | FsOther n => HOther n
  | FsBroken n => HBroken n
  end.

End EntryInduction.

Lemma everyContent_dir C n l sub :
  everyContent C (FsDir n l sub) = forallb (everyContent C) sub.
Proof. simpl. induction sub as [|x sub IH]; [reflexivity|]. simpl. rewrite IH. reflexivity. Qed.


Section BuilderInvariant.

Import Neo4jBuilder.

Variable md5 : string -> string.
Variable G : gset string.
Variable repo : RepoInfo.

(** The property kept and the test every file content is known to pass. *)
Variable Inv : Build -> Prop.
Variable C : FileContent -> bool.

Hypothesis I_open : ∀ segs entry b,
  Inv b -> Inv (openDirectory md5 repo (segs ++ [entry]) (folderId md5 (repoId repo) (relativeDir segs)) b).
Hypothesis I_file : ∀ segs entry c b b',
  C c = true -> Inv b ->
  processFile md5 G repo (segs ++ [entry]) c (folderId md5 (repoId repo) (relativeDir segs)) b
    = Some b' -> Inv b'.


Lemma processEntry_unfold_dir dirSegs dirNodeId entry listable sub b :
  processEntry md5 G repo dirSegs dirNodeId (FsDir entry listable sub) b =
  if startsWithDot entry || String.eqb entry "node_modules" then Next b
  else
    let segs := (dirSegs ++ [entry])%list in
    let b1 := openDirectory md5 repo segs dirNodeId b in
    if listable then
      match processEntries md5 G repo segs (folderId md5 (repoId repo) (relativeDir segs)) sub b1 with
      | Next b' | Caught b' => Next b'
      | Stuck => Stuck
      end
    else Next b1.
Proof.
  simpl. destruct (startsWithDot entry || String.eqb entry "node_modules"); [reflexivity|].
  destruct listable; [|reflexivity].
  match goal with |- match ?L with _ => _ end = match ?R with _ => _ end =>
    assert (E : L = R); [|rewrite E; reflexivity] end.
  generalize (openDirectory md5 repo (dirSegs ++ [entry]) dirNodeId b).
  induction sub as [|x sub IH]; intros b0; [reflexivity|]. simpl.
  destruct (processEntry md5 G repo _ _ x b0); try reflexivity. apply IH.
Qed.

Lemma processEntry_keeps e :
  everyContent C e = true ->
  ∀ dirSegs b, Inv b ->
    keeps Inv (processEntry md5 G repo dirSegs (folderId md5 (repoId repo) (relativeDir dirSegs)) e b).
Proof.
  induction e as [n sz c|n l sub IH|n|n] using FsEntry_nested_ind; intros Hc dirSegs b Hb.
  - simpl. destruct (sourceExtension n); [|exact Hb].
    destruct (processFile _ _ _ _ _ _ _) as [b'|] eqn:E; [|exact I].
    simpl. exact (I_file _ _ _ _ _ Hc Hb E).
  - rewrite processEntry_unfold_dir.
    destruct (startsWithDot n || String.eqb n "node_modules"); [exact Hb|]. cbv zeta.
    pose proof (I_open dirSegs n b Hb) as Hb1.
    destruct l; [|exact Hb1].
    rewrite everyContent_dir in Hc.
    set (segs := (dirSegs ++ [n])%list) in *.
    generalize dependent (openDirectory md5 repo segs
      (folderId md5 (repoId repo) (relativeDir dirSegs)) b).
    clear Hb. induction IH as [|x sub Hx _ IHsub]; intros b1 Hb1; [exact Hb1|].
    simpl in Hc. apply andb_true_iff in Hc as [Hcx Hcs]. simpl.
    pose proof (Hx Hcx segs b1 Hb1) as Hstep.
    destruct (processEntry md5 G repo segs _ x b1) as [b2|b2|]; simpl in *.
    + exact (IHsub Hcs b2 Hstep).
    + exact Hstep.
    + exact I.
  - exact Hb.
  - exact Hb.
Qed.

Lemma processEntries_keeps es :
  forallb (everyContent C) es = true ->
  ∀ dirSegs b, Inv b ->
    keeps Inv (processEntries md5 G repo dirSegs (folderId md5 (repoId repo) (relativeDir dirSegs)) es b).
Proof.
  induction es as [|x es IH]; intros Hc dirSegs b Hb; [exact Hb|].
  simpl in Hc. apply andb_true_iff in Hc as [Hcx Hcs]. simpl.
  pose proof (processEntry_keeps x Hcx dirSegs b Hb) as Hstep.
  destruct (processEntry md5 G repo dirSegs _ x b) as [b2|b2|]; simpl in *.
  - exact (IH Hcs dirSegs b2 Hstep).
  - exact Hstep.
  - exact I.
Qed.

Hypothesis I_root : ∀ parent b, Inv b -> Inv (openDirectory md5 repo [] parent b).

Lemma processDirectory_keeps fs parent b b' :
  forallb (everyContent C) fs = true -> Inv b ->
  processDirectory md5 G repo fs parent b = Some b' -> Inv b'.
Proof.
  intros Hc Hb. unfold processDirectory.
  pose proof (processEntries_keeps fs Hc [] _ (I_root parent b Hb)) as Hk.
  destruct (processEntries md5 G repo [] _ fs _) as [b2|b2|]; simpl in Hk;
    intros [= <-] || discriminate; exact Hk.
Qed.

Hypothesis I_listed : ∀ fs b segs b',
  forallb (everyContent C) fs = true -> Inv b ->
  processListed md5 G repo fs b segs = Completed b' -> Inv b'.

Lemma processFiles_keeps fs files :
  forallb (everyContent C) fs = true ->
  ∀ b b', Inv b -> processFiles md5 G repo fs files b = Completed b' -> Inv b'.
Proof.
  intros Hc. induction files as [|segs files IH]; intros b b' Hb; simpl.
  - intros [= <-]. exact Hb.
  - destruct (processListed md5 G repo fs b segs) as [b1| |] eqn:E; try discriminate.
    apply IH. exact (I_listed fs b segs b1 Hc Hb E).
Qed.

End BuilderInvariant.

(** ** The parser module across a build *)

Section ModuleKept.

Import Neo4jBuilder.

Variable md5 : string -> string.
Variable G : gset string.
Variable repo : RepoInfo.
Variable m : ModuleState.
Hypothesis Hm : dormant m.








End ModuleKept.

Lemma dormant_fresh : dormant freshModule.
Proof. repeat split. Qed.



(** ** References never meet their definitions *)

Lemma append_nil_l b : "" ++ b = b.
Proof. reflexivity. Qed.

Lemma append_cons c a b : String c a ++ b = String c (a ++ b).
Proof. reflexivity. Qed.

Lemma lastChar_app a b : b ≠ "" -> lastChar (a ++ b) = lastChar b.
Proof.
  intros Hb. induction a as [|c a IH]; [reflexivity|].
  rewrite append_cons. simpl.
  destruct (a ++ b) eqn:E; [|exact IH].
  destruct a; [rewrite append_nil_l in E; congruence | rewrite append_cons in E; discriminate].
Qed.

Lemma key_lastChar n ty : ty ≠ "" -> lastChar (n ++ ":" ++ ty) = lastChar ty.
Proof.
  intros Hty. rewrite lastChar_app; [apply (lastChar_app ":" ty Hty)|].
  rewrite append_cons. discriminate.
Qed.

Lemma definition_key_end t :
  type t ∈ definitionTypes -> lastChar (name t ++ ":" ++ type t) ≠ Some "l"%char.
Proof.
  intros Hin. unfold definitionTypes in Hin.
  repeat (apply elem_of_cons in Hin as [->|Hin]);
    try (rewrite key_lastChar by discriminate; simpl; discriminate).
  apply elem_of_nil in Hin. contradiction.
Qed.

Lemma reference_key_end t :
  type t ∈ referenceTypes -> lastChar (name t ++ ":" ++ type t) = Some "l"%char.
Proof.
  intros Hin. unfold referenceTypes in Hin.
  repeat (apply elem_of_cons in Hin as [->|Hin]);
    try (rewrite key_lastChar by discriminate; reflexivity).
  apply elem_of_nil in Hin. contradiction.
Qed.

Lemma everyContent_true fs : forallb (everyContent (fun _ => true)) fs = true.
Proof.
  induction fs as [|e fs IH]; [reflexivity|]. simpl. rewrite IH, andb_true_r. clear IH.
  induction e as [n sz c|n l sub IH|n|n] using FsEntry_nested_ind; try reflexivity.
  rewrite everyContent_dir. induction IH as [|x sub Hx _ IHsub]; [reflexivity|].
  simpl. rewrite Hx, IHsub. reflexivity.
Qed.

Section Unlinkable.

Import Neo4jBuilder.

Variable md5 : string -> string.
Variable G : gset string.
Variable repo : RepoInfo.

Lemma setNode_plain n g : isReference n = None -> plainGraph g -> plainGraph (setNode n g).
Proof.
  intros Hn [He Hg]. split; [exact He|]. intros k n' Hk. simpl in Hk.
  destruct (decide (nodeId n = k)) as [<-|Hne].
  - rewrite lookup_insert_eq in Hk. congruence.
  - rewrite lookup_insert_ne in Hk by exact Hne. exact (Hg k n' Hk).
Qed.

Lemma pushEdge_plain s t r g :
  plainGraph g -> plainGraph (pushEdge (mkEdge s t "CONTAINS" r) g).
Proof.
  intros [He Hg]. split; [|exact Hg]. simpl. apply Forall_app. split; [exact He|].
  repeat constructor.
Qed.

Lemma connect_plain s t r g : plainGraph g -> plainGraph (connect s t "CONTAINS" r g).
Proof.
  intros [He Hg]. split; [|exact Hg]. unfold connect, addUniqueEdge. simpl.
  destruct (List.existsb _ _); [exact He|]. destruct (List.existsb _ _); [exact He|].
  simpl. apply Forall_app. split; [exact He|]. repeat constructor.
Qed.

Lemma ensureFolderNodeFrom_plain fuel : ∀ g r p rp nid g',
  plainGraph g -> ensureFolderNodeFrom md5 fuel g r p rp = Some (nid, g') -> plainGraph g'.
Proof.
  induction fuel as [|fuel IH]; intros g r p rp nid g' Hg; [discriminate|]. simpl.
  destruct (String.eqb p "."); [intros [= _ <-]; exact Hg|].
  destruct (has (nodes g) _); [intros [= _ <-]; exact Hg|].
  destruct (ensureFolderNodeFrom md5 fuel _ r _ rp) as [[pid g2]|] eqn:E; [|discriminate].
  intros [= _ <-].
  assert (H2 : plainGraph g2).
  { eapply IH; [|exact E]. apply setNode_plain; [reflexivity|exact Hg]. }
  destruct (negb _); [apply setNode_plain; [reflexivity|]|]; apply connect_plain; exact H2.
Qed.

Lemma absorbTags_unlinkable r path rp fid ts b :
  Forall kinded ts -> unlinkable b ->
  unlinkable (fold_left (absorbTag md5 r path rp fid) ts b).
Proof.
  intros Hts. revert b. induction Hts as [|t ts Ht _ IH]; intros b Hb; [exact Hb|].
  simpl. apply IH. destruct Hb as (Hd & Hr & Hg). unfold absorbTag, kinded in *.
  destruct (kind t); unfold unlinkable; simpl.
  - split; [|split; [exact Hr|]].
    + intros k Hk. destruct (decide (definitionKey t = k)) as [<-|Hne].
      * apply definition_key_end. exact Ht.
      * rewrite lookup_insert_ne in Hk by exact Hne. exact (Hd k Hk).
    + destruct (negb _); [apply pushEdge_plain|]; apply setNode_plain; try reflexivity; exact Hg.
  - split; [exact Hd|]. split; [|exact Hg]. apply Forall_app. split; [exact Hr|].
    constructor; [exact Ht|constructor].
Qed.

Lemma withGraph_unlinkable g b : unlinkable b -> plainGraph g -> unlinkable (withGraph g b).
Proof. intros (Hd & Hr & _) Hg. repeat split; assumption || apply Hg. Qed.

Lemma openDirectory_unlinkable segs parent b :
  unlinkable b -> unlinkable (openDirectory md5 repo segs parent b).
Proof.
  intros Hb. unfold openDirectory. destruct (negb _); [|exact Hb].
  apply withGraph_unlinkable; [exact Hb|]. destruct Hb as (_ & _ & Hg).
  destruct (_ && _); [destruct (negb _); [apply pushEdge_plain|]|];
    apply setNode_plain; try reflexivity; exact Hg.
Qed.

Lemma processFile_unlinkable segs c parent b b' :
  unlinkable b -> processFile md5 G repo segs c parent b = Some b' -> unlinkable b'.
Proof.
  intros Hb. unfold processFile. cbv zeta.
  set (b1 := withGraph _ b).
  assert (Hb1 : unlinkable b1).
  { apply withGraph_unlinkable; [exact Hb|]. destruct Hb as (_ & _ & Hg).
    destruct (negb _); [|exact Hg]. apply connect_plain, setNode_plain; [reflexivity|exact Hg]. }
  destruct (parseFile G (modst b1) _ _ c) as [[ts| |] m'] eqn:Ep; intros [= <-].
  - apply absorbTags_unlinkable; [exact (parseFile_kinded _ _ _ _ _ _ _ Ep)|exact Hb1].
  - exact Hb1.
Qed.

Lemma processListed_unlinkable fs b segs b' :
  unlinkable b -> processListed md5 G repo fs b segs = Completed b' -> unlinkable b'.
Proof.
  intros Hb. unfold processListed. cbv zeta.
  destruct (has _ _); [intros [= <-]; exact Hb|].
  destruct (fsLookup fs segs) as [[sz c]|]; [|intros [= <-]; exact Hb].
  destruct sz as [|sz]; [intros [= <-]; exact Hb|].
  destruct (ensureFolderNode md5 _ _ _ _) as [[pid g1]|] eqn:Ee; [|discriminate].
  set (b1 := withGraph _ b).
  assert (Hb1 : unlinkable b1).
  { apply withGraph_unlinkable; [exact Hb|]. destruct Hb as (_ & _ & Hg).
    apply connect_plain, setNode_plain; [reflexivity|].
    exact (ensureFolderNodeFrom_plain _ _ _ _ _ _ _ Hg Ee). }
  destruct (parseFile G (modst b1) _ _ c) as [[ts| |] m'] eqn:Ep;
    intros [= <-] || discriminate.
  apply absorbTags_unlinkable; [exact (parseFile_kinded _ _ _ _ _ _ _ Ep)|exact Hb1].
Qed.

Lemma resolveReferences_unlinkable b :
  unlinkable b ->
  resolved (resolveReferences md5 repo b) = graph b
  ∧ resolvedCount (resolveReferences md5 repo b) = 0
  ∧ missingNodes (resolveReferences md5 repo b) = 0
  ∧ missingDefinitions (resolveReferences md5 repo b) = length (references b).
Proof.
  intros (Hd & Hr & _). unfold resolveReferences.
  set (s0 := {| resolved := graph b |}).
  assert (Hgen : ∀ ts s, Forall (fun t => type t ∈ referenceTypes) ts ->
    let s' := fold_left (resolveReference md5 repo (definitions b)) ts s in
    resolved s' = resolved s ∧ resolvedCount s' = resolvedCount s
    ∧ missingNodes s' = missingNodes s
    ∧ missingDefinitions s' = length ts + missingDefinitions s).
  { induction ts as [|t ts IH]; intros s Hts; [repeat split|].
    apply Forall_cons in Hts as [Ht Hts]. simpl.
    destruct (IH (resolveReference md5 repo (definitions b) s t) Hts) as (E1 & E2 & E3 & E4).
    rewrite E1, E2, E3, E4. unfold resolveReference.
    destruct (definitions b !! _) as [d|] eqn:Ek.
    - exfalso. apply (Hd _ (mk_is_Some _ _ Ek)). apply reference_key_end. exact Ht.
    - simpl. repeat split. lia. }
  destruct (Hgen (references b) s0 Hr) as (E1 & E2 & E3 & E4).
  rewrite E1, E2, E3, E4. simpl. repeat split. lia.
Qed.

(** For every repository, file list and parser module: when the Neo4j
    builder completes, nothing was resolved. *)
Lemma buildGraph_resolves_nothing fs files m g s m' :
  buildGraph md5 G repo fs files m = Completed (g, s, m') ->
  Forall (fun e => edgeType e = "CONTAINS") (getEdges g)
  ∧ (∀ k n, viewNodes g !! k = Some n -> isReference n = None)
  ∧ resolvedCount s = 0.
Proof.
  unfold buildGraph.
  destruct (processDirectory md5 G repo fs _ _) as [b1|] eqn:Ed; [|discriminate].
  destruct (processFiles md5 G repo fs files b1) as [b2| |] eqn:Ef; try discriminate.
  intros [= <- <- _].
  assert (H1 : unlinkable b1).
  { refine (processDirectory_keeps md5 G repo unlinkable (fun _ => true)
              _ _ _ fs _ _ b1 (everyContent_true fs) _ Ed).
    - intros. apply openDirectory_unlinkable. assumption.
    - intros segs entry c b b' _. apply processFile_unlinkable.
    - intros. apply openDirectory_unlinkable. assumption.
    - split; [|split; [constructor|]].
      + intros k [d Hk]. simpl in Hk. rewrite lookup_empty in Hk. discriminate.
      + apply setNode_plain; [reflexivity|]. split; [constructor|].
        intros k n Hk. simpl in Hk. rewrite lookup_empty in Hk. discriminate. }
  assert (H2 : unlinkable b2).
  { refine (processFiles_keeps md5 G repo unlinkable (fun _ => true)
              _ fs files (everyContent_true fs) b1 b2 H1 Ef).
    intros fs' b segs b' _. apply processListed_unlinkable. }
  destruct (resolveReferences_unlinkable b2 H2) as (E1 & E2 & _ & _).
  simpl. rewrite E1. destruct H2 as (_ & _ & [He Hn]). repeat split; assumption.
Qed.

End Unlinkable.

(** ** Paths *)

Lemma length_list_ascii s : length (list_ascii_of_string s) = String.length s.
Proof. induction s as [|c s IH]; [reflexivity|]. simpl. rewrite IH. reflexivity. Qed.

Lemma length_string_of_list l : String.length (string_of_list_ascii l) = length l.
Proof. induction l as [|c l IH]; [reflexivity|]. simpl. rewrite IH. reflexivity. Qed.

Lemma dirnameScan_some l : ∀ i m e,
  Path.dirnameScan l i m = Some e -> length l <= i ->
  i - length l < e ∧ e <= i ∧ (m = true -> e < i).
Proof.
  induction l as [|c l IH]; intros i m e H Hi; [discriminate|]. simpl in H, Hi.
  destruct (isSlash c).
  - destruct m.
    + assert (Hp : length l <= pred i) by lia.
      destruct (IH (pred i) true e H Hp) as (H1 & H2 & _).
      simpl. repeat split; intros; lia.
    + injection H as <-. simpl. repeat split; intros; try lia; discriminate.
  - assert (Hp : length l <= pred i) by lia.
    destruct (IH (pred i) false e H Hp) as (H1 & H2 & _).
    simpl. repeat split; intros; lia.
Qed.

(** [path.dirname] gives ["."], or ["/"] for a rooted path, or a strictly
    shorter path. *)
Lemma dirname_cases p :
  Path.dirname p = "."
  ∨ (Path.dirname p = "/" ∧ relative p = false)
  ∨ String.length (Path.dirname p) < String.length p.
Proof.
  unfold Path.dirname. destruct p as [|c0 tl]; [left; reflexivity|].
  cbn [list_ascii_of_string].
  destruct (Path.dirnameScan _ _ _) as [e|] eqn:E.
  - apply dirnameScan_some in E as (H1 & H2 & H3); [|rewrite length_rev; lia].
    specialize (H3 eq_refl). rewrite length_list_ascii in *.
    right. right. destruct (isSlash c0 && Nat.eqb e 1) eqn:Eb.
    + apply andb_true_iff in Eb as [_ Ee]. apply Nat.eqb_eq in Ee. simpl. lia.
    + rewrite length_string_of_list, length_take. simpl. rewrite length_list_ascii. lia.
  - destruct (isSlash c0) eqn:Ec; [|left; reflexivity].
    right. left. split; [reflexivity|]. simpl. rewrite Ec. reflexivity.
Qed.

Lemma dirname_relative p :
  relative p = true ->
  Path.dirname p = "."
  ∨ (relative (Path.dirname p) = true ∧ String.length (Path.dirname p) < String.length p).
Proof.
  intros Hr. destruct (dirname_cases p) as [H|[[_ H]|H]]; [left; exact H|congruence|].
  right. split; [|exact H]. clear H. unfold Path.dirname.
  destruct p as [|c0 tl]; [reflexivity|]. cbn [list_ascii_of_string].
  simpl in Hr. apply negb_true_iff in Hr.
  destruct (Path.dirnameScan _ _ _) as [e|] eqn:E; rewrite Hr; [|reflexivity].
  apply dirnameScan_some in E as (H1 & H2 & H3); [|rewrite length_rev; lia].
  simpl. destruct e; [lia|]. simpl. rewrite Hr. reflexivity.
Qed.

Lemma dirname_twice p : Path.dirname (Path.dirname p) = p -> Path.dirname p = p.
Proof.
  intros H. destruct (dirname_cases p) as [Hd|[[Hd _]|Hd]].
  - rewrite Hd in H. rewrite <- H. reflexivity.
  - rewrite Hd in H. rewrite <- H. reflexivity.
  - exfalso. destruct (dirname_cases (Path.dirname p)) as [Hdd|[[Hdd _]|Hdd]].
    + rewrite Hdd in H. subst p. vm_compute in Hd. lia.
    + rewrite Hdd in H. subst p. vm_compute in Hd. lia.
    + rewrite H in Hdd. lia.
Qed.

Lemma append_inj_l a x y : a ++ x = a ++ y -> x = y.
Proof.
  induction a as [|c a IH]; [intros H; exact H|].
  rewrite !append_cons. intros [= H]. exact (IH H).
Qed.

Lemma append_length a b : String.length (a ++ b) = String.length a + String.length b.
Proof. induction a as [|c a IH]; [reflexivity|]. rewrite append_cons. simpl. rewrite IH. reflexivity. Qed.

(** ** Contains edges go downwards *)

Ltac expose := rewrite ?append_cons, ?append_nil_l.

Lemma tier_root : tier "repo:root" = 0.
Proof. reflexivity. Qed.

Lemma tier_folder q : tier ("folder:" ++ q) = 0.
Proof. unfold tier. expose. reflexivity. Qed.

Lemma tier_file q : tier ("file:" ++ q) = 1.
Proof. unfold tier. expose. reflexivity. Qed.

Lemma tier_ref q : tier ("ref:" ++ q) = 2.
Proof. unfold tier. expose. reflexivity. Qed.

Lemma append_assoc a b c : (a ++ b) ++ c = a ++ b ++ c.
Proof. induction a as [|x a IH]; [reflexivity|]. rewrite !append_cons, IH. reflexivity. Qed.

Lemma startsWith_before_slash pre : ∀ a y,
  slashFree pre = true -> startsWith pre a = false ->
  startsWith pre (a ++ "/" ++ y) = false.
Proof.
  induction pre as [|c pre IH]; intros a y Hs H; [discriminate|].
  simpl in Hs. apply andb_true_iff in Hs as [Hc Hs]. apply negb_true_iff in Hc.
  destruct a as [|d a].
  - rewrite append_nil_l, append_cons. cbn [startsWith]. unfold isSlash in Hc. rewrite Hc.
    reflexivity.
  - rewrite append_cons. cbn [startsWith] in *. destruct (Ascii.eqb c d); [|reflexivity].
    cbn [andb] in *. apply IH; assumption.
Qed.

Lemma slashFree_with_slash a y : slashFree (a ++ "/" ++ y) = false.
Proof.
  induction a as [|c a IH]; [reflexivity|]. rewrite append_cons. simpl. rewrite IH.
  apply andb_false_r.
Qed.

(** The path of a file below a plain repository path opens neither like
    a folder nor like a file disambiguator. *)
Lemma tier_abs repoPath segs q :
  plainPath repoPath = true -> segs ≠ [] -> tier (Path.abs repoPath segs ++ q) = 2.
Proof.
  unfold plainPath. rewrite !andb_true_iff, !negb_true_iff. intros [[_ Hfo] Hfi] Hsegs.
  unfold Path.abs. destruct segs as [|s0 rest]; [contradiction|].
  rewrite !append_assoc. set (y := Path.rel (s0 :: rest) ++ q). unfold tier.
  assert (Hroot : String.eqb (repoPath ++ "/" ++ y) "repo:root" = false).
  { apply String.eqb_neq. intros E. pose proof (slashFree_with_slash repoPath y) as H.
    rewrite E in H. discriminate. }
  rewrite Hroot, (startsWith_before_slash "folder:" repoPath y eq_refl Hfo),
    (startsWith_before_slash "file:" repoPath y eq_refl Hfi). reflexivity.
Qed.

Lemma depth_folder q : q ≠ "." -> depth ("folder:" ++ q) = 7 + String.length q.
Proof.
  intros Hq. unfold depth. expose. cbn [String.eqb Ascii.eqb Bool.eqb orb].
  destruct (String.eqb q ".") eqn:E; [apply String.eqb_eq in E; contradiction|].
  reflexivity.
Qed.

Lemma depth_folder_le q : depth ("folder:" ++ q) <= 7 + String.length q.
Proof.
  destruct (String.eqb_spec q ".") as [->|Hq]; [vm_compute; lia|].
  rewrite depth_folder by exact Hq. lia.
Qed.

Lemma rankLt_asym a b : rankLt a b -> rankLt b a -> False.
Proof. unfold rankLt. lia. Qed.

Lemma rankLt_root_folder q : q ≠ "." -> rankLt "repo:root" ("folder:" ++ q).
Proof.
  intros Hq. right. rewrite tier_folder, depth_folder by exact Hq.
  repeat split. vm_compute. lia.
Qed.

Lemma rankLt_folder_folder d q :
  q ≠ "." -> d = "." ∨ String.length d < String.length q ->
  rankLt ("folder:" ++ d) ("folder:" ++ q).
Proof.
  intros Hq Hd. right. rewrite !tier_folder, (depth_folder q) by exact Hq.
  repeat split. destruct Hd as [->|Hd]; [vm_compute; lia|].
  pose proof (depth_folder_le d). lia.
Qed.

Section Layers.

Variable md5 : string -> string.
Hypothesis md5_inj : ∀ a b, md5 a = md5 b -> a = b.
Variable r : string.

Lemma generateNodeId_inj a b : generateNodeId md5 r a = generateNodeId md5 r b -> a = b.
Proof.
  unfold generateNodeId. intros H. apply md5_inj, append_inj_l in H.
  exact (append_inj_l ":" _ _ H).
Qed.

Lemma below_asym s t : below md5 r s t -> below md5 r t s -> False.
Proof.
  intros (a & b & -> & -> & H1) (a' & b' & E1 & E2 & H2).
  apply generateNodeId_inj in E1, E2. subst. exact (rankLt_asym _ _ H1 H2).
Qed.

Lemma sameEdge_spec s t ty r' e :
  Neo4jBuilder.sameEdge s t ty r' e = true <-> e = Neo4jBuilder.mkEdge s t ty r'.
Proof.
  unfold Neo4jBuilder.sameEdge, Neo4jBuilder.mkEdge. rewrite !andb_true_iff, !String.eqb_eq.
  destruct e; simpl. split.
  - intros [[[-> ->] ->] ->]. reflexivity.
  - intros [= -> -> -> ->]. repeat split.
Qed.

Lemma existsb_sameEdge_false s t ty r' es :
  List.existsb (Neo4jBuilder.sameEdge s t ty r') es = false -> Neo4jBuilder.mkEdge s t ty r' ∉ es.
Proof.
  intros H Hin. apply not_true_iff_false in H. apply H.
  apply existsb_exists. exists (Neo4jBuilder.mkEdge s t ty r').
  split; [apply list_elem_of_In; exact Hin | apply sameEdge_spec; reflexivity].
Qed.

Lemma layered_push es s t ty :
  layered md5 r es -> Neo4jBuilder.mkEdge s t ty r ∉ es ->
  (ty = "CONTAINS" -> s = t ∨ below md5 r s t) ->
  layered md5 r (es ++ [Neo4jBuilder.mkEdge s t ty r]).
Proof.
  intros [Hnd Hall] Hnew Hdown. split.
  - apply NoDup_app. split; [exact Hnd|]. split; [|apply NoDup_singleton].
    intros x Hx Hx'. apply list_elem_of_singleton in Hx'. subst x. exact (Hnew Hx).
  - intros e He. apply elem_of_app in He as [He|He]; [exact (Hall e He)|].
    apply list_elem_of_singleton in He. subst e. simpl. split; [reflexivity|].
    unfold isContains. simpl. intros Hty. apply String.eqb_eq in Hty. exact (Hdown Hty).
Qed.

Lemma addUniqueEdge_layered es s t ty :
  layered md5 r es -> (ty = "CONTAINS" -> s = t ∨ below md5 r s t) ->
  layered md5 r (Neo4jBuilder.addUniqueEdge es s t ty r).1.
Proof.
  intros Hl Hdown. unfold Neo4jBuilder.addUniqueEdge.
  destruct (List.existsb _ es) eqn:E; [exact Hl|].
  destruct (_ && _); [exact Hl|]. simpl.
  apply layered_push; [exact Hl | exact (existsb_sameEdge_false _ _ _ _ _ E) | exact Hdown].
Qed.

Lemma connect_layered g s t :
  layered md5 r (Neo4jBuilder.edges g) -> s = t ∨ below md5 r s t ->
  layered md5 r (Neo4jBuilder.edges (Neo4jBuilder.connect s t "CONTAINS" r g)).
Proof. intros Hl Hd. simpl. apply addUniqueEdge_layered; [exact Hl|]. intros _. exact Hd. Qed.

Lemma guardedPush_layered g s t :
  layered md5 r (Neo4jBuilder.edges g) -> s = t ∨ below md5 r s t ->
  layered md5 r (Neo4jBuilder.edges
    (if negb (Neo4jBuilder.edgeExists (Neo4jBuilder.edges g) s t "CONTAINS" r)
     then Neo4jBuilder.pushEdge (Neo4jBuilder.mkEdge s t "CONTAINS" r) g else g)).
Proof.
  intros Hl Hd. unfold Neo4jBuilder.edgeExists.
  destruct (List.existsb _ _) eqn:E; simpl; [exact Hl|].
  apply layered_push; [exact Hl | exact (existsb_sameEdge_false _ _ _ _ _ E) | intros _; exact Hd].
Qed.

Lemma below_root_file rp : below md5 r (Neo4jBuilder.rootId md5 r) (Neo4jBuilder.fileId md5 r rp).
Proof.
  exists "repo:root", ("file:" ++ rp). repeat split. left. rewrite tier_file. vm_compute. lia.
Qed.

Lemma below_folder_file q rp :
  below md5 r (Neo4jBuilder.folderId md5 r q) (Neo4jBuilder.fileId md5 r rp).
Proof.
  exists ("folder:" ++ q), ("file:" ++ rp). repeat split. left.
  rewrite tier_file, tier_folder. lia.
Qed.

Lemma below_nodeOf_file q rp : below md5 r (nodeOf md5 r q) (Neo4jBuilder.fileId md5 r rp).
Proof.
  unfold nodeOf. destruct (String.eqb q "."); [apply below_root_file|apply below_folder_file].
Qed.

Lemma below_file_abs rp repoPath segs q :
  plainPath repoPath = true -> segs ≠ [] ->
  below md5 r (Neo4jBuilder.fileId md5 r rp) (generateNodeId md5 r (Path.abs repoPath segs ++ q)).
Proof.
  intros Hp Hs. exists ("file:" ++ rp), (Path.abs repoPath segs ++ q). repeat split. left.
  rewrite tier_file, tier_abs by assumption. lia.
Qed.

Lemma below_file_ref rp q :
  below md5 r (Neo4jBuilder.fileId md5 r rp) (generateNodeId md5 r ("ref:" ++ q)).
Proof.
  exists ("file:" ++ rp), ("ref:" ++ q). repeat split. left.
  rewrite tier_file, tier_ref. lia.
Qed.

(** The edge [ensureFolderNode] adds for a folder path is a loop or points
    downwards. *)
Lemma below_parent q :
  q ≠ "." ->
  nodeOf md5 r (Path.dirname q) = Neo4jBuilder.folderId md5 r q
  ∨ below md5 r (nodeOf md5 r (Path.dirname q)) (Neo4jBuilder.folderId md5 r q).
Proof.
  intros Hq. unfold nodeOf.
  destruct (String.eqb_spec (Path.dirname q) ".") as [Hd|Hd].
  - right. exists "repo:root", ("folder:" ++ q). repeat split.
    apply rankLt_root_folder. exact Hq.
  - destruct (dirname_cases q) as [H|[[H Hr]|H]]; [contradiction| |].
    + destruct (String.eqb_spec q "/") as [->|Hne]; [left; reflexivity|].
      right. exists ("folder:" ++ Path.dirname q), ("folder:" ++ q). repeat split.
      apply rankLt_folder_folder; [exact Hq|]. right. rewrite H.
      destruct q as [|c [|c' q]]; simpl; try lia; try discriminate.
      simpl in Hr. apply negb_false_iff in Hr. unfold isSlash in Hr.
      apply Ascii.eqb_eq in Hr. subst c. contradiction.
    + right. exists ("folder:" ++ Path.dirname q), ("folder:" ++ q). repeat split.
      apply rankLt_folder_folder; [exact Hq|]. right. exact H.
Qed.

End Layers.

Lemma rel_snoc_length segs e :
  segs ≠ [] ->
  String.length (Path.rel (segs ++ [e])) = String.length (Path.rel segs) + 1 + String.length e.
Proof.
  unfold Path.rel. induction segs as [|x segs IH]; [congruence|]. intros _.
  destruct segs as [|y segs].
  - simpl. rewrite !append_length. simpl. lia.
  - change (String.concat "/" ((x :: y :: segs) ++ [e]))
      with (x ++ "/" ++ String.concat "/" ((y :: segs) ++ [e])).
    change (String.concat "/" (x :: y :: segs))
      with (x ++ "/" ++ String.concat "/" (y :: segs)).
    rewrite !append_length, IH by discriminate. rewrite ?append_length. simpl. lia.
Qed.

Lemma truthy_length s : truthy s = true <-> 0 < String.length s.
Proof. destruct s; simpl; split; intros; try lia; try discriminate; reflexivity. Qed.

Section LayersKept.

Import Neo4jBuilder.

Variable md5 : string -> string.
Hypothesis md5_inj : ∀ a b, md5 a = md5 b -> a = b.
Variable G : gset string.
Variable repo : RepoInfo.
Hypothesis repo_plain : plainPath (localPath repo) = true.

Let r := repoId repo.

Lemma ensureFolderNodeFrom_id fuel : ∀ g p rp nid g',
  ensureFolderNodeFrom md5 fuel g r p rp = Some (nid, g') -> nid = nodeOf md5 r p.
Proof.
  destruct fuel as [|fuel]; intros g p rp nid g'; [discriminate|]. simpl. unfold nodeOf.
  destruct (String.eqb p "."); [intros [= <- _]; reflexivity|].
  destruct (has (nodes g) _); [intros [= <- _]; reflexivity|].
  destruct (ensureFolderNodeFrom md5 fuel _ r _ rp) as [[pid g2]|]; [|discriminate].
  intros [= <- _]. reflexivity.
Qed.

Lemma dirname_guard p : (if String.eqb (Path.dirname p) "." then "." else Path.dirname p) = Path.dirname p.
Proof. destruct (String.eqb_spec (Path.dirname p) ".") as [->|_]; reflexivity. Qed.

Lemma ensureFolderNodeFrom_layered fuel : ∀ g p rp nid g',
  layered md5 r (edges g) ->
  ensureFolderNodeFrom md5 fuel g r p rp = Some (nid, g') -> layered md5 r (edges g').
Proof.
  induction fuel as [|fuel IH]; intros g p rp nid g' Hg; [discriminate|]. simpl.
  destruct (String.eqb_spec p ".") as [|Hp]; [intros [= _ <-]; exact Hg|].
  destruct (has (nodes g) _); [intros [= _ <-]; exact Hg|].
  rewrite dirname_guard.
  destruct (ensureFolderNodeFrom md5 fuel _ r _ rp) as [[pid g2]|] eqn:E; [|discriminate].
  intros [= _ <-].
  pose proof (ensureFolderNodeFrom_id _ _ _ _ _ _ E) as ->.
  assert (H2 : layered md5 r (edges g2)) by (eapply IH; [|exact E]; exact Hg).
  assert (H3 : layered md5 r (edges (connect (nodeOf md5 r (Path.dirname p)) (folderId md5 r p)
                                       "CONTAINS" r g2))).
  { apply connect_layered; [exact H2|]. apply below_parent. exact Hp. }
  destruct (negb _); exact H3.
Qed.

Lemma absorbTags_layered segs rp0 rp ts : segs ≠ [] -> ∀ b,
  layered md5 r (edges (graph b)) ->
  layered md5 r (edges (graph (fold_left
    (absorbTag md5 r (Path.abs (localPath repo) segs) rp (fileId md5 r rp0)) ts b))).
Proof.
  intros Hsegs. induction ts as [|t ts IH]; intros b Hb; [exact Hb|]. simpl. apply IH.
  unfold absorbTag. destruct (kind t); [|exact Hb]. cbn [graph].
  apply (guardedPush_layered md5 r (setNode _ (graph b))); [exact Hb|].
  right. unfold definitionId. apply below_file_abs; [exact repo_plain|exact Hsegs].
Qed.

Lemma openDirectory_layered segs entry b :
  layered md5 r (edges (graph b)) ->
  layered md5 r (edges (graph
    (openDirectory md5 repo (segs ++ [entry]) (folderId md5 r (relativeDir segs)) b))).
Proof.
  intros Hb. unfold openDirectory. destruct (negb (has _ _)); [|exact Hb]. cbn [graph withGraph].
  destruct (String.eqb_spec (relativeDir (segs ++ [entry])) ".") as [Hd|Hd]; [exact Hb|].
  cbn [negb andb]. destruct (negb (String.eqb _ _)); [|exact Hb].
  apply (guardedPush_layered md5 r (setNode _ (graph b))); [exact Hb|].
  right. exists ("folder:" ++ relativeDir segs), ("folder:" ++ relativeDir (segs ++ [entry])).
  repeat split. apply rankLt_folder_folder; [exact Hd|].
  unfold relativeDir in *. destruct (truthy (Path.rel segs)) eqn:Et; [|left; reflexivity].
  right. assert (Hs : segs ≠ []) by (intros ->; discriminate).
  pose proof (rel_snoc_length segs entry Hs) as Hlen.
  destruct (truthy (Path.rel (segs ++ [entry]))) eqn:Et'.
  - lia.
  - exfalso. apply not_true_iff_false in Et'. apply Et'. apply truthy_length. lia.
Qed.

Lemma openDirectory_root_layered parent b :
  layered md5 r (edges (graph b)) ->
  layered md5 r (edges (graph (openDirectory md5 repo [] parent b))).
Proof. intros Hb. unfold openDirectory. destruct (negb (has _ _)); exact Hb. Qed.

Lemma processFile_layered segs entry c b b' :
  layered md5 r (edges (graph b)) ->
  processFile md5 G repo (segs ++ [entry]) c (folderId md5 r (relativeDir segs)) b = Some b' ->
  layered md5 r (edges (graph b')).
Proof.
  intros Hb. unfold processFile. cbv zeta.
  set (b1 := withGraph _ b).
  assert (Hb1 : layered md5 r (edges (graph b1))).
  { subst b1. cbn [graph withGraph]. destruct (negb (has _ _)); [|exact Hb].
    apply (connect_layered md5 r (setNode _ (graph b))); [exact Hb|].
    right. apply below_folder_file. }
  destruct (parseFile G (modst b1) _ _ c) as [[ts| |] m']; intros [= <-].
  - apply absorbTags_layered; [|exact Hb1]. intros E. apply app_eq_nil in E as [_ E]. discriminate.
  - exact Hb1.
Qed.

(** A listed path that is the repository directory itself stops the
    build: [readFileSync] throws on it. *)
Lemma processListed_root fs b b' : processListed md5 G repo fs b [] = Completed b' -> b' = b.
Proof.
  unfold processListed. cbv zeta. destruct (has _ _); [intros [= <-]; reflexivity|].
  change (fsLookup fs []) with (Some (directorySize, Unreadable)). cbv iota beta.
  destruct (ensureFolderNode md5 _ _ _ _) as [[pid g1]|]; discriminate.
Qed.

Lemma processListed_layered fs b segs b' :
  layered md5 r (edges (graph b)) ->
  processListed md5 G repo fs b segs = Completed b' -> layered md5 r (edges (graph b')).
Proof.
  intros Hb. destruct (decide (segs = [])) as [->|Hsegs].
  { intros Hrun. apply processListed_root in Hrun as ->. exact Hb. }
  unfold processListed. cbv zeta.
  destruct (has _ _); [intros [= <-]; exact Hb|].
  destruct (fsLookup fs segs) as [[sz c]|]; [|intros [= <-]; exact Hb].
  destruct sz as [|sz]; [intros [= <-]; exact Hb|].
  destruct (ensureFolderNode md5 _ _ _ _) as [[pid g1]|] eqn:Ee; [|discriminate].
  pose proof (ensureFolderNodeFrom_id _ _ _ _ _ _ Ee) as ->.
  pose proof (ensureFolderNodeFrom_layered _ _ _ _ _ _ Hb Ee) as H1.
  set (b1 := withGraph _ b).
  assert (Hb1 : layered md5 r (edges (graph b1))).
  { subst b1. cbn [graph withGraph].
    apply (connect_layered md5 r (setNode _ g1)); [exact H1|].
    right. apply below_nodeOf_file. }
  destruct (parseFile G (modst b1) _ _ c) as [[ts| |] m']; intros [= <-] || discriminate.
  apply absorbTags_layered; [exact Hsegs|exact Hb1].
Qed.

Lemma resolveReference_layered defs s t :
  layered md5 r (edges (resolved s)) ->
  layered md5 r (edges (resolved (resolveReference md5 repo defs s t))).
Proof.
  intros Hs. unfold resolveReference. destruct (defs !! _) as [d|]; [|exact Hs].
  set (refNodeId := generateNodeId md5 _ ("ref:" ++ _)).
  set (defNodeId := generateNodeId md5 _ ("def:" ++ _)).
  assert (Hc : layered md5 r (edges (connect (fileId md5 (repoId repo) (filePath t)) refNodeId
                 "CONTAINS" (repoId repo) (setNode (referenceNode repo refNodeId t) (resolved s))))).
  { apply (connect_layered md5 r (setNode _ (resolved s))); [exact Hs|].
    right. apply below_file_ref. }
  destruct (negb (has (nodes (resolved s)) refNodeId)).
  - destruct (has _ _); cbn [resolved].
    + destruct (negb (has _ defNodeId)); [exact Hc|].
      destruct (bool_decide _); [exact Hc|].
      destruct (addUniqueEdge _ _ _ _ _) as [es added] eqn:Ea. cbn [resolved edges].
      change es with (es, added).1. rewrite <- Ea.
      apply addUniqueEdge_layered; [exact Hc|]. discriminate.
    + exact Hs.
  - destruct (negb (has _ defNodeId)); [exact Hs|].
    destruct (bool_decide _); [exact Hs|].
    destruct (addUniqueEdge _ _ _ _ _) as [es added] eqn:Ea. cbn [resolved edges].
    change es with (es, added).1. rewrite <- Ea.
    apply addUniqueEdge_layered; [exact Hs|]. discriminate.
Qed.

Lemma resolveAll_layered defs ts : ∀ s0,
  layered md5 r (edges (resolved s0)) ->
  layered md5 r (edges (resolved (fold_left (resolveReference md5 repo defs) ts s0))).
Proof.
  induction ts as [|t ts IH]; intros s0 H0; [exact H0|].
  simpl. apply IH. apply resolveReference_layered. exact H0.
Qed.

Lemma buildGraph_layered fs files m g s m' :
  buildGraph md5 G repo fs files m = Completed (g, s, m') -> layered md5 r (getEdges g).
Proof.
  unfold buildGraph.
  destruct (processDirectory md5 G repo fs _ _) as [b1|] eqn:Ed; [|discriminate].
  destruct (processFiles md5 G repo fs files b1) as [b2| |] eqn:Ef; try discriminate.
  intros [= <- _ _]. cbn [getEdges viewEdges].
  assert (H1 : layered md5 r (edges (graph b1))).
  { refine (processDirectory_keeps md5 G repo (fun b => layered md5 r (edges (graph b)))
              (fun _ => true) _ _ _ fs _ _ b1 (everyContent_true fs) _ Ed).
    - intros. apply openDirectory_layered. assumption.
    - intros segs entry c b b' _. apply processFile_layered.
    - intros. apply openDirectory_root_layered. assumption.
    - split; [constructor|]. intros e He. simpl in He. apply elem_of_nil in He. contradiction. }
  assert (H2 : layered md5 r (edges (graph b2))).
  { refine (processFiles_keeps md5 G repo (fun b => layered md5 r (edges (graph b)))
              (fun _ => true) _ fs files (everyContent_true fs) b1 b2 H1 Ef).
    intros fs' b segs b' _. apply processListed_layered. }
  unfold resolveReferences. apply resolveAll_layered. exact H2.
Qed.

End LayersKept.

Lemma filter_at_most_one {A} (P : A -> bool) (l : list A) :
  NoDup l ->
  (∀ x y, x ∈ l -> y ∈ l -> P x = true -> P y = true -> x = y) ->
  length (filter (fun x => P x = true) l) <= 1.
Proof.
  intros Hnd Hsame.
  assert (Hf : NoDup (filter (fun x => P x = true) l)) by (apply NoDup_filter; exact Hnd).
  destruct (filter (fun x => P x = true) l) as [|x [|y rest]] eqn:E; simpl; try lia.
  exfalso. apply NoDup_cons in Hf as [Hx _]. apply Hx.
  assert (Hxin : x ∈ filter (fun x => P x = true) l) by (rewrite E; left).
  assert (Hyin : y ∈ filter (fun x => P x = true) l) by (rewrite E; right; left).
  apply list_elem_of_filter in Hxin as [Px Hxl], Hyin as [Py Hyl].
  rewrite (Hsame x y Hxl Hyl Px Py). left.
Qed.

Lemma between_at_most_one (es : list GraphEdgeData) (r : string) :
  NoDup es -> (∀ e, e ∈ es -> edgeRepoId e = r) ->
  (∀ a b, a ≠ b -> containsEdge es a b -> ¬ containsEdge es b a) ->
  ∀ a b, containsBetween es a b <= 1.
Proof.
  intros Hnd Hall Hrev a b. unfold containsBetween. apply filter_at_most_one; [exact Hnd|].
  intros x y Hx Hy Px Py. unfold between in Px, Py.
  apply andb_true_iff in Px as [Cx Dx]. apply andb_true_iff in Py as [Cy Dy].
  pose proof (Hall x Hx) as Rx. pose proof (Hall y Hy) as Ry.
  assert (Hsame : ∀ u v, sourceId u = sourceId v -> targetId u = targetId v ->
            isContains u = true -> isContains v = true ->
            edgeRepoId u = edgeRepoId v -> u = v).
  { intros [su tu yu ru] [sv tv yv rv]. unfold isContains. simpl.
    intros -> -> Hu Hv ->. apply String.eqb_eq in Hu, Hv. subst. reflexivity. }
  assert (Hr : edgeRepoId x = edgeRepoId y) by congruence.
  apply orb_true_iff in Dx, Dy.
  destruct Dx as [Dx|Dx], Dy as [Dy|Dy];
    apply andb_true_iff in Dx as [Sx Tx]; apply andb_true_iff in Dy as [Sy Ty];
    apply String.eqb_eq in Sx, Tx, Sy, Ty.
  - apply Hsame; congruence.
  - destruct (decide (a = b)) as [->|Hab]; [apply Hsame; congruence|].
    exfalso. apply (Hrev a b Hab); [exists x|exists y]; repeat split; assumption.
  - destruct (decide (a = b)) as [->|Hab]; [apply Hsame; congruence|].
    exfalso. apply (Hrev a b Hab); [exists y|exists x]; repeat split; assumption.
  - apply Hsame; congruence.
Qed.

(** Where the digest is one-to-one, as the identity is, the layers tell
    that no two nodes are joined by more than one Contains edge. *)
Lemma layered_edges_unique :
  ∀ md5 G repo fs files m g s m',
    (∀ a b, md5 a = md5 b -> a = b) ->
    plainPath (localPath repo) = true ->
    Neo4jBuilder.buildGraph md5 G repo fs files m = Completed (g, s, m') ->
    NoDup (Neo4jBuilder.getEdges g)
    ∧ (∀ a b, containsBetween (Neo4jBuilder.getEdges g) a b <= 1)
    ∧ (∀ a b, a ≠ b -> containsEdge (Neo4jBuilder.getEdges g) a b ->
              ¬ containsEdge (Neo4jBuilder.getEdges g) b a).
Proof.
  intros md5 G repo fs files m g s m' Hinj Habs Hrun.
  destruct (buildGraph_layered md5 G repo Habs fs files m g s m' Hrun) as [Hnd Hall].
  split; [exact Hnd|].
  assert (Hrev : ∀ a b, a ≠ b -> containsEdge (Neo4jBuilder.getEdges g) a b ->
                        ¬ containsEdge (Neo4jBuilder.getEdges g) b a).
  { intros a b Hab (e1 & He1 & Hc1 & Hs1 & Ht1) (e2 & He2 & Hc2 & Hs2 & Ht2).
    destruct (Hall e1 He1) as [_ H1]. destruct (Hall e2 He2) as [_ H2].
    destruct (H1 Hc1) as [E1|B1]; [congruence|].
    destruct (H2 Hc2) as [E2|B2]; [congruence|].
    rewrite Hs1, Ht1 in B1. rewrite Hs2, Ht2 in B2.
    exact (below_asym md5 Hinj (repoId repo) a b B1 B2). }
  split; [|exact Hrev].
  exact (between_at_most_one _ (repoId repo) Hnd (fun e He => proj1 (Hall e He)) Hrev).
Qed.

(** ** Folder nodes *)

Section Folders.

Import Neo4jBuilder.

Lemma has_present g k : has (nodes g) k = true <-> present g k.
Proof. unfold has, present. apply bool_decide_eq_true. Qed.

Lemma has_absent g k : has (nodes g) k = false <-> ¬ present g k.
Proof. unfold has, present. apply bool_decide_eq_false. Qed.

Lemma present_setNode n g k : present (setNode n g) k <-> k = nodeId n ∨ present g k.
Proof.
  unfold present. simpl. destruct (decide (nodeId n = k)) as [<-|Hne].
  - rewrite lookup_insert_eq. split; [left; reflexivity | intros _; eexists; reflexivity].
  - rewrite lookup_insert_ne by exact Hne. split; [right; assumption|].
    intros [->|H]; [contradiction|exact H].
Qed.

End Folders.

Section FolderCalls.

Import Neo4jBuilder.

Variable md5 : string -> string.
Variable r : string.

Lemma is_Some_not_None {A} (o : option A) : o ≠ None -> ∃ x, o = Some x.
Proof. destruct o as [x|]; [intros _; exists x; reflexivity|congruence]. Qed.

Lemma ensureFolderNodeFrom_S fuel g p rp :
  ensureFolderNodeFrom md5 (S fuel) g r p rp =
  if String.eqb p "." then Some (rootId md5 r, g)
  else if has (nodes g) (folderId md5 r p) then Some (folderId md5 r p, g)
  else
    match ensureFolderNodeFrom md5 fuel
            (setNode (folderNode r (folderId md5 r p) (Path.basename p) p) g) r
            (Path.dirname p) rp with
    | None => None
    | Some (parentId, g2) =>
        let g3 := connect parentId (folderId md5 r p) "CONTAINS" r g2 in
        Some (folderId md5 r p,
              if negb (has (nodes g3) (folderId md5 r p)) then
                setNode (folderNode r (folderId md5 r p)
                           (if truthy (Path.basename p) then Path.basename p
                            else Path.basename rp) p) g3
              else g3)
    end.
Proof. cbn [ensureFolderNodeFrom]. rewrite dirname_guard. reflexivity. Qed.

(** The recursion at ["/"] stops at its second step, on the node the first
    step has put in. *)
Lemma ensureFolderNodeFrom_slash n g rp :
  2 <= n -> ensureFolderNodeFrom md5 n g r "/" rp ≠ None.
Proof.
  intros Hn. destruct n as [|[|k]]; try lia. rewrite ensureFolderNodeFrom_S.
  change (String.eqb "/" ".") with false. cbv iota.
  destruct (has (nodes g) (folderId md5 r "/")); [discriminate|].
  change (Path.dirname "/") with "/". rewrite ensureFolderNodeFrom_S.
  change (String.eqb "/" ".") with false. cbv iota.
  assert (Hin : has (nodes (setNode (folderNode r (folderId md5 r "/") (Path.basename "/") "/") g))
                  (folderId md5 r "/") = true).
  { apply bool_decide_eq_true. simpl. rewrite lookup_insert_eq. eexists. reflexivity. }
  rewrite Hin. cbv beta iota zeta. discriminate.
Qed.

(** Enough fuel: the call returns. *)
Lemma ensureFolderNodeFrom_total n : ∀ p g rp,
  String.length p < n -> ensureFolderNodeFrom md5 (S n) g r p rp ≠ None.
Proof.
  induction n as [|n IH]; intros p g rp Hlen; [lia|].
  rewrite ensureFolderNodeFrom_S.
  destruct (String.eqb p "."); [discriminate|].
  destruct (has (nodes g) (folderId md5 r p)); [discriminate|].
  set (g1 := setNode _ g).
  assert (Hrec : ensureFolderNodeFrom md5 (S n) g1 r (Path.dirname p) rp ≠ None).
  { destruct (dirname_cases p) as [Hd|[[Hd Hr]|Hd]].
    - rewrite Hd, ensureFolderNodeFrom_S, String.eqb_refl. discriminate.
    - rewrite Hd. apply ensureFolderNodeFrom_slash.
      destruct p; [discriminate|]. simpl in Hlen. lia.
    - apply IH. lia. }
  destruct (ensureFolderNodeFrom md5 (S n) g1 r (Path.dirname p) rp) as [[pid g2]|];
    [cbv beta iota zeta; discriminate|contradiction].
Qed.

Lemma ensureFolderNode_returns g p rp : ∃ nid g', ensureFolderNode md5 g r p rp = Some (nid, g').
Proof.
  unfold ensureFolderNode.
  destruct (is_Some_not_None _ (ensureFolderNodeFrom_total (S (String.length p)) p g rp
              ltac:(lia))) as [[nid g'] H].
  exists nid, g'. exact H.
Qed.

(** A second call finds the node and changes nothing. *)
Lemma ensureFolderNode_again g p rp :
  p = "." ∨ present g (folderId md5 r p) ->
  ensureFolderNode md5 g r p rp = Some (nodeOf md5 r p, g).
Proof.
  intros H. unfold ensureFolderNode, nodeOf. rewrite ensureFolderNodeFrom_S.
  destruct (String.eqb_spec p ".") as [Hp|Hp]; [reflexivity|].
  destruct H as [H|H]; [contradiction|].
  apply has_present in H. rewrite H. reflexivity.
Qed.

(** A call leaves the nodes it finds in place. *)
Lemma ensureFolderNodeFrom_keeps fuel : ∀ g p rp nid g',
  ensureFolderNodeFrom md5 fuel g r p rp = Some (nid, g') ->
  ∀ k, present g k -> present g' k.
Proof.
  induction fuel as [|fuel IH]; intros g p rp nid g'; [discriminate|].
  rewrite ensureFolderNodeFrom_S.
  destruct (String.eqb p "."); [intros [= _ <-] k Hk; exact Hk|].
  destruct (has (nodes g) (folderId md5 r p)); [intros [= _ <-] k Hk; exact Hk|].
  destruct (ensureFolderNodeFrom md5 fuel _ r _ rp) as [[pid g2]|] eqn:E; [|discriminate].
  cbv zeta. intros [= _ <-] k Hk.
  assert (H2 : present g2 k).
  { apply (IH _ _ _ _ _ E). apply present_setNode. right. exact Hk. }
  destruct (negb _); [apply present_setNode; right|]; exact H2.
Qed.

(** For every digest and every graph, a second call for the same path
    returns what the first returned and leaves the graph as the first
    left it. *)
Lemma ensureFolderNode_twice g p rp nid g1 :
  ensureFolderNode md5 g r p rp = Some (nid, g1) ->
  ensureFolderNode md5 g1 r p rp = Some (nid, g1).
Proof.
  intros Hcall.
  pose proof (ensureFolderNodeFrom_id md5 {| repoId := r; localPath := "" |} _ _ _ _ _ _ Hcall)
    as Hnid. simpl in Hnid. rewrite Hnid. apply ensureFolderNode_again.
  destruct (String.eqb_spec p ".") as [Hp|Hp]; [left; exact Hp|right].
  revert Hcall. unfold ensureFolderNode. rewrite ensureFolderNodeFrom_S.
  destruct (String.eqb_spec p "."); [contradiction|].
  destruct (has (nodes g) (folderId md5 r p)) eqn:Eh.
  { intros [= _ <-]. apply has_present. exact Eh. }
  destruct (ensureFolderNodeFrom md5 _ _ r _ rp) as [[pid g2]|] eqn:E; [|discriminate].
  cbv zeta. intros [= _ <-].
  assert (H2 : present g2 (folderId md5 r p)).
  { apply (ensureFolderNodeFrom_keeps _ _ _ _ _ _ E). apply present_setNode. left. reflexivity. }
  destruct (negb _); [apply present_setNode; right|]; exact H2.
Qed.

End FolderCalls.

(** C6, at the failing input: the directory walk has put in the folder
    [src], and [ensureFolderNode] is called for [src/.cache] as the loop
    over the file list does.  The call returns the id of the folder, a
    second call returns the same id and leaves the graph alone, and one
    Contains edge ends in the new folder, the one from [src].  But the
    one edge that ends in [src] comes from the node of [folder:.], which
    is not the repository-root node; no edge leaves the repository-root
    node, and the new folder is not reached from it. *)
Theorem ensureFolderNode_misses_the_root :
  match walkedGraph with
  | Some g =>
      let root := Neo4jBuilder.rootId MD5.md5_hex "r1" in
      let top := Neo4jBuilder.folderId MD5.md5_hex "r1" "." in
      let src := Neo4jBuilder.folderId MD5.md5_hex "r1" "src" in
      let cache := Neo4jBuilder.folderId MD5.md5_hex "r1" "src/.cache" in
      match Neo4jBuilder.ensureFolderNode MD5.md5_hex g "r1" "src/.cache" "/repo" with
      | Some (nid, g1) =>
          nid = cache
          ∧ Neo4jBuilder.ensureFolderNode MD5.md5_hex g1 "r1" "src/.cache" "/repo"
            = Some (nid, g1)
          ∧ (∃ n, Neo4jBuilder.nodes g1 !! cache = Some n ∧ nodeType n = "FOLDER")
          ∧ incoming g1 cache = [Neo4jBuilder.mkEdge src cache "CONTAINS" "r1"]
          ∧ incoming g1 src = [Neo4jBuilder.mkEdge top src "CONTAINS" "r1"]
          ∧ top ≠ root
          ∧ present g1 root
          ∧ noOutgoing (Neo4jBuilder.edges g1) root = true
          ∧ ¬ reachable (Neo4jBuilder.edges g1) root cache
      | None => False
      end
  | None => False
  end.
Proof.
  assert (Hcheck :
    match walkedGraph with
    | Some g =>
        let root := Neo4jBuilder.rootId MD5.md5_hex "r1" in
        let top := Neo4jBuilder.folderId MD5.md5_hex "r1" "." in
        let src := Neo4jBuilder.folderId MD5.md5_hex "r1" "src" in
        let cache := Neo4jBuilder.folderId MD5.md5_hex "r1" "src/.cache" in
        match Neo4jBuilder.ensureFolderNode MD5.md5_hex g "r1" "src/.cache" "/repo" with
        | Some (nid, g1) =>
            String.eqb nid cache
            && match Neo4jBuilder.nodes g1 !! cache with
               | Some n => String.eqb (nodeType n) "FOLDER"
               | None => false
               end
            && bool_decide (incoming g1 cache = [Neo4jBuilder.mkEdge src cache "CONTAINS" "r1"])
            && bool_decide (incoming g1 src = [Neo4jBuilder.mkEdge top src "CONTAINS" "r1"])
            && negb (String.eqb top root)
            && has (Neo4jBuilder.nodes g1) root
            && noOutgoing (Neo4jBuilder.edges g1) root
            && negb (String.eqb root cache)
        | None => false
        end
    | None => false
    end = true) by (vm_compute; reflexivity).
  destruct walkedGraph as [g|]; [|discriminate]. cbv zeta in *.
  set (root := Neo4jBuilder.rootId MD5.md5_hex "r1") in *.
  set (top := Neo4jBuilder.folderId MD5.md5_hex "r1" ".") in *.
  set (src := Neo4jBuilder.folderId MD5.md5_hex "r1" "src") in *.
  set (cache := Neo4jBuilder.folderId MD5.md5_hex "r1" "src/.cache") in *.
  destruct (Neo4jBuilder.ensureFolderNode MD5.md5_hex g "r1" "src/.cache" "/repo")
    as [[nid g1]|] eqn:Ecall; [|discriminate].
  apply andb_true_iff in Hcheck as [Hcheck Hne].
  apply andb_true_iff in Hcheck as [Hcheck Hout].
  apply andb_true_iff in Hcheck as [Hcheck Hroot].
  apply andb_true_iff in Hcheck as [Hcheck Htop].
  apply andb_true_iff in Hcheck as [Hcheck Hsrc].
  apply andb_true_iff in Hcheck as [Hcheck Hcache].
  apply andb_true_iff in Hcheck as [Hnid Hnode].
  apply String.eqb_eq in Hnid. apply bool_decide_eq_true_1 in Hsrc, Hcache, Hroot.
  apply negb_true_iff, String.eqb_neq in Htop, Hne.
  split; [exact Hnid|].
  split; [exact (ensureFolderNode_twice MD5.md5_hex "r1" g "src/.cache" "/repo" nid g1 Ecall)|].
  split.
  { destruct (Neo4jBuilder.nodes g1 !! cache) as [n|]; [|discriminate].
    exists n. split; [reflexivity|]. apply String.eqb_eq. exact Hnode. }
  split; [exact Hcache|]. split; [exact Hsrc|]. split; [exact Htop|].
  split; [exact Hroot|]. split; [exact Hout|].
  exact (noOutgoing_unreachable _ _ _ Hne Hout).
Qed.

(** The nested folders of the specification's third scenario, with the
    real digest: two folder nodes below the root, chained by two edges,
    and nothing more after a second call. *)
Example ensureFolderNode_nested :
  match Neo4jBuilder.ensureFolderNode MD5.md5_hex (rootOnly MD5.md5_hex sampleRepo) "r1"
          "src/lib" "/repo" with
  | Some (nid, g1) =>
      nid = Neo4jBuilder.folderId MD5.md5_hex "r1" "src/lib"
      ∧ size (Neo4jBuilder.nodes g1) = 3
      ∧ Neo4jBuilder.edges g1
        = [Neo4jBuilder.mkEdge (Neo4jBuilder.rootId MD5.md5_hex "r1")
             (Neo4jBuilder.folderId MD5.md5_hex "r1" "src") "CONTAINS" "r1";
           Neo4jBuilder.mkEdge (Neo4jBuilder.folderId MD5.md5_hex "r1" "src")
             (Neo4jBuilder.folderId MD5.md5_hex "r1" "src/lib") "CONTAINS" "r1"]
      ∧ Neo4jBuilder.ensureFolderNode MD5.md5_hex g1 "r1" "src/lib" "/repo" = Some (nid, g1)
  | None => False
  end.
Proof. vm_compute. repeat split; reflexivity. Qed.

(** ** Further facts about the two builders *)

(** Even a reference whose key is the key of a recorded definition is not
    linked: the resolver asks for the node of [def:a.ts:helper:1], the
    definition node was stored under the id of [/repo/a.ts:helper:1]. *)
Lemma matching_key_misses_definition_node :
  match matchingBuild with
  | Some b =>
      is_Some (Neo4jBuilder.definitions b !! "helper:function")
      ∧ filter (fun e => isReferences e = true)
          (Neo4jBuilder.edges (Neo4jBuilder.resolved
             (Neo4jBuilder.resolveReferences MD5.md5_hex sampleRepo b))) = []
      ∧ Neo4jBuilder.missingNodes (Neo4jBuilder.resolveReferences MD5.md5_hex sampleRepo b) = 1
      ∧ Neo4jBuilder.missingDefinitions
          (Neo4jBuilder.resolveReferences MD5.md5_hex sampleRepo b) = 0
  | None => False
  end.
Proof. vm_compute. repeat split; try reflexivity. eexists. reflexivity. Qed.

(** The first half of the import rule holds as written: when the export
    map lists the name for the source file, the import registers the
    alias. *)
Lemma import_registers_alias G rp src localName imported exported w :
  EXPORT_MAP (modul w) !! src = Some exported -> imported ∈ exported ->
  IMPORT_RESOLVER (modul (enter G rp (ImportDeclaration src [ImportSpecifier localName imported]) w))
    !! localName = Some (src ++ "#" ++ imported).
Proof.
  intros Hsrc Hin. simpl. unfold trackImport. rewrite Hsrc. simpl.
  rewrite bool_decide_eq_true_2 by exact Hin. simpl. apply lookup_insert_eq.
Qed.

(** But nothing ever writes the export map: starting from a fresh process,
    any number of files parsed one after the other leave the module as it
    was, and no tag names a target file. *)
Lemma fresh_module_stays_fresh G : ∀ (files : list (string * string * FileContent)),
  forallb (fun f => wellFormedContent f.2) files = true ->
  fold_left (fun m f => (parseFile G m f.1.1 f.1.2 f.2).2) files freshModule = freshModule
  ∧ Forall (fun f => match (parseFile G freshModule f.1.1 f.1.2 f.2).1 with
                     | Resolved ts => Forall untargeted ts
                     | _ => True
                     end) files.
Proof.
  induction files as [|f files IH]; intros Hwf; [split; [reflexivity|constructor]|].
  simpl in Hwf. apply andb_true_iff in Hwf as [Hf Hfs].
  destruct (parseFile_dormant G freshModule f.1.1 f.1.2 f.2 dormant_fresh Hf) as [Hm Ht].
  destruct (IH Hfs) as [IH1 IH2]. simpl. rewrite Hm. split; [exact IH1|].
  constructor; assumption.
Qed.

(** A source file of the directory walk whose parse is rejected still gets
    its File node, adds no definition and no reference, and the walk goes
    on. *)
Lemma processFile_survives_rejection md5 G repo segs c parent b :
  (parseFile G (Neo4jBuilder.modst b) (Path.abs (localPath repo) segs) (Path.rel segs) c).1
    = Rejected ->
  ∃ b', Neo4jBuilder.processFile md5 G repo segs c parent b = Some b'
        ∧ present (Neo4jBuilder.graph b') (Neo4jBuilder.fileId md5 (repoId repo) (Path.rel segs))
        ∧ Neo4jBuilder.definitions b' = Neo4jBuilder.definitions b
        ∧ Neo4jBuilder.references b' = Neo4jBuilder.references b.
Proof.
  intros Hrej. unfold Neo4jBuilder.processFile. cbv zeta.
  set (b1 := Neo4jBuilder.withGraph _ b).
  change (Neo4jBuilder.modst b1) with (Neo4jBuilder.modst b).
  destruct (parseFile G (Neo4jBuilder.modst b) _ _ c) as [[ts| |] m']; try discriminate.
  exists (Neo4jBuilder.withModule m' b1). split; [reflexivity|]. split; [|split; reflexivity].
  subst b1. cbn [Neo4jBuilder.graph Neo4jBuilder.withGraph Neo4jBuilder.withModule].
  destruct (has _ _) eqn:Eh; cbn [negb].
  - apply has_present. exact Eh.
  - unfold present. cbn [Neo4jBuilder.connect Neo4jBuilder.nodes Neo4jBuilder.setNode
      Neo4jBuilder.fileNode nodeId]. rewrite lookup_insert_eq. eexists. reflexivity.
Qed.

Section UnlinkableCode.

Import CodeGraphBuilder.

Variable md5 : string -> string.
Variable G : gset string.
Variable repo : RepoInfo.

Lemma codeGraph_absorbTags_unlinkable path rp fid ts : ∀ b,
  Forall kinded ts -> unlinkableCode b ->
  unlinkableCode (fold_left (absorbTag md5 repo path rp fid) ts b).
Proof.
  induction ts as [|t ts IH]; intros b Hts Hb; [exact Hb|].
  apply Forall_cons in Hts as [Ht Hts]. simpl. apply IH; [exact Hts|].
  destruct Hb as (Hd & Hr & He). unfold absorbTag, kinded in *.
  destruct (kind t); unfold unlinkableCode; simpl.
  - split; [|split; [exact Hr|]].
    + intros k Hk. destruct (decide (name t ++ ":" ++ type t = k)) as [<-|Hne].
      * apply definition_key_end. exact Ht.
      * rewrite lookup_insert_ne in Hk by exact Hne. exact (Hd k Hk).
    + apply Forall_app. split; [exact He|]. constructor; [reflexivity|constructor].
  - split; [exact Hd|]. split; [|exact He]. apply Forall_app. split; [exact Hr|].
    constructor; [exact Ht|constructor].
Qed.

Lemma codeGraph_processFiles_unlinkable fs files : ∀ b b',
  unlinkableCode b -> processFiles md5 G repo fs files b = Some b' -> unlinkableCode b'.
Proof.
  induction files as [|segs files IH]; intros b b' Hb; simpl.
  - intros [= <-]. exact Hb.
  - destruct (processListed md5 G repo fs b segs) as [b1|] eqn:E; [|discriminate].
    apply IH. revert E. unfold processListed. cbv zeta. simpl.
    destruct (parseFile G (modst b) _ _ _) as [[ts| |] m'] eqn:Ep; intros [= <-].
    + apply codeGraph_absorbTags_unlinkable; [exact (parseFile_kinded _ _ _ _ _ _ _ Ep)|].
      destruct Hb as (Hd & Hr & He). repeat split; assumption.
    + destruct Hb as (Hd & Hr & He). repeat split; assumption.
Qed.

(** For every file list, contents and parser module: when the in-memory
    builder completes, its graph holds Contains edges only. *)
Lemma codeGraph_resolves_nothing fs files m g m' :
  buildGraph md5 G repo fs files m = Completed (g, m') ->
  Forall (fun e => edgeType e = "CONTAINS") (edges g).
Proof.
  unfold buildGraph.
  destruct (processFiles md5 G repo fs files _) as [b|] eqn:Ef; [|discriminate].
  intros [= <- _].
  assert (Hb : unlinkableCode b).
  { eapply codeGraph_processFiles_unlinkable; [|exact Ef]. split; [|split; constructor].
    intros k [d Hk]. simpl in Hk. rewrite lookup_empty in Hk. discriminate. }
  destruct Hb as (Hd & Hr & He).
  assert (Hsame : ∀ ts g0, Forall (fun t => type t ∈ referenceTypes) ts ->
            fold_left (resolveReference md5 repo (definitions b)) ts g0 = g0).
  { induction ts as [|t ts IH]; intros g0 Hts; [reflexivity|].
    apply Forall_cons in Hts as [Ht Hts]. simpl. unfold resolveReference at 2.
    destruct (definitions b !! _) as [d|] eqn:Ek; [|exact (IH g0 Hts)].
    exfalso. apply (Hd _ (mk_is_Some _ _ Ek)). apply reference_key_end. exact Ht. }
  rewrite Hsame by exact Hr. exact He.
Qed.

End UnlinkableCode.

(** The in-memory builder on the two-file repository: no root or folder
    node is made at all, and the one buffered reference stays unlinked. *)
Example codeGraph_helper_run :
  match CodeGraphBuilder.buildGraph MD5.md5_hex knownGlobals sampleRepo helperTree helperFiles
          freshModule with
  | Completed (g, _) =>
      CodeGraphBuilder.numberOfNodes g = 3
      ∧ CodeGraphBuilder.nodes g !! Neo4jBuilder.rootId MD5.md5_hex "r1" = None
      ∧ map (fun e => edgeType e) (CodeGraphBuilder.edges g) = ["CONTAINS"]
  | _ => False
  end.
Proof. vm_compute. repeat split; reflexivity. Qed.

(** With the real digest, on a repository with nested folders, a class
    with two methods and a file only the file list reaches: the finished
    graph has no edge twice and no Contains edge next to its reverse. *)
Example nested_run_is_tidy :
  match sampleBuild nestedTree nestedFiles with
  | Completed (g, _, _) =>
      tidyEdges (Neo4jBuilder.getEdges g) = true
      ∧ Neo4jBuilder.numberOfNodes g = 13
      ∧ Neo4jBuilder.numberOfEdges g = 11
  | _ => False
  end.
Proof. vm_compute. repeat split; reflexivity. Qed.

(** The in-memory builder keeps parallel edges: two definitions of the
    same name on the same line share a node id, and the file is tied to
    that node twice. *)
Example codeGraph_keeps_parallel_edges :
  match CodeGraphBuilder.buildGraph MD5.md5_hex knownGlobals sampleRepo twinTree [["twin.js"]]
          freshModule with
  | Completed (g, _) =>
      CodeGraphBuilder.numberOfNodes g = 4
      ∧ CodeGraphBuilder.numberOfEdges g = 4
      ∧ tidyEdges (CodeGraphBuilder.edges g) = false
  | _ => False
  end.
Proof. vm_compute. repeat split; reflexivity. Qed.

(** ** Edges and the nodes they join *)

Section Closed.

Import Neo4jBuilder.

Variable md5 : string -> string.
Variable G : gset string.
Variable repo : RepoInfo.

Let r := repoId repo.

Lemma grows_refl g : grows g g.
Proof. intros k H. exact H. Qed.

Lemma grows_trans g1 g2 g3 : grows g1 g2 -> grows g2 g3 -> grows g1 g3.
Proof. intros H1 H2 k H. exact (H2 k (H1 k H)). Qed.

Lemma present_set n g : present (setNode n g) (nodeId n).
Proof. unfold present. simpl. rewrite lookup_insert_eq. eexists. reflexivity. Qed.

Lemma grows_setNode n g : grows g (setNode n g).
Proof.
  intros k [x Hx]. unfold present. simpl.
  destruct (decide (nodeId n = k)) as [<-|Hne].
  - rewrite lookup_insert_eq. eexists. reflexivity.
  - rewrite lookup_insert_ne by exact Hne. exists x. exact Hx.
Qed.

Lemma closed_grows g g' :
  closed g -> grows g g' -> edges g' = edges g -> closed g'.
Proof.
  intros Hc Hg He e Hin. rewrite He in Hin. destruct (Hc e Hin) as [H1 H2].
  split; apply Hg; assumption.
Qed.

Lemma closed_setNode n g : closed g -> closed (setNode n g).
Proof. intros Hc. apply (closed_grows g); [exact Hc | apply grows_setNode | reflexivity]. Qed.

Lemma closed_pushEdge s t ty g :
  closed g -> present g s -> present g t -> closed (pushEdge (mkEdge s t ty r) g).
Proof.
  intros Hc Hs Ht e Hin. simpl in Hin. apply elem_of_app in Hin as [Hin|Hin].
  - exact (Hc e Hin).
  - apply list_elem_of_singleton in Hin. subst e. split; assumption.
Qed.

Lemma closed_connect s t ty g :
  closed g -> present g s -> present g t -> closed (connect s t ty r g).
Proof.
  intros Hc Hs Ht. unfold connect, addUniqueEdge.
  destruct (List.existsb _ _); [exact Hc|]. destruct (_ && _); [exact Hc|].
  exact (closed_pushEdge s t ty g Hc Hs Ht).
Qed.

Lemma closed_guarded s t g :
  closed g -> present g s -> present g t ->
  closed (if negb (edgeExists (edges g) s t "CONTAINS" r)
          then pushEdge (mkEdge s t "CONTAINS" r) g else g).
Proof.
  intros Hc Hs Ht. destruct (negb _); [|exact Hc]. exact (closed_pushEdge s t _ g Hc Hs Ht).
Qed.

Lemma absorbTag_rooted path rp fid b t :
  rooted md5 r (graph b) -> present (graph b) fid ->
  rooted md5 r (graph (absorbTag md5 r path rp fid b t)) ∧ grows (graph b) (graph (absorbTag md5 r path rp fid b t)).
Proof.
  intros [Hc Hr] Hf. unfold absorbTag. destruct (kind t); cbn [graph].
  2:{ split; [split; assumption | apply grows_refl]. }
  set (nd := definitionNode r _ rp t).
  assert (Hg : grows (graph b) (setNode nd (graph b))) by apply grows_setNode.
  assert (Hc1 : closed (setNode nd (graph b))) by (apply closed_setNode; exact Hc).
  pose proof (closed_guarded fid (nodeId nd) (setNode nd (graph b)) Hc1 (Hg _ Hf)
                (present_set nd (graph b))) as Hc2.
  split; [split|].
  - exact Hc2.
  - destruct (negb _); apply Hg; exact Hr.
  - destruct (negb _); exact Hg.
Qed.

Lemma absorbTags_rooted path rp fid ts : ∀ b,
  rooted md5 r (graph b) -> present (graph b) fid ->
  rooted md5 r (graph (fold_left (absorbTag md5 r path rp fid) ts b))
  ∧ grows (graph b) (graph (fold_left (absorbTag md5 r path rp fid) ts b)).
Proof.
  induction ts as [|t ts IH]; intros b Hb Hf; [split; [exact Hb|apply grows_refl]|].
  simpl. destruct (absorbTag_rooted path rp fid b t Hb Hf) as [H1 G1].
  destruct (IH _ H1 (G1 _ Hf)) as [H2 G2]. split; [exact H2|].
  exact (grows_trans _ _ _ G1 G2).
Qed.

Lemma openDirectory_rooted segs parent b :
  rooted md5 r (graph b) -> present (graph b) parent ->
  rooted md5 r (graph (openDirectory md5 repo segs parent b))
  ∧ grows (graph b) (graph (openDirectory md5 repo segs parent b))
  ∧ present (graph (openDirectory md5 repo segs parent b)) (folderId md5 r (relativeDir segs)).
Proof.
  intros [Hc Hr] Hp. unfold openDirectory. fold r.
  destruct (has (nodes (graph b)) (folderId md5 r (relativeDir segs))) eqn:Eh; cbn [negb].
  { split; [split; assumption|]. split; [apply grows_refl|]. apply bool_decide_eq_true in Eh. exact Eh. }
  cbn [graph withGraph].
  set (nd := directoryNode repo _ _ _).
  assert (Hid : nodeId nd = folderId md5 r (relativeDir segs)) by reflexivity.
  assert (Hg : grows (graph b) (setNode nd (graph b))) by apply grows_setNode.
  assert (Hc1 : closed (setNode nd (graph b))) by (apply closed_setNode; exact Hc).
  assert (Hn : present (setNode nd (graph b)) (folderId md5 r (relativeDir segs))).
  { rewrite <- Hid. apply present_set. }
  pose proof (closed_guarded parent (folderId md5 r (relativeDir segs)) (setNode nd (graph b))
                Hc1 (Hg _ Hp) Hn) as Hc2.
  destruct (_ && _).
  - split; [split|split].
    + exact Hc2.
    + destruct (negb _); apply Hg; exact Hr.
    + destruct (negb _); exact Hg.
    + destruct (negb _); exact Hn.
  - split; [split; [exact Hc1 | apply Hg; exact Hr]|]. split; [exact Hg | exact Hn].
Qed.

Lemma processFile_rooted segs c parent b b' :
  rooted md5 r (graph b) -> present (graph b) parent ->
  processFile md5 G repo segs c parent b = Some b' ->
  rooted md5 r (graph b') ∧ grows (graph b) (graph b').
Proof.
  intros [Hc Hr] Hp. unfold processFile. cbv zeta. fold r.
  set (fid := fileId md5 r (Path.rel segs)).
  set (g1 := if negb (has (nodes (graph b)) fid) then _ else graph b).
  assert (H1 : rooted md5 r g1 ∧ grows (graph b) g1 ∧ present g1 fid).
  { subst g1. destruct (has (nodes (graph b)) fid) eqn:Eh; cbn [negb].
    - split; [split; assumption|]. split; [apply grows_refl|].
      apply bool_decide_eq_true in Eh. exact Eh.
    - set (nd := fileNode r fid _ _).
      assert (Hg : grows (graph b) (setNode nd (graph b))) by apply grows_setNode.
      assert (Hn : present (setNode nd (graph b)) fid) by apply (present_set nd).
      split; [split|split].
      + apply closed_connect; [apply closed_setNode; exact Hc | apply Hg; exact Hp | exact Hn].
      + apply Hg. exact Hr.
      + exact Hg.
      + exact Hn. }
  destruct H1 as (Hr1 & Hg1 & Hf1).
  destruct (parseFile G _ _ _ c) as [[ts| |] m']; intros [= <-].
  - destruct (absorbTags_rooted (Path.abs (localPath repo) segs) (Path.rel segs) fid ts
                (withModule m' (withGraph g1 b)) Hr1 Hf1) as [H2 G2].
    split; [exact H2 | exact (grows_trans _ _ _ Hg1 G2)].
  - split; [exact Hr1 | exact Hg1].
Qed.

Lemma processEntry_rooted e : ∀ dirSegs dirNodeId b,
  rooted md5 r (graph b) -> present (graph b) dirNodeId ->
  leaves md5 r b (processEntry md5 G repo dirSegs dirNodeId e b).
Proof.
  induction e as [n sz c|n l sub IH|n|n] using FsEntry_nested_ind; intros dirSegs dirNodeId b Hb Hp.
  - simpl. destruct (sourceExtension n); [|split; [exact Hb|apply grows_refl]].
    destruct (processFile _ _ _ _ _ _ _) as [b'|] eqn:E; [|exact I].
    exact (processFile_rooted _ _ _ _ _ Hb Hp E).
  - rewrite processEntry_unfold_dir.
    destruct (startsWithDot n || String.eqb n "node_modules"); [split; [exact Hb|apply grows_refl]|].
    cbv zeta.
    destruct (openDirectory_rooted (dirSegs ++ [n]) dirNodeId b Hb Hp) as (Hb1 & Hg1 & Hp1).
    destruct l; [|split; [exact Hb1|exact Hg1]].
    set (segs := (dirSegs ++ [n])%list) in *.
    set (subId := folderId md5 (repoId repo) (relativeDir segs)).
    assert (Hloop : ∀ b1, rooted md5 r (graph b1) -> present (graph b1) subId ->
              leaves md5 r b1 (processEntries md5 G repo segs subId sub b1)).
    { clear Hb Hp Hb1 Hg1 Hp1. induction IH as [|x sub Hx _ IHsub]; intros b1 Hb1 Hp1.
      - split; [exact Hb1|apply grows_refl].
      - simpl. pose proof (Hx segs subId b1 Hb1 Hp1) as Hstep.
        destruct (processEntry md5 G repo segs subId x b1) as [b2|b2|]; simpl in Hstep.
        + destruct Hstep as [Hb2 Hg2]. pose proof (IHsub b2 Hb2 (Hg2 _ Hp1)) as Hrest.
          destruct (processEntries md5 G repo segs subId sub b2) as [b3|b3|]; simpl in *;
            try exact I; destruct Hrest as [Hb3 Hg3];
            (split; [exact Hb3 | exact (grows_trans _ _ _ Hg2 Hg3)]).
        + exact Hstep.
        + exact I. }
    pose proof (Hloop _ Hb1 Hp1) as Hsub.
    destruct (processEntries md5 G repo segs subId sub _) as [b3|b3|]; simpl in *; try exact I;
      destruct Hsub as [Hb3 Hg3]; (split; [exact Hb3 | exact (grows_trans _ _ _ Hg1 Hg3)]).
  - split; [exact Hb|apply grows_refl].
  - split; [exact Hb|apply grows_refl].
Qed.

Lemma processEntries_rooted es : ∀ dirSegs dirNodeId b,
  rooted md5 r (graph b) -> present (graph b) dirNodeId ->
  leaves md5 r b (processEntries md5 G repo dirSegs dirNodeId es b).
Proof.
  induction es as [|x es IH]; intros dirSegs dirNodeId b Hb Hp; [split; [exact Hb|apply grows_refl]|].
  simpl. pose proof (processEntry_rooted x dirSegs dirNodeId b Hb Hp) as Hstep.
  destruct (processEntry md5 G repo dirSegs dirNodeId x b) as [b2|b2|]; simpl in Hstep.
  - destruct Hstep as [Hb2 Hg2]. pose proof (IH dirSegs dirNodeId b2 Hb2 (Hg2 _ Hp)) as Hrest.
    destruct (processEntries md5 G repo dirSegs dirNodeId es b2) as [b3|b3|]; simpl in *;
      try exact I; destruct Hrest as [Hb3 Hg3];
      (split; [exact Hb3 | exact (grows_trans _ _ _ Hg2 Hg3)]).
  - exact Hstep.
  - exact I.
Qed.

Lemma processDirectory_rooted fs parent b b' :
  rooted md5 r (graph b) -> present (graph b) parent ->
  processDirectory md5 G repo fs parent b = Some b' -> rooted md5 r (graph b').
Proof.
  intros Hb Hp. unfold processDirectory.
  destruct (openDirectory_rooted [] parent b Hb Hp) as (Hb1 & Hg1 & Hp1).
  pose proof (processEntries_rooted fs [] _ _ Hb1 Hp1) as Hk.
  destruct (processEntries md5 G repo [] _ fs _) as [b2|b2|]; simpl in Hk;
    intros [= <-] || discriminate; exact (proj1 Hk).
Qed.

Lemma ensureFolderNodeFrom_rooted fuel : ∀ g p rp nid g',
  rooted md5 r g -> ensureFolderNodeFrom md5 fuel g r p rp = Some (nid, g') ->
  rooted md5 r g' ∧ grows g g' ∧ present g' nid.
Proof.
  induction fuel as [|fuel IH]; intros g p rp nid g' Hg; [discriminate|]. simpl.
  destruct (String.eqb p ".").
  { intros [= <- <-]. split; [exact Hg|]. split; [apply grows_refl | exact (proj2 Hg)]. }
  destruct (has (nodes g) (folderId md5 r p)) eqn:Eh.
  { intros [= <- <-]. split; [exact Hg|]. split; [apply grows_refl|].
    apply bool_decide_eq_true in Eh. exact Eh. }
  set (nd := folderNode r (folderId md5 r p) (Path.basename p) p).
  destruct (ensureFolderNodeFrom md5 fuel (setNode nd g) r _ rp) as [[pid g2]|] eqn:E;
    [|discriminate].
  intros [= <- <-].
  assert (H1 : rooted md5 r (setNode nd g)).
  { destruct Hg as [Hc Hr]. split; [apply closed_setNode; exact Hc | apply grows_setNode; exact Hr]. }
  destruct (IH _ _ _ _ _ H1 E) as ([Hc2 Hr2] & Hg2 & Hp2).
  assert (Hn2 : present g2 (folderId md5 r p)) by (apply Hg2; apply (present_set nd)).
  assert (Hgrow : grows g g2) by exact (grows_trans _ _ _ (grows_setNode nd g) Hg2).
  assert (Hc3 : closed (connect pid (folderId md5 r p) "CONTAINS" r g2))
    by (apply closed_connect; assumption).
  destruct (negb (has _ _)).
  - set (nd' := folderNode r _ _ p). split; [split|split].
    + apply closed_setNode. exact Hc3.
    + apply grows_setNode. exact Hr2.
    + intros k Hk. apply grows_setNode. exact (Hgrow k Hk).
    + apply (present_set nd').
  - split; [split; [exact Hc3 | exact Hr2]|]. split; [exact Hgrow | exact Hn2].
Qed.

Lemma processListed_rooted fs b segs b' :
  rooted md5 r (graph b) -> processListed md5 G repo fs b segs = Completed b' -> rooted md5 r (graph b').
Proof.
  intros Hb. unfold processListed. cbv zeta. fold r.
  destruct (has _ _); [intros [= <-]; exact Hb|].
  destruct (fsLookup fs segs) as [[sz c]|]; [|intros [= <-]; exact Hb].
  destruct sz as [|sz]; [intros [= <-]; exact Hb|].
  destruct (ensureFolderNode md5 _ _ _ _) as [[pid g1]|] eqn:Ee; [|discriminate].
  destruct (ensureFolderNodeFrom_rooted _ _ _ _ _ _ Hb Ee) as ([Hc1 Hr1] & Hg1 & Hp1).
  set (fid := fileId md5 r (Path.rel segs)).
  set (nd := fileNode r fid _ _).
  assert (Hg : grows g1 (setNode nd g1)) by apply grows_setNode.
  assert (H2 : rooted md5 r (connect pid fid "CONTAINS" r (setNode nd g1))).
  { split.
    - apply closed_connect; [apply closed_setNode; exact Hc1 | apply Hg; exact Hp1
                            | apply (present_set nd)].
    - apply Hg. exact Hr1. }
  assert (Hf : present (connect pid fid "CONTAINS" r (setNode nd g1)) fid)
    by apply (present_set nd).
  destruct (parseFile G _ _ _ c) as [[ts| |] m']; intros [= <-] || discriminate.
  exact (proj1 (absorbTags_rooted _ _ fid ts (withModule m' (withGraph _ b)) H2 Hf)).
Qed.

Lemma processFiles_rooted fs files : ∀ b b',
  rooted md5 r (graph b) -> processFiles md5 G repo fs files b = Completed b' -> rooted md5 r (graph b').
Proof.
  induction files as [|segs files IH]; intros b b' Hb; simpl.
  - intros [= <-]. exact Hb.
  - destruct (processListed md5 G repo fs b segs) as [b1| |] eqn:E; try discriminate.
    apply IH. exact (processListed_rooted fs b segs b1 Hb E).
Qed.

Lemma resolveReference_closed defs s t :
  closed (resolved s) -> closed (resolved (resolveReference md5 repo defs s t)).
Proof.
  intros Hs. unfold resolveReference. fold r. destruct (defs !! _) as [d|]; [|exact Hs].
  set (refId := generateNodeId md5 r ("ref:" ++ _)).
  set (defId := generateNodeId md5 r ("def:" ++ _)).
  set (nd := referenceNode repo refId t).
  assert (Hadd : ∀ g, closed g -> present g refId -> present g defId ->
            ∀ es added, addUniqueEdge (edges g) refId defId "REFERENCES" r = (es, added) ->
            closed {| nodes := nodes g; edges := es |}).
  { intros g Hc Hr Hd es added Ea.
    pose proof (closed_connect refId defId "REFERENCES" g Hc Hr Hd) as Hcc.
    unfold connect in Hcc. rewrite Ea in Hcc. exact Hcc. }
  destruct (has (nodes (resolved s)) refId) eqn:Eref; cbn [negb].
  - apply bool_decide_eq_true in Eref.
    destruct (has (nodes (resolved s)) defId) eqn:Edef; cbn [negb]; [|exact Hs].
    apply bool_decide_eq_true in Edef.
    destruct (bool_decide _); [exact Hs|].
    destruct (addUniqueEdge _ _ _ _ _) as [es added] eqn:Ea. cbn [resolved].
    exact (Hadd _ Hs Eref Edef es added Ea).
  - assert (Hg : grows (resolved s) (setNode nd (resolved s))) by apply grows_setNode.
    assert (Hc1 : closed (setNode nd (resolved s))) by (apply closed_setNode; exact Hs).
    assert (Hn : present (setNode nd (resolved s)) refId) by apply (present_set nd).
    destruct (has (nodes (setNode nd (resolved s))) (fileId md5 r (filePath t))) eqn:Efile.
    + apply bool_decide_eq_true in Efile.
      set (g1 := connect _ refId "CONTAINS" r _).
      assert (Hc2 : closed g1) by (apply closed_connect; assumption).
      destruct (has (nodes g1) defId) eqn:Edef; cbn [negb resolved]; [|exact Hc2].
      apply bool_decide_eq_true in Edef.
      destruct (bool_decide _); [exact Hc2|].
      destruct (addUniqueEdge _ _ _ _ _) as [es added] eqn:Ea. cbn [resolved].
      exact (Hadd g1 Hc2 Hn Edef es added Ea).
    + cbn [resolved]. exact Hc1.
Qed.

Lemma buildGraph_closed fs files m g s m' :
  buildGraph md5 G repo fs files m = Completed (g, s, m') ->
  ∀ e, e ∈ getEdges g ->
    is_Some (viewNodes g !! sourceId e) ∧ is_Some (viewNodes g !! targetId e).
Proof.
  unfold buildGraph. fold r.
  destruct (processDirectory md5 G repo fs _ _) as [b1|] eqn:Ed; [|discriminate].
  destruct (processFiles md5 G repo fs files b1) as [b2| |] eqn:Ef; try discriminate.
  intros [= <- _ _]. cbn [getEdges viewEdges viewNodes].
  assert (H0 : rooted md5 r (graph (initialBuild md5 repo m))).
  { split; [|apply (present_set (repositoryNode md5 repo))].
    intros e He. simpl in He. apply elem_of_nil in He. contradiction. }
  assert (H1 : rooted md5 r (graph b1)).
  { exact (processDirectory_rooted fs _ _ b1 H0 (proj2 H0) Ed). }
  assert (H2 : rooted md5 r (graph b2)) by exact (processFiles_rooted fs files b1 b2 H1 Ef).
  assert (H3 : ∀ ts s0, closed (resolved s0) ->
            closed (resolved (fold_left (resolveReference md5 repo (definitions b2)) ts s0))).
  { induction ts as [|t ts IH]; intros s0 H; [exact H|]. simpl. apply IH.
    apply resolveReference_closed. exact H. }
  unfold resolveReferences. apply H3. exact (proj1 H2).
Qed.

End Closed.

(** ** A build with the digest is the build with the identity, hashed *)

Section Hashing.

Import Neo4jBuilder.

Variable md5 : string -> string.
Variable G : gset string.
Variable repo : RepoInfo.
Variable F : string -> Prop.
Hypothesis Finj : ∀ a b, F a -> F b -> md5 a = md5 b -> a = b.

Let r := repoId repo.
Let ι := fun s : string => s.

Lemma covered_grows g g' : grows g g' -> covered F g' -> covered F g.
Proof. intros Hg Hc k Hk. exact (Hc k (Hg k Hk)). Qed.

Lemma eqb_hash a b : F a -> F b -> String.eqb (md5 a) (md5 b) = String.eqb a b.
Proof.
  intros Ha Hb. destruct (String.eqb_spec a b) as [->|Hne]; [apply String.eqb_refl|].
  apply String.eqb_neq. intros E. exact (Hne (Finj a b Ha Hb E)).
Qed.

Lemma hashed_has g0 gm x :
  hashedGraph md5 g0 gm -> covered F g0 -> F x ->
  has (nodes gm) (md5 x) = has (nodes g0) x.
Proof.
  intros (N1 & N2 & _) Hc Hx. destruct (has (nodes g0) x) eqn:E.
  - apply has_present in E as [n Hn]. apply has_present. exists (hashNode md5 n).
    exact (N1 x n Hn).
  - apply has_absent in E. apply has_absent. intros Hp.
    destruct (N2 _ Hp) as (k & Hk & Hpk). apply E.
    rewrite (Finj x k Hx (Hc k Hpk) Hk). exact Hpk.
Qed.

Lemma hashed_setNode g0 gm n :
  hashedGraph md5 g0 gm -> covered F g0 -> F (nodeId n) ->
  hashedGraph md5 (setNode n g0) (setNode (hashNode md5 n) gm).
Proof.
  intros (N1 & N2 & E) Hc Hn. split; [|split; [|exact E]].
  - intros k n1. simpl. destruct (decide (nodeId n = k)) as [<-|Hne].
    + rewrite !lookup_insert_eq. intros [= <-]. reflexivity.
    + rewrite lookup_insert_ne by exact Hne. intros Hk.
      rewrite lookup_insert_ne; [exact (N1 k n1 Hk)|].
      intros Eh. apply Hne. apply Finj; [exact Hn| |exact Eh].
      apply Hc. exists n1. exact Hk.
  - intros k' Hk'. apply present_setNode in Hk' as [->|Hk'].
    + exists (nodeId n). split; [reflexivity|]. apply present_setNode. left. reflexivity.
    + destruct (N2 k' Hk') as (k & -> & Hk). exists k. split; [reflexivity|].
      apply present_setNode. right. exact Hk.
Qed.

(** The ends of every edge of a closed, covered graph are in [F]. *)
Lemma covered_ends g e :
  closed g -> covered F g -> e ∈ edges g -> F (sourceId e) ∧ F (targetId e).
Proof. intros Hcl Hc He. destruct (Hcl e He) as [H1 H2]. split; apply Hc; assumption. Qed.

Lemma hashed_sameEdge a b ty e :
  F a -> F b -> F (sourceId e) -> F (targetId e) ->
  sameEdge (md5 a) (md5 b) ty r (hashEdge md5 e) = sameEdge a b ty r e.
Proof.
  intros Ha Hb Hs Ht. unfold sameEdge. simpl.
  rewrite (eqb_hash _ _ Hs Ha), (eqb_hash _ _ Ht Hb). reflexivity.
Qed.

Lemma hashed_existsb a b ty (es : list GraphEdgeData) :
  F a -> F b -> (∀ e, e ∈ es -> F (sourceId e) ∧ F (targetId e)) ->
  List.existsb (sameEdge (md5 a) (md5 b) ty r) (map (hashEdge md5) es)
  = List.existsb (sameEdge a b ty r) es.
Proof.
  intros Ha Hb. induction es as [|e es IH]; intros Hes; [reflexivity|]. simpl.
  destruct (Hes e ltac:(left)) as [Hs Ht]. rewrite (hashed_sameEdge a b ty e Ha Hb Hs Ht).
  rewrite IH; [reflexivity|]. intros e' He'. apply Hes. right. exact He'.
Qed.

Lemma hashed_pushEdge g0 gm a b ty :
  hashedGraph md5 g0 gm ->
  hashedGraph md5 (pushEdge (mkEdge a b ty r) g0) (pushEdge (mkEdge (md5 a) (md5 b) ty r) gm).
Proof.
  intros (N1 & N2 & E). split; [exact N1|]. split; [exact N2|].
  simpl. rewrite E, map_app. reflexivity.
Qed.

Lemma hashed_guarded g0 gm a b :
  hashedGraph md5 g0 gm -> closed g0 -> covered F g0 -> F a -> F b ->
  hashedGraph md5
    (if negb (edgeExists (edges g0) a b "CONTAINS" r)
     then pushEdge (mkEdge a b "CONTAINS" r) g0 else g0)
    (if negb (edgeExists (edges gm) (md5 a) (md5 b) "CONTAINS" r)
     then pushEdge (mkEdge (md5 a) (md5 b) "CONTAINS" r) gm else gm).
Proof.
  intros Hh Hcl Hc Ha Hb. unfold edgeExists. rewrite (proj2 (proj2 Hh)).
  rewrite (hashed_existsb a b "CONTAINS" (edges g0) Ha Hb
             (fun e He => covered_ends g0 e Hcl Hc He)).
  destruct (negb _); [apply hashed_pushEdge|]; exact Hh.
Qed.

Lemma hashed_connect g0 gm a b ty :
  hashedGraph md5 g0 gm -> closed g0 -> covered F g0 -> F a -> F b ->
  hashedGraph md5 (connect a b ty r g0) (connect (md5 a) (md5 b) ty r gm).
Proof.
  intros (N1 & N2 & E) Hcl Hc Ha Hb. unfold connect, addUniqueEdge. rewrite E.
  rewrite (hashed_existsb a b ty (edges g0) Ha Hb (fun e He => covered_ends g0 e Hcl Hc He)).
  rewrite (hashed_existsb b a ty (edges g0) Hb Ha (fun e He => covered_ends g0 e Hcl Hc He)).
  destruct (List.existsb (sameEdge a b ty r) (edges g0)); cbn [fst].
  { split; [exact N1|]. split; [exact N2|reflexivity]. }
  destruct (String.eqb ty "CONTAINS" && _); cbn [fst].
  - split; [exact N1|]. split; [exact N2|reflexivity].
  - split; [exact N1|]. split; [exact N2|].
    cbn [edges]. rewrite map_app. reflexivity.
Qed.


Lemma hashed_has_true g0 gm x :
  hashedGraph md5 g0 gm -> has (nodes g0) x = true -> has (nodes gm) (md5 x) = true.
Proof.
  intros (N1 & _ & _) E. apply has_present in E as [n Hn]. apply has_present.
  exists (hashNode md5 n). exact (N1 x n Hn).
Qed.

Lemma hashedBuild_withGraph b0 bm g0 gm :
  hashedBuild md5 b0 bm -> hashedGraph md5 g0 gm ->
  hashedBuild md5 (withGraph g0 b0) (withGraph gm bm).
Proof. intros (_ & Hd & Hr & Hm) Hg. split; [exact Hg|]. repeat split; assumption. Qed.

Lemma hashedBuild_withModule b0 bm m :
  hashedBuild md5 b0 bm -> hashedBuild md5 (withModule m b0) (withModule m bm).
Proof. intros (Hg & Hd & Hr & _). split; [exact Hg|]. repeat split; assumption. Qed.

Lemma absorbTag_hashed path rp fid b0 bm t :
  hashedBuild md5 b0 bm -> rooted ι r (graph b0) -> present (graph b0) fid ->
  covered F (graph (absorbTag ι r path rp fid b0 t)) ->
  hashedBuild md5 (absorbTag ι r path rp fid b0 t) (absorbTag md5 r path rp (md5 fid) bm t).
Proof.
  intros (Hg & Hd & Hr & Hm) [Hc Hroot] Hf. unfold absorbTag. destruct (kind t); cbn [graph].
  2:{ intros _. split; [exact Hg|]. cbn. rewrite Hd, Hr, Hm. repeat split. }
  set (nd := definitionNode r (definitionId ι r path t) rp t).
  intros Hcov.
  assert (Hcov1 : covered F (setNode nd (graph b0))).
  { intros k Hk. apply Hcov. destruct (negb _); exact Hk. }
  assert (Hcov0 : covered F (graph b0)) by exact (covered_grows _ _ (grows_setNode nd _) Hcov1).
  assert (Fn : F (nodeId nd)) by (apply Hcov1; apply present_set).
  pose proof (hashed_setNode _ _ nd Hg Hcov0 Fn) as H1.
  pose proof (hashed_guarded _ _ fid (nodeId nd) H1 (closed_setNode nd _ Hc) Hcov1
                (Hcov0 _ Hf) Fn) as H2.
  split; [exact H2|]. cbn. rewrite Hd, Hr, Hm. repeat split.
Qed.

Lemma absorbTags_hashed path rp fid ts : ∀ b0 bm,
  hashedBuild md5 b0 bm -> rooted ι r (graph b0) -> present (graph b0) fid ->
  covered F (graph (fold_left (absorbTag ι r path rp fid) ts b0)) ->
  hashedBuild md5 (fold_left (absorbTag ι r path rp fid) ts b0)
    (fold_left (absorbTag md5 r path rp (md5 fid)) ts bm).
Proof.
  induction ts as [|t ts IH]; intros b0 bm Hb Hroot Hf Hcov; [exact Hb|]. simpl in *.
  destruct (absorbTag_rooted ι repo path rp fid b0 t Hroot Hf) as [H1 G1].
  destruct (absorbTags_rooted ι repo path rp fid ts _ H1 (G1 _ Hf)) as [_ G2].
  apply IH; [|exact H1|exact (G1 _ Hf)|exact Hcov].
  apply absorbTag_hashed; [exact Hb|exact Hroot|exact Hf|].
  exact (covered_grows _ _ G2 Hcov).
Qed.

Lemma openDirectory_hashed segs parent b0 bm :
  hashedBuild md5 b0 bm -> rooted ι r (graph b0) -> present (graph b0) parent ->
  covered F (graph (openDirectory ι repo segs parent b0)) ->
  hashedBuild md5 (openDirectory ι repo segs parent b0)
    (openDirectory md5 repo segs (md5 parent) bm).
Proof.
  intros Hb Hroot Hp Hcov.
  destruct (openDirectory_rooted ι repo segs parent b0 Hroot Hp) as (_ & Hgrow & Hdir).
  assert (Hcov0 : covered F (graph b0)) by exact (covered_grows _ _ Hgrow Hcov).
  assert (Fd : F (folderId ι r (relativeDir segs))) by exact (Hcov _ Hdir).
  assert (Fp : F parent) by exact (Hcov0 _ Hp).
  revert Hcov. unfold openDirectory. fold r.
  change (folderId md5 r (relativeDir segs)) with (md5 (folderId ι r (relativeDir segs))).
  rewrite (hashed_has _ _ _ (proj1 Hb) Hcov0 Fd).
  destruct (has (nodes (graph b0)) _); cbn [negb]; [intros _; exact Hb|].
  set (nd := directoryNode repo (folderId ι r (relativeDir segs)) _ (relativeDir segs)).
  intros Hcov.
  assert (Hcov1 : covered F (setNode nd (graph b0))).
  { intros k Hk. apply Hcov. cbn [graph withGraph].
    destruct (_ && _); [destruct (negb _)|]; exact Hk. }
  pose proof (hashed_setNode _ _ nd (proj1 Hb) Hcov0 Fd) as H1.
  apply hashedBuild_withGraph; [exact Hb|].
  rewrite (eqb_hash _ _ Fp Fd).
  destruct (_ && _); [|exact H1].
  exact (hashed_guarded _ _ parent (folderId ι r (relativeDir segs)) H1
           (closed_setNode nd _ (proj1 Hroot)) Hcov1 Fp Fd).
Qed.

Lemma processFile_hashed segs c parent b0 bm b0' :
  hashedBuild md5 b0 bm -> rooted ι r (graph b0) -> present (graph b0) parent ->
  processFile ι G repo segs c parent b0 = Some b0' -> covered F (graph b0') ->
  ∃ bm', processFile md5 G repo segs c (md5 parent) bm = Some bm' ∧ hashedBuild md5 b0' bm'.
Proof.
  intros Hb Hroot Hp Hrun Hcov.
  destruct (processFile_rooted ι G repo segs c parent b0 b0' Hroot Hp Hrun) as [_ Hgrow].
  assert (Hcov0 : covered F (graph b0)) by exact (covered_grows _ _ Hgrow Hcov).
  assert (Fp : F parent) by exact (Hcov0 _ Hp).
  revert Hrun. unfold processFile. cbv zeta. fold r.
  set (fid := fileId ι r (Path.rel segs)).
  change (fileId md5 r (Path.rel segs)) with (md5 fid).
  set (nd := fileNode r fid (lastSeg (localPath repo) segs) (Path.rel segs)).
  change (fileNode r (md5 fid) (lastSeg (localPath repo) segs) (Path.rel segs))
    with (hashNode md5 nd).
  set (g1 := if negb (has (nodes (graph b0)) fid) then _ else graph b0).
  set (g1m := if negb (has (nodes (graph bm)) (md5 fid)) then _ else graph bm).
  assert (Hm1 : modst (withGraph g1m bm) = modst (withGraph g1 b0))
    by exact (proj2 (proj2 (proj2 Hb))).
  rewrite Hm1.
  assert (Hroot1 : rooted ι r g1 ∧ present g1 fid ∧ grows (graph b0) g1).
  { subst g1. destruct (has (nodes (graph b0)) fid) eqn:Eh; cbn [negb].
    - split; [exact Hroot|]. split; [apply has_present; exact Eh|apply grows_refl].
    - assert (Hg : grows (graph b0) (setNode nd (graph b0))) by apply grows_setNode.
      split; [split|split].
      + apply closed_connect; [apply closed_setNode; exact (proj1 Hroot)| apply Hg; exact Hp
                              | apply (present_set nd)].
      + apply Hg. exact (proj2 Hroot).
      + apply (present_set nd).
      + exact Hg. }
  destruct Hroot1 as (Hroot1 & Hf1 & Hgrow1).
  assert (Hstep : covered F g1 -> hashedGraph md5 g1 g1m).
  { intros Hc1. assert (Ff : F fid) by exact (Hc1 _ Hf1).
    subst g1 g1m. rewrite (hashed_has _ _ _ (proj1 Hb) Hcov0 Ff).
    destruct (has (nodes (graph b0)) fid); cbn [negb] in *; [exact (proj1 Hb)|].
    apply hashed_connect; [|apply closed_setNode; exact (proj1 Hroot)| |exact Fp|exact Ff].
    - apply hashed_setNode; [exact (proj1 Hb)|exact Hcov0|exact Ff].
    - intros k Hk. apply Hc1. exact Hk. }
  destruct (parseFile G _ _ _ c) as [[ts| |] m']; intros [= <-].
  - destruct (absorbTags_rooted ι repo (Path.abs (localPath repo) segs) (Path.rel segs) fid ts
                (withModule m' (withGraph g1 b0)) Hroot1 Hf1) as [_ G2].
    eexists. split; [reflexivity|].
    apply absorbTags_hashed; [|exact Hroot1|exact Hf1|exact Hcov].
    apply hashedBuild_withModule. apply hashedBuild_withGraph; [exact Hb|].
    apply Hstep. exact (covered_grows _ _ G2 Hcov).
  - eexists. split; [reflexivity|].
    apply hashedBuild_withModule. apply hashedBuild_withGraph; [exact Hb|].
    apply Hstep. exact Hcov.
Qed.

Lemma processEntries_hashed_from es :
  Forall (hashedEntry md5 F G repo) es -> ∀ dirSegs dirNodeId b0 bm,
    hashedBuild md5 b0 bm -> rooted ι r (graph b0) -> present (graph b0) dirNodeId ->
    hashedStep md5 F (processEntries ι G repo dirSegs dirNodeId es b0)
      (processEntries md5 G repo dirSegs (md5 dirNodeId) es bm).
Proof.
  induction 1 as [|x es Hx _ IH]; intros dirSegs dirNodeId b0 bm Hb Hroot Hp.
  { simpl. intros _. exists bm. split; [reflexivity|exact Hb]. }
  simpl. pose proof (Hx dirSegs dirNodeId b0 bm Hb Hroot Hp) as Hstep.
  change (hashedStep md5 F (processEntry ι G repo dirSegs dirNodeId x b0)
            (processEntry md5 G repo dirSegs (md5 dirNodeId) x bm)) in Hstep.
  pose proof (processEntry_rooted ι G repo x dirSegs dirNodeId b0 Hroot Hp) as Hleft.
  destruct (processEntry ι G repo dirSegs dirNodeId x b0) as [b1|b1|]; simpl in Hstep, Hleft.
  - destruct Hleft as [Hroot1 Hgrow1].
    pose proof (processEntries_rooted ι G repo es dirSegs dirNodeId b1 Hroot1 (Hgrow1 _ Hp))
      as Hrest.
    assert (Hgo : covered F (graph b1) ->
              hashedStep md5 F (processEntries ι G repo dirSegs dirNodeId es b1)
                (match processEntry md5 G repo dirSegs (md5 dirNodeId) x bm with
                 | Next b' => processEntries md5 G repo dirSegs (md5 dirNodeId) es b'
                 | other => other end)).
    { intros Hc1. destruct (Hstep Hc1) as (bm1 & -> & Hb1).
      exact (IH dirSegs dirNodeId b1 bm1 Hb1 Hroot1 (Hgrow1 _ Hp)). }
    destruct (processEntries ι G repo dirSegs dirNodeId es b1) as [b2|b2|]; simpl in *;
      [| |exact I]; intros Hc2; apply Hgo; try exact Hc2;
      exact (covered_grows _ _ (proj2 Hrest) Hc2).
  - intros Hc1. destruct (Hstep Hc1) as (bm1 & -> & Hb1). exists bm1. split; [reflexivity|exact Hb1].
  - exact I.
Qed.

Lemma processEntry_hashed e : hashedEntry md5 F G repo e.
Proof.
  induction e as [n sz c|n l sub IH|n|n] using FsEntry_nested_ind;
    intros dirSegs dirNodeId b0 bm Hb Hroot Hp;
    match goal with
    | |- hashedStep _ _ (processEntry _ _ _ _ _ ?e _) _ =>
        change (hashedStep md5 F (processEntry ι G repo dirSegs dirNodeId e b0)
                  (processEntry md5 G repo dirSegs (md5 dirNodeId) e bm))
    end;
    change (rooted ι r (graph b0)) in Hroot.
  - simpl. destruct (sourceExtension n).
    2:{ intros _. exists bm. split; [reflexivity|exact Hb]. }
    destruct (processFile ι G repo _ c dirNodeId b0) as [b0'|] eqn:E; [|exact I].
    intros Hcov.
    destruct (processFile_hashed _ c dirNodeId b0 bm b0' Hb Hroot Hp E Hcov) as (bm' & -> & Hb').
    exists bm'. split; [reflexivity|exact Hb'].
  - rewrite !processEntry_unfold_dir.
    destruct (startsWithDot n || String.eqb n "node_modules").
    { intros _. exists bm. split; [reflexivity|exact Hb]. }
    cbv zeta. set (segs := (dirSegs ++ [n])%list).
    destruct (openDirectory_rooted ι repo segs dirNodeId b0 Hroot Hp) as (Hroot1 & Hgrow1 & Hp1).
    assert (Hopen : covered F (graph (openDirectory ι repo segs dirNodeId b0)) ->
              hashedBuild md5 (openDirectory ι repo segs dirNodeId b0)
                (openDirectory md5 repo segs (md5 dirNodeId) bm)).
    { intros Hc. apply openDirectory_hashed; assumption. }
    destruct l.
    2:{ intros Hc. eexists. split; [reflexivity|exact (Hopen Hc)]. }
    fold r. set (subId := folderId ι r (relativeDir segs)) in *.
    change (folderId md5 r (relativeDir segs)) with (md5 subId).
    pose proof (processEntries_rooted ι G repo sub segs subId _ Hroot1 Hp1) as Hleft.
    assert (Hgo : covered F (graph (openDirectory ι repo segs dirNodeId b0)) ->
              hashedStep md5 F
                (processEntries ι G repo segs subId sub (openDirectory ι repo segs dirNodeId b0))
                (processEntries md5 G repo segs (md5 subId) sub
                   (openDirectory md5 repo segs (md5 dirNodeId) bm))).
    { intros Hc. exact (processEntries_hashed_from sub IH segs subId _ _ (Hopen Hc) Hroot1 Hp1). }
    destruct (processEntries ι G repo segs subId sub _) as [b2|b2|]; simpl in *; [| |exact I];
      intros Hc2; destruct (Hgo (covered_grows _ _ (proj2 Hleft) Hc2) Hc2) as (bm2 & -> & Hb2);
      exists bm2; (split; [reflexivity|exact Hb2]).
  - simpl. intros _. exists bm. split; [reflexivity|exact Hb].
  - simpl. intros _. exists bm. split; [reflexivity|exact Hb].
Qed.

Lemma processDirectory_grows fs parent b b' :
  rooted ι r (graph b) -> present (graph b) parent ->
  processDirectory ι G repo fs parent b = Some b' -> grows (graph b) (graph b').
Proof.
  intros Hb Hp. unfold processDirectory.
  destruct (openDirectory_rooted ι repo [] parent b Hb Hp) as (Hb1 & Hg1 & Hp1).
  pose proof (processEntries_rooted ι G repo fs [] _ _ Hb1 Hp1) as Hk.
  destruct (processEntries ι G repo [] _ fs _) as [b2|b2|]; simpl in Hk;
    intros [= <-] || discriminate; exact (grows_trans _ _ _ Hg1 (proj2 Hk)).
Qed.

Lemma processDirectory_hashed fs parent b0 bm b0' :
  hashedBuild md5 b0 bm -> rooted ι r (graph b0) -> present (graph b0) parent ->
  processDirectory ι G repo fs parent b0 = Some b0' -> covered F (graph b0') ->
  ∃ bm', processDirectory md5 G repo fs (md5 parent) bm = Some bm' ∧ hashedBuild md5 b0' bm'.
Proof.
  intros Hb Hroot Hp. unfold processDirectory. fold r.
  destruct (openDirectory_rooted ι repo [] parent b0 Hroot Hp) as (Hroot1 & Hgrow1 & Hp1).
  set (dirId := folderId ι r (relativeDir [])) in *.
  change (folderId md5 r (relativeDir [])) with (md5 dirId).
  pose proof (processEntries_rooted ι G repo fs [] dirId _ Hroot1 Hp1) as Hleft.
  assert (Hgo : covered F (graph (openDirectory ι repo [] parent b0)) ->
            hashedStep md5 F
              (processEntries ι G repo [] dirId fs (openDirectory ι repo [] parent b0))
              (processEntries md5 G repo [] (md5 dirId) fs
                 (openDirectory md5 repo [] (md5 parent) bm))).
  { intros Hc. apply processEntries_hashed_from; [|apply openDirectory_hashed| |]; try assumption.
    apply Forall_forall. intros x _. apply processEntry_hashed. }
  destruct (processEntries ι G repo [] dirId fs _) as [b2|b2|]; simpl in *;
    intros [= <-] || discriminate; intros Hc2;
    destruct (Hgo (covered_grows _ _ (proj2 Hleft) Hc2) Hc2) as (bm2 & -> & Hb2);
    exists bm2; (split; [reflexivity|exact Hb2]).
Qed.

Lemma ensureFolderNodeFrom_hashed fuel : ∀ g0 gm p rp nid g0',
  hashedGraph md5 g0 gm -> rooted ι r g0 ->
  ensureFolderNodeFrom ι fuel g0 r p rp = Some (nid, g0') -> covered F g0' ->
  ∃ gm', ensureFolderNodeFrom md5 fuel gm r p rp = Some (md5 nid, gm') ∧ hashedGraph md5 g0' gm'.
Proof.
  induction fuel as [|fuel IH]; intros g0 gm p rp nid g0' Hg Hroot Hrun Hcov; [discriminate|].
  destruct (ensureFolderNodeFrom_rooted ι repo _ _ _ _ _ _ Hroot Hrun) as (_ & Hgrow & Hnid).
  assert (Hcov0 : covered F g0) by exact (covered_grows _ _ Hgrow Hcov).
  revert Hrun. simpl.
  destruct (String.eqb p ".").
  { intros [= <- <-]. exists gm. split; [reflexivity|exact Hg]. }
  change (folderId md5 r p) with (md5 (folderId ι r p)).
  destruct (has (nodes g0) (folderId ι r p)) eqn:Eh.
  { rewrite (hashed_has_true _ _ _ Hg Eh). intros [= <- <-]. exists gm.
    split; [reflexivity|exact Hg]. }
  set (nd := folderNode r (folderId ι r p) (Path.basename p) p).
  change (folderNode r (md5 (folderId ι r p)) (Path.basename p) p) with (hashNode md5 nd).
  destruct (ensureFolderNodeFrom ι fuel (setNode nd g0) r _ rp) as [[pid g2]|] eqn:E;
    [|discriminate].
  intros [= <- <-].
  assert (Fn : F (folderId ι r p)) by exact (Hcov _ Hnid).
  rewrite (hashed_has _ _ _ Hg Hcov0 Fn), Eh.
  assert (Hroot1 : rooted ι r (setNode nd g0)).
  { split; [apply closed_setNode; exact (proj1 Hroot)|apply grows_setNode; exact (proj2 Hroot)]. }
  destruct (ensureFolderNodeFrom_rooted ι repo _ _ _ _ _ _ Hroot1 E) as ([Hc2 Hr2] & Hg2 & Hp2).
  assert (Hn2 : present g2 (folderId ι r p)) by (apply Hg2; apply (present_set nd)).
  set (g3 := connect pid (folderId ι r p) "CONTAINS" r g2) in *.
  assert (Hcov3 : covered F g3).
  { intros k Hk. apply Hcov. destruct (negb _); [apply grows_setNode|]; exact Hk. }
  assert (Hcov2 : covered F g2) by (intros k Hk; apply Hcov3; exact Hk).
  destruct (IH _ _ _ _ _ _ (hashed_setNode _ _ nd Hg Hcov0 Fn) Hroot1 E Hcov2)
    as (gm2 & -> & Hh2).
  pose proof (hashed_connect _ _ pid (folderId ι r p) "CONTAINS" Hh2 Hc2 Hcov2
                (Hcov2 _ Hp2) Fn) as Hh3.
  fold g3 in Hh3. eexists. split; [reflexivity|].
  rewrite (hashed_has _ _ _ Hh2 Hcov2 Fn).
  destruct (negb (has (nodes g2) _)); [|exact Hh3].
  set (nd' := folderNode r (folderId ι r p) _ p).
  exact (hashed_setNode _ _ nd' Hh3 Hcov3 Fn).
Qed.

Lemma processListed_grows fs b segs b' :
  rooted ι r (graph b) -> processListed ι G repo fs b segs = Completed b' ->
  grows (graph b) (graph b').
Proof.
  intros Hb. unfold processListed. cbv zeta. fold r.
  destruct (has _ _); [intros [= <-]; apply grows_refl|].
  destruct (fsLookup fs segs) as [[sz c]|]; [|intros [= <-]; apply grows_refl].
  destruct sz as [|sz]; [intros [= <-]; apply grows_refl|].
  destruct (ensureFolderNode ι _ _ _ _) as [[pid g1]|] eqn:Ee; [|discriminate].
  destruct (ensureFolderNodeFrom_rooted ι repo _ _ _ _ _ _ Hb Ee) as ([Hc1 Hr1] & Hg1 & Hp1).
  set (fid := fileId ι r (Path.rel segs)).
  set (nd := fileNode r fid _ _).
  assert (Hg : grows g1 (setNode nd g1)) by apply grows_setNode.
  assert (H2 : rooted ι r (connect pid fid "CONTAINS" r (setNode nd g1))).
  { split.
    - apply closed_connect; [apply closed_setNode; exact Hc1 | apply Hg; exact Hp1
                            | apply (present_set nd)].
    - apply Hg. exact Hr1. }
  assert (Hf : present (connect pid fid "CONTAINS" r (setNode nd g1)) fid)
    by apply (present_set nd).
  destruct (parseFile G _ _ _ c) as [[ts| |] m']; intros [= <-] || discriminate.
  destruct (absorbTags_rooted ι repo (Path.abs (localPath repo) segs) (Path.rel segs) fid ts
              (withModule m' (withGraph _ b)) H2 Hf) as [_ G2].
  intros k Hk. apply G2. apply Hg. apply Hg1. exact Hk.
Qed.

Lemma processFiles_grows fs files : ∀ b b',
  rooted ι r (graph b) -> processFiles ι G repo fs files b = Completed b' ->
  grows (graph b) (graph b').
Proof.
  induction files as [|segs files IH]; intros b b' Hb; simpl.
  - intros [= <-]. apply grows_refl.
  - destruct (processListed ι G repo fs b segs) as [b1| |] eqn:E; try discriminate.
    intros Hrest. apply (grows_trans _ (graph b1)).
    + exact (processListed_grows fs b segs b1 Hb E).
    + exact (IH b1 b' (processListed_rooted ι G repo fs b segs b1 Hb E) Hrest).
Qed.

Lemma processListed_hashed fs b0 bm segs b0' :
  hashedBuild md5 b0 bm -> rooted ι r (graph b0) ->
  processListed ι G repo fs b0 segs = Completed b0' -> covered F (graph b0') ->
  ∃ bm', processListed md5 G repo fs bm segs = Completed bm' ∧ hashedBuild md5 b0' bm'.
Proof.
  intros Hb Hroot Hrun Hcov.
  pose proof (processListed_grows fs b0 segs b0' Hroot Hrun) as Hgrow.
  assert (Hcov0 : covered F (graph b0)) by exact (covered_grows _ _ Hgrow Hcov).
  revert Hrun. unfold processListed. cbv zeta. fold r.
  set (fid := fileId ι r (Path.rel segs)).
  change (fileId md5 r (Path.rel segs)) with (md5 fid).
  destruct (has (nodes (graph b0)) fid) eqn:Eh.
  { rewrite (hashed_has_true _ _ _ (proj1 Hb) Eh). intros [= <-]. exists bm.
    split; [reflexivity|exact Hb]. }
  assert (Hskip : b0' = b0 -> ∃ bm',
            (if has (nodes (graph bm)) (md5 fid) then Completed bm else Completed bm)
            = Completed bm' ∧ hashedBuild md5 b0' bm').
  { intros ->. exists bm. split; [destruct (has (nodes (graph bm)) (md5 fid)); reflexivity|exact Hb]. }
  destruct (fsLookup fs segs) as [[sz c]|].
  2:{ intros [= <-]. exact (Hskip eq_refl). }
  destruct sz as [|sz]; [intros [= <-]; exact (Hskip eq_refl)|]. clear Hskip.
  destruct (ensureFolderNode ι _ _ _ _) as [[pid g1]|] eqn:Ee; [|discriminate].
  destruct (ensureFolderNodeFrom_rooted ι repo _ _ _ _ _ _ Hroot Ee) as ([Hc1 Hr1] & Hg1 & Hp1).
  set (nd := fileNode r fid (lastSeg (localPath repo) segs) (Path.rel segs)).
  change (fileNode r (md5 fid) (lastSeg (localPath repo) segs) (Path.rel segs))
    with (hashNode md5 nd).
  set (g2 := connect pid fid "CONTAINS" r (setNode nd g1)).
  assert (Hg : grows g1 (setNode nd g1)) by apply grows_setNode.
  assert (H2 : rooted ι r g2).
  { split.
    - apply closed_connect; [apply closed_setNode; exact Hc1 | apply Hg; exact Hp1
                            | apply (present_set nd)].
    - apply Hg. exact Hr1. }
  assert (Hf : present g2 fid) by apply (present_set nd).
  assert (Hstep : covered F g2 ->
            ∃ g1m, ensureFolderNode md5 (graph bm) r (Path.dirname (Path.rel segs)) (localPath repo)
                   = Some (md5 pid, g1m)
                   ∧ has (nodes (graph bm)) (md5 fid) = false
                   ∧ hashedGraph md5 g2 (connect (md5 pid) (md5 fid) "CONTAINS" r
                                            (setNode (hashNode md5 nd) g1m))).
  { intros Hc2.
    assert (Hcs : covered F (setNode nd g1)) by (intros k Hk; apply Hc2; exact Hk).
    assert (Hc1' : covered F g1) by exact (covered_grows _ _ Hg Hcs).
    assert (Ff : F fid) by exact (Hc2 _ Hf).
    destruct (ensureFolderNodeFrom_hashed _ _ _ _ _ _ _ (proj1 Hb) Hroot Ee Hc1')
      as (g1m & Em & Hh1).
    exists g1m. split; [exact Em|]. split.
    { rewrite (hashed_has _ _ _ (proj1 Hb) Hcov0 Ff). exact Eh. }
    apply hashed_connect; [|apply closed_setNode; exact Hc1|exact Hcs|exact (Hc1' _ Hp1)|exact Ff].
    apply hashed_setNode; [exact Hh1|exact Hc1'|exact Ff]. }
  assert (Hm1 : ∀ gx, modst (withGraph gx bm) = modst (withGraph g2 b0))
    by (intros gx; exact (proj2 (proj2 (proj2 Hb)))).
  destruct (parseFile G (modst (withGraph g2 b0)) _ _ c) as [[ts| |] m'] eqn:Ep;
    intros [= <-] || discriminate.
  destruct (absorbTags_rooted ι repo (Path.abs (localPath repo) segs) (Path.rel segs) fid ts
              (withModule m' (withGraph g2 b0)) H2 Hf) as [_ G2].
  destruct (Hstep (covered_grows _ _ G2 Hcov)) as (g1m & Em & Ehm & Hh2).
  rewrite Ehm, Em, Hm1, Ep. eexists. split; [reflexivity|].
  apply absorbTags_hashed; [|exact H2|exact Hf|exact Hcov].
  apply hashedBuild_withModule. apply hashedBuild_withGraph; [exact Hb|exact Hh2].
Qed.

Lemma processFiles_hashed fs files : ∀ b0 bm b0',
  hashedBuild md5 b0 bm -> rooted ι r (graph b0) ->
  processFiles ι G repo fs files b0 = Completed b0' -> covered F (graph b0') ->
  ∃ bm', processFiles md5 G repo fs files bm = Completed bm' ∧ hashedBuild md5 b0' bm'.
Proof.
  induction files as [|segs files IH]; intros b0 bm b0' Hb Hroot; simpl.
  { intros [= <-] _. exists bm. split; [reflexivity|exact Hb]. }
  destruct (processListed ι G repo fs b0 segs) as [b1| |] eqn:E; try discriminate.
  intros Hrest Hcov.
  pose proof (processListed_rooted ι G repo fs b0 segs b1 Hroot E) as Hroot1.
  pose proof (processFiles_grows fs files b1 b0' Hroot1 Hrest) as Hgrow.
  destruct (processListed_hashed fs b0 bm segs b1 Hb Hroot E (covered_grows _ _ Hgrow Hcov))
    as (bm1 & -> & Hb1).
  exact (IH b1 bm1 b0' Hb1 Hroot1 Hrest Hcov).
Qed.

End Hashing.

(** The view [buildGraph] hands over is the graph the two loops built:
    the resolver adds nothing to it. *)
Lemma buildGraph_graph md5 G repo fs files m g s m' :
  Neo4jBuilder.buildGraph md5 G repo fs files m = Completed (g, s, m') ->
  ∃ b1 b2,
    Neo4jBuilder.processDirectory md5 G repo fs (Neo4jBuilder.rootId md5 (repoId repo))
      (Neo4jBuilder.initialBuild md5 repo m) = Some b1
    ∧ Neo4jBuilder.processFiles md5 G repo fs files b1 = Completed b2
    ∧ Neo4jBuilder.viewNodes g = Neo4jBuilder.nodes (Neo4jBuilder.graph b2)
    ∧ Neo4jBuilder.viewEdges g = Neo4jBuilder.edges (Neo4jBuilder.graph b2).
Proof.
  unfold Neo4jBuilder.buildGraph.
  destruct (Neo4jBuilder.processDirectory md5 G repo fs _ _) as [b1|] eqn:Ed; [|discriminate].
  destruct (Neo4jBuilder.processFiles md5 G repo fs files b1) as [b2| |] eqn:Ef; try discriminate.
  intros [= <- _ _]. exists b1, b2. split; [reflexivity|]. split; [exact Ef|].
  assert (H1 : unlinkable b1).
  { refine (processDirectory_keeps md5 G repo unlinkable (fun _ => true)
              _ _ _ fs _ _ b1 (everyContent_true fs) _ Ed).
    - intros. apply openDirectory_unlinkable. assumption.
    - intros segs entry c b b' _. apply processFile_unlinkable.
    - intros. apply openDirectory_unlinkable. assumption.
    - split; [|split; [constructor|]].
      + intros k [d Hk]. simpl in Hk. rewrite lookup_empty in Hk. discriminate.
      + apply setNode_plain; [reflexivity|]. split; [constructor|].
        intros k n Hk. simpl in Hk. rewrite lookup_empty in Hk. discriminate. }
  assert (H2 : unlinkable b2).
  { refine (processFiles_keeps md5 G repo unlinkable (fun _ => true)
              _ fs files (everyContent_true fs) b1 b2 H1 Ef).
    intros fs' b segs b' _. apply processListed_unlinkable. }
  destruct (resolveReferences_unlinkable md5 repo b2 H2) as (E1 & _).
  simpl. rewrite E1. split; reflexivity.
Qed.

Lemma NoDup_fmap_eq {A B} (f : A -> B) (l : list A) a b :
  NoDup (map f l) -> a ∈ l -> b ∈ l -> f a = f b -> a = b.
Proof.
  induction l as [|x l IH]; intros Hnd Ha Hb E; [apply elem_of_nil in Ha; contradiction|].
  simpl in Hnd. apply NoDup_cons in Hnd as [Hx Hnd].
  apply elem_of_cons in Ha as [->|Ha], Hb as [->|Hb].
  - reflexivity.
  - exfalso. apply Hx. rewrite E. apply (list_elem_of_fmap_2 f). exact Hb.
  - exfalso. apply Hx. rewrite <- E. apply (list_elem_of_fmap_2 f). exact Ha.
  - exact (IH Hnd Ha Hb E).
Qed.

(** A build with the digest, next to the build with the identity whose
    node ids the digest keeps apart: the edges are those of the latter
    with their ends hashed. *)
Lemma buildGraph_hashed md5 G repo fs files m g0 s0 m0 g s m' :
  Neo4jBuilder.buildGraph (fun x => x) G repo fs files m = Completed (g0, s0, m0) ->
  NoDup (map md5 (map_to_list (Neo4jBuilder.viewNodes g0)).*1) ->
  Neo4jBuilder.buildGraph md5 G repo fs files m = Completed (g, s, m') ->
  Neo4jBuilder.viewEdges g = map (hashEdge md5) (Neo4jBuilder.viewEdges g0)
  ∧ ∀ a b, is_Some (Neo4jBuilder.viewNodes g0 !! a) -> is_Some (Neo4jBuilder.viewNodes g0 !! b) ->
           md5 a = md5 b -> a = b.
Proof.
  intros Hrun0 Hnd Hrun.
  destruct (buildGraph_graph _ G repo fs files m g0 s0 m0 Hrun0) as (b1 & b2 & Ed0 & Ef0 & En0 & Ee0).
  destruct (buildGraph_graph md5 G repo fs files m g s m' Hrun) as (c1 & c2 & Ed & Ef & _ & Ee).
  set (ι := fun x : string => x) in *.
  set (F := fun k => present (Neo4jBuilder.graph b2) k).
  assert (Finj : ∀ a b, F a -> F b -> md5 a = md5 b -> a = b).
  { intros a b [na Ha] [nb Hb]. rewrite <- En0 in Ha, Hb.
    apply (NoDup_fmap_eq md5 _ a b Hnd).
    - apply list_elem_of_fmap. exists (a, na). split; [reflexivity|].
      apply elem_of_map_to_list. exact Ha.
    - apply list_elem_of_fmap. exists (b, nb). split; [reflexivity|].
      apply elem_of_map_to_list. exact Hb. }
  split.
  2:{ intros a b Ha Hb. apply Finj; unfold F, present; rewrite <- En0; assumption. }
  assert (H0 : rooted ι (repoId repo) (Neo4jBuilder.graph (Neo4jBuilder.initialBuild ι repo m))).
  { split; [|apply (present_set (Neo4jBuilder.repositoryNode ι repo))].
    intros e He. simpl in He. apply elem_of_nil in He. contradiction. }
  pose proof (processDirectory_rooted ι G repo fs _ _ b1 H0 (proj2 H0) Ed0) as H1.
  pose proof (processDirectory_grows G repo fs _ _ b1 H0 (proj2 H0) Ed0) as G1.
  pose proof (processFiles_grows G repo fs files b1 b2 H1 Ef0) as G2.
  assert (Hc2 : covered F (Neo4jBuilder.graph b2)) by (intros k Hk; exact Hk).
  assert (Hc1 : covered F (Neo4jBuilder.graph b1)) by exact (covered_grows F _ _ G2 Hc2).
  assert (Hb0 : hashedBuild md5 (Neo4jBuilder.initialBuild ι repo m)
                  (Neo4jBuilder.initialBuild md5 repo m)).
  { split; [|repeat split].
    apply (hashed_setNode md5 F Finj {| Neo4jBuilder.nodes := ∅; Neo4jBuilder.edges := [] |}
             {| Neo4jBuilder.nodes := ∅; Neo4jBuilder.edges := [] |}
             (Neo4jBuilder.repositoryNode ι repo)).
    - split; [|split; [|reflexivity]].
      + intros k n Hk. simpl in Hk. rewrite lookup_empty in Hk. discriminate.
      + intros k' [n Hk]. simpl in Hk. rewrite lookup_empty in Hk. discriminate.
    - intros k [n Hk]. simpl in Hk. rewrite lookup_empty in Hk. discriminate.
    - apply Hc1. apply G1. exact (proj2 H0). }
  destruct (processDirectory_hashed md5 G repo F Finj fs _ _ _ b1 Hb0 H0 (proj2 H0) Ed0 Hc1)
    as (d1 & Ed' & Hb1).
  change (md5 (Neo4jBuilder.rootId ι (repoId repo))) with (Neo4jBuilder.rootId md5 (repoId repo)) in Ed'.
  rewrite Ed in Ed'. injection Ed' as <-.
  destruct (processFiles_hashed md5 G repo F Finj fs files b1 c1 b2 Hb1 H1 Ef0 Hc2)
    as (d2 & Ef' & Hb2).
  rewrite Ef in Ef'. injection Ef' as <-.
  rewrite Ee, Ee0. exact (proj2 (proj2 (proj1 Hb2))).
Qed.

(** C4: the Neo4j builder, for a repository under a plain local path and
    a digest that keeps the node ids of the build apart: no edge is stored
    twice, no two nodes are joined by more than one Contains edge, and no
    Contains edge runs against another one. *)
Theorem contains_edges_unique :
  ∀ md5 G repo fs files m g s m',
    plainPath (localPath repo) = true ->
    distinctIds md5 G repo fs files m ->
    Neo4jBuilder.buildGraph md5 G repo fs files m = Completed (g, s, m') ->
    NoDup (Neo4jBuilder.getEdges g)
    ∧ (∀ a b, containsBetween (Neo4jBuilder.getEdges g) a b <= 1)
    ∧ (∀ a b, a ≠ b -> containsEdge (Neo4jBuilder.getEdges g) a b ->
              ¬ containsEdge (Neo4jBuilder.getEdges g) b a).
Proof.
  intros md5 G repo fs files m g s m' Hplain (g0 & s0 & m0 & Hrun0 & Hnd0) Hrun.
  destruct (buildGraph_layered md5 G repo Hplain fs files m g s m' Hrun) as [Hnd Hall].
  destruct (buildGraph_hashed md5 G repo fs files m g0 s0 m0 g s m' Hrun0 Hnd0 Hrun)
    as [Hedges Hinj].
  destruct (layered_edges_unique (fun x => x) G repo fs files m g0 s0 m0
              (fun a b E => E) Hplain Hrun0) as (_ & _ & Hrev0).
  pose proof (buildGraph_closed _ G repo fs files m g0 s0 m0 Hrun0) as Hclosed.
  assert (Hrev : ∀ a b, a ≠ b -> containsEdge (Neo4jBuilder.getEdges g) a b ->
                        ¬ containsEdge (Neo4jBuilder.getEdges g) b a).
  { unfold Neo4jBuilder.getEdges in *. rewrite Hedges.
    intros a b Hab (e1 & He1 & Hc1 & Hs1 & Ht1) (e2 & He2 & Hc2 & Hs2 & Ht2).
    apply list_elem_of_fmap in He1 as (x1 & -> & Hx1), He2 as (x2 & -> & Hx2).
    simpl in Hs1, Ht1, Hs2, Ht2.
    destruct (Hclosed x1 Hx1) as [S1 T1]. destruct (Hclosed x2 Hx2) as [S2 T2].
    assert (E1 : sourceId x1 = targetId x2) by (apply Hinj; congruence).
    assert (E2 : targetId x1 = sourceId x2) by (apply Hinj; congruence).
    apply (Hrev0 (sourceId x1) (targetId x1)).
    - intros E. apply Hab. rewrite <- Hs1, <- Ht1, E. reflexivity.
    - exists x1. repeat split; [exact Hx1|exact Hc1].
    - exists x2. repeat split; [exact Hx2|exact Hc2|symmetry; exact E2|symmetry; exact E1]. }
  split; [exact Hnd|]. split; [|exact Hrev].
  exact (between_at_most_one _ (repoId repo) Hnd (fun e He => proj1 (Hall e He)) Hrev).
Qed.

Lemma contains_edges_unique_witness :
  ∃ g s m',
    Neo4jBuilder.buildGraph MD5.md5_hex knownGlobals clonedRepo helperTree helperFiles freshModule
    = Completed (g, s, m')
    ∧ plainPath (localPath clonedRepo) = true
    ∧ distinctIds MD5.md5_hex knownGlobals clonedRepo helperTree helperFiles freshModule
    ∧ NoDup (Neo4jBuilder.getEdges g)
    ∧ (∀ a b, containsBetween (Neo4jBuilder.getEdges g) a b <= 1)
    ∧ (∀ a b, a ≠ b -> containsEdge (Neo4jBuilder.getEdges g) a b ->
              ¬ containsEdge (Neo4jBuilder.getEdges g) b a).
Proof.
  assert (Hd : distinctIds MD5.md5_hex knownGlobals clonedRepo helperTree helperFiles freshModule).
  { eexists _, _, _. split; [vm_compute; reflexivity|].
    apply (bool_decide_unpack _). vm_compute. exact I. }
  destruct (Neo4jBuilder.buildGraph MD5.md5_hex knownGlobals clonedRepo helperTree helperFiles
              freshModule) as [[[g s] m']| |] eqn:E;
    [|exfalso; vm_compute in E; discriminate..].
  exists g, s, m'. split; [reflexivity|]. split; [reflexivity|]. split; [exact Hd|].
  exact (contains_edges_unique MD5.md5_hex knownGlobals clonedRepo helperTree helperFiles
           freshModule g s m' eq_refl Hd E).
Defined.

(** ** Nodes under their own ids *)

Section OwnNodes.

Import Neo4jBuilder.

Variable md5 : string -> string.
Variable G : gset string.
Variable repo : RepoInfo.

Let r := repoId repo.

Lemma ownNodes_setNode n g :
  nodeRepoId n = r -> ownNodes r g -> ownNodes r (setNode n g).
Proof.
  intros Hn Hg k x Hk. simpl in Hk. destruct (decide (nodeId n = k)) as [<-|Hne].
  - rewrite lookup_insert_eq in Hk. injection Hk as <-. split; [reflexivity|exact Hn].
  - rewrite lookup_insert_ne in Hk by exact Hne. exact (Hg k x Hk).
Qed.

Lemma ownNodes_nodes g g' : nodes g' = nodes g -> ownNodes r g -> ownNodes r g'.
Proof. intros E Hg k x Hk. rewrite E in Hk. exact (Hg k x Hk). Qed.

Lemma absorbTags_own path rp fid ts : ∀ b,
  ownNodes r (graph b) -> ownNodes r (graph (fold_left (absorbTag md5 r path rp fid) ts b)).
Proof.
  induction ts as [|t ts IH]; intros b Hb; [exact Hb|]. simpl. apply IH.
  unfold absorbTag. destruct (kind t); [|exact Hb]. cbn [graph].
  destruct (negb _); [eapply ownNodes_nodes; [reflexivity|]|];
    apply ownNodes_setNode; try reflexivity; exact Hb.
Qed.

Lemma openDirectory_own segs parent b :
  ownNodes r (graph b) -> ownNodes r (graph (openDirectory md5 repo segs parent b)).
Proof.
  intros Hb. unfold openDirectory. destruct (negb (has _ _)); [|exact Hb]. cbn [graph withGraph].
  destruct (_ && _); [destruct (negb _); [eapply ownNodes_nodes; [reflexivity|]|]|];
    apply ownNodes_setNode; try reflexivity; exact Hb.
Qed.

Lemma processFile_own segs c parent b b' :
  ownNodes r (graph b) -> processFile md5 G repo segs c parent b = Some b' ->
  ownNodes r (graph b').
Proof.
  intros Hb. unfold processFile. cbv zeta. fold r.
  set (g1 := if negb (has _ _) then _ else graph b).
  assert (H1 : ownNodes r g1).
  { subst g1. destruct (negb _); [|exact Hb].
    eapply ownNodes_nodes; [reflexivity|]. apply ownNodes_setNode; [reflexivity|exact Hb]. }
  destruct (parseFile G _ _ _ c) as [[ts| |] m']; intros [= <-].
  - apply (absorbTags_own _ _ _ ts (withModule m' (withGraph g1 b))). exact H1.
  - exact H1.
Qed.

Lemma ensureFolderNodeFrom_own fuel : ∀ g p rp nid g',
  ownNodes r g -> ensureFolderNodeFrom md5 fuel g r p rp = Some (nid, g') -> ownNodes r g'.
Proof.
  induction fuel as [|fuel IH]; intros g p rp nid g' Hg; [discriminate|]. simpl.
  destruct (String.eqb p "."); [intros [= _ <-]; exact Hg|].
  destruct (has (nodes g) _); [intros [= _ <-]; exact Hg|].
  destruct (ensureFolderNodeFrom md5 fuel _ r _ rp) as [[pid g2]|] eqn:E; [|discriminate].
  intros [= _ <-].
  assert (H2 : ownNodes r g2).
  { eapply IH; [|exact E]. apply ownNodes_setNode; [reflexivity|exact Hg]. }
  destruct (negb _); [apply ownNodes_setNode; [reflexivity|]|];
    (eapply ownNodes_nodes; [reflexivity|exact H2]).
Qed.

Lemma processListed_own fs b segs b' :
  ownNodes r (graph b) -> processListed md5 G repo fs b segs = Completed b' ->
  ownNodes r (graph b').
Proof.
  intros Hb. unfold processListed. cbv zeta. fold r.
  destruct (has _ _); [intros [= <-]; exact Hb|].
  destruct (fsLookup fs segs) as [[sz c]|]; [|intros [= <-]; exact Hb].
  destruct sz as [|sz]; [intros [= <-]; exact Hb|].
  destruct (ensureFolderNode md5 _ _ _ _) as [[pid g1]|] eqn:Ee; [|discriminate].
  pose proof (ensureFolderNodeFrom_own _ _ _ _ _ _ Hb Ee) as H1.
  set (g2 := connect _ _ _ _ _).
  assert (H2 : ownNodes r g2).
  { subst g2. eapply ownNodes_nodes; [reflexivity|].
    apply ownNodes_setNode; [reflexivity|exact H1]. }
  destruct (parseFile G _ _ _ c) as [[ts| |] m']; intros [= <-] || discriminate.
  apply (absorbTags_own _ _ _ ts (withModule m' (withGraph g2 b))). exact H2.
Qed.

Lemma resolveReference_own defs s t :
  ownNodes r (resolved s) -> ownNodes r (resolved (resolveReference md5 repo defs s t)).
Proof.
  intros Hs. unfold resolveReference. fold r. destruct (defs !! _) as [d|]; [|exact Hs].
  set (refId := generateNodeId md5 r ("ref:" ++ _)).
  set (defId := generateNodeId md5 r ("def:" ++ _)).
  set (nd := referenceNode repo refId t).
  assert (Hn : ownNodes r (setNode nd (resolved s)))
    by (apply ownNodes_setNode; [reflexivity|exact Hs]).
  assert (Hadd : ∀ g, ownNodes r g ->
            ownNodes r (resolved
              (if negb (has (nodes g) defId)
               then {| resolved := g; resolvedRefs := resolvedRefs s;
                       resolvedCount := resolvedCount s;
                       missingDefinitions := missingDefinitions s;
                       missingNodes := S (missingNodes s) |}
               else if bool_decide (refId ++ "-" ++ defId ++ "-REFERENCES" ∈ resolvedRefs s)
                    then {| resolved := g; resolvedRefs := resolvedRefs s;
                            resolvedCount := resolvedCount s;
                            missingDefinitions := missingDefinitions s;
                            missingNodes := missingNodes s |}
                    else let '(es, added) := addUniqueEdge (edges g) refId defId "REFERENCES" r in
                         {| resolved := {| nodes := nodes g; edges := es |};
                            resolvedRefs := if added
                                            then {[refId ++ "-" ++ defId ++ "-REFERENCES"]} ∪ resolvedRefs s
                                            else resolvedRefs s;
                            resolvedCount := if added then S (resolvedCount s) else resolvedCount s;
                            missingDefinitions := missingDefinitions s;
                            missingNodes := missingNodes s |}))).
  { intros g Hg. destruct (negb _); [exact Hg|]. destruct (bool_decide _); [exact Hg|].
    destruct (addUniqueEdge _ _ _ _ _) as [es added]. exact Hg. }
  destruct (negb (has (nodes (resolved s)) refId)).
  - destruct (has _ _).
    + apply Hadd. eapply ownNodes_nodes; [reflexivity|exact Hn].
    + exact Hn.
  - apply Hadd. exact Hs.
Qed.

Lemma buildGraph_own fs files m g s m' :
  buildGraph md5 G repo fs files m = Completed (g, s, m') ->
  ∀ k n, viewNodes g !! k = Some n -> nodeId n = k ∧ nodeRepoId n = r.
Proof.
  unfold buildGraph. fold r.
  destruct (processDirectory md5 G repo fs _ _) as [b1|] eqn:Ed; [|discriminate].
  destruct (processFiles md5 G repo fs files b1) as [b2| |] eqn:Ef; try discriminate.
  intros [= <- _ _]. cbn [viewNodes].
  assert (H1 : ownNodes r (graph b1)).
  { refine (processDirectory_keeps md5 G repo (fun b => ownNodes r (graph b)) (fun _ => true)
              _ _ _ fs _ _ b1 (everyContent_true fs) _ Ed).
    - intros. apply openDirectory_own. assumption.
    - intros segs entry c b b' _. apply processFile_own.
    - intros. apply openDirectory_own. assumption.
    - apply ownNodes_setNode; [reflexivity|]. intros k n Hk. simpl in Hk.
      rewrite lookup_empty in Hk. discriminate. }
  assert (H2 : ownNodes r (graph b2)).
  { refine (processFiles_keeps md5 G repo (fun b => ownNodes r (graph b)) (fun _ => true)
              _ fs files (everyContent_true fs) b1 b2 H1 Ef).
    intros fs' b segs b' _. apply processListed_own. }
  assert (H3 : ∀ ts s0, ownNodes r (resolved s0) ->
            ownNodes r (resolved (fold_left (resolveReference md5 repo (definitions b2)) ts s0))).
  { induction ts as [|t ts IH]; intros s0 H; [exact H|]. simpl. apply IH.
    apply resolveReference_own. exact H. }
  unfold resolveReferences. apply H3. exact H2.
Qed.

End OwnNodes.

Lemma ownNodes_distinct r (m : gmap string GraphNodeData) :
  (∀ k n, m !! k = Some n -> nodeId n = k ∧ nodeRepoId n = r) ->
  NoDup (map nodeId (map_to_list m).*2).
Proof.
  intros Hm.
  assert (E : map nodeId (map_to_list m).*2 = (map_to_list m).*1).
  { assert (H : ∀ kn, kn ∈ map_to_list m -> nodeId kn.2 = kn.1).
    { intros [k n] Hin. apply elem_of_map_to_list in Hin. exact (proj1 (Hm k n Hin)). }
    induction (map_to_list m) as [|kn l IH]; [reflexivity|]. simpl.
    rewrite (H kn) by left. f_equal. apply IH. intros x Hx. apply H. right. exact Hx. }
  rewrite E. apply NoDup_fst_map_to_list.
Qed.

(** ** The shape of the tags *)

Section WalkInvariant.

Variable G : gset string.
Variable rp : string.
Variable Inv : Walk -> Prop.

Hypothesis Inv_enter : ∀ n w, Inv w -> Inv (enter G rp n w).
Hypothesis Inv_exit : ∀ n w, Inv w -> Inv (exit n w).

Lemma traverse_keeps n : ∀ w, Inv w -> Inv (traverse G rp n w).
Proof.
  assert (Hall : ∀ ns, Forall (fun n => ∀ w, Inv w -> Inv (traverse G rp n w)) ns ->
            ∀ w, Inv w -> Inv (traverseAll G rp ns w)).
  { induction 1 as [|x ns Hx _ IH]; intros w Hw; [exact Hw|]. simpl. apply IH, Hx, Hw. }
  induction n as [s|s|o p IHo IHp|l c args IHc IHargs|l c args IHc IHargs|a IHa|src specs
                 |l i b IHb|l i b IHb|l st k b IHk IHb|l k b IHb|b IHb]
    using Node_nested_ind; intros w Hw; rewrite traverse_unfold; apply Inv_exit;
    auto using Inv_enter.
Qed.

Lemma traverseAll_keeps ns : ∀ w, Inv w -> Inv (traverseAll G rp ns w).
Proof.
  induction ns as [|x ns IH]; intros w Hw; [exact Hw|]. simpl. apply IH, traverse_keeps, Hw.
Qed.

End WalkInvariant.

Lemma enter_emitted G rp n w :
  Forall (emitted rp) (tags w) -> Forall (emitted rp) (tags (enter G rp n w)).
Proof.
  intros Hw.
  assert (Hpush : ∀ t w', Forall (emitted rp) (tags w') -> emitted rp t ->
            Forall (emitted rp) (tags (pushTag t w'))).
  { intros t w' Hw' Ht. simpl. apply Forall_app. split; [exact Hw'|]. constructor; [exact Ht|constructor]. }
  destruct n as [s|s|o p|l c args|l c args|a|src specs|l i b|l i b|l st k b|l k b|b];
    try exact Hw.
  - (* call *)
    cbn [enter]. destruct (shouldIgnoreFunctionCall G (CallExpression l c args)); [exact Hw|].
    set (t0 := plainTag _ "functionCall" ref rp l None _).
    assert (Ht0 : emitted rp t0).
    { subst t0. destruct (currentClass w) as [cn|]; simpl.
      - destruct (truthy cn); [apply em_call_class | apply em_call_global].
      - apply em_call_global. }
    pose proof (Hpush t0 w Hw Ht0) as H0.
    destruct c as [cn| |obj prop| | | | | | | | | ]; try exact H0.
    + unfold resolveCall.
      destruct (has _ _ || includesHash _); [|exact H0].
      match goal with |- context [match ?T with Some _ => _ | None => _ end] =>
        destruct T as [tf|] end; [|exact H0].
      destruct (truthy tf && negb _); [|exact H0].
      apply Hpush; [exact H0 | apply em_call_target].
    + unfold resolveCall.
      destruct (has _ _); [|exact H0].
      match goal with |- context [match ?T with Some _ => _ | None => _ end] =>
        destruct T as [tf|] end; [|exact H0].
      destruct (truthy tf && negb _); [|exact H0].
      apply Hpush; [exact H0 | apply em_method_target].
  - (* new *)
    cbn [enter]. destruct c; try exact Hw.
    destruct (shouldIgnoreFunctionCall G _); [exact Hw|].
    apply Hpush; [exact Hw | apply em_new].
  - (* import *)
    cbn [enter].
    assert (Hkeep : tags (fold_left (trackImport src) specs w) = tags w).
    { clear. revert w. induction specs as [|s specs IH]; intros w; [reflexivity|]. simpl.
      rewrite IH. unfold trackImport. destruct (EXPORT_MAP (modul w) !! src); [|reflexivity].
      destruct (bool_decide _); reflexivity. }
    rewrite Hkeep. exact Hw.
  - (* class *)
    cbn [enter]. destruct i as [cn|]; [|exact Hw].
    apply Hpush; [exact Hw | apply em_class].
  - (* function *)
    cbn [enter]. destruct i as [fn|]; [|exact Hw].
    destruct (truthy fn); [|exact Hw].
    apply Hpush; [exact Hw | apply em_function].
  - (* method *)
    cbn [enter]. apply Hpush; [exact Hw|]. destruct st; [apply em_static | apply em_method].
  - (* private method *)
    cbn [enter]. apply Hpush; [exact Hw | apply em_private].
Qed.

Lemma exit_tags n w : tags (exit n w) = tags w.
Proof. destruct n; reflexivity. Qed.

(** Every tag of a parsed file has one of the shapes [enter] builds. *)
Lemma parseFile_emitted G m path rp c ts m' :
  parseFile G m path rp c = (Resolved ts, m') -> Forall (emitted rp) ts.
Proof.
  unfold parseFile.
  destruct c as [| |program]; try (destruct (supportedExtension path)); try discriminate.
  intros [= <- _].
  apply (traverseAll_keeps G rp (fun w => Forall (emitted rp) (tags w))).
  - intros n w. apply enter_emitted.
  - intros n w. rewrite exit_tags. exact (fun H => H).
  - constructor.
Qed.

Lemma emitted_fields rp t :
  emitted rp t ->
  filePath t = rp ∧ text t = None
  ∧ ∀ p, parent t = Some p ->
         locFilePath (location p) = rp ∧ locStartLine (location p) = startLine t.
Proof.
  intros H. destruct H; simpl; (split; [reflexivity|]); (split; [reflexivity|]);
    intros p [= <-]; split; reflexivity.
Qed.

(** ** The scope of a tag *)

Section Scopes.

Variable G : gset string.
Variable rp : string.

Lemma classFree_all ns :
  (fix all (ns : list Node) : bool :=
     match ns with [] => true | x :: rest => classFree x && all rest end) ns
  = forallb classFree ns.
Proof. induction ns as [|x ns IH]; [reflexivity|]. simpl. rewrite IH. reflexivity. Qed.

Lemma walkedUnder_push cc w0 w t :
  walkedUnder cc w0 w -> filedUnder cc t -> walkedUnder cc w0 (pushTag t w).
Proof.
  intros (Hc & new & Ht & Hnew) Hf. split; [exact Hc|]. exists (new ++ [t])%list. split.
  - simpl. rewrite Ht, app_assoc. reflexivity.
  - apply Forall_app. split; [exact Hnew|]. constructor; [exact Hf|constructor].
Qed.

Lemma walkedUnder_same cc w0 w w' :
  walkedUnder cc w0 w -> currentClass w' = currentClass w -> tags w' = tags w ->
  walkedUnder cc w0 w'.
Proof. intros (Hc & new & Ht & Hnew) E1 E2. split; [congruence|]. exists new. split; [congruence|exact Hnew]. Qed.

Lemma trackImports_walk src specs : ∀ w,
  currentClass (fold_left (trackImport src) specs w) = currentClass w
  ∧ tags (fold_left (trackImport src) specs w) = tags w.
Proof.
  induction specs as [|s specs IH]; intros w; [split; reflexivity|]. simpl.
  destruct (IH (trackImport src w s)) as [E1 E2]. rewrite E1, E2. unfold trackImport.
  destruct (EXPORT_MAP (modul w) !! src); [|split; reflexivity].
  destruct (bool_decide _); split; reflexivity.
Qed.

Lemma enter_walkedUnder cc w0 n w :
  (∀ l i b, n ≠ ClassDeclaration l i b) ->
  walkedUnder cc w0 w -> walkedUnder cc w0 (enter G rp n w).
Proof.
  intros Hn Hw.
  destruct n as [s|s|o p|l c args|l c args|a|src specs|l i b|l i b|l st k b|l k b|b];
    try exact Hw.
  - (* call *)
    cbn [enter]. destruct (shouldIgnoreFunctionCall G (CallExpression l c args)); [exact Hw|].
    set (t0 := plainTag _ "functionCall" ref rp l None _).
    assert (Ht0 : filedUnder cc t0).
    { subst t0. rewrite (proj1 Hw). right. split; [reflexivity|]. split; [reflexivity|].
      destruct cc as [cn|]; simpl; [|split; reflexivity].
      destruct (truthy cn); split; reflexivity. }
    pose proof (walkedUnder_push cc w0 w t0 Hw Ht0) as H0.
    destruct c as [cn| |obj prop| | | | | | | | | ]; try exact H0.
    + unfold resolveCall.
      destruct (has _ _ || includesHash _); [|exact H0].
      match goal with |- context [match ?T with Some _ => _ | None => _ end] =>
        destruct T as [tf|] end; [|exact H0].
      destruct (truthy tf && negb _); [|exact H0].
      apply walkedUnder_push.
      * apply (walkedUnder_same cc w0 (pushTag t0 w)); [exact H0|reflexivity|reflexivity].
      * right. split; [reflexivity|]. eexists. reflexivity.
    + unfold resolveCall.
      destruct (has _ _); [|exact H0].
      match goal with |- context [match ?T with Some _ => _ | None => _ end] =>
        destruct T as [tf|] end; [|exact H0].
      destruct (truthy tf && negb _); [|exact H0].
      apply walkedUnder_push.
      * apply (walkedUnder_same cc w0 (pushTag t0 w)); [exact H0|reflexivity|reflexivity].
      * left. in_list.
  - (* new *)
    cbn [enter]. destruct c; try exact Hw.
    destruct (shouldIgnoreFunctionCall G _); [exact Hw|].
    apply walkedUnder_push; [exact Hw|]. left. in_list.
  - (* import *)
    cbn [enter]. destruct (trackImports_walk src specs w) as [E1 E2].
    exact (walkedUnder_same cc w0 w _ Hw E1 E2).
  - (* class *)
    exfalso. exact (Hn l i b eq_refl).
  - (* function *)
    cbn [enter]. destruct i as [fn|]; [|exact Hw].
    destruct (truthy fn); [|exact Hw].
    apply walkedUnder_push; [exact Hw|]. left. in_list.
  - (* method *)
    cbn [enter]. apply walkedUnder_push; [exact Hw|]. rewrite (proj1 Hw).
    left. split; [destruct st; in_list|]. split; reflexivity.
  - (* private method *)
    cbn [enter]. apply walkedUnder_push; [exact Hw|]. rewrite (proj1 Hw).
    left. split; [in_list|]. split; reflexivity.
Qed.

Lemma traverseAll_walkedUnder_from cc w0 ns :
  Forall (fun n => classFree n = true ->
                   ∀ w, walkedUnder cc w0 w -> walkedUnder cc w0 (traverse G rp n w)) ns ->
  forallb classFree ns = true ->
  ∀ w, walkedUnder cc w0 w -> walkedUnder cc w0 (traverseAll G rp ns w).
Proof.
  induction 1 as [|x ns Hx _ IH]; intros Hns w Hw; [exact Hw|]. simpl in *.
  apply andb_true_iff in Hns as [H1 H2]. apply (IH H2). apply (Hx H1). exact Hw.
Qed.

Lemma traverse_walkedUnder cc w0 n :
  classFree n = true -> ∀ w, walkedUnder cc w0 w -> walkedUnder cc w0 (traverse G rp n w).
Proof.
  induction n as [s|s|o p IHo IHp|l c args IHc IHargs|l c args IHc IHargs|a IHa|src specs
                 |l i b IHb|l i b IHb|l st k b IHk IHb|l k b IHb|b IHb]
    using Node_nested_ind; intros Hfree w Hw; rewrite traverse_unfold;
    simpl in Hfree; rewrite ?classFree_all in Hfree; try discriminate;
    cbn [exit];
    match goal with
    | |- context [enter G rp ?n w] =>
        assert (He : walkedUnder cc w0 (enter G rp n w))
          by (apply enter_walkedUnder; [intros; discriminate|exact Hw])
    end.
  - exact He.
  - exact He.
  - apply andb_true_iff in Hfree as [H1 H2]. apply (IHp H2), (IHo H1), He.
  - apply andb_true_iff in Hfree as [H1 H2].
    apply (traverseAll_walkedUnder_from cc w0 args IHargs H2), (IHc H1), He.
  - apply andb_true_iff in Hfree as [H1 H2].
    apply (traverseAll_walkedUnder_from cc w0 args IHargs H2), (IHc H1), He.
  - apply (IHa Hfree), He.
  - exact He.
  - apply (traverseAll_walkedUnder_from cc w0 b IHb Hfree), He.
  - apply andb_true_iff in Hfree as [H1 H2].
    apply (traverseAll_walkedUnder_from cc w0 b IHb H2), (IHk H1), He.
  - apply (traverseAll_walkedUnder_from cc w0 b IHb Hfree), He.
  - apply (traverseAll_walkedUnder_from cc w0 b IHb Hfree), He.
Qed.

Lemma traverseAll_walkedUnder cc w0 ns :
  forallb classFree ns = true ->
  ∀ w, walkedUnder cc w0 w -> walkedUnder cc w0 (traverseAll G rp ns w).
Proof.
  apply traverseAll_walkedUnder_from. apply Forall_forall. intros n _.
  apply traverse_walkedUnder.
Qed.

End Scopes.

Section Textless.

Import Neo4jBuilder.

Variable md5 : string -> string.
Variable G : gset string.
Variable repo : RepoInfo.

Let r := repoId repo.

Lemma textless_graph g b :
  (∀ k n, nodes g !! k = Some n -> nodeText n = None) -> textless b -> textless (withGraph g b).
Proof. intros Hg [_ Hr]. split; assumption. Qed.

Lemma textless_setNode n (g : GraphData) :
  nodeText n = None ->
  (∀ k x, nodes g !! k = Some x -> nodeText x = None) ->
  ∀ k x, nodes (setNode n g) !! k = Some x -> nodeText x = None.
Proof.
  intros Hn Hg k x Hk. simpl in Hk. destruct (decide (nodeId n = k)) as [<-|Hne].
  - rewrite lookup_insert_eq in Hk. injection Hk as <-. exact Hn.
  - rewrite lookup_insert_ne in Hk by exact Hne. exact (Hg k x Hk).
Qed.

Lemma absorbTags_textless path rp fid ts : ∀ b,
  Forall (fun t => text t = None) ts -> textless b ->
  textless (fold_left (absorbTag md5 r path rp fid) ts b).
Proof.
  induction ts as [|t ts IH]; intros b Hts Hb; [exact Hb|].
  apply Forall_cons in Hts as [Ht Hts]. simpl. apply IH; [exact Hts|].
  destruct Hb as [Hn Hr]. unfold absorbTag. destruct (kind t); split; cbn [graph references].
  - destruct (negb _); cbn [pushEdge nodes]; apply textless_setNode; assumption.
  - exact Hr.
  - exact Hn.
  - apply Forall_app. split; [exact Hr|]. constructor; [exact Ht|constructor].
Qed.

Lemma parseFile_textless m path rp c ts m' :
  parseFile G m path rp c = (Resolved ts, m') -> Forall (fun t => text t = None) ts.
Proof.
  intros H. apply parseFile_emitted in H. eapply Forall_impl; [exact H|].
  intros t Ht. exact (proj1 (proj2 (emitted_fields rp t Ht))).
Qed.

Lemma openDirectory_textless segs parent b :
  textless b -> textless (openDirectory md5 repo segs parent b).
Proof.
  intros Hb. unfold openDirectory. destruct (negb (has _ _)); [|exact Hb].
  apply textless_graph; [|exact Hb]. destruct Hb as [Hn _].
  destruct (_ && _); [destruct (negb _)|]; cbn [pushEdge nodes];
    apply textless_setNode; try reflexivity; exact Hn.
Qed.

Lemma processFile_textless segs c parent b b' :
  textless b -> processFile md5 G repo segs c parent b = Some b' -> textless b'.
Proof.
  intros Hb. unfold processFile. cbv zeta. fold r.
  set (g1 := if negb (has _ _) then _ else graph b).
  assert (H1 : textless (withGraph g1 b)).
  { apply textless_graph; [|exact Hb]. subst g1. destruct Hb as [Hn _].
    destruct (negb _); [|exact Hn]. cbn [connect nodes].
    apply textless_setNode; [reflexivity|exact Hn]. }
  destruct (parseFile G _ _ _ c) as [[ts| |] m'] eqn:Ep; intros [= <-].
  - apply absorbTags_textless; [exact (parseFile_textless _ _ _ _ _ _ Ep)|].
    destruct H1 as [Hn Hr]. split; assumption.
  - destruct H1 as [Hn Hr]. split; assumption.
Qed.

Lemma ensureFolderNodeFrom_textless fuel : ∀ g p rp nid g',
  (∀ k n, nodes g !! k = Some n -> nodeText n = None) ->
  ensureFolderNodeFrom md5 fuel g r p rp = Some (nid, g') ->
  ∀ k n, nodes g' !! k = Some n -> nodeText n = None.
Proof.
  induction fuel as [|fuel IH]; intros g p rp nid g' Hg; [discriminate|]. simpl.
  destruct (String.eqb p "."); [intros [= _ <-]; exact Hg|].
  destruct (has (nodes g) _); [intros [= _ <-]; exact Hg|].
  destruct (ensureFolderNodeFrom md5 fuel _ r _ rp) as [[pid g2]|] eqn:E; [|discriminate].
  intros [= _ <-].
  assert (H2 : ∀ k n, nodes g2 !! k = Some n -> nodeText n = None).
  { eapply IH; [|exact E]. apply textless_setNode; [reflexivity|exact Hg]. }
  destruct (negb _); [apply textless_setNode; [reflexivity|]|]; exact H2.
Qed.

Lemma processListed_textless fs b segs b' :
  textless b -> processListed md5 G repo fs b segs = Completed b' -> textless b'.
Proof.
  intros Hb. unfold processListed. cbv zeta. fold r.
  destruct (has _ _); [intros [= <-]; exact Hb|].
  destruct (fsLookup fs segs) as [[sz c]|]; [|intros [= <-]; exact Hb].
  destruct sz as [|sz]; [intros [= <-]; exact Hb|].
  destruct (ensureFolderNode md5 _ _ _ _) as [[pid g1]|] eqn:Ee; [|discriminate].
  pose proof (ensureFolderNodeFrom_textless _ _ _ _ _ _ (proj1 Hb) Ee) as H1.
  set (g2 := connect _ _ _ _ _).
  assert (H2 : textless (withGraph g2 b)).
  { apply textless_graph; [|exact Hb]. subst g2. cbn [connect nodes].
    apply textless_setNode; [reflexivity|exact H1]. }
  destruct (parseFile G _ _ _ c) as [[ts| |] m'] eqn:Ep; intros [= <-] || discriminate.
  apply absorbTags_textless; [exact (parseFile_textless _ _ _ _ _ _ Ep)|].
  destruct H2 as [Hn Hr]. split; assumption.
Qed.

Lemma resolveReference_textless defs s t :
  text t = None ->
  (∀ k n, nodes (resolved s) !! k = Some n -> nodeText n = None) ->
  ∀ k n, nodes (resolved (resolveReference md5 repo defs s t)) !! k = Some n -> nodeText n = None.
Proof.
  intros Ht Hs. unfold resolveReference. fold r. destruct (defs !! _) as [d|]; [|exact Hs].
  set (refId := generateNodeId md5 r ("ref:" ++ _)).
  set (defId := generateNodeId md5 r ("def:" ++ _)).
  set (nd := referenceNode repo refId t).
  assert (Hn : ∀ k n, nodes (setNode nd (resolved s)) !! k = Some n -> nodeText n = None)
    by (apply textless_setNode; [exact Ht|exact Hs]).
  destruct (negb (has (nodes (resolved s)) refId)).
  - destruct (has _ _); cbn [resolved]; [|exact Hn].
    destruct (negb (has _ defId)); [exact Hn|].
    destruct (bool_decide _); [exact Hn|].
    destruct (addUniqueEdge _ _ _ _ _) as [es added]. exact Hn.
  - destruct (negb (has _ defId)); [exact Hs|].
    destruct (bool_decide _); [exact Hs|].
    destruct (addUniqueEdge _ _ _ _ _) as [es added]. exact Hs.
Qed.

Lemma buildGraph_textless fs files m g s m' :
  buildGraph md5 G repo fs files m = Completed (g, s, m') ->
  ∀ k n, viewNodes g !! k = Some n -> nodeText n = None.
Proof.
  unfold buildGraph. fold r.
  destruct (processDirectory md5 G repo fs _ _) as [b1|] eqn:Ed; [|discriminate].
  destruct (processFiles md5 G repo fs files b1) as [b2| |] eqn:Ef; try discriminate.
  intros [= <- _ _]. cbn [viewNodes].
  assert (H1 : textless b1).
  { refine (processDirectory_keeps md5 G repo textless (fun _ => true)
              _ _ _ fs _ _ b1 (everyContent_true fs) _ Ed).
    - intros. apply openDirectory_textless. assumption.
    - intros segs entry c b b' _. apply processFile_textless.
    - intros. apply openDirectory_textless. assumption.
    - split; [|constructor]. apply textless_setNode; [reflexivity|].
      intros k n Hk. simpl in Hk. rewrite lookup_empty in Hk. discriminate. }
  assert (H2 : textless b2).
  { refine (processFiles_keeps md5 G repo textless (fun _ => true)
              _ fs files (everyContent_true fs) b1 b2 H1 Ef).
    intros fs' b segs b' _. apply processListed_textless. }
  destruct H2 as [Hn Hr]. unfold resolveReferences.
  assert (H3 : ∀ ts s0, Forall (fun t => text t = None) ts ->
            (∀ k n, nodes (resolved s0) !! k = Some n -> nodeText n = None) ->
            ∀ k n, nodes (resolved (fold_left (resolveReference md5 repo (definitions b2)) ts s0))
                     !! k = Some n -> nodeText n = None).
  { induction ts as [|t ts IH]; intros s0 Hts H; [exact H|].
    apply Forall_cons in Hts as [Ht Hts]. simpl. apply IH; [exact Hts|].
    apply resolveReference_textless; assumption. }
  apply H3; assumption.
Qed.

End Textless.

(** ** The Neo4j service *)

Section ServiceFacts.

Import Neo4jService.

Variable runs : list Event -> Statement -> bool.

Lemma openAfter_app a : ∀ n b,
  openAfter n (a ++ b) = match openAfter n a with Some k => openAfter k b | None => None end.
Proof.
  induction a as [|ev a IH]; intros n b; [reflexivity|].
  destruct ev; simpl; try apply IH. destruct n; [reflexivity|apply IH].
Qed.

Lemma allResolved_app a : ∀ start b,
  allResolved runs start (a ++ b)
  = allResolved runs start a && allResolved runs (start ++ a) b.
Proof.
  induction a as [|ev a IH]; intros start b.
  - simpl. rewrite app_nil_r. reflexivity.
  - assert (E : ((start ++ [ev]) ++ a = start ++ ev :: a)%list)
      by (rewrite <- app_assoc; reflexivity).
    destruct ev; simpl; rewrite IH, E; try reflexivity.
    rewrite andb_assoc. reflexivity.
Qed.

Lemma notRan_resolved evs : ∀ start,
  Forall (fun ev => isRan ev = false) evs -> allResolved runs start evs = true.
Proof.
  induction evs as [|ev evs IH]; intros start H; [reflexivity|].
  apply Forall_cons in H as [Hev H]. destruct ev; simpl; try (apply IH; exact H).
  discriminate.
Qed.

Lemma orderly_ret : orderly runs (ret tt).
Proof.
  intros s. exists []. simpl. rewrite app_nil_r. repeat split.
Qed.

Lemma orderly_run q : orderly runs (run runs q).
Proof.
  intros s. exists [Ran q]. unfold run. split; [destruct (runs (log s) q); reflexivity|].
  split; [reflexivity|]. destruct (runs (log s) q) eqn:E; simpl.
  - rewrite E. reflexivity.
  - exists [], q, []. rewrite app_nil_r. repeat split; [exact E|constructor].
Qed.

Lemma orderly_andThen m k : orderly runs m -> orderly runs k -> orderly runs (andThen m k).
Proof.
  intros Hm Hk s. unfold andThen, bind. destruct (Hm s) as (e1 & L1 & B1 & F1).
  destruct (m s) as [[[]|f] s1] eqn:Em; simpl in *.
  - destruct (Hk s1) as (e2 & L2 & B2 & F2). exists (e1 ++ e2)%list.
    rewrite L2, L1, app_assoc. split; [reflexivity|]. split.
    + intros n. rewrite openAfter_app, B1. apply B2.
    + rewrite L1 in F2. destruct (k s1).1 as [[]|[msg| | |]]; simpl in *;
        try (rewrite allResolved_app, F1, F2; reflexivity).
      destruct F2 as (pre & q & post & -> & P1 & P2 & P3).
      exists (e1 ++ pre)%list, q, post. rewrite <- app_assoc. split; [reflexivity|].
      split; [rewrite allResolved_app, F1, P1; reflexivity|].
      split; [rewrite app_assoc; exact P2 | exact P3].
  - exists e1. split; [exact L1|]. split; [exact B1 | exact F1].
Qed.

Lemma orderly_forEach {A} (xs : list A) body :
  (∀ x, orderly runs (body x)) -> orderly runs (forEach xs body).
Proof.
  intros Hb. induction xs as [|x xs IH]; [apply orderly_ret|].
  simpl. apply orderly_andThen; [apply Hb | exact IH].
Qed.

Lemma orderly_inSession body : orderly runs body -> orderly runs (inSession body).
Proof.
  intros Hb s. unfold inSession, andThen, bind, emit, finally.
  set (s0 := {| driver := driver s; log := (log s ++ [SessionOpened])%list |}).
  destruct (Hb s0) as (evs & L & B & F). destruct (body s0) as [r s1] eqn:Eb. simpl in *.
  exists (SessionOpened :: evs ++ [SessionClosed])%list. split; [|split].
  - rewrite L. rewrite <- !app_assoc. reflexivity.
  - intros n. simpl. rewrite openAfter_app, B. reflexivity.
  - destruct r as [[]|[msg| | |]]; simpl in *;
      try (rewrite allResolved_app, F; reflexivity).
    destruct F as (pre & q & post & -> & P1 & P2 & P3).
    exists (SessionOpened :: pre)%list, q, (post ++ [SessionClosed])%list.
    split; [simpl; rewrite <- app_assoc; reflexivity|].
    split; [exact P1|]. split.
    + rewrite <- P2. f_equal. rewrite <- app_assoc. reflexivity.
    + apply Forall_app. split; [exact P3|]. repeat constructor.
Qed.

Lemma orderly_withDriver body : orderly runs body -> orderly runs (withDriver body).
Proof.
  intros Hb s. unfold withDriver. destruct (driver s); [apply Hb|].
  exists []. simpl. rewrite app_nil_r. repeat split.
Qed.

Lemma orderly_createNodes ns : orderly runs (createNodes runs ns).
Proof.
  apply orderly_withDriver. destruct ns; [apply orderly_ret|].
  apply orderly_inSession, orderly_run.
Qed.

Lemma orderly_createRelationships rs : orderly runs (createRelationships runs rs).
Proof.
  apply orderly_withDriver. destruct rs; [apply orderly_ret|].
  apply orderly_inSession, orderly_forEach. intros g. apply orderly_run.
Qed.

Lemma orderly_storeGraph nodes edges : orderly runs (storeGraph runs nodes edges).
Proof.
  apply orderly_withDriver, orderly_inSession, orderly_andThen; apply orderly_forEach; intros b.
  - apply orderly_createNodes.
  - apply orderly_createRelationships.
Qed.

Lemma orderly_perform creatable reachable c :
  orderly runs (perform creatable reachable runs c).
Proof.
  destruct c as [| | |rid|nodes edges]; simpl.
  - intros s. unfold connect. destruct creatable.
    + exists [DriverCreated]. simpl. destruct (reachable _); simpl; repeat split.
    + exists []. simpl. rewrite app_nil_r. repeat split.
  - intros s. unfold close. destruct (driver s).
    + exists [DriverClosed]. simpl. repeat split.
    + exists []. simpl. rewrite app_nil_r. repeat split.
  - apply orderly_withDriver, orderly_inSession, orderly_run.
  - apply orderly_withDriver, orderly_inSession, orderly_run.
  - apply orderly_storeGraph.
Qed.

End ServiceFacts.

Section Batches.

Import Neo4jService.

Context {A : Type}.

Lemma batchesFrom_concat fuel : ∀ i (l : list A),
  length l - i <= fuel -> concat (batchesFrom fuel i l) = skipn i l.
Proof.
  induction fuel as [|fuel IH]; intros i l Hf; simpl.
  - symmetry. apply skipn_all2. lia.
  - destruct (Nat.ltb_spec i (length l)) as [Hi|Hi].
    + simpl. rewrite IH by (unfold batchSize; lia). unfold slice.
      replace (i + batchSize - i) with batchSize by lia.
      rewrite Nat.add_comm, <- skipn_skipn. apply firstn_skipn.
    + symmetry. apply skipn_all2. exact Hi.
Qed.

Lemma batchesFrom_sizes fuel : ∀ i (l : list A),
  Forall (fun b => 0 < length b <= batchSize) (batchesFrom fuel i l).
Proof.
  induction fuel as [|fuel IH]; intros i l; simpl; [constructor|].
  destruct (Nat.ltb_spec i (length l)) as [Hi|Hi]; [|constructor].
  constructor; [|apply IH]. unfold slice.
  rewrite length_firstn, length_skipn. unfold batchSize. lia.
Qed.

Lemma batchesFrom_length fuel : ∀ i (l : list A),
  length l - i <= fuel ->
  length (batchesFrom fuel i l) = (length l - i + 999) / 1000.
Proof.
  induction fuel as [|fuel IH]; intros i l Hf; cbn [batchesFrom length].
  - replace (length l - i) with 0 by lia. reflexivity.
  - destruct (Nat.ltb_spec i (length l)) as [Hi|Hi].
    + cbn [length]. rewrite IH by (unfold batchSize; lia). unfold batchSize.
      destruct (Nat.le_gt_cases 1000 (length l - i)) as [Hbig|Hsmall].
      * replace (length l - i + 999) with ((length l - (i + 1000) + 999) + 1 * 1000) by lia.
        rewrite Nat.div_add by lia. lia.
      * replace (length l - (i + 1000)) with 0 by lia.
        rewrite (Nat.div_small (0 + 999) 1000) by lia.
        apply (Nat.div_unique _ _ _ (length l - i - 1)); lia.
    + replace (length l - i) with 0 by lia. reflexivity.
Qed.

Lemma batches_concat (l : list A) : concat (batches l) = l.
Proof. unfold batches. rewrite batchesFrom_concat by lia. reflexivity. Qed.

Lemma batches_sizes (l : list A) : Forall (fun b => 0 < length b <= batchSize) (batches l).
Proof. apply batchesFrom_sizes. Qed.

Lemma batches_length (l : list A) : length (batches l) = (length l + 999) / 1000.
Proof. unfold batches. rewrite batchesFrom_length by lia. rewrite Nat.sub_0_r. reflexivity. Qed.

End Batches.

Section Groups.

Import Neo4jService.

Lemma groupOf_cons ty k rs groups :
  groupOf ty ((k, rs) :: groups) = ((if decide (k = ty) then rs else []) ++ groupOf ty groups)%list.
Proof.
  unfold groupOf. destruct (decide (k = ty)) as [E|E].
  - rewrite filter_cons_True by exact E. reflexivity.
  - rewrite filter_cons_False by exact E. reflexivity.
Qed.

Lemma groupOf_absent ty groups : ty ∉ map fst groups -> groupOf ty groups = [].
Proof.
  induction groups as [|[k rs] groups IH]; intros H; [reflexivity|].
  rewrite groupOf_cons. simpl in H. apply not_elem_of_cons in H as [Hk H].
  destruct (decide (k = ty)) as [E|E]; [congruence|]. exact (IH H).
Qed.

Lemma pushTo_keys ty rel groups :
  map fst (pushTo ty rel groups)
  = if bool_decide (ty ∈ map fst groups) then map fst groups else (map fst groups ++ [ty])%list.
Proof.
  induction groups as [|[k rs] groups IH]; [reflexivity|]. simpl.
  destruct (String.eqb_spec k ty) as [->|Hne].
  - rewrite bool_decide_eq_true_2 by left. reflexivity.
  - simpl. rewrite IH. destruct (bool_decide (ty ∈ map fst groups)) eqn:E.
    + apply bool_decide_eq_true in E. rewrite bool_decide_eq_true_2 by (right; exact E).
      reflexivity.
    + apply bool_decide_eq_false in E. rewrite bool_decide_eq_false_2; [reflexivity|].
      intros H. apply elem_of_cons in H as [H|H]; [congruence|contradiction].
Qed.

Lemma pushTo_NoDup ty rel groups :
  NoDup (map fst groups) -> NoDup (map fst (pushTo ty rel groups)).
Proof.
  intros H. rewrite pushTo_keys. destruct (bool_decide _) eqn:E; [exact H|].
  apply bool_decide_eq_false in E. apply NoDup_app. split; [exact H|]. split.
  - intros x Hx Hx'. apply list_elem_of_singleton in Hx'. subst x. contradiction.
  - apply NoDup_singleton.
Qed.

Lemma pushTo_groupOf t ty rel groups :
  NoDup (map fst groups) ->
  groupOf t (pushTo ty rel groups)
  = (groupOf t groups ++ (if decide (ty = t) then [rel] else []))%list.
Proof.
  induction groups as [|[k rs] groups IH]; intros Hnd.
  - simpl. rewrite groupOf_cons. destruct (decide (ty = t)); reflexivity.
  - simpl in Hnd. apply NoDup_cons in Hnd as [Hk Hnd]. simpl.
    destruct (String.eqb_spec k ty) as [->|Hne].
    + rewrite !groupOf_cons. destruct (decide (ty = t)) as [->|E].
      * rewrite (groupOf_absent t groups Hk), !app_nil_r. reflexivity.
      * rewrite app_nil_r. reflexivity.
    + rewrite !groupOf_cons, IH by exact Hnd. rewrite app_assoc. reflexivity.
Qed.

Lemma pushTo_typed ty rel groups :
  relType rel = ty ->
  Forall (fun g => g.2 ≠ [] ∧ Forall (fun x => relType x = g.1) g.2) groups ->
  Forall (fun g => g.2 ≠ [] ∧ Forall (fun x => relType x = g.1) g.2) (pushTo ty rel groups).
Proof.
  intros Hty. induction groups as [|[k rs] groups IH]; intros H.
  - simpl. constructor; [|constructor]. simpl. split; [discriminate|].
    constructor; [exact Hty|constructor].
  - apply Forall_cons in H as [[H1 H2] H]. simpl in *.
    destruct (String.eqb_spec k ty) as [->|Hne].
    + constructor; [|exact H]. simpl. split.
      * destruct rs; discriminate.
      * apply Forall_app. split; [exact H2|]. constructor; [exact Hty|constructor].
    + constructor; [split; assumption|]. exact (IH H).
Qed.

Lemma groupByType_spec rels :
  NoDup (map fst (groupByType rels))
  ∧ Forall (fun g => g.2 ≠ [] ∧ Forall (fun x => relType x = g.1) g.2) (groupByType rels)
  ∧ ∀ ty, groupOf ty (groupByType rels) = filter (fun x => relType x = ty) rels.
Proof.
  unfold groupByType.
  assert (Hgen : ∀ rels groups,
    NoDup (map fst groups) ->
    Forall (fun g => g.2 ≠ [] ∧ Forall (fun x => relType x = g.1) g.2) groups ->
    let out := fold_left (fun groups rel => pushTo (relType rel) rel groups) rels groups in
    NoDup (map fst out)
    ∧ Forall (fun g => g.2 ≠ [] ∧ Forall (fun x => relType x = g.1) g.2) out
    ∧ ∀ ty, groupOf ty out = (groupOf ty groups ++ filter (fun x => relType x = ty) rels)%list).
  { clear rels. induction rels as [|rel rels IH]; intros groups Hnd Hty.
    - simpl. split; [exact Hnd|]. split; [exact Hty|]. intros ty. rewrite app_nil_r. reflexivity.
    - simpl.
      destruct (IH (pushTo (relType rel) rel groups) (pushTo_NoDup _ _ _ Hnd)
                  (pushTo_typed _ _ _ eq_refl Hty)) as (H1 & H2 & H3).
      split; [exact H1|]. split; [exact H2|]. intros ty. rewrite H3, pushTo_groupOf by exact Hnd.
      rewrite <- app_assoc. f_equal. destruct (decide (relType rel = ty)) as [E|E].
      + rewrite filter_cons_True by exact E. reflexivity.
      + rewrite filter_cons_False by exact E. reflexivity. }
  destruct (Hgen rels [] (NoDup_nil_2) (@List.Forall_nil _ _)) as (H1 & H2 & H3).
  split; [exact H1|]. split; [exact H2|]. intros ty. rewrite H3. reflexivity.
Qed.

End Groups.

Section Delivery.

Import Neo4jService.

Variable runs : list Event -> Statement -> bool.
Hypothesis runs_resolve : ∀ l q, runs l q = true.

Lemma delivers_ret : delivers (ret tt) [].
Proof. intros [d l] Hd. simpl in *. subst d. rewrite app_nil_r. reflexivity. Qed.

Lemma delivers_run q : delivers (run runs q) [Ran q].
Proof. intros [d l] Hd. simpl in *. subst d. unfold run. simpl. rewrite runs_resolve. reflexivity. Qed.

Lemma delivers_andThen m k e1 e2 :
  delivers m e1 -> delivers k e2 -> delivers (andThen m k) (e1 ++ e2).
Proof.
  intros Hm Hk s Hd. unfold andThen, bind. rewrite (Hm s Hd).
  rewrite (Hk {| driver := true; log := (log s ++ e1)%list |} eq_refl).
  simpl. rewrite app_assoc. reflexivity.
Qed.

Lemma delivers_forEach {A} (xs : list A) body evs :
  (∀ x, delivers (body x) (evs x)) -> delivers (forEach xs body) (concat (map evs xs)).
Proof.
  intros Hb. induction xs as [|x xs IH]; [apply delivers_ret|].
  simpl. apply delivers_andThen; [apply Hb | exact IH].
Qed.

Lemma delivers_inSession body evs :
  delivers body evs -> delivers (inSession body) (SessionOpened :: evs ++ [SessionClosed]).
Proof.
  intros Hb s Hd. unfold inSession, andThen, bind, emit, finally.
  rewrite (Hb {| driver := driver s; log := (log s ++ [SessionOpened])%list |} Hd).
  simpl. rewrite <- !app_assoc. reflexivity.
Qed.

Lemma delivers_withDriver body evs : delivers body evs -> delivers (withDriver body) evs.
Proof. intros Hb s Hd. unfold withDriver. rewrite Hd. exact (Hb s Hd). Qed.

Lemma delivers_createNodes batch :
  delivers (createNodes runs (map toNodeData batch)) (nodeEvents batch).
Proof.
  apply delivers_withDriver. destruct batch as [|n batch]; [apply delivers_ret|].
  apply (delivers_inSession _ [_]), delivers_run.
Qed.

Lemma delivers_createRelationships batch :
  delivers (createRelationships runs (map toRelationshipData batch)) (relationshipEvents batch).
Proof.
  apply delivers_withDriver. destruct batch as [|e batch]; [apply delivers_ret|].
  apply delivers_inSession.
  set (groups := groupByType _).
  assert (E : map (fun g => Ran (MergeRelationships g.1 g.2)) groups
              = concat (map (fun g => [Ran (MergeRelationships g.1 g.2)]) groups)).
  { induction groups as [|g groups IH]; [reflexivity|]. simpl. rewrite IH. reflexivity. }
  rewrite E. apply delivers_forEach. intros g. apply delivers_run.
Qed.

Lemma delivers_storeGraph nodes edges :
  delivers (storeGraph runs nodes edges)
    (SessionOpened
       :: (concat (map nodeEvents (batches nodes))
           ++ concat (map relationshipEvents (batches edges)))
       ++ [SessionClosed]).
Proof.
  apply delivers_withDriver, delivers_inSession, delivers_andThen; apply delivers_forEach.
  - apply delivers_createNodes.
  - apply delivers_createRelationships.
Qed.

End Delivery.

Section Sent.

Import Neo4jService.

Lemma nodesSent_app a b : nodesSent (a ++ b) = (nodesSent a ++ nodesSent b)%list.
Proof.
  induction a as [|ev a IH]; [reflexivity|].
  destruct ev as [| | |[]|]; simpl; rewrite IH; reflexivity.
Qed.

Lemma relationshipsSent_app ty a b :
  relationshipsSent ty (a ++ b) = (relationshipsSent ty a ++ relationshipsSent ty b)%list.
Proof.
  induction a as [|ev a IH]; [reflexivity|].
  destruct ev as [| | |[]|]; simpl; rewrite IH; try reflexivity.
  destruct (String.eqb _ _); [rewrite app_assoc|]; reflexivity.
Qed.

Lemma nodesSent_nodeEvents bs :
  Forall (fun b : list GraphNodeData => 0 < length b <= batchSize) bs ->
  nodesSent (concat (map nodeEvents bs)) = map (map toNodeData) bs
  ∧ ∀ ty, relationshipsSent ty (concat (map nodeEvents bs)) = [].
Proof.
  induction 1 as [|b bs Hb _ [IH1 IH2]]; [split; reflexivity|]. simpl.
  destruct b as [|n b]; [simpl in Hb; lia|]. split.
  - simpl. rewrite IH1. reflexivity.
  - intros ty. simpl. apply IH2.
Qed.

Lemma sent_groups ty groups :
  relationshipsSent ty (map (fun g => Ran (MergeRelationships g.1 g.2)) groups)
  = groupOf ty groups
  ∧ nodesSent (map (fun g => Ran (MergeRelationships g.1 g.2)) groups) = [].
Proof.
  induction groups as [|[k rs] groups [IH1 IH2]]; [split; reflexivity|]. simpl. split; [|exact IH2].
  rewrite groupOf_cons, IH1. destruct (String.eqb_spec k ty) as [->|Hne].
  - rewrite decide_True by reflexivity. reflexivity.
  - rewrite decide_False by exact Hne. reflexivity.
Qed.

Lemma sent_relationshipEvents ty batch :
  relationshipsSent ty (relationshipEvents batch)
  = map toRelationshipData (filter (fun e => edgeType e = ty) batch)
  ∧ nodesSent (relationshipEvents batch) = [].
Proof.
  destruct batch as [|e batch]; [split; reflexivity|]. unfold relationshipEvents.
  set (rels := map toRelationshipData (e :: batch)).
  destruct (sent_groups ty (groupByType rels)) as [H1 H2].
  destruct (groupByType_spec rels) as (_ & _ & H3). split.
  - simpl. rewrite relationshipsSent_app, H1, H3. simpl. rewrite app_nil_r.
    subst rels. generalize (e :: batch). clear. intros l.
    induction l as [|x l IH]; [reflexivity|]. simpl.
    destruct (decide (edgeType x = ty)) as [E|E].
    + rewrite filter_cons_True by exact E. rewrite filter_cons_True by exact E.
      simpl. rewrite IH. reflexivity.
    + rewrite filter_cons_False by exact E. rewrite filter_cons_False by exact E. exact IH.
  - simpl. rewrite nodesSent_app, H2. reflexivity.
Qed.

Lemma sent_relationshipBatches ty bs :
  relationshipsSent ty (concat (map relationshipEvents bs))
  = map toRelationshipData (filter (fun e => edgeType e = ty) (concat bs))
  ∧ nodesSent (concat (map relationshipEvents bs)) = [].
Proof.
  induction bs as [|b bs [IH1 IH2]]; [split; reflexivity|]. simpl.
  destruct (sent_relationshipEvents ty b) as [H1 H2]. split.
  - rewrite relationshipsSent_app, H1, IH1, filter_app, map_app. reflexivity.
  - rewrite nodesSent_app, H2, IH2. reflexivity.
Qed.

Lemma wellTyped_nodeEvents bs :
  Forall (fun b : list GraphNodeData => 0 < length b <= batchSize) bs ->
  Forall wellTyped (concat (map nodeEvents bs)).
Proof.
  induction 1 as [|b bs Hb _ IH]; [constructor|]. simpl. apply Forall_app. split; [|exact IH].
  destruct b as [|n b]; [constructor|]. unfold nodeEvents.
  constructor; [exact I|]. constructor; [|constructor; [exact I|constructor]].
  unfold wellTyped. rewrite length_map. exact Hb.
Qed.

Lemma wellTyped_relationshipEvents bs :
  Forall wellTyped (concat (map relationshipEvents bs)).
Proof.
  induction bs as [|b bs IH]; [constructor|]. simpl. apply Forall_app. split; [|exact IH].
  destruct b as [|e b]; [constructor|]. unfold relationshipEvents.
  constructor; [exact I|]. apply Forall_app. split; [|constructor; [exact I|constructor]].
  destruct (groupByType_spec (map toRelationshipData (e :: b))) as (_ & H & _).
  apply Forall_forall. intros ev Hev. apply list_elem_of_fmap in Hev as (g & -> & Hg).
  rewrite Forall_forall in H. exact (H g Hg).
Qed.

End Sent.

Section Guard.

Import Neo4jService.

Variable runs : list Event -> Statement -> bool.

Lemma connectedRun_ret : connectedRun (ret tt).
Proof. intros s Hd. split; [exact Hd|]. intros msg. discriminate. Qed.

Lemma connectedRun_run q : connectedRun (run runs q).
Proof.
  intros s Hd. unfold run. destruct (runs (log s) q); simpl; (split; [exact Hd|]);
    intros msg; discriminate.
Qed.

Lemma connectedRun_andThen m k : connectedRun m -> connectedRun k -> connectedRun (andThen m k).
Proof.
  intros Hm Hk s Hd. unfold andThen, bind. destruct (Hm s Hd) as [D1 T1].
  destruct (m s) as [[[]|f] s1]; simpl in *.
  - exact (Hk s1 D1).
  - split; [exact D1 | exact T1].
Qed.

Lemma connectedRun_forEach {A} (xs : list A) body :
  (∀ x, connectedRun (body x)) -> connectedRun (forEach xs body).
Proof.
  intros Hb. induction xs as [|x xs IH]; [apply connectedRun_ret|].
  simpl. apply connectedRun_andThen; [apply Hb | exact IH].
Qed.

Lemma connectedRun_inSession body : connectedRun body -> connectedRun (inSession body).
Proof.
  intros Hb s Hd. unfold inSession, andThen, bind, emit, finally.
  destruct (Hb {| driver := driver s; log := (log s ++ [SessionOpened])%list |} Hd) as [D T].
  destruct (body _) as [res s1]. simpl in *. split; [exact D | exact T].
Qed.

Lemma connectedRun_withDriver body : connectedRun body -> connectedRun (withDriver body).
Proof. intros Hb s Hd. unfold withDriver. rewrite Hd. exact (Hb s Hd). Qed.

Lemma connectedRun_guarded creatable reachable c :
  c ≠ Connect -> c ≠ Close -> connectedRun (perform creatable reachable runs c).
Proof.
  intros H1 H2. destruct c as [| | |rid|nodes edges]; try contradiction; simpl.
  - apply connectedRun_withDriver, connectedRun_inSession, connectedRun_run.
  - apply connectedRun_withDriver, connectedRun_inSession, connectedRun_run.
  - apply connectedRun_withDriver, connectedRun_inSession, connectedRun_andThen;
      apply connectedRun_forEach; intros b; apply connectedRun_withDriver.
    + destruct (map toNodeData b); [apply connectedRun_ret|].
      apply connectedRun_inSession, connectedRun_run.
    + destruct (map toRelationshipData b); [apply connectedRun_ret|].
      apply connectedRun_inSession, connectedRun_forEach. intros g. apply connectedRun_run.
Qed.

Lemma inSession_opens body s :
  orderly runs body ->
  ∃ evs, log (withDriver (inSession body) s).2
         = if driver s then (log s ++ SessionOpened :: evs)%list else log s.
Proof.
  intros Hb. unfold withDriver. destruct (driver s) eqn:Hd; [|exists []; reflexivity].
  unfold inSession, andThen, bind, emit, finally.
  destruct (Hb {| driver := driver s; log := (log s ++ [SessionOpened])%list |}) as (evs & L & _).
  destruct (body _) as [res s1]. simpl in *. exists (evs ++ [SessionClosed])%list.
  rewrite L, <- !app_assoc. reflexivity.
Qed.

End Guard.

(** ** The scanner *)

Lemma list_ascii_app a b :
  list_ascii_of_string (a ++ b) = (list_ascii_of_string a ++ list_ascii_of_string b)%list.
Proof. induction a as [|c a IH]; [reflexivity|]. rewrite append_cons. simpl. rewrite IH. reflexivity. Qed.

Lemma string_of_list_of_string s : string_of_list_ascii (list_ascii_of_string s) = s.
Proof. induction s as [|c s IH]; [reflexivity|]. simpl. rewrite IH. reflexivity. Qed.

Lemma slashFree_list s :
  slashFree s = true -> Forall (fun c => isSlash c = false) (list_ascii_of_string s).
Proof.
  induction s as [|c s IH]; intros H; [constructor|]. simpl in H.
  apply andb_true_iff in H as [Hc Hs]. apply negb_true_iff in Hc.
  constructor; [exact Hc | exact (IH Hs)].
Qed.

Lemma takeName_app l rest :
  Forall (fun c => isSlash c = false) l -> Path.takeName (l ++ "/"%char :: rest) = l.
Proof.
  induction 1 as [|c l Hc _ IH]; [reflexivity|]. simpl. rewrite Hc, IH. reflexivity.
Qed.

(** [path.basename] of a path that ends in a slash and a proper name. *)
Lemma basename_join dir n :
  properName n = true -> Path.basename (dir ++ "/" ++ n) = n.
Proof.
  intros Hn. apply andb_true_iff in Hn as [Ht Hs]. apply slashFree_list in Hs.
  unfold Path.basename. rewrite !list_ascii_app.
  change (list_ascii_of_string "/") with ["/"%char]. cbn [app].
  rewrite rev_app_distr. cbn [rev]. rewrite <- app_assoc. cbn [app].
  assert (Hrev : Forall (fun c => isSlash c = false) (rev (list_ascii_of_string n)))
    by (apply Forall_rev; exact Hs).
  assert (Hne : list_ascii_of_string n ≠ []) by (destruct n; [discriminate|discriminate]).
  destruct (rev (list_ascii_of_string n)) as [|c l] eqn:E.
  { exfalso. apply Hne. apply (f_equal (@rev ascii)) in E. rewrite rev_involutive in E. exact E. }
  pose proof Hrev as Hall. apply Forall_cons in Hrev as [Hc Hl].
  cbn [app Path.dropSlashes]. rewrite Hc.
  change (c :: (l ++ "/"%char :: rev (list_ascii_of_string dir))%list)
    with ((c :: l) ++ "/"%char :: rev (list_ascii_of_string dir))%list.
  rewrite takeName_app by exact Hall.
  rewrite <- E, rev_involutive. apply string_of_list_of_string.
Qed.

Lemma concat_snoc segs n :
  String.concat "/" (segs ++ [n])
  = match segs with [] => n | _ => String.concat "/" segs ++ "/" ++ n end.
Proof.
  induction segs as [|x segs IH]; [reflexivity|].
  destruct segs as [|y segs]; [reflexivity|].
  change (String.concat "/" ((x :: y :: segs) ++ [n]))
    with (x ++ "/" ++ String.concat "/" ((y :: segs) ++ [n])).
  rewrite IH.
  change (String.concat "/" (x :: y :: segs)) with (x ++ "/" ++ String.concat "/" (y :: segs)).
  rewrite <- !append_assoc. reflexivity.
Qed.

Lemma basename_abs root segs n :
  properName n = true -> Path.basename (Path.abs root (segs ++ [n])) = n.
Proof.
  intros Hn. unfold Path.abs, Path.rel. rewrite concat_snoc.
  destruct (segs ++ [n])%list eqn:E; [destruct segs; discriminate|].
  destruct segs as [|y segs'].
  - apply basename_join. exact Hn.
  - set (inner := String.concat "/" (y :: segs')).
    assert (Ea : root ++ "/" ++ inner ++ "/" ++ n = (root ++ "/" ++ inner) ++ "/" ++ n)
      by (rewrite !append_assoc; reflexivity).
    rewrite Ea. apply basename_join. exact Hn.
Qed.

Section ScanFacts.

Variable root : string.
Variable filterFn : string -> bool.
Variable ignorePatterns : list string.

Lemma scanEntry_dir dirSegs n listable sub :
  Scanner.scanEntry root filterFn ignorePatterns dirSegs (FsDir n listable sub)
  = if bool_decide (Path.basename (Path.abs root (dirSegs ++ [n])) ∈ (Scanner.resolvedIgnore ignorePatterns)) then []
    else if listable then Scanner.scanEntries root filterFn ignorePatterns (dirSegs ++ [n]) sub else [].
Proof.
  simpl. destruct (bool_decide _); [reflexivity|]. destruct listable; [|reflexivity].
  induction sub as [|x sub IH]; [reflexivity|]. simpl. rewrite IH. reflexivity.
Qed.

Lemma properEntry_dir n l sub :
  properEntry (FsDir n l sub) = properName n && forallb properEntry sub.
Proof. reflexivity. Qed.

(** What one entry yields. *)
Lemma scanEntry_yields e : ∀ dirSegs path,
  properEntry e = true ->
  (path ∈ Scanner.scanEntry root filterFn ignorePatterns dirSegs e
   <-> ∃ segs, path = (dirSegs ++ segs)%list ∧ fileAt [e] segs
               ∧ filterFn (Path.abs root path) = true ∧ Forall (fun s => s ∉ (Scanner.resolvedIgnore ignorePatterns)) segs).
Proof.
  induction e as [n sz c|n l sub IH|n|n] using FsEntry_nested_ind; intros dirSegs path Hp.
  - (* a file *)
    simpl in Hp. rewrite andb_true_r in Hp. simpl. rewrite (basename_abs root dirSegs n Hp).
    destruct (bool_decide (n ∈ (Scanner.resolvedIgnore ignorePatterns))) eqn:Ei.
    + apply bool_decide_eq_true in Ei. split; [intros H; apply elem_of_nil in H; contradiction|].
      intros (segs & -> & Hat & _ & Hall). exfalso.
      inversion Hat as [es n' sz' c' Hin|es n' sub segs' Hin _]; subst.
      * apply list_elem_of_singleton in Hin. injection Hin as -> _ _.
        apply Forall_cons in Hall as [Hn _]. contradiction.
      * apply list_elem_of_singleton in Hin. discriminate.
    + apply bool_decide_eq_false in Ei.
      destruct (filterFn (Path.abs root (dirSegs ++ [n]))) eqn:Ef.
      * split.
        -- intros H. apply list_elem_of_singleton in H. subst path. exists [n].
           split; [reflexivity|]. split; [apply (fileAt_here _ n sz c); left|].
           split; [exact Ef|]. constructor; [exact Ei|constructor].
        -- intros (segs & -> & Hat & _ & _).
           inversion Hat as [es n' sz' c' Hin|es n' sub segs' Hin _]; subst.
           ++ apply list_elem_of_singleton in Hin. injection Hin as -> _ _. left.
           ++ apply list_elem_of_singleton in Hin. discriminate.
      * split; [intros H; apply elem_of_nil in H; contradiction|].
        intros (segs & -> & Hat & Hf & _). exfalso.
        inversion Hat as [es n' sz' c' Hin|es n' sub segs' Hin _]; subst.
        -- apply list_elem_of_singleton in Hin. injection Hin as -> _ _. congruence.
        -- apply list_elem_of_singleton in Hin. discriminate.
  - (* a directory *)
    rewrite properEntry_dir in Hp. apply andb_true_iff in Hp as [Hn Hsub].
    rewrite scanEntry_dir, (basename_abs root dirSegs n Hn).
    assert (Hinside : ∀ path,
      path ∈ Scanner.scanEntries root filterFn ignorePatterns (dirSegs ++ [n]) sub
      <-> ∃ segs, path = ((dirSegs ++ [n]) ++ segs)%list ∧ fileAt sub segs
                  ∧ filterFn (Path.abs root path) = true ∧ Forall (fun s => s ∉ (Scanner.resolvedIgnore ignorePatterns)) segs).
    { clear path. induction IH as [|x sub Hx _ IHsub]; intros path.
      - simpl. split; [intros H; apply elem_of_nil in H; contradiction|].
        intros (segs & _ & Hat & _). exfalso.
        inversion Hat as [es n' sz' c' Hin|es n' sub' segs' Hin _]; subst;
          apply elem_of_nil in Hin; contradiction.
      - simpl in Hsub. apply andb_true_iff in Hsub as [Hpx Hps]. simpl.
        rewrite elem_of_app, (Hx (dirSegs ++ [n])%list path Hpx), (IHsub Hps path). split.
        + intros [(segs & E & Hat & Hf & Hall)|(segs & E & Hat & Hf & Hall)];
            exists segs; (split; [exact E|]); (split; [|split; assumption]).
          * inversion Hat as [es n' sz' c' Hin|es n' sub' segs' Hin Hbelow]; subst.
            -- apply list_elem_of_singleton in Hin. subst x. apply (fileAt_here _ n' sz' c'). left.
            -- apply list_elem_of_singleton in Hin. subst x.
               apply (fileAt_below _ n' sub'); [left|exact Hbelow].
          * inversion Hat as [es n' sz' c' Hin|es n' sub' segs' Hin Hbelow]; subst.
            -- apply (fileAt_here _ n' sz' c'). right. exact Hin.
            -- apply (fileAt_below _ n' sub'); [right; exact Hin|exact Hbelow].
        + intros (segs & E & Hat & Hf & Hall).
          inversion Hat as [es n' sz' c' Hin|es n' sub' segs' Hin Hbelow]; subst.
          * apply elem_of_cons in Hin as [Hin|Hin].
            -- left. exists [n']. split; [reflexivity|].
               split; [rewrite <- Hin; apply (fileAt_here _ n' sz' c'); left|]. split; assumption.
            -- right. exists [n']. split; [reflexivity|].
               split; [apply (fileAt_here _ n' sz' c'); exact Hin|]. split; assumption.
          * apply elem_of_cons in Hin as [Hin|Hin].
            -- left. exists (n' :: segs'). split; [reflexivity|].
               split; [rewrite <- Hin; apply (fileAt_below _ n' sub'); [left|exact Hbelow]|].
               split; assumption.
            -- right. exists (n' :: segs'). split; [reflexivity|].
               split; [apply (fileAt_below _ n' sub'); [exact Hin|exact Hbelow]|].
               split; assumption. }
    destruct (bool_decide (n ∈ (Scanner.resolvedIgnore ignorePatterns))) eqn:Ei.
    + apply bool_decide_eq_true in Ei. split; [intros H; apply elem_of_nil in H; contradiction|].
      intros (segs & -> & Hat & _ & Hall). exfalso.
      inversion Hat as [es n' sz' c' Hin|es n' sub' segs' Hin _]; subst.
      * apply list_elem_of_singleton in Hin. discriminate.
      * apply list_elem_of_singleton in Hin. injection Hin as -> _ _.
        apply Forall_cons in Hall as [Hn' _]. contradiction.
    + apply bool_decide_eq_false in Ei. destruct l.
      * rewrite Hinside. split.
        -- intros (segs & -> & Hat & Hf & Hall). exists (n :: segs).
           split; [rewrite <- app_assoc; reflexivity|].
           split; [apply (fileAt_below _ n sub); [left|exact Hat]|].
           split; [exact Hf|]. constructor; assumption.
        -- intros (segs & -> & Hat & Hf & Hall).
           inversion Hat as [es n' sz' c' Hin|es n' sub' segs' Hin Hbelow]; subst.
           ++ apply list_elem_of_singleton in Hin. discriminate.
           ++ apply list_elem_of_singleton in Hin. injection Hin as -> ->.
              apply Forall_cons in Hall as [_ Hall]. exists segs'.
              split; [rewrite <- app_assoc; reflexivity|]. split; [exact Hbelow|].
              split; assumption.
      * split; [intros H; apply elem_of_nil in H; contradiction|].
        intros (segs & -> & Hat & _). exfalso.
        inversion Hat as [es n' sz' c' Hin|es n' sub' segs' Hin _]; subst;
          apply list_elem_of_singleton in Hin; discriminate.
  - simpl. destruct (bool_decide _); (split; [intros H; apply elem_of_nil in H; contradiction|]);
      intros (segs & _ & Hat & _); exfalso;
      inversion Hat as [es n' sz' c' Hin|es n' sub' segs' Hin _]; subst;
      apply list_elem_of_singleton in Hin; discriminate.
  - simpl. destruct (bool_decide _); (split; [intros H; apply elem_of_nil in H; contradiction|]);
      intros (segs & _ & Hat & _); exfalso;
      inversion Hat as [es n' sz' c' Hin|es n' sub' segs' Hin _]; subst;
      apply list_elem_of_singleton in Hin; discriminate.
Qed.

Lemma fileAt_cons x es segs : fileAt (x :: es) segs <-> fileAt [x] segs ∨ fileAt es segs.
Proof.
  split.
  - intros Hat. inversion Hat as [es' n sz c Hin|es' n sub segs' Hin Hbelow]; subst.
    + apply elem_of_cons in Hin as [Hin|Hin].
      * left. apply (fileAt_here _ n sz c). rewrite Hin. left.
      * right. apply (fileAt_here _ n sz c). exact Hin.
    + apply elem_of_cons in Hin as [Hin|Hin].
      * left. apply (fileAt_below _ n sub); [rewrite Hin; left|exact Hbelow].
      * right. apply (fileAt_below _ n sub); [exact Hin|exact Hbelow].
  - intros [Hat|Hat]; inversion Hat as [es' n sz c Hin|es' n sub segs' Hin Hbelow]; subst.
    + apply list_elem_of_singleton in Hin. subst x. apply (fileAt_here _ n sz c). left.
    + apply list_elem_of_singleton in Hin. subst x. apply (fileAt_below _ n sub); [left|exact Hbelow].
    + apply (fileAt_here _ n sz c). right. exact Hin.
    + apply (fileAt_below _ n sub); [right; exact Hin|exact Hbelow].
Qed.

Lemma scanEntries_yields es : ∀ dirSegs path,
  properTree es = true ->
  (path ∈ Scanner.scanEntries root filterFn ignorePatterns dirSegs es
   <-> ∃ segs, path = (dirSegs ++ segs)%list ∧ fileAt es segs
               ∧ filterFn (Path.abs root path) = true ∧ Forall (fun s => s ∉ (Scanner.resolvedIgnore ignorePatterns)) segs).
Proof.
  induction es as [|x es IH]; intros dirSegs path Hp.
  - simpl. split; [intros H; apply elem_of_nil in H; contradiction|].
    intros (segs & _ & Hat & _). exfalso.
    inversion Hat as [es n' sz' c' Hin|es n' sub' segs' Hin _]; subst;
      apply elem_of_nil in Hin; contradiction.
  - unfold properTree in Hp. simpl in Hp. apply andb_true_iff in Hp as [Hx Hes]. simpl.
    rewrite elem_of_app, (scanEntry_yields x dirSegs path Hx), (IH dirSegs path Hes). split.
    + intros [(segs & E & Hat & H)|(segs & E & Hat & H)]; exists segs;
        (split; [exact E|]); (split; [|exact H]); apply fileAt_cons; [left|right]; exact Hat.
    + intros (segs & E & Hat & H). apply fileAt_cons in Hat as [Hat|Hat]; [left|right];
        exists segs; (split; [exact E|]); (split; [exact Hat|exact H]).
Qed.

End ScanFacts.

(** ** Text files, languages and sizes *)

Lemma lastDot_dotFree cs : ∀ i found,
  Forall (fun c => Ascii.eqb c "."%char = false) cs -> Path.lastDot cs i found = found.
Proof.
  induction cs as [|c cs IH]; intros i found H; [reflexivity|].
  apply Forall_cons in H as [Hc H]. simpl. rewrite Hc. apply IH. exact H.
Qed.

Lemma dotFree_list s :
  dotFree s = true -> Forall (fun c => Ascii.eqb c "."%char = false) (list_ascii_of_string s).
Proof.
  induction s as [|c s IH]; intros H; [constructor|]. simpl in H.
  apply andb_true_iff in H as [Hc Hs]. apply negb_true_iff in Hc.
  constructor; [exact Hc | exact (IH Hs)].
Qed.

(** A name that opens with its only dot has no extension. *)
Lemma extname_dotfile dir rest :
  properName ("." ++ rest) = true -> dotFree rest = true ->
  Path.extname (dir ++ "/" ++ "." ++ rest) = "".
Proof.
  intros Hn Hd. unfold Path.extname. rewrite (basename_join dir ("." ++ rest) Hn).
  destruct (String.eqb ("." ++ rest) ".."); [reflexivity|].
  rewrite append_cons, append_nil_l. cbn [list_ascii_of_string Path.lastDot].
  change (Ascii.eqb "." ".") with true. cbv iota.
  rewrite lastDot_dotFree by (apply dotFree_list; exact Hd). reflexivity.
Qed.

Lemma language_is_text ext lang :
  getLanguageFromExtension ext = Some lang -> ext ∈ TEXT_FILE_EXTENSIONS.
Proof.
  unfold getLanguageFromExtension, languageMap. intros H.
  apply elem_of_list_to_map_2 in H.
  assert (Hall : forallb (fun kv => bool_decide (kv.1 ∈ TEXT_FILE_EXTENSIONS)) languageEntries = true)
    by (vm_compute; reflexivity).
  rewrite forallb_forall in Hall. specialize (Hall (ext, lang) (proj1 (list_elem_of_In _ _) H)).
  apply bool_decide_eq_true in Hall. exact Hall.
Qed.

(** ** Parent directories *)

Lemma dirname_nonempty p : Path.dirname p ≠ "".
Proof.
  unfold Path.dirname. destruct (list_ascii_of_string p) as [|c0 tl] eqn:E; [discriminate|].
  destruct (Path.dirnameScan _ _ _) as [e|] eqn:Es.
  - destruct (isSlash c0 && Nat.eqb e 1); [discriminate|].
    apply dirnameScan_some in Es as (H1 & H2 & H3); [|rewrite length_rev; lia].
    destruct e; [lia|]. discriminate.
  - destruct (isSlash c0); discriminate.
Qed.

Lemma last_cons_default {A} (l : list A) : ∀ d x, List.last (d :: l) x = List.last l d.
Proof.
  induction l as [|s l IH]; intros d x; [reflexivity|].
  change (List.last (d :: s :: l) x) with (List.last (s :: l) x).
  rewrite (IH s x), (IH s d). reflexivity.
Qed.

Lemma chained_snoc l : ∀ prev p,
  chained prev (l ++ [p])
  = chained prev l && String.eqb (Path.dirname p) (List.last l prev) && negb (String.eqb p ".").
Proof.
  induction l as [|d l IH]; intros prev p.
  - simpl. rewrite andb_true_r. reflexivity.
  - cbn [app chained]. rewrite IH.
    rewrite last_cons_default, <- !andb_assoc. reflexivity.
Qed.

Lemma parentDirsLoop_S fuel current dirs :
  parentDirsLoop (S fuel) current dirs
  = if String.eqb current "." then Some ("." :: dirs)
    else parentDirsLoop fuel (Path.dirname current) (current :: dirs).
Proof. reflexivity. Qed.

(** On a relative path the loop of [getParentDirs] ends: every round
    takes [path.dirname] of a shorter path, down to ["."]. *)
Lemma parentDirsLoop_ends n : ∀ p acc,
  relative p = true -> p ≠ "" -> String.length p <= n ->
  ∃ dirs, parentDirsLoop (S n) p acc = Some ("." :: dirs ++ acc)%list
          ∧ chained "." dirs = true
          ∧ List.last dirs "." = p.
Proof.
  induction n as [|n IH]; intros p acc Hrel Hne Hlen.
  { destruct p; [contradiction|simpl in Hlen; lia]. }
  rewrite parentDirsLoop_S. destruct (String.eqb_spec p ".") as [->|Hp].
  { exists []. repeat split. }
  assert (Hrec : ∃ dirs, parentDirsLoop (S n) (Path.dirname p) (p :: acc)
                         = Some ("." :: dirs ++ p :: acc)%list
                         ∧ chained "." dirs = true
                         ∧ List.last dirs "." = Path.dirname p).
  { destruct (dirname_relative p Hrel) as [Hd|[Hr Hd]].
    - rewrite Hd. exists []. repeat split.
    - apply IH; [exact Hr|apply dirname_nonempty|lia]. }
  destruct Hrec as (dirs & E & C & L). exists (dirs ++ [p])%list.
  rewrite E, <- app_assoc. split; [reflexivity|]. split.
  - rewrite chained_snoc, C, L, String.eqb_refl. cbn [andb].
    apply negb_true_iff, String.eqb_neq. exact Hp.
  - apply last_last.
Qed.

(** ** The nodes of the in-memory graph *)

Section CodeGraphData.

Import CodeGraphBuilder.

Variable md5 : string -> string.
Variable G : gset string.
Variable repo : RepoInfo.

Lemma addNode_dataful nid d g : dataful g -> dataful (addNode nid d g).
Proof.
  intros [Hn He]. split.
  - intros k v. simpl. destruct (decide (nid = k)) as [<-|Hne].
    + rewrite lookup_insert_eq. intros [= <-]. eexists. reflexivity.
    + rewrite lookup_insert_ne by exact Hne. apply Hn.
  - intros e Hin. simpl. destruct (He e Hin) as [Hs Ht]. split.
    + destruct (decide (nid = sourceId e)) as [<-|Hne];
        [rewrite lookup_insert_eq; eexists; reflexivity|].
      rewrite lookup_insert_ne by exact Hne. exact Hs.
    + destruct (decide (nid = targetId e)) as [<-|Hne];
        [rewrite lookup_insert_eq; eexists; reflexivity|].
      rewrite lookup_insert_ne by exact Hne. exact Ht.
Qed.

Lemma addNode_carries nid d g k : carries g k -> carries (addNode nid d g) k.
Proof.
  intros [x Hx]. unfold carries. simpl. destruct (decide (nid = k)) as [<-|Hne].
  - rewrite lookup_insert_eq. eexists. reflexivity.
  - rewrite lookup_insert_ne by exact Hne. exists x. exact Hx.
Qed.

Lemma addNode_carries_own nid d g : carries (addNode nid d g) nid.
Proof. exists d. simpl. apply lookup_insert_eq. Qed.

Lemma touch_present k (m : gmap string (option GraphNodeData)) :
  is_Some (m !! k) -> touch k m = m.
Proof. intros [x Hx]. unfold touch. rewrite Hx. reflexivity. Qed.

(** Between two nodes that are there, [addEdge] adds the edge and no
    node. *)
Lemma addEdge_nodes s t g :
  carries g s -> carries g t ->
  nodes (addEdge s t (Neo4jBuilder.mkEdge s t "CONTAINS" (repoId repo)) g) = nodes g.
Proof.
  intros [x Hx] [y Hy]. simpl.
  rewrite (touch_present s) by (rewrite Hx; eexists; reflexivity).
  apply touch_present. rewrite Hy. eexists. reflexivity.
Qed.

Lemma addEdge_dataful s t g :
  carries g s -> carries g t -> dataful g ->
  dataful (addEdge s t (Neo4jBuilder.mkEdge s t "CONTAINS" (repoId repo)) g).
Proof.
  intros Hs Ht [Hn He]. split.
  - rewrite addEdge_nodes by assumption. exact Hn.
  - intros e Hin. rewrite addEdge_nodes by assumption.
    cbn [edges addEdge] in Hin. apply elem_of_app in Hin as [Hin|Hin]; [exact (He e Hin)|].
    apply list_elem_of_singleton in Hin as ->. simpl.
    destruct Hs as [x Hx], Ht as [y Hy]. rewrite Hx, Hy. split; eexists; reflexivity.
Qed.

Lemma absorbTag_data path rp fid b t :
  dataful (graph b) -> carries (graph b) fid ->
  dataful (graph (absorbTag md5 repo path rp fid b t))
  ∧ ∀ k, carries (graph b) k -> carries (graph (absorbTag md5 repo path rp fid b t)) k.
Proof.
  intros Hd Hf. unfold absorbTag. destruct (kind t); cbn [graph].
  - set (nid := tagId md5 repo path t). set (d := Build_GraphNodeData _ _ _ _ _ _ _ _ _ _).
    assert (H1 : carries (addNode nid d (graph b)) fid) by (apply addNode_carries; exact Hf).
    assert (H2 : carries (addNode nid d (graph b)) nid) by apply addNode_carries_own.
    split.
    + apply addEdge_dataful; [exact H1|exact H2|]. apply addNode_dataful. exact Hd.
    + intros k Hk. unfold carries. rewrite (addEdge_nodes _ _ _ H1 H2).
      apply addNode_carries. exact Hk.
  - split; [exact Hd|]. intros k Hk. exact Hk.
Qed.

Lemma absorbTags_data path rp fid ts : ∀ b,
  dataful (graph b) -> carries (graph b) fid ->
  dataful (graph (fold_left (absorbTag md5 repo path rp fid) ts b))
  ∧ ∀ k, carries (graph b) k ->
         carries (graph (fold_left (absorbTag md5 repo path rp fid) ts b)) k.
Proof.
  induction ts as [|t ts IH]; intros b Hd Hf; [split; [exact Hd|auto]|].
  simpl. destruct (absorbTag_data path rp fid b t Hd Hf) as [H1 H2].
  destruct (IH _ H1 (H2 _ Hf)) as [H3 H4]. split; [exact H3|].
  intros k Hk. apply H4, H2. exact Hk.
Qed.

Lemma processListed_data fs b segs b' :
  processListed md5 G repo fs b segs = Some b' ->
  dataful (graph b) ->
  dataful (graph b')
  ∧ carries (graph b') (generateNodeId md5 (repoId repo) (Path.abs (localPath repo) segs))
  ∧ ∀ k, carries (graph b) k -> carries (graph b') k.
Proof.
  unfold processListed. cbv zeta. cbn [modst].
  set (fid := generateNodeId md5 (repoId repo) (Path.abs (localPath repo) segs)).
  set (d := Build_GraphNodeData _ _ _ _ _ _ _ _ _ _).
  intros Hrun Hd.
  assert (H1 : dataful (addNode fid d (graph b))) by (apply addNode_dataful; exact Hd).
  assert (H2 : carries (addNode fid d (graph b)) fid) by apply addNode_carries_own.
  destruct (parseFile G (modst b) _ _ _) as [[ts| |] m'] eqn:Ep; try discriminate;
    injection Hrun as <-.
  - destruct (absorbTags_data (Path.abs (localPath repo) segs) (Path.rel segs) fid ts
                {| graph := addNode fid d (graph b); definitions := definitions b;
                   references := references b; modst := m' |} H1 H2) as [H3 H4].
    split; [exact H3|]. split; [exact (H4 _ H2)|].
    intros k Hk. apply H4. cbn [graph]. apply addNode_carries. exact Hk.
  - cbn [graph]. split; [exact H1|]. split; [exact H2|].
    intros k Hk. apply addNode_carries. exact Hk.
Qed.

Lemma processFiles_data fs files : ∀ b b',
  processFiles md5 G repo fs files b = Some b' ->
  dataful (graph b) ->
  dataful (graph b')
  ∧ (∀ segs, segs ∈ files ->
       carries (graph b') (generateNodeId md5 (repoId repo) (Path.abs (localPath repo) segs)))
  ∧ ∀ k, carries (graph b) k -> carries (graph b') k.
Proof.
  induction files as [|segs files IH]; intros b b'; simpl.
  - intros [= <-] Hd. split; [exact Hd|]. split; [|auto].
    intros segs Hin. apply elem_of_nil in Hin. contradiction.
  - destruct (processListed md5 G repo fs b segs) as [b1|] eqn:E; [|discriminate].
    intros Hrun Hd. destruct (processListed_data fs b segs b1 E Hd) as (H1 & H2 & H3).
    destruct (IH b1 b' Hrun H1) as (H4 & H5 & H6). split; [exact H4|]. split.
    + intros segs' Hin. apply elem_of_cons in Hin as [->|Hin]; [apply H6; exact H2|].
      apply H5. exact Hin.
    + intros k Hk. apply H6, H3. exact Hk.
Qed.

Lemma codeGraph_resolver_idle fs files m b :
  processFiles md5 G repo fs files
    {| graph := emptyGraph; definitions := ∅; references := []; modst := m |} = Some b ->
  fold_left (resolveReference md5 repo (definitions b)) (references b) (graph b) = graph b.
Proof.
  intros Ef.
  assert (Hb : unlinkableCode b).
  { eapply codeGraph_processFiles_unlinkable; [|exact Ef]. split; [|split; constructor].
    intros k [d Hk]. simpl in Hk. rewrite lookup_empty in Hk. discriminate. }
  destruct Hb as (Hd & Hr & He). revert Hr. generalize (references b) (graph b).
  induction l as [|t ts IH]; intros g0 Hts; [reflexivity|].
  apply Forall_cons in Hts as [Ht Hts]. simpl. unfold resolveReference at 2.
  destruct (definitions b !! _) as [d|] eqn:Ek; [|exact (IH g0 Hts)].
  exfalso. apply (Hd _ (mk_is_Some _ _ Ek)). apply reference_key_end. exact Ht.
Qed.

Lemma codeGraph_data fs files m g m' :
  buildGraph md5 G repo fs files m = Completed (g, m') ->
  dataful g
  ∧ ∀ segs, segs ∈ files ->
      carries g (generateNodeId md5 (repoId repo) (Path.abs (localPath repo) segs)).
Proof.
  unfold buildGraph.
  destruct (processFiles md5 G repo fs files _) as [b|] eqn:Ef; [|discriminate].
  intros [= <- _]. rewrite (codeGraph_resolver_idle fs files m b Ef).
  assert (H0 : dataful emptyGraph).
  { split.
    - intros k v Hk. simpl in Hk. rewrite lookup_empty in Hk. discriminate.
    - intros e He. simpl in He. apply elem_of_nil in He. contradiction. }
  destruct (processFiles_data fs files _ b Ef H0) as (H1 & H2 & _).
  split; assumption.
Qed.

End CodeGraphData.

(** ** Tags from captures *)

Lemma extractTypeFromCaptureName_range c :
  extractTypeFromCaptureName c ∈ "unknown" :: captureTypes.
Proof.
  unfold extractTypeFromCaptureName.
  destruct (List.find _ _) as [part|] eqn:E; [|apply list_elem_of_here].
  apply find_some in E as [_ E]. apply bool_decide_eq_true_1 in E.
  destruct (truthy part); [|apply list_elem_of_here].
  apply list_elem_of_further. exact E.
Qed.

Lemma extractTypeFromCaptureName_no_call c :
  String.eqb (extractTypeFromCaptureName c) "functionCall" = false.
Proof.
  apply String.eqb_neq. intros E.
  pose proof (extractTypeFromCaptureName_range c) as H. rewrite E in H.
  revert H. unfold captureTypes. rewrite !elem_of_cons, elem_of_nil.
  intros H. repeat (destruct H as [H|H]; [discriminate|]). exact H.
Qed.

Lemma extractTag_spec ignored content path k m t :
  extractTag ignored content path k m = Some t ->
  extractTag (fun _ => false) content path k m = Some t
  ∧ type t ∈ "unknown" :: captureTypes
  ∧ kind t = k ∧ filePath t = path ∧ parent t = None ∧ targetFile t = None
  ∧ is_Some (text t).
Proof.
  unfold extractTag. destruct (captures m) as [[|c cs]|]; try discriminate.
  destruct (List.find _ _) as [nc|]; [|discriminate].
  destruct (List.find _ _) as [sc|]; [|discriminate].
  rewrite extractTypeFromCaptureName_no_call. cbn [andb].
  intros [= <-]. cbn. split; [reflexivity|].
  split; [apply extractTypeFromCaptureName_range|].
  repeat split. eexists. reflexivity.
Qed.

Lemma extractTag_blind ignored ignored' content path k m :
  extractTag ignored content path k m = extractTag ignored' content path k m.
Proof.
  unfold extractTag. destruct (captures m) as [[|c cs]|]; try reflexivity.
  destruct (List.find _ _) as [nc|]; [|reflexivity].
  destruct (List.find _ _) as [sc|]; [|reflexivity].
  rewrite extractTypeFromCaptureName_no_call. reflexivity.
Qed.

(** ** What [storeGraph] sends *)

Lemma storeGraph_sent :
  ∀ runs nodes edges s,
    (∀ l q, runs l q = true) ->
    Neo4jService.driver s = true ->
    ∃ evs,
      Neo4jService.storeGraph runs nodes edges s
        = (inl tt, {| Neo4jService.driver := true;
                      Neo4jService.log := (Neo4jService.log s ++ evs)%list |})
      ∧ concat (Neo4jService.nodesSent evs) = map Neo4jService.toNodeData nodes
      ∧ length (Neo4jService.nodesSent evs) = (length nodes + 999) / 1000
      ∧ (∀ ty, Neo4jService.relationshipsSent ty evs
               = map Neo4jService.toRelationshipData (filter (fun e => edgeType e = ty) edges))
      ∧ Forall Neo4jService.wellTyped evs.
Proof.
  intros runs nodes edges s Hruns Hd. eexists. split.
  - exact (delivers_storeGraph runs Hruns nodes edges s Hd).
  - destruct (nodesSent_nodeEvents (Neo4jService.batches nodes) (batches_sizes nodes)) as [N1 N2].
    cbn [Neo4jService.nodesSent Neo4jService.relationshipsSent].
    rewrite !nodesSent_app. split; [|split; [|split]].
    + rewrite N1, (proj2 (sent_relationshipBatches "" _)). simpl. rewrite !app_nil_r.
      rewrite <- (batches_concat nodes) at 2. generalize (Neo4jService.batches nodes). clear.
      intros bs. induction bs as [|b bs IH]; [reflexivity|]. simpl.
      rewrite IH, map_app. reflexivity.
    + rewrite N1, (proj2 (sent_relationshipBatches "" _)). simpl. rewrite !app_nil_r.
      rewrite length_map. apply batches_length.
    + intros ty. rewrite !relationshipsSent_app, N2.
      rewrite (proj1 (sent_relationshipBatches ty _)), batches_concat. simpl.
      rewrite app_nil_r. reflexivity.
    + constructor; [exact I|]. apply Forall_app. split; [|constructor; [exact I|constructor]].
      apply Forall_app. split.
      * apply wellTyped_nodeEvents, batches_sizes.
      * apply wellTyped_relationshipEvents.
Qed.

Lemma contains_only_filter (es : list GraphEdgeData) ty :
  Forall (fun e => edgeType e = "CONTAINS") es ->
  filter (fun e => edgeType e = ty) es = if String.eqb ty "CONTAINS" then es else [].
Proof.
  induction 1 as [|e es He _ IH].
  - destruct (String.eqb ty "CONTAINS"); reflexivity.
  - destruct (String.eqb_spec ty "CONTAINS") as [->|Hne].
    + rewrite filter_cons_True by exact He. f_equal. exact IH.
    + rewrite filter_cons_False by (rewrite He; congruence). exact IH.
Qed.

Section BuiltAndStored.

Import Neo4jBuilder.

Variable md5 : string -> string.
Variable G : gset string.
Variable repo : RepoInfo.

(** What the finished graph of the Neo4j builder looks like to the store. *)
Lemma buildGraph_storable fs files m g s m' :
  buildGraph md5 G repo fs files m = Completed (g, s, m') ->
  NoDup (map Neo4jService.dataNodeId (map Neo4jService.toNodeData (getNodes g)))
  ∧ Forall (fun d => Neo4jService.propText (Neo4jService.properties d) = ""
                     ∧ Neo4jService.dataRepoId d = repoId repo)
      (map Neo4jService.toNodeData (getNodes g))
  ∧ Forall (fun rel =>
              Neo4jService.relType rel = "CONTAINS"
              ∧ Neo4jService.relSourceId rel
                  ∈ map Neo4jService.dataNodeId (map Neo4jService.toNodeData (getNodes g))
              ∧ Neo4jService.relTargetId rel
                  ∈ map Neo4jService.dataNodeId (map Neo4jService.toNodeData (getNodes g)))
      (map Neo4jService.toRelationshipData (getEdges g)).
Proof.
  intros Hrun.
  pose proof (buildGraph_own md5 G repo fs files m g s m' Hrun) as Hown.
  pose proof (buildGraph_closed md5 G repo fs files m g s m' Hrun) as Hclosed.
  pose proof (buildGraph_textless md5 G repo fs files m g s m' Hrun) as Htext.
  destruct (buildGraph_resolves_nothing md5 G repo fs files m g s m' Hrun) as (Hcont & _ & _).
  assert (Eids : map Neo4jService.dataNodeId (map Neo4jService.toNodeData (getNodes g))
                 = map nodeId (getNodes g)).
  { rewrite map_map. reflexivity. }
  assert (Hin : ∀ k, is_Some (viewNodes g !! k) -> k ∈ map nodeId (getNodes g)).
  { intros k [n Hk]. destruct (Hown k n Hk) as [Hid _]. rewrite <- Hid.
    apply list_elem_of_fmap. exists n. split; [reflexivity|].
    unfold getNodes. apply list_elem_of_fmap. exists (k, n). split; [reflexivity|].
    apply elem_of_map_to_list. exact Hk. }
  rewrite Eids. split; [exact (ownNodes_distinct _ _ Hown)|]. split.
  - apply Forall_forall. intros d Hd. apply list_elem_of_fmap in Hd as (n & -> & Hn).
    unfold getNodes in Hn. apply list_elem_of_fmap in Hn as ([k n'] & -> & Hk).
    apply elem_of_map_to_list in Hk. simpl.
    rewrite (Htext k n' Hk). split; [reflexivity|]. exact (proj2 (Hown k n' Hk)).
  - apply Forall_forall. intros rel Hrel. apply list_elem_of_fmap in Hrel as (e & -> & He).
    simpl. rewrite Forall_forall in Hcont. split; [exact (Hcont e He)|].
    destruct (Hclosed e He) as [Hs Ht]. split; apply Hin; assumption.
Qed.

End BuiltAndStored.

(** ** Ids and edges *)

Lemma tidyEdges_snoc es x :
  tidyEdges (es ++ [x])
  = tidyEdges es && forallb (fun e => negb (bool_decide (e = x)) && negb (reverseOf e x)) es.
Proof.
  induction es as [|e es IH]; [reflexivity|]. cbn [app tidyEdges forallb].
  rewrite IH, forallb_app. cbn [forallb]. rewrite andb_true_r.
  destruct (forallb _ es); cbn [andb]; [|rewrite ?andb_false_r; reflexivity].
  destruct (tidyEdges es); cbn [andb]; [|rewrite ?andb_false_r; reflexivity].
  destruct (negb (bool_decide (e = x)) && negb (reverseOf e x)); cbn [andb];
    rewrite ?andb_true_r, ?andb_false_r; reflexivity.
Qed.

Lemma sameEdge_mkEdge s t ty r : Neo4jBuilder.sameEdge s t ty r (Neo4jBuilder.mkEdge s t ty r) = true.
Proof. unfold Neo4jBuilder.sameEdge. simpl. rewrite !String.eqb_refl. reflexivity. Qed.

(** ** The code beyond the claims *)

(** X1: in the graph the Neo4j builder hands over, every edge joins two
    nodes of that graph: the id an edge starts from and the id it ends in
    are both ids of nodes the view holds.  This holds for every
    repository, file list and digest. *)
Theorem built_edges_join_built_nodes :
  ∀ md5 G repo fs files m g s m',
    Neo4jBuilder.buildGraph md5 G repo fs files m = Completed (g, s, m') ->
    ∀ e, e ∈ Neo4jBuilder.getEdges g ->
      is_Some (Neo4jBuilder.viewNodes g !! sourceId e)
      ∧ is_Some (Neo4jBuilder.viewNodes g !! targetId e).
Proof. intros md5 G repo fs files m g s m' Hrun. exact (buildGraph_closed md5 G repo fs files m g s m' Hrun). Qed.

Lemma built_edges_join_built_nodes_witness :
  ∃ g s m',
    Neo4jBuilder.buildGraph (fun s => s) knownGlobals sampleRepo nestedTree nestedFiles
      freshModule = Completed (g, s, m')
    ∧ ∀ e, e ∈ Neo4jBuilder.getEdges g ->
        is_Some (Neo4jBuilder.viewNodes g !! sourceId e)
        ∧ is_Some (Neo4jBuilder.viewNodes g !! targetId e).
Proof.
  destruct (Neo4jBuilder.buildGraph (fun s => s) knownGlobals sampleRepo nestedTree nestedFiles
      freshModule) as [[[g s] m']| |] eqn:E.
  - exists g, s, m'. split; [reflexivity|].
    exact (built_edges_join_built_nodes (fun s => s) knownGlobals sampleRepo nestedTree nestedFiles
             freshModule g s m' E).
  - exfalso. vm_compute in E. discriminate.
  - exfalso. vm_compute in E. discriminate.
Defined.

(** X2: in the graph the Neo4j builder hands over, every node sits under
    its own [nodeId] and carries the repository id of the build, so
    [getNodes()] lists no node id twice and is as long as
    [numberOfNodes()] says. *)
Theorem built_nodes_have_distinct_ids :
  ∀ md5 G repo fs files m g s m',
    Neo4jBuilder.buildGraph md5 G repo fs files m = Completed (g, s, m') ->
    NoDup (map nodeId (Neo4jBuilder.getNodes g))
    ∧ length (Neo4jBuilder.getNodes g) = Neo4jBuilder.numberOfNodes g
    ∧ Forall (fun n => nodeRepoId n = repoId repo
                       ∧ Neo4jBuilder.viewNodes g !! nodeId n = Some n)
        (Neo4jBuilder.getNodes g).
Proof.
  intros md5 G repo fs files m g s m' Hrun.
  pose proof (buildGraph_own md5 G repo fs files m g s m' Hrun) as Hown.
  split; [exact (ownNodes_distinct _ _ Hown)|]. split.
  - unfold Neo4jBuilder.getNodes, Neo4jBuilder.numberOfNodes.
    rewrite length_fmap. apply length_map_to_list.
  - apply Forall_forall. intros n Hn. unfold Neo4jBuilder.getNodes in Hn.
    apply list_elem_of_fmap in Hn as ([k n'] & -> & Hin). simpl.
    apply elem_of_map_to_list in Hin. destruct (Hown k n' Hin) as [Hk Hr].
    split; [exact Hr|]. rewrite Hk. exact Hin.
Qed.

Lemma built_nodes_have_distinct_ids_witness :
  ∃ g s m',
    Neo4jBuilder.buildGraph (fun s => s) knownGlobals sampleRepo helperTree helperFiles
      freshModule = Completed (g, s, m')
    ∧ NoDup (map nodeId (Neo4jBuilder.getNodes g))
    ∧ length (Neo4jBuilder.getNodes g) = Neo4jBuilder.numberOfNodes g
    ∧ Forall (fun n => nodeRepoId n = repoId sampleRepo
                       ∧ Neo4jBuilder.viewNodes g !! nodeId n = Some n)
        (Neo4jBuilder.getNodes g).
Proof.
  destruct (Neo4jBuilder.buildGraph (fun s => s) knownGlobals sampleRepo helperTree helperFiles
      freshModule) as [[[g s] m']| |] eqn:E.
  - exists g, s, m'. split; [reflexivity|].
    exact (built_nodes_have_distinct_ids (fun s => s) knownGlobals sampleRepo helperTree helperFiles
             freshModule g s m' E).
  - exfalso. vm_compute in E. discriminate.
  - exfalso. vm_compute in E. discriminate.
Defined.

(** X3: every call of the service leaves its sessions closed, whatever the
    database answers: the events a call adds to what the driver has seen
    open and close sessions in pairs, never closing one that is not open.
    A call that ends in a database error ran one statement that was
    rejected, after statements that all resolved, and ran nothing after
    it; with any other ending every statement it ran resolved. *)
Theorem service_calls_close_their_sessions :
  ∀ creatable reachable runs call s,
    ∃ evs,
      Neo4jService.log (Neo4jService.perform creatable reachable runs call s).2
        = (Neo4jService.log s ++ evs)%list
      ∧ (∀ n, Neo4jService.openAfter n evs = Some n)
      ∧ Neo4jService.outcomeFits runs (Neo4jService.log s) evs
          (Neo4jService.perform creatable reachable runs call s).1.
Proof.
  intros creatable reachable runs call s.
  exact (orderly_perform runs creatable reachable call s).
Qed.

(** X4: on a connected service whose statements all resolve, [storeGraph]
    resolves and has sent every node once, in order, in batches of one to
    a thousand nodes, as many batches as the number of nodes needs; for
    every relationship type it has sent the edges of that type, in the
    order of the graph, each statement holding relationships of its own
    type only and one at least. *)
Theorem storeGraph_sends_the_whole_graph :
  ∀ runs nodes edges s,
    (∀ l q, runs l q = true) ->
    Neo4jService.driver s = true ->
    ∃ evs,
      Neo4jService.storeGraph runs nodes edges s
        = (inl tt, {| Neo4jService.driver := true;
                      Neo4jService.log := (Neo4jService.log s ++ evs)%list |})
      ∧ concat (Neo4jService.nodesSent evs) = map Neo4jService.toNodeData nodes
      ∧ length (Neo4jService.nodesSent evs) = (length nodes + 999) / 1000
      ∧ (∀ ty, Neo4jService.relationshipsSent ty evs
               = map Neo4jService.toRelationshipData (filter (fun e => edgeType e = ty) edges))
      ∧ Forall Neo4jService.wellTyped evs.
Proof.
  intros runs nodes edges s Hruns Hd. exact (storeGraph_sent runs nodes edges s Hruns Hd).
Qed.

Lemma storeGraph_sends_the_whole_graph_witness :
  let runs := fun (_ : list Neo4jService.Event) (_ : Neo4jService.Statement) => true in
  let s := {| Neo4jService.driver := true; Neo4jService.log := [Neo4jService.DriverCreated] |} in
  let nodes := [Neo4jBuilder.fileNode "r1" "n1" "a.ts" "a.ts"] in
  let edges := [Neo4jBuilder.mkEdge "n0" "n1" "CONTAINS" "r1"] in
  (∀ l q, runs l q = true)
  ∧ Neo4jService.driver s = true
  ∧ ∃ evs,
      Neo4jService.storeGraph runs nodes edges s
        = (inl tt, {| Neo4jService.driver := true;
                      Neo4jService.log := (Neo4jService.log s ++ evs)%list |})
      ∧ concat (Neo4jService.nodesSent evs) = map Neo4jService.toNodeData nodes
      ∧ length (Neo4jService.nodesSent evs) = (length nodes + 999) / 1000
      ∧ (∀ ty, Neo4jService.relationshipsSent ty evs
               = map Neo4jService.toRelationshipData (filter (fun e => edgeType e = ty) edges))
      ∧ Forall Neo4jService.wellTyped evs.
Proof.
  cbv zeta. split; [intros l q; reflexivity|]. split; [reflexivity|].
  exact (storeGraph_sends_the_whole_graph (fun _ _ => true)
           [Neo4jBuilder.fileNode "r1" "n1" "a.ts" "a.ts"]
           [Neo4jBuilder.mkEdge "n0" "n1" "CONTAINS" "r1"]
           {| Neo4jService.driver := true; Neo4jService.log := [Neo4jService.DriverCreated] |}
           (fun _ _ => eq_refl) eq_refl).
Defined.

(** X5: a service without a driver refuses every operation with the
    not-connected error and asks nothing of the database, and [close] on
    it does nothing.  A [connect] for which [neo4j.driver] throws fails
    and leaves the service as it was, so that a service without a driver
    goes on refusing.  But where the driver is made, [connect] stores it
    before it verifies the connection: after such a [connect], also one
    that failed because the database was not reached, no operation throws
    the not-connected error any more; it opens a session. *)
Theorem connect_opens_the_guard :
  ∀ creatable reachable runs call s,
    call ≠ Neo4jService.Connect ->
    call ≠ Neo4jService.Close ->
    (Neo4jService.driver s = false ->
       Neo4jService.perform creatable reachable runs call s
         = (inr (Neo4jService.Thrown Neo4jService.notConnected), s)
       ∧ Neo4jService.close s = (inl tt, s))
    ∧ (creatable = false ->
       Neo4jService.connect creatable reachable s = (inr Neo4jService.NoDriver, s))
    ∧ (creatable = true ->
       let s1 := (Neo4jService.connect creatable reachable s).2 in
       Neo4jService.driver s1 = true
       ∧ (reachable (Neo4jService.log s1) = false ->
          (Neo4jService.connect creatable reachable s).1 = inr Neo4jService.Unreachable)
       ∧ (∀ msg, (Neo4jService.perform creatable reachable runs call s1).1
                 ≠ inr (Neo4jService.Thrown msg))
       ∧ ∃ evs, Neo4jService.log (Neo4jService.perform creatable reachable runs call s1).2
                = (Neo4jService.log s1 ++ Neo4jService.SessionOpened :: evs)%list).
Proof.
  intros creatable reachable runs call s H1 H2. split; [|split].
  - intros Hd. split.
    + destruct call; try contradiction; simpl;
        unfold Neo4jService.ensureIndex, Neo4jService.deleteRepoData, Neo4jService.storeGraph,
          Neo4jService.withDriver; rewrite Hd; reflexivity.
    + unfold Neo4jService.close. rewrite Hd. reflexivity.
  - intros ->. reflexivity.
  - intros ->. cbv zeta. set (s1 := (Neo4jService.connect true reachable s).2).
    assert (Hd : Neo4jService.driver s1 = true).
    { subst s1. unfold Neo4jService.connect. destruct (reachable _); reflexivity. }
    split; [exact Hd|]. split.
    { subst s1. unfold Neo4jService.connect. cbn [Neo4jService.log].
      destruct (reachable (Neo4jService.log s ++ [Neo4jService.DriverCreated])%list) eqn:E;
        cbn [fst snd Neo4jService.log]; [rewrite E; discriminate|reflexivity]. }
    split.
    + exact (proj2 (connectedRun_guarded runs true reachable call H1 H2 s1 Hd)).
    + destruct call as [| | |rid|nodes edges]; try contradiction; simpl.
      * destruct (inSession_opens runs (Neo4jService.run runs Neo4jService.CreateIndex) s1
                    (orderly_run runs _)) as [evs E].
        rewrite Hd in E. exists evs. exact E.
      * destruct (inSession_opens runs (Neo4jService.run runs (Neo4jService.DetachDelete rid)) s1
                    (orderly_run runs _)) as [evs E].
        rewrite Hd in E. exists evs. exact E.
      * destruct (inSession_opens runs _ s1
                    (orderly_andThen runs _ _
                       (orderly_forEach runs (Neo4jService.batches nodes) _
                          (fun b => orderly_createNodes runs (map Neo4jService.toNodeData b)))
                       (orderly_forEach runs (Neo4jService.batches edges) _
                          (fun b => orderly_createRelationships runs
                                      (map Neo4jService.toRelationshipData b)))))
          as [evs E].
        rewrite Hd in E. exists evs. exact E.
Qed.

Lemma connect_opens_the_guard_witness :
  let reachable := fun _ : list Neo4jService.Event => false in
  let runs := fun (_ : list Neo4jService.Event) (_ : Neo4jService.Statement) => true in
  let s := Neo4jService.newService in
  let call := Neo4jService.EnsureIndex in
  (Neo4jService.connect true reachable s).1 = inr Neo4jService.Unreachable
  ∧ (Neo4jService.perform false reachable runs call (Neo4jService.connect false reachable s).2).1
    = inr (Neo4jService.Thrown Neo4jService.notConnected)
  ∧ (Neo4jService.driver s = false ->
       Neo4jService.perform true reachable runs call s
         = (inr (Neo4jService.Thrown Neo4jService.notConnected), s)
       ∧ Neo4jService.close s = (inl tt, s))
  ∧ (true = false ->
     Neo4jService.connect true reachable s = (inr Neo4jService.NoDriver, s))
  ∧ (true = true ->
     let s1 := (Neo4jService.connect true reachable s).2 in
     Neo4jService.driver s1 = true
     ∧ (reachable (Neo4jService.log s1) = false ->
        (Neo4jService.connect true reachable s).1 = inr Neo4jService.Unreachable)
     ∧ (∀ msg, (Neo4jService.perform true reachable runs call s1).1
               ≠ inr (Neo4jService.Thrown msg))
     ∧ ∃ evs, Neo4jService.log (Neo4jService.perform true reachable runs call s1).2
              = (Neo4jService.log s1 ++ Neo4jService.SessionOpened :: evs)%list).
Proof.
  cbv zeta. split; [reflexivity|]. split; [reflexivity|].
  exact (connect_opens_the_guard true (fun _ => false) (fun _ _ => true)
           Neo4jService.EnsureIndex Neo4jService.newService
           ltac:(discriminate) ltac:(discriminate)).
Defined.

(** X6: for a file whose name opens with its only dot, such as
    [.gitignore], [.env] or [.eslintrc], [path.extname] is empty, so the
    table of text extensions never decides, although it lists these
    names: [isLikelyTextFile] answers by the first 4096 bytes alone, and
    says no when the file cannot be read. *)
Theorem dotfiles_are_judged_by_content :
  ∀ dir rest file,
    properName ("." ++ rest) = true ->
    dotFree rest = true ->
    getFileExtension (dir ++ "/" ++ "." ++ rest) = ""
    ∧ isLikelyTextFile (dir ++ "/" ++ "." ++ rest) file = sniff file.
Proof.
  intros dir rest file Hn Hd.
  unfold getFileExtension, isLikelyTextFile. rewrite (extname_dotfile dir rest Hn Hd).
  split; [reflexivity|]. cbv zeta. cbn [toLowerCase].
  destruct (bool_decide _) eqn:E; [|reflexivity].
  exfalso. revert E. vm_compute. discriminate.
Qed.

Lemma dotfiles_are_judged_by_content_witness :
  properName ("." ++ "gitignore") = true
  ∧ dotFree "gitignore" = true
  ∧ ".gitignore" ∈ TEXT_FILE_EXTENSIONS
  ∧ getFileExtension ("/repo" ++ "/" ++ "." ++ "gitignore") = ""
  ∧ isLikelyTextFile ("/repo" ++ "/" ++ "." ++ "gitignore") None = sniff None.
Proof.
  split; [reflexivity|]. split; [reflexivity|].
  split; [refine (bool_decide_eq_true_1 (".gitignore" ∈ TEXT_FILE_EXTENSIONS) _);
          vm_compute; reflexivity|].
  exact (dotfiles_are_judged_by_content "/repo" "gitignore" None eq_refl eq_refl).
Defined.

(** X7: a file whose extension has a language in the language table is
    taken for a text file whatever its bytes are, and even when it cannot
    be read; and every path the parser accepts as a source file has the
    language [javascript] or [typescript], so that the default filter of
    the scanner lets every such file through. *)
Theorem known_languages_are_text :
  ∀ filePath file,
    (∀ lang, getLanguageFromExtension (getFileExtension filePath) = Some lang ->
             isLikelyTextFile filePath file = true)
    ∧ (supportedExtension filePath = true ->
       (getLanguageFromExtension (getFileExtension filePath) = Some "javascript"
        ∨ getLanguageFromExtension (getFileExtension filePath) = Some "typescript")
       ∧ isLikelyTextFile filePath file = true).
Proof.
  intros filePath file.
  assert (Hlang : ∀ lang, getLanguageFromExtension (getFileExtension filePath) = Some lang ->
                          isLikelyTextFile filePath file = true).
  { intros lang H. apply language_is_text in H. unfold isLikelyTextFile.
    unfold getFileExtension in H. rewrite bool_decide_eq_true_2 by exact H. reflexivity. }
  split; [exact Hlang|]. intros Hs. unfold supportedExtension in Hs.
  apply bool_decide_eq_true in Hs.
  assert (Hl : getLanguageFromExtension (getFileExtension filePath) = Some "javascript"
               ∨ getLanguageFromExtension (getFileExtension filePath) = Some "typescript").
  { unfold getFileExtension.
    repeat (apply elem_of_cons in Hs as [->|Hs]);
      [left|right|right|left|apply elem_of_nil in Hs; contradiction];
      vm_compute; reflexivity. }
  split; [exact Hl|]. destruct Hl as [Hl|Hl]; exact (Hlang _ Hl).
Qed.

(** X8: [scanDirectory] yields exactly the regular files of the tree that
    are reached through directories that can be read, that pass the
    filter, and none of whose names on the way from the root, the file's
    own name included, is the base name of an ignore pattern; a root
    that cannot be read yields nothing.  So an ignored name hides a file
    as well as a directory. *)
Theorem scanDirectory_yields_exactly :
  ∀ root filterFn ignorePatterns listable entries path,
    properTree entries = true ->
    (path ∈ Scanner.scanDirectory root filterFn ignorePatterns listable entries
     <-> listable = true
         ∧ fileAt entries path
         ∧ filterFn (Path.abs root path) = true
         ∧ Forall (fun s => s ∉ Scanner.resolvedIgnore ignorePatterns) path).
Proof.
  intros root filterFn ignorePatterns listable entries path Hp.
  unfold Scanner.scanDirectory. destruct listable.
  - rewrite (scanEntries_yields root filterFn ignorePatterns entries [] path Hp). split.
    + intros (segs & -> & H). split; [reflexivity|exact H].
    + intros (_ & H). exists path. split; [reflexivity|exact H].
  - split; [intros H; apply elem_of_nil in H; contradiction|]. intros (H & _). discriminate.
Qed.

Lemma scanDirectory_yields_exactly_witness :
  properTree nestedTree = true
  ∧ Scanner.scanDirectory "/repo" (fun _ => true) DEFAULT_IGNORE_PATTERNS true nestedTree
    = [["src"; "lib"; "util.ts"]; ["index.js"]]
  ∧ (["src"; ".cache"; "tmp.js"]
       ∈ Scanner.scanDirectory "/repo" (fun _ => true) DEFAULT_IGNORE_PATTERNS true nestedTree
     <-> true = true
         ∧ fileAt nestedTree ["src"; ".cache"; "tmp.js"]
         ∧ (fun _ : string => true) (Path.abs "/repo" ["src"; ".cache"; "tmp.js"]) = true
         ∧ Forall (fun s => s ∉ Scanner.resolvedIgnore DEFAULT_IGNORE_PATTERNS)
             ["src"; ".cache"; "tmp.js"]).
Proof.
  split; [reflexivity|]. split; [vm_compute; reflexivity|].
  exact (scanDirectory_yields_exactly "/repo" (fun _ => true) DEFAULT_IGNORE_PATTERNS true
           nestedTree ["src"; ".cache"; "tmp.js"] eq_refl).
Defined.

Lemma hundredths_nearest num den :
  (den ≠ 0)%N ->
  (2 * hundredths num den * den <= 200 * num + den < 2 * (hundredths num den + 1) * den)%N.
Proof.
  intros Hd. unfold hundredths.
  pose proof (N.div_mod (200 * num + den) (2 * den) ltac:(lia)) as E.
  pose proof (N.mod_lt (200 * num + den) (2 * den) ltac:(lia)) as L.
  set (q := ((200 * num + den) / (2 * den))%N) in *.
  set (r := ((200 * num + den) mod (2 * den))%N) in *. nia.
Qed.

(** X9: for a size of at least 1024 bytes, and below 2^53 as the size of
    a file is, [formatFileSize] shows the size over the largest of 1024,
    1024^2 and 1024^3 that does not exceed it, as the nearest number of
    hundredths, the upper one of two equally near.  The figure is never below 1.00, and it may reach 1024.00
    instead of passing to the next unit. *)
Theorem formatFileSize_rounds_to_hundredths :
  ∀ bytes : N,
    (1024 <= bytes < 2 ^ 53)%N ->
    ∃ den unit h,
      formatFileSize bytes = fixed2 h ++ unit
      ∧ ((den = KB ∧ unit = " KB" ∧ bytes < MB)
         ∨ (den = MB ∧ unit = " MB" ∧ bytes < GB)
         ∨ (den = GB ∧ unit = " GB"))%N
      ∧ (den <= bytes)%N
      ∧ (2 * h * den <= 200 * bytes + den < 2 * (h + 1) * den)%N
      ∧ (100 <= h)%N
      ∧ (unit ≠ " GB" -> (h <= 102400)%N).
Proof.
  intros bytes [Hb _]. unfold formatFileSize.
  destruct (N.ltb_spec bytes KB) as [H1|H1]; [unfold KB in H1; lia|].
  destruct (N.ltb_spec bytes MB) as [H2|H2]; [|destruct (N.ltb_spec bytes GB) as [H3|H3]].
  - exists KB, " KB", (hundredths bytes KB). split; [reflexivity|].
    split; [left; repeat split; exact H2|].
    pose proof (hundredths_nearest bytes KB ltac:(discriminate)) as Hn.
    set (h := hundredths bytes KB) in *. unfold KB, MB in *.
    split; [lia|]. split; [exact Hn|]. split; [lia|]. intros _. lia.
  - exists MB, " MB", (hundredths bytes MB). split; [reflexivity|].
    split; [right; left; repeat split; exact H3|].
    pose proof (hundredths_nearest bytes MB ltac:(discriminate)) as Hn.
    set (h := hundredths bytes MB) in *. unfold KB, MB, GB in *.
    split; [lia|]. split; [exact Hn|]. split; [lia|]. intros _. lia.
  - exists GB, " GB", (hundredths bytes GB). split; [reflexivity|].
    split; [right; right; split; reflexivity|].
    pose proof (hundredths_nearest bytes GB ltac:(discriminate)) as Hn.
    set (h := hundredths bytes GB) in *. unfold KB, MB, GB in *.
    split; [lia|]. split; [exact Hn|]. split; [lia|]. intros H. contradiction.
Qed.

Lemma formatFileSize_rounds_to_hundredths_witness :
  (1024 <= 1048575 < 2 ^ 53)%N
  ∧ formatFileSize 1048575 = "1024.00 KB"
  ∧ formatFileSize 1152 = "1.13 KB"
  ∧ ∃ den unit h,
      formatFileSize 1048575 = fixed2 h ++ unit
      ∧ ((den = KB ∧ unit = " KB" ∧ 1048575 < MB)
         ∨ (den = MB ∧ unit = " MB" ∧ 1048575 < GB)
         ∨ (den = GB ∧ unit = " GB"))%N
      ∧ (den <= 1048575)%N
      ∧ (2 * h * den <= 200 * 1048575 + den < 2 * (h + 1) * den)%N
      ∧ (100 <= h)%N
      ∧ (unit ≠ " GB" -> (h <= 102400)%N).
Proof.
  assert (Hb : (1024 <= 1048575 < 2 ^ 53)%N) by (split; [lia|reflexivity]).
  split; [exact Hb|]. split; [vm_compute; reflexivity|]. split; [vm_compute; reflexivity|].
  exact (formatFileSize_rounds_to_hundredths 1048575%N Hb).
Defined.

(** X10: for a file below the repository, that is, on a relative path,
    [getParentDirs] returns: its list opens with ["."] and goes on with
    the folders on the way to the file from the top down, each the
    [path.dirname] of the next, none of them ["."], and it ends with the
    directory of the file. *)
Theorem getParentDirs_lists_the_ancestors :
  ∀ segs,
    relative (Path.rel segs) = true ->
    ∃ dirs,
      getParentDirs segs = Some ("." :: dirs)
      ∧ chained "." dirs = true
      ∧ List.last dirs "." = Path.dirname (Path.rel segs).
Proof.
  intros segs Hrel. unfold getParentDirs. cbv zeta.
  set (p := Path.dirname (Path.rel segs)).
  assert (Hp : p = "." ∨ (relative p = true ∧ String.length p < String.length (Path.rel segs)))
    by (apply dirname_relative; exact Hrel).
  assert (Hrelp : relative p = true) by (destruct Hp as [->|[H _]]; [reflexivity|exact H]).
  assert (Hlen : String.length p <= S (String.length (Path.rel segs))).
  { destruct Hp as [->|[_ H]]; [simpl; lia|lia]. }
  destruct (parentDirsLoop_ends (S (String.length (Path.rel segs))) p [] Hrelp
              (dirname_nonempty _) Hlen) as (dirs & E & C & L).
  exists dirs. rewrite app_nil_r in E. repeat split; assumption.
Qed.

Lemma getParentDirs_lists_the_ancestors_witness :
  relative (Path.rel ["src"; "lib"; "util.ts"]) = true
  ∧ getParentDirs ["src"; "lib"; "util.ts"] = Some ["."; "src"; "src/lib"]
  ∧ getParentDirs ["index.js"] = Some ["."]
  ∧ ∃ dirs,
      getParentDirs ["src"; "lib"; "util.ts"] = Some ("." :: dirs)
      ∧ chained "." dirs = true
      ∧ List.last dirs "." = Path.dirname (Path.rel ["src"; "lib"; "util.ts"]).
Proof.
  split; [reflexivity|]. split; [reflexivity|]. split; [reflexivity|].
  exact (getParentDirs_lists_the_ancestors ["src"; "lib"; "util.ts"] eq_refl).
Defined.

(** X11: every tag the Babel parser returns for a file carries the
    relative path it was given as [filePath] and has no [text]; and where
    a tag has a parent, the location of the parent is the tag's own: the
    same file and the line the tag itself starts on, not the line of the
    enclosing class or function. *)
Theorem parsed_tags_locate_their_parent_at_themselves :
  ∀ G m path rp c ts m',
    parseFile G m path rp c = (Resolved ts, m') ->
    Forall (fun t => filePath t = rp
                     ∧ text t = None
                     ∧ ∀ p, parent t = Some p ->
                            locFilePath (location p) = rp
                            ∧ locStartLine (location p) = startLine t) ts.
Proof.
  intros G m path rp c ts m' Hrun.
  eapply Forall_impl; [exact (parseFile_emitted G m path rp c ts m' Hrun)|].
  intros t Ht. exact (emitted_fields rp t Ht).
Qed.

Lemma parsed_tags_locate_their_parent_at_themselves_witness :
  let c := Parsed [ClassDeclaration (Some (1, 5)) (Some "Foo")
                     [ClassMethod (Some (2, 2)) true (Identifier "make") [];
                      ClassPrivateMethod (Some (3, 3)) "secret"
                        [Other [CallExpression (line 3) (Identifier "run") []]]]] in
  ∃ ts m',
    parseFile knownGlobals freshModule "/repo/src/util.ts" "src/util.ts" c = (Resolved ts, m')
    ∧ ts ≠ []
    ∧ Forall (fun t => filePath t = "src/util.ts"
                       ∧ text t = None
                       ∧ ∀ p, parent t = Some p ->
                              locFilePath (location p) = "src/util.ts"
                              ∧ locStartLine (location p) = startLine t) ts.
Proof.
  cbv zeta.
  destruct (parseFile knownGlobals freshModule "/repo/src/util.ts" "src/util.ts" _)
    as [[ts| |] m'] eqn:E.
  - exists ts, m'. split; [reflexivity|]. split.
    + intros ->. vm_compute in E. discriminate.
    + exact (parsed_tags_locate_their_parent_at_themselves _ _ _ _ _ ts m' E).
  - exfalso. vm_compute in E. discriminate.
  - exfalso. vm_compute in E. discriminate.
Defined.

(** X12: the scope of a tag is read from the current class of the walk.
    Statements that declare no class leave the current class as it is;
    inside them a method hangs from that class, a call that was not
    resolved to a file is filed under the function named global when no
    class is current and under a method named [C.C] when the class [C]
    is, whatever function or method the call stands in, and a call
    resolved to a file, a function or a constructor call has no parent.
    A class [C] whose body declares no class adds its own tag, walks its
    body with [C] current and leaves no class current. *)
Theorem tags_are_filed_under_the_current_class :
  ∀ G rp ns l C body w,
    forallb classFree ns = true ->
    forallb classFree body = true ->
    (let w' := traverseAll G rp ns w in
     currentClass w' = currentClass w
     ∧ ∃ new, tags w' = (tags w ++ new)%list ∧ Forall (filedUnder (currentClass w)) new)
    ∧ (let w' := traverse G rp (ClassDeclaration l (Some C) body) w in
       currentClass w' = None
       ∧ ∃ new, tags w' = (tags w ++ plainTag C "class" def rp l None None :: new)%list
                ∧ Forall (filedUnder (Some C)) new).
Proof.
  intros G rp ns l C body w Hns Hbody. cbv zeta. split.
  - apply (traverseAll_walkedUnder G rp (currentClass w) w ns Hns w).
    split; [reflexivity|]. exists []. split; [rewrite app_nil_r; reflexivity|constructor].
  - rewrite traverse_unfold. cbn [exit enter]. split; [reflexivity|].
    set (w1 := pushTag _ (setCurrentClass (Some C) w)).
    destruct (traverseAll_walkedUnder G rp (Some C) w1 body Hbody w1) as (_ & new & Ht & Hnew).
    { split; [reflexivity|]. exists []. split; [rewrite app_nil_r; reflexivity|constructor]. }
    exists new. split; [|exact Hnew].
    change (tags (setCurrentClass None (traverseAll G rp body w1)))
      with (tags (traverseAll G rp body w1)).
    rewrite Ht. simpl. rewrite <- app_assoc. reflexivity.
Qed.

Lemma tags_are_filed_under_the_current_class_witness :
  let ns := [FunctionDeclaration (Some (1, 3)) (Some "outer")
               [Other [CallExpression (line 2) (Identifier "run") []]]] in
  let body := [ClassMethod (Some (2, 4)) false (Identifier "m")
                 [Other [CallExpression (line 3) (Identifier "run") []]]] in
  let w := {| currentClass := None; tags := []; modul := freshModule |} in
  forallb classFree ns = true
  ∧ forallb classFree body = true
  ∧ map (fun t => (name t, parentName <$> parent t)) (tags (traverseAll knownGlobals "a.js" ns w))
    = [("outer", None); ("run", Some (Some "global"))]
  ∧ map (fun t => (name t, parentName <$> parent t))
      (tags (traverse knownGlobals "a.js" (ClassDeclaration (Some (1, 5)) (Some "C") body) w))
    = [("C", None); ("m", Some (Some "C")); ("run", Some (Some "C.C"))]
  ∧ (let w' := traverseAll knownGlobals "a.js" ns w in
     currentClass w' = currentClass w
     ∧ ∃ new, tags w' = (tags w ++ new)%list ∧ Forall (filedUnder (currentClass w)) new)
  ∧ (let w' := traverse knownGlobals "a.js" (ClassDeclaration (Some (1, 5)) (Some "C") body) w in
     currentClass w' = None
     ∧ ∃ new, tags w' = (tags w ++ plainTag "C" "class" def "a.js" (Some (1, 5)) None None
                                   :: new)%list
              ∧ Forall (filedUnder (Some "C")) new).
Proof.
  cbv zeta. split; [reflexivity|]. split; [reflexivity|]. split; [reflexivity|].
  split; [reflexivity|].
  exact (tags_are_filed_under_the_current_class knownGlobals "a.js"
           [FunctionDeclaration (Some (1, 3)) (Some "outer")
              [Other [CallExpression (line 2) (Identifier "run") []]]]
           (Some (1, 5)) "C"
           [ClassMethod (Some (2, 4)) false (Identifier "m")
              [Other [CallExpression (line 3) (Identifier "run") []]]]
           {| currentClass := None; tags := []; modul := freshModule |} eq_refl eq_refl).
Defined.

(** X13: whatever the repository holds, the Neo4j builder links no
    reference.  A definition is recorded under its name and one of the
    definition types, a reference is looked up under its name and one of
    the call types, so the resolver finds a definition for none: the
    finished graph has Contains edges only and no reference node, and the
    count of resolved references is zero. *)
Theorem neo4j_builder_links_no_reference :
  ∀ md5 G repo fs files m g s m',
    Neo4jBuilder.buildGraph md5 G repo fs files m = Completed (g, s, m') ->
    Forall (fun e => edgeType e = "CONTAINS") (Neo4jBuilder.getEdges g)
    ∧ (∀ k n, Neo4jBuilder.viewNodes g !! k = Some n -> isReference n = None)
    ∧ Neo4jBuilder.resolvedCount s = 0.
Proof.
  intros md5 G repo fs files m g s m' Hrun.
  exact (buildGraph_resolves_nothing md5 G repo fs files m g s m' Hrun).
Qed.

Lemma neo4j_builder_links_no_reference_witness :
  ∃ g s m',
    Neo4jBuilder.buildGraph (fun s => s) knownGlobals sampleRepo nestedTree nestedFiles
      freshModule = Completed (g, s, m')
    ∧ Forall (fun e => edgeType e = "CONTAINS") (Neo4jBuilder.getEdges g)
    ∧ (∀ k n, Neo4jBuilder.viewNodes g !! k = Some n -> isReference n = None)
    ∧ Neo4jBuilder.resolvedCount s = 0.
Proof.
  destruct (Neo4jBuilder.buildGraph (fun s => s) knownGlobals sampleRepo nestedTree nestedFiles
      freshModule) as [[[g s] m']| |] eqn:E.
  - exists g, s, m'. split; [reflexivity|].
    exact (neo4j_builder_links_no_reference (fun s => s) knownGlobals sampleRepo nestedTree
             nestedFiles freshModule g s m' E).
  - exfalso. vm_compute in E. discriminate.
  - exfalso. vm_compute in E. discriminate.
Defined.

(** X14: the in-memory builder links no reference either: whenever it
    completes, every edge its multigraph stores is a Contains edge.
    [getEdges()] does not show them: it returns [undefined] once for
    every edge. *)
Theorem code_graph_stores_contains_edges_only :
  ∀ md5 G repo fs files m g m',
    CodeGraphBuilder.buildGraph md5 G repo fs files m = Completed (g, m') ->
    Forall (fun e => edgeType e = "CONTAINS") (CodeGraphBuilder.edges g)
    ∧ CodeGraphBuilder.getEdges g = replicate (CodeGraphBuilder.numberOfEdges g) None.
Proof.
  intros md5 G repo fs files m g m' Hrun.
  split; [exact (codeGraph_resolves_nothing md5 G repo fs files m g m' Hrun)|].
  unfold CodeGraphBuilder.getEdges, CodeGraphBuilder.numberOfEdges.
  induction (CodeGraphBuilder.edges g) as [|e es IH]; [reflexivity|].
  simpl. rewrite IH. reflexivity.
Qed.

Lemma code_graph_stores_contains_edges_only_witness :
  ∃ g m',
    CodeGraphBuilder.buildGraph (fun s => s) knownGlobals sampleRepo helperTree helperFiles
      freshModule = Completed (g, m')
    ∧ CodeGraphBuilder.edges g ≠ []
    ∧ Forall (fun e => edgeType e = "CONTAINS") (CodeGraphBuilder.edges g)
    ∧ CodeGraphBuilder.getEdges g = replicate (CodeGraphBuilder.numberOfEdges g) None.
Proof.
  destruct (CodeGraphBuilder.buildGraph (fun s => s) knownGlobals sampleRepo helperTree helperFiles
              freshModule) as [[g m']| |] eqn:E.
  - exists g, m'. split; [reflexivity|]. split.
    + intros He.
      assert (Hn : match CodeGraphBuilder.buildGraph (fun s => s) knownGlobals sampleRepo
                           helperTree helperFiles freshModule with
                   | Completed (g0, _) => CodeGraphBuilder.edges g0 ≠ []
                   | _ => True
                   end) by (vm_compute; discriminate).
      rewrite E in Hn. exact (Hn He).
    + exact (code_graph_stores_contains_edges_only (fun s => s) knownGlobals sampleRepo
               helperTree helperFiles freshModule g m' E).
  - exfalso. vm_compute in E. discriminate.
  - exfalso. vm_compute in E. discriminate.
Defined.

(** X15: nothing writes the export map.  Starting from a fresh process,
    any number of files parsed one after the other, imports and exports
    included, leave the module state as it was at the start, and no tag of
    any of them names a target file.  Identifier names are taken to hold
    no [#]. *)
Theorem fresh_parser_never_names_a_target_file :
  ∀ G (files : list (string * string * FileContent)),
    forallb (fun f => wellFormedContent f.2) files = true ->
    fold_left (fun m f => (parseFile G m f.1.1 f.1.2 f.2).2) files freshModule = freshModule
    ∧ Forall (fun f => match (parseFile G freshModule f.1.1 f.1.2 f.2).1 with
                       | Resolved ts => Forall untargeted ts
                       | _ => True
                       end) files.
Proof. intros G files Hwf. exact (fresh_module_stays_fresh G files Hwf). Qed.

Lemma fresh_parser_never_names_a_target_file_witness :
  let files := [("/repo/a.ts", "a.ts", Parsed exportingProgram);
                ("/repo/b.ts", "b.ts", Parsed importingProgram)] in
  forallb (fun f => wellFormedContent f.2) files = true
  ∧ fold_left (fun m f => (parseFile knownGlobals m f.1.1 f.1.2 f.2).2) files freshModule
    = freshModule
  ∧ Forall (fun f => match (parseFile knownGlobals freshModule f.1.1 f.1.2 f.2).1 with
                     | Resolved ts => Forall untargeted ts
                     | _ => True
                     end) files.
Proof.
  cbv zeta. split; [reflexivity|].
  exact (fresh_parser_never_names_a_target_file knownGlobals
           [("/repo/a.ts", "a.ts", Parsed exportingProgram);
            ("/repo/b.ts", "b.ts", Parsed importingProgram)] eq_refl).
Defined.

(** X16: a source file met by the directory walk whose parse is rejected
    still gets its File node; it adds no definition and no reference, and
    the walk goes on with the build. *)
Theorem rejected_parse_keeps_the_file_node :
  ∀ md5 G repo segs c parent b,
    (parseFile G (Neo4jBuilder.modst b) (Path.abs (localPath repo) segs) (Path.rel segs) c).1
      = Rejected ->
    ∃ b', Neo4jBuilder.processFile md5 G repo segs c parent b = Some b'
          ∧ present (Neo4jBuilder.graph b')
              (Neo4jBuilder.fileId md5 (repoId repo) (Path.rel segs))
          ∧ Neo4jBuilder.definitions b' = Neo4jBuilder.definitions b
          ∧ Neo4jBuilder.references b' = Neo4jBuilder.references b.
Proof.
  intros md5 G repo segs c parent b Hrej.
  exact (processFile_survives_rejection md5 G repo segs c parent b Hrej).
Qed.

Lemma rejected_parse_keeps_the_file_node_witness :
  let b := Neo4jBuilder.initialBuild (fun s => s) sampleRepo freshModule in
  (parseFile knownGlobals (Neo4jBuilder.modst b) (Path.abs (localPath sampleRepo) ["bad.ts"])
     (Path.rel ["bad.ts"]) SyntaxError).1 = Rejected
  ∧ ∃ b', Neo4jBuilder.processFile (fun s => s) knownGlobals sampleRepo ["bad.ts"] SyntaxError
            (Neo4jBuilder.rootId (fun s => s) "r1") b = Some b'
          ∧ present (Neo4jBuilder.graph b')
              (Neo4jBuilder.fileId (fun s => s) (repoId sampleRepo) (Path.rel ["bad.ts"]))
          ∧ Neo4jBuilder.definitions b' = Neo4jBuilder.definitions b
          ∧ Neo4jBuilder.references b' = Neo4jBuilder.references b.
Proof.
  cbv zeta. split; [reflexivity|].
  exact (rejected_parse_keeps_the_file_node (fun s => s) knownGlobals sampleRepo ["bad.ts"]
           SyntaxError (Neo4jBuilder.rootId (fun s => s) "r1")
           (Neo4jBuilder.initialBuild (fun s => s) sampleRepo freshModule) eq_refl).
Defined.

(** X17: [extractTypeFromCaptureName] answers with one of its eight
    capture words or with unknown, never with functionCall.  So the test
    by which [extractTags] would skip ignored calls never applies: the
    tags do not depend on what [shouldIgnoreFunctionCall] answers.  Every
    tag has one of those nine types, the kind and file path that were
    passed in, a text, and neither parent nor target file, and there is at
    most one tag for each match. *)
Theorem extractTags_never_skips_an_ignored_call :
  ∀ ignored ignored' content path query k,
    extractTags ignored content path query k = extractTags ignored' content path query k
    ∧ Forall (fun t => type t ∈ "unknown" :: captureTypes
                       ∧ type t ≠ "functionCall"
                       ∧ kind t = k ∧ filePath t = path
                       ∧ parent t = None ∧ targetFile t = None ∧ is_Some (text t))
        (extractTags ignored content path query k)
    ∧ length (extractTags ignored content path query k) <= length (default [] query).
Proof.
  intros ignored ignored' content path query k. destruct query as [ms|]; cbn [extractTags].
  - split; [|split].
    + induction ms as [|m ms IH]; [reflexivity|]. csimpl.
      rewrite (extractTag_blind ignored ignored'), IH. reflexivity.
    + apply Forall_forall. intros t Ht. apply list_elem_of_omap in Ht as (m & _ & Hm).
      destruct (extractTag_spec _ _ _ _ _ _ Hm) as (_ & H1 & H2 & H3 & H4 & H5 & H6).
      repeat split; try assumption.
      intros E. rewrite E in H1. revert H1. unfold captureTypes.
      rewrite !elem_of_cons, elem_of_nil.
      intros H. repeat (destruct H as [H|H]; [discriminate|]). exact H.
    + change (length (omap (extractTag ignored content path k) ms) <= length ms).
      induction ms as [|m ms IH]; [simpl; lia|]. csimpl.
      destruct (extractTag _ _ _ _ m); simpl; lia.
  - split; [reflexivity|]. split; [constructor|simpl; lia].
Qed.

(** X18: when the in-memory builder completes, the multigraph it has
    filled holds, for every file of the list it was given, a node that
    carries data, also for a file that could not be read or parsed; no
    node of the multigraph is without data, as a node that only came into
    being as the end of an edge would be; and every edge it stores joins
    two of its nodes.  [getNodes()] does not show the data: it returns
    [undefined] once for every node. *)
Theorem code_graph_stores_data_for_every_node :
  ∀ md5 G repo fs files m g m',
    CodeGraphBuilder.buildGraph md5 G repo fs files m = Completed (g, m') ->
    (∀ segs, segs ∈ files ->
       ∃ d, CodeGraphBuilder.nodes g
              !! generateNodeId md5 (repoId repo) (Path.abs (localPath repo) segs)
            = Some (Some d))
    ∧ (∀ k v, CodeGraphBuilder.nodes g !! k = Some v -> is_Some v)
    ∧ (∀ e, e ∈ CodeGraphBuilder.edges g ->
            is_Some (CodeGraphBuilder.nodes g !! sourceId e)
            ∧ is_Some (CodeGraphBuilder.nodes g !! targetId e))
    ∧ CodeGraphBuilder.getNodes g = replicate (CodeGraphBuilder.numberOfNodes g) None.
Proof.
  intros md5 G repo fs files m g m' Hrun.
  destruct (codeGraph_data md5 G repo fs files m g m' Hrun) as [[H1 H2] H3].
  split; [exact H3|]. split; [exact H1|]. split; [exact H2|].
  unfold CodeGraphBuilder.getNodes, CodeGraphBuilder.numberOfNodes.
  rewrite <- (length_map_to_list (CodeGraphBuilder.nodes g)).
  induction (map_to_list (CodeGraphBuilder.nodes g)) as [|kn l IH]; [reflexivity|].
  simpl. rewrite IH. reflexivity.
Qed.

Lemma code_graph_stores_data_for_every_node_witness :
  ∃ g m',
    CodeGraphBuilder.buildGraph (fun s => s) knownGlobals sampleRepo twinTree
      [["twin.js"]; ["gone.ts"]] freshModule = Completed (g, m')
    ∧ (∀ segs, segs ∈ [["twin.js"]; ["gone.ts"]] ->
         ∃ d, CodeGraphBuilder.nodes g
                !! generateNodeId (fun s => s) (repoId sampleRepo)
                     (Path.abs (localPath sampleRepo) segs)
              = Some (Some d))
    ∧ (∀ k v, CodeGraphBuilder.nodes g !! k = Some v -> is_Some v)
    ∧ (∀ e, e ∈ CodeGraphBuilder.edges g ->
            is_Some (CodeGraphBuilder.nodes g !! sourceId e)
            ∧ is_Some (CodeGraphBuilder.nodes g !! targetId e))
    ∧ CodeGraphBuilder.getNodes g = replicate (CodeGraphBuilder.numberOfNodes g) None.
Proof.
  destruct (CodeGraphBuilder.buildGraph (fun s => s) knownGlobals sampleRepo twinTree
              [["twin.js"]; ["gone.ts"]] freshModule) as [[g m']| |] eqn:E.
  - exists g, m'. split; [reflexivity|].
    exact (code_graph_stores_data_for_every_node (fun s => s) knownGlobals sampleRepo twinTree
             [["twin.js"]; ["gone.ts"]] freshModule g m' E).
  - exfalso. vm_compute in E. discriminate.
  - exfalso. vm_compute in E. discriminate.
Defined.

(** X19: the graph the Neo4j builder hands over reaches the database
    whole.  On a connected service whose statements all resolve,
    [storeGraph] on the finished graph resolves; the nodes it sends are
    what [getNodes()] returns, in that order, as many as
    [numberOfNodes()] says, each under an id of its own, with the
    repository id of the build and an empty text; the relationships it
    sends are the edges of the graph in their order, all of type
    CONTAINS, and each of them starts and ends at a node that was sent. *)
Theorem built_graph_is_stored_whole :
  ∀ md5 G repo fs files m g st m' runs s,
    Neo4jBuilder.buildGraph md5 G repo fs files m = Completed (g, st, m') ->
    (∀ l q, runs l q = true) ->
    Neo4jService.driver s = true ->
    ∃ evs,
      Neo4jService.storeGraph runs (Neo4jBuilder.getNodes g) (Neo4jBuilder.getEdges g) s
        = (inl tt, {| Neo4jService.driver := true;
                      Neo4jService.log := (Neo4jService.log s ++ evs)%list |})
      ∧ concat (Neo4jService.nodesSent evs)
        = map Neo4jService.toNodeData (Neo4jBuilder.getNodes g)
      ∧ length (concat (Neo4jService.nodesSent evs)) = Neo4jBuilder.numberOfNodes g
      ∧ NoDup (map Neo4jService.dataNodeId (concat (Neo4jService.nodesSent evs)))
      ∧ Forall (fun d => Neo4jService.propText (Neo4jService.properties d) = ""
                         ∧ Neo4jService.dataRepoId d = repoId repo)
          (concat (Neo4jService.nodesSent evs))
      ∧ (∀ ty, ty ≠ "CONTAINS" -> Neo4jService.relationshipsSent ty evs = [])
      ∧ Neo4jService.relationshipsSent "CONTAINS" evs
        = map Neo4jService.toRelationshipData (Neo4jBuilder.getEdges g)
      ∧ Forall (fun rel =>
                  Neo4jService.relSourceId rel
                    ∈ map Neo4jService.dataNodeId (concat (Neo4jService.nodesSent evs))
                  ∧ Neo4jService.relTargetId rel
                    ∈ map Neo4jService.dataNodeId (concat (Neo4jService.nodesSent evs)))
          (Neo4jService.relationshipsSent "CONTAINS" evs).
Proof.
  intros md5 G repo fs files m g st m' runs s Hrun Hruns Hd.
  destruct (storeGraph_sent runs (Neo4jBuilder.getNodes g) (Neo4jBuilder.getEdges g) s Hruns Hd)
    as (evs & Hsent & Hnodes & _ & Hrels & _).
  destruct (buildGraph_storable md5 G repo fs files m g st m' Hrun) as (Hdup & Htext & Hends).
  assert (Hall : ∀ ty, filter (fun e => edgeType e = ty) (Neo4jBuilder.getEdges g)
                       = if String.eqb ty "CONTAINS" then Neo4jBuilder.getEdges g else []).
  { intros ty. apply contains_only_filter. rewrite Forall_forall in Hends.
    apply Forall_forall. intros e He.
    exact (proj1 (Hends (Neo4jService.toRelationshipData e) (list_elem_of_fmap_2 _ _ _ He))). }
  exists evs. split; [exact Hsent|]. split; [exact Hnodes|]. rewrite Hnodes. split.
  { rewrite length_map. unfold Neo4jBuilder.getNodes, Neo4jBuilder.numberOfNodes.
    rewrite length_fmap. apply length_map_to_list. }
  split; [exact Hdup|]. split; [exact Htext|]. split.
  { intros ty Hty. rewrite Hrels, Hall.
    destruct (String.eqb_spec ty "CONTAINS"); [contradiction|reflexivity]. }
  rewrite Hrels, Hall. simpl. split; [reflexivity|].
  eapply Forall_impl; [exact Hends|]. intros rel (_ & H1 & H2). split; assumption.
Qed.

Lemma built_graph_is_stored_whole_witness :
  let runs := fun (_ : list Neo4jService.Event) (_ : Neo4jService.Statement) => true in
  let s := {| Neo4jService.driver := true; Neo4jService.log := [Neo4jService.DriverCreated] |} in
  ∃ g st m',
    Neo4jBuilder.buildGraph (fun s => s) knownGlobals sampleRepo helperTree helperFiles
      freshModule = Completed (g, st, m')
    ∧ ∃ evs,
      Neo4jService.storeGraph runs (Neo4jBuilder.getNodes g) (Neo4jBuilder.getEdges g) s
        = (inl tt, {| Neo4jService.driver := true;
                      Neo4jService.log := (Neo4jService.log s ++ evs)%list |})
      ∧ concat (Neo4jService.nodesSent evs)
        = map Neo4jService.toNodeData (Neo4jBuilder.getNodes g)
      ∧ length (concat (Neo4jService.nodesSent evs)) = Neo4jBuilder.numberOfNodes g
      ∧ NoDup (map Neo4jService.dataNodeId (concat (Neo4jService.nodesSent evs)))
      ∧ Forall (fun d => Neo4jService.propText (Neo4jService.properties d) = ""
                         ∧ Neo4jService.dataRepoId d = repoId sampleRepo)
          (concat (Neo4jService.nodesSent evs))
      ∧ (∀ ty, ty ≠ "CONTAINS" -> Neo4jService.relationshipsSent ty evs = [])
      ∧ Neo4jService.relationshipsSent "CONTAINS" evs
        = map Neo4jService.toRelationshipData (Neo4jBuilder.getEdges g)
      ∧ Forall (fun rel =>
                  Neo4jService.relSourceId rel
                    ∈ map Neo4jService.dataNodeId (concat (Neo4jService.nodesSent evs))
                  ∧ Neo4jService.relTargetId rel
                    ∈ map Neo4jService.dataNodeId (concat (Neo4jService.nodesSent evs)))
          (Neo4jService.relationshipsSent "CONTAINS" evs).
Proof.
  cbv zeta.
  destruct (Neo4jBuilder.buildGraph (fun s => s) knownGlobals sampleRepo helperTree helperFiles
      freshModule) as [[[g st] m']| |] eqn:E.
  - exists g, st, m'. split; [reflexivity|].
    exact (built_graph_is_stored_whole (fun s => s) knownGlobals sampleRepo helperTree helperFiles
             freshModule g st m' (fun _ _ => true)
             {| Neo4jService.driver := true; Neo4jService.log := [Neo4jService.DriverCreated] |}
             E (fun _ _ => eq_refl) eq_refl).
  - exfalso. vm_compute in E. discriminate.
  - exfalso. vm_compute in E. discriminate.
Defined.

(** X20: [addUniqueEdge] keeps an edge list in order.  On the edges of
    one repository that hold no edge twice and no Contains edge next to
    its reverse, the list it leaves is again such a list, and it is the
    old list with at most the new edge at its end.  It answers false
    exactly when it leaves the list alone, and a second call with the same
    arguments always answers false and leaves the list alone. *)
Theorem addUniqueEdge_keeps_the_edges_tidy :
  ∀ es s t ty r,
    Forall (fun e => edgeRepoId e = r) es ->
    tidyEdges es = true ->
    let '(es1, added) := Neo4jBuilder.addUniqueEdge es s t ty r in
    tidyEdges es1 = true
    ∧ Forall (fun e => edgeRepoId e = r) es1
    ∧ es1 = (if added then es ++ [Neo4jBuilder.mkEdge s t ty r] else es)%list
    ∧ Neo4jBuilder.addUniqueEdge es1 s t ty r = (es1, false).
Proof.
  intros es s t ty r Hr Htidy. unfold Neo4jBuilder.addUniqueEdge.
  destruct (List.existsb (Neo4jBuilder.sameEdge s t ty r) es) eqn:E1.
  { rewrite E1. repeat split; assumption. }
  destruct (String.eqb ty "CONTAINS" && List.existsb (Neo4jBuilder.sameEdge t s ty r) es) eqn:E2.
  { rewrite E1, E2. repeat split; assumption. }
  split; [|split; [|split; [reflexivity|]]].
  - rewrite tidyEdges_snoc, Htidy. cbn [andb]. apply forallb_forall. intros e He.
    apply andb_true_iff. split.
    + apply negb_true_iff, bool_decide_eq_false_2. intros ->.
      assert (Hex : List.existsb (Neo4jBuilder.sameEdge s t ty r) es = true).
      { apply List.existsb_exists. eexists. split; [exact He|apply sameEdge_mkEdge]. }
      congruence.
    + apply negb_true_iff. destruct (reverseOf e _) eqn:Erev; [|reflexivity]. exfalso.
      unfold reverseOf, isContains in Erev. simpl in Erev.
      rewrite !andb_true_iff, !String.eqb_eq in Erev.
      destruct Erev as [[[[Hc Hty] Hs] Ht] _]. subst ty.
      assert (Hex : List.existsb (Neo4jBuilder.sameEdge t s "CONTAINS" r) es = true).
      { apply List.existsb_exists. exists e. split; [exact He|].
        unfold Neo4jBuilder.sameEdge. rewrite Hs, Ht, Hc.
        rewrite Forall_forall in Hr. rewrite (Hr e (proj2 (list_elem_of_In _ _) He)).
        rewrite !String.eqb_refl. reflexivity. }
      rewrite Hex in E2. discriminate.
  - apply Forall_app. split; [exact Hr|]. constructor; [reflexivity|constructor].
  - rewrite List.existsb_app. cbn [List.existsb]. rewrite sameEdge_mkEdge.
    rewrite orb_true_r. reflexivity.
Qed.

Lemma addUniqueEdge_keeps_the_edges_tidy_witness :
  let es := [Neo4jBuilder.mkEdge "root" "src" "CONTAINS" "r1"] in
  Forall (fun e => edgeRepoId e = "r1") es
  ∧ tidyEdges es = true
  ∧ Neo4jBuilder.addUniqueEdge es "src" "root" "CONTAINS" "r1" = (es, false)
  ∧ let '(es1, added) := Neo4jBuilder.addUniqueEdge es "src" "a.ts" "CONTAINS" "r1" in
    tidyEdges es1 = true
    ∧ Forall (fun e => edgeRepoId e = "r1") es1
    ∧ es1 = (if added then es ++ [Neo4jBuilder.mkEdge "src" "a.ts" "CONTAINS" "r1"] else es)%list
    ∧ Neo4jBuilder.addUniqueEdge es1 "src" "a.ts" "CONTAINS" "r1" = (es1, false).
Proof.
  cbv zeta.
  assert (Hr : Forall (fun e => edgeRepoId e = "r1")
                 [Neo4jBuilder.mkEdge "root" "src" "CONTAINS" "r1"])
    by (constructor; [reflexivity|constructor]).
  split; [exact Hr|]. split; [reflexivity|]. split; [reflexivity|].
  exact (addUniqueEdge_keeps_the_edges_tidy
           [Neo4jBuilder.mkEdge "root" "src" "CONTAINS" "r1"] "src" "a.ts" "CONTAINS" "r1"
           Hr eq_refl).
Defined.

(** X21: [generateNodeId] joins the repository id and the path with a
    colon and takes the digest of the whole; nothing marks where the
    repository id ends.  Whatever the digest, the path [q] of a
    repository whose id is [r:p] gets the id of the path [p:q] of the
    repository [r]. *)
Theorem generateNodeId_reads_colons_alike :
  ∀ md5 r p q,
    generateNodeId md5 (r ++ ":" ++ p) q = generateNodeId md5 r (p ++ ":" ++ q).
Proof.
  intros md5 r p q. unfold generateNodeId. rewrite !append_assoc. reflexivity.
Qed.
